(* ===== verification/_CoqProject ===== *)
-Q . S2P
Prelude.v
Errors.v
Time.v
Bufio.v
Read.v
Write.v
VarInt.v
Wire.v
OffsetMessages.v
TopicMessages.v
GroupMessages.v
SaslMessages.v
Protocol.v
Crc32.v
Messages.v
DataRequests.v
ReadAny.v
FetchResponse.v
MessageSet.v
MessageSetAlign.v
MessageSetRead.v
RecordBatchRead.v
ReadShort.v
RecordLog.v
Conn.v
ConnDeadline.v
ConnShared.v
ConnOps.v
Dialer.v
DialTLS.v
Codecs.v
ConnSync.v
ConnData.v
Batch.v
BatchSync.v
BatchReturns.v
Balancer.v
GroupBalancer.v
PartitionWriter.v
Writer.v
WriterSystem.v
WriterSystemInv.v
WriterProgress.v
ReaderConfig.v
Commits.v
ReaderGroup.v
SubReader.v
Reader.v
Lifecycle.v
Stats.v
Reporting.v
ProtocolProps.v
MessageSetProps.v
ConnProps.v
CodecProps.v
WriterConn.v
WriterProps.v
WriterSystemProps.v
ReaderProps.v
DialerProps.v
LifecycleProps.v
FetchProps.v
FetchRecords.v
