(* ===== verification/Prelude.v ===== *)
(** * A verification of kafka-go

    kafka-go is a client of Apache Kafka.  This development models its Go code
    as Rocq functions and step machines, and proves what makes them correct.

    ** The program

    - The wire format (protocol.go, read.go, write.go, discard.go, sizeof.go,
      one file per message): integers, strings, arrays and structures are
      written to a buffered writer and read back from a buffered reader, with a
      count of the bytes left in the response that is under way.
    - Messages (message.go, crc32.go, compression.go, parts of read.go and
      write.go): message sets of the formats 1 and 2, compressed or not, that
      are produced and fetched.
    - Connections (conn.go, batch.go): a [Conn] sends requests with increasing
      correlation ids and waits for the responses; goroutines may share it.  A
      [Batch] reads the messages of a fetch response from the buffer of its
      connection.
    - The dialer (dialer.go, sasl/): addresses, TLS, authentication, the lookup
      of partitions and leaders.
    - Writers (writer.go, balancer.go): a [Writer] routes messages to one
      goroutine per partition, which groups them in batches, sends them with
      retries and answers the callers.
    - Readers (reader.go, commit.go, groupbalancer.go, rungroup.go): a
      [Reader] reads one partition, or joins a consumer group, resumes the
      partitions that it is assigned, and commits offsets.
    - Codecs (gzip/, snappy/, lz4/): the compression of message sets.
    - Time and statistics (time.go, stats.go), errors (error.go).

    ** Conventions

    Integers are [Z]; [int8] ... [int64] convert to a width with wrap-around and
    are written wherever the code computes at that width.  Bytes are
    [Byte.byte], strings are lists of bytes, a [[]byte] is an option since nil
    and empty differ in places.  Go maps are [gmap]; where the code ranges over
    one, the order is an argument, constrained to be a permutation.  Fallible
    code returns [goerror + A]; [outcome] adds divergence: a loop without an end
    or fuel that ran out.  Panics are errors [GoPanic].

    Reading functions are values of the monad [rd] (Bufio.v): a buffered reader
    is the bytes that its source still delivers, the error after them, and the
    size of the buffer, which bounds [Peek].  Operations of a connection are
    values of [cm] (Conn.v), a state monad over the record [conn]; what the
    broker sends is the content of its reader.  What the network, the clock, a
    codec, a resolver, a scheduler and the broker do is an argument or an
    event.

    ** Files

    - Prelude.v: machine integers, lengths and slices, big-endian bytes,
      tactics and hint databases.
    - Errors.v (error.go), Time.v (time.go, backoff), Bufio.v (bufio, the monad
      of reads), Read.v (read.go, discard.go), Write.v (write.go, sizeof.go),
      VarInt.v (variable-length integers), ReadAny.v (the reflective [read]).
    - Wire.v: the interfaces sizable, writable and readable as classes with
      laws: [Request] (the size is the number of bytes written), [Response]
      (reads stay in their frame), [Codec] (what is written is read back).
      OffsetMessages.v, TopicMessages.v, GroupMessages.v, SaslMessages.v: the
      messages, with an instance of each class.  Protocol.v: request headers.
    - Crc32.v (crc32.go, hash/crc32), Messages.v (message.go, produce.go,
      fetch.go), DataRequests.v (the requests that write.go writes field by
      field), FetchResponse.v (headers of fetch responses), MessageSet.v (the
      readers of message sets), with their lemmas in MessageSetAlign.v (where
      they leave the connection), MessageSetRead.v and RecordBatchRead.v (what
      they return), ReadShort.v (reads of data that was cut) and RecordLog.v
      (the record batches of a broker).
    - Conn.v ([doRequest], [waitResponse], [do]), ConnDeadline.v
      ([connDeadline]), ConnShared.v (goroutines that share a connection),
      ConnOps.v (the operations of [Conn]), Batch.v (batch.go), with lemmas in
      ConnSync.v, ConnData.v, BatchSync.v and BatchReturns.v (that the reads of
      a batch return).  Dialer.v (dialer.go, sasl/plain),
      DialTLS.v (connectTLS as a machine of two goroutines), Codecs.v (gzip/,
      snappy/, lz4/, sasl/scram).
    - Balancer.v (balancer.go), PartitionWriter.v (the type [writer]: its loop,
      its batches, its retries), Writer.v (the type [Writer], goroutine by
      goroutine), WriterSystem.v (all its goroutines as one machine, with its
      invariant in WriterSystemInv.v and its measure in WriterProgress.v),
      WriterConn.v (partition writers on their connections).
    - GroupBalancer.v (groupbalancer.go), ReaderConfig.v (the configuration),
      Commits.v (commit.go, the commit loops), ReaderGroup.v (join, sync,
      heartbeat, offsets, coordinator), SubReader.v (the type [reader] of one
      partition), Reader.v (the type [Reader] under its mutex, with the
      goroutines that [start] spawns), Lifecycle.v (handshake, run, Close, the
      loops of a generation, the readers of partitions and rungroup.go as a
      machine of goroutines that wait for brokers).
    - Stats.v (stats.go), Reporting.v ([Stats] of readers and writers, readLag).
    - ProtocolProps.v, MessageSetProps.v, CodecProps.v, ConnProps.v,
      FetchProps.v, FetchRecords.v, DialerProps.v, WriterProps.v, WriterSystemProps.v,
      ReaderProps.v, LifecycleProps.v: the properties, numbered C1 to C40, with
      a witness for each that has hypotheses (those of WriterConn.v, DialTLS.v
      and Reporting.v end these files), other theorems worth a reader's time
      (Fact), and the facts behind the flaws that modelling showed (Finding).

    ** What is shown

    - Wire format: every message is read back as it was written, sizes are the
      numbers of bytes written, requests are framed; the requests that are
      written field by field are the structures of the protocol; checksums are
      those of the format.  Variable-length integers round-trip on
      [-2^62, 2^62) and diverge outside.
    - Message sets: the readers return the messages that were written, of both
      formats, compressed ones with the offsets that the broker assigned, and
      skip those before the offset that was asked for; from the fetch response
      of a broker to the messages of a batch, a log is delivered as it was
      stored, in both formats, also when the response cuts its last record
      batch, and the connection continues behind it.  That holds of responses
      with at least one whole message or batch and a high water mark that is
      not the offset asked for, of record batches that have records, and of
      compressed payloads that fit the buffer; the others are Findings.
    - Connections: calls return what the broker answered and leave the stream
      on the next response, or the connection closed, whatever bytes arrive;
      batches do so too.  Goroutines that share a connection get the results
      they would get one after the other (a simulation of the machine of
      ConnShared.v by the sequential operations), and no schedule of theirs is
      stuck.
    - Dialer: authentication, with framed tokens or the opaque ones of brokers
      before 1.0, runs the mechanism to its end or returns the error of the
      broker or of the mechanism; lookups return the first partition listed.
    - Writers: batches are the messages in their order, within the limits;
      every message is answered once; messages go to the partition that the
      balancer chose, and partitions that come and go are followed.  In every
      interleaving of its goroutines a writer does not panic, a call that
      returned nil had its messages taken by the broker, and no goroutine waits
      forever: calls and Close return.  These need values that are not empty
      and a balancer that chooses one of the partitions (two Findings show
      why).  A batch that was answered with nil was written as one produce
      request to one connection, which received a response to it without an
      error code.
    - Codecs: snappy streams are decoded with and without the framing of
      snappy-java, and the pools of gzip and lz4 cannot be observed.
    - Readers: messages of before a change of offset are never returned after
      it, although the goroutines read the version without the mutex; commits
      are not lost and not early; the members of a group share the partitions;
      members resume at the committed offsets; a reader continues at the offset
      after the last message; Close returns once the calls to brokers that are
      in flight have ended, nothing is sent on a closed channel, and
      generations do not overlap.
    - Statistics: counters conserve what was observed under any interleaving of
      atomic operations; summaries of one goroutine report exact averages as
      long as sums fit the 53 bits of a float64.

    ** Fuel

    [V1_readMessage] and [batch_ReadMessage] have fuel for the messages they may
    skip and the nesting of compressed sets; [message_set_v1_read] and
    [compressed_set_v1_read] give amounts that are enough for what they read.
    In BatchReturns.v, when no codec is registered the bytes of the response
    bound the fuel that is needed, a result never changes with more fuel, and
    with a codec there is no bound: the loop of the code may have no end
    ([nested_forever]).
    [writeVarInt] has fuel for ten groups, the most that 64 bits have: when it
    runs out the loop of the code has no end ([varint_diverges]).  [authenticate_loop] and
    [lookup_loop] have fuel for the attempts, which their theorems bound by the
    answers of the broker; [write_on] has fuel for the configured retries, which
    is enough ([acked_on_wire]), and the loop of snappy for the bytes of its input.  Machines (writers, commit
    loops, readers, shared connections, lifecycle) run on lists of events and
    need none; termination there is a measure ([close_returns],
    [writer_finishes]) or an explicit schedule ([shared_finishes]).

    ** Not modelled

    - What the compression libraries, the SCRAM client and the handshake of TLS
      compute: they are third-party or standard packages, and arguments here.
    - The socket options of the dialer, which configure the network, and the
      functions of the package that call [DefaultDialer].  That a deadline of
      the network expires is an error of the reader.
    - Logging, and when each operation updates a statistic.
    - [LocalAddr] and [RemoteAddr] of a connection.

    The plan from here: summaries that several goroutines feed, and the
    composition of a consumer group with the brokers of several members. *)

From Stdlib Require Export ZArith Lia Strings.Byte.
From stdpp Require Export base tactics list list_numbers gmap sorting strings.

#[global] Open Scope Z_scope.

Create HintDb kafka.

(** * Machine integers *)

(** [wrapS w z] is Go's conversion of [z] to the signed type of width [w]. *)
Definition wrapS (w z : Z) : Z := (z + 2 ^ (w - 1)) mod 2 ^ w - 2 ^ (w - 1).

(** [wrapU w z] is Go's conversion of [z] to the unsigned type of width [w]. *)
Definition wrapU (w z : Z) : Z := z mod 2 ^ w.

Abbreviation int8 := (wrapS 8).
Abbreviation int16 := (wrapS 16).
Abbreviation int32 := (wrapS 32).
Abbreviation int64 := (wrapS 64).
Abbreviation uint32 := (wrapU 32).
Abbreviation uint64 := (wrapU 64).

(** [inS w z]: [z] is a value of the signed type of width [w]. *)
Definition inS (w z : Z) : Prop := - 2 ^ (w - 1) ≤ z < 2 ^ (w - 1).

Abbreviation is_int8 := (inS 8).
Abbreviation is_int16 := (inS 16).
Abbreviation is_int32 := (inS 32).
Abbreviation is_int64 := (inS 64).

#[global] Instance inS_dec w z : Decision (inS w z).
Proof. unfold inS. apply _. Defined.

Lemma pow2_double w : 0 < w → 2 ^ w = 2 * 2 ^ (w - 1).
Proof. intros H. rewrite <- Z.pow_succ_r by lia. f_equal. lia. Qed.

Lemma wrapS_range w z : 0 < w → inS w (wrapS w z).
Proof.
  intros Hw. unfold inS, wrapS. pose proof (pow2_double w Hw).
  pose proof (Z.mod_pos_bound (z + 2 ^ (w - 1)) (2 ^ w)).
  pose proof (Z.pow_pos_nonneg 2 (w - 1)). lia.
Qed.

Lemma wrapS_id w z : 0 < w → inS w z → wrapS w z = z.
Proof.
  unfold inS, wrapS. intros Hw Hz. pose proof (pow2_double w Hw).
  rewrite Z.mod_small; lia.
Qed.

Lemma wrapS_add_l w a b : wrapS w (wrapS w a + b) = wrapS w (a + b).
Proof.
  unfold wrapS. f_equal.
  replace ((a + 2 ^ (w - 1)) mod 2 ^ w - 2 ^ (w - 1) + b + 2 ^ (w - 1))
    with ((a + 2 ^ (w - 1)) mod 2 ^ w + b) by lia.
  rewrite Zplus_mod_idemp_l. f_equal. lia.
Qed.

Lemma wrapS_add_r w a b : wrapS w (a + wrapS w b) = wrapS w (a + b).
Proof. rewrite Z.add_comm, wrapS_add_l. f_equal. lia. Qed.

Lemma wrapS_wrapS w a : wrapS w (wrapS w a) = wrapS w a.
Proof. pose proof (wrapS_add_l w a 0) as H. by rewrite !Z.add_0_r in H. Qed.

Lemma wrapS_sub_l w a b : wrapS w (wrapS w a - b) = wrapS w (a - b).
Proof. apply (wrapS_add_l w a (- b)). Qed.

Lemma wrapS_sub_add_l w a b c : wrapS w (wrapS w a - b + c) = wrapS w (a - b + c).
Proof.
  replace (wrapS w a - b + c) with (wrapS w a + (c - b)) by lia.
  rewrite wrapS_add_l. f_equal. lia.
Qed.

(** A signed value is determined by its residue. *)
Lemma wrapS_mod w z : 0 < w → wrapS w (z mod 2 ^ w) = wrapS w z.
Proof. intros. unfold wrapS. by rewrite Zplus_mod_idemp_l. Qed.

Lemma wrapS_mul_l w a b : 0 < w → wrapS w (wrapS w a * b) = wrapS w (a * b).
Proof.
  intros Hw. rewrite <- (wrapS_mod w (a * b)), <- (wrapS_mod w (_ * b)) by done.
  f_equal. unfold wrapS.
  rewrite Z.mul_sub_distr_r, Zminus_mod, Zmult_mod_idemp_l, <- Zminus_mod.
  f_equal. lia.
Qed.

(** Equality at a width: a congruence for sums and differences, in which a
    conversion can be dropped. *)
Definition eqw (w a b : Z) : Prop := wrapS w a = wrapS w b.

#[global] Instance eqw_equivalence w : Equivalence (eqw w).
Proof. split; unfold eqw; repeat intro; congruence. Qed.

#[global] Instance eqw_add w : Proper (eqw w ==> eqw w ==> eqw w) Z.add.
Proof.
  unfold eqw. intros a a' Ha b b' Hb.
  by rewrite <- wrapS_add_l, Ha, wrapS_add_l, <- wrapS_add_r, Hb, wrapS_add_r.
Qed.

Lemma eqw_wrapS w a : eqw w (wrapS w a) a.
Proof. apply wrapS_wrapS. Qed.

(** [wrap_eq]: a sum computed at a width, with a wrap-around after each
    addition, equals the wrapped sum. *)
Ltac wrap_norm :=
  repeat rewrite wrapS_add_r; repeat rewrite wrapS_wrapS;
  repeat first [rewrite wrapS_add_l | rewrite wrapS_sub_l | rewrite wrapS_sub_add_l | progress rewrite <- Z.add_assoc].
Ltac wrap_setoid :=
  match goal with |- wrapS ?w ?a = wrapS ?w ?b => change (eqw w a b) end;
  rewrite !eqw_wrapS; unfold eqw; f_equal; lia.
Ltac wrap_eq := wrap_norm; solve [reflexivity | f_equal; lia | wrap_setoid].

#[export] Hint Extern 4 (inS _ _) => (unfold inS in *; lia) : kafka.

(** [dlia]: linear arithmetic with quotients and remainders by constants. *)
Ltac dlia := Z.to_euclidean_division_equations; lia.

(** * Lengths and slices with Go's [int] indices *)

(** Go's [len]. *)
Definition len {A} (l : list A) : Z := Z.of_nat (length l).

(** [l[:n]] and [l[n:]] for an index in range. *)
Definition ztake {A} (n : Z) (l : list A) : list A := take (Z.to_nat n) l.
Definition zdrop {A} (n : Z) (l : list A) : list A := drop (Z.to_nat n) l.

Section lengths.
  Context {A : Type}.
  Implicit Types l : list A.

Lemma len_nil : len (@nil A) = 0.
Proof. done. Qed.
Lemma len_cons x l : len (x :: l) = 1 + len l.
Proof. unfold len. simpl. lia. Qed.
Lemma len_app l1 l2 : len (l1 ++ l2) = len l1 + len l2.
Proof. unfold len. rewrite length_app. lia. Qed.
Lemma len_nonneg l : 0 ≤ len l.
Proof. unfold len. lia. Qed.

Lemma ztake_app l1 l2 n : n = len l1 → ztake n (l1 ++ l2) = l1.
Proof. intros ->. apply take_app_length'. unfold len. lia. Qed.
Lemma zdrop_app l1 l2 n : n = len l1 → zdrop n (l1 ++ l2) = l2.
Proof. intros ->. apply drop_app_length'. unfold len. lia. Qed.

Lemma len_ztake n l : 0 ≤ n ≤ len l → len (ztake n l) = n.
Proof. unfold len, ztake. intros. rewrite length_take. lia. Qed.
Lemma len_zdrop n l : 0 ≤ n ≤ len l → len (zdrop n l) = len l - n.
Proof. unfold len, zdrop. intros. rewrite length_drop. lia. Qed.
Lemma zdrop_0 l : zdrop 0 l = l.
Proof. done. Qed.
Lemma zdrop_all l : zdrop (len l) l = [].
Proof. unfold zdrop, len. rewrite Nat2Z.id. apply drop_all. Qed.
Lemma zdrop_zdrop n m l : 0 ≤ n → 0 ≤ m → zdrop m (zdrop n l) = zdrop (n + m) l.
Proof. intros. unfold zdrop. rewrite drop_drop. f_equal. lia. Qed.
Lemma len_map {B} (f : A → B) l : len (map f l) = len l.
Proof. unfold len. by rewrite length_map. Qed.
End lengths.

Create Rewrite HintDb len.
#[export] Hint Rewrite @len_nil @len_cons @len_app @len_map : len.
#[export] Hint Resolve len_nonneg : kafka.

(** [len_lia]: linear arithmetic over lengths. *)
Ltac len_lia := autorewrite with len in *; lia.

(** * Bytes *)

(** Go's conversion [byte(z)]. *)
Definition byte_of_Z (z : Z) : byte :=
  match Byte.of_N (Z.to_N (z mod 256)) with Some b => b | None => x00 end.

Definition Z_of_byte (b : byte) : Z := Z.of_N (Byte.to_N b).

#[global] Instance byte_eq_dec : EqDecision byte := Byte.byte_eq_dec.
#[global] Instance byte_countable : Countable byte :=
  inj_countable Byte.to_N Byte.of_N Byte.of_to_N.

Lemma Z_of_byte_range b : 0 ≤ Z_of_byte b < 256.
Proof. unfold Z_of_byte. pose proof (Byte.to_N_bounded b). lia. Qed.

Lemma Z_of_byte_of_Z z : Z_of_byte (byte_of_Z z) = z mod 256.
Proof.
  unfold Z_of_byte, byte_of_Z. pose proof (Z.mod_pos_bound z 256).
  destruct (Byte.of_N _) eqn:E.
  - apply Byte.to_of_N in E. rewrite E. lia.
  - apply Byte.of_N_None_iff in E. lia.
Qed.

Lemma byte_of_Z_of_byte b : byte_of_Z (Z_of_byte b) = b.
Proof.
  unfold byte_of_Z. rewrite Z.mod_small by apply Z_of_byte_range.
  unfold Z_of_byte. by rewrite N2Z.id, Byte.of_to_N.
Qed.

Lemma Z_of_byte_inj b1 b2 : Z_of_byte b1 = Z_of_byte b2 → b1 = b2.
Proof. intros H. by rewrite <- (byte_of_Z_of_byte b1), H, byte_of_Z_of_byte. Qed.

(** ** Big-endian integers (encoding/binary.BigEndian) *)

(** [be_put n z]: the [n] low bytes of [z], most significant first. *)
Fixpoint be_put (n : nat) (z : Z) : list byte :=
  match n with
  | O => []
  | S n => byte_of_Z (Z.shiftr z (8 * Z.of_nat n)) :: be_put n z
  end.

(** [be_get l]: the unsigned value of the bytes [l]. *)
Definition be_get (l : list byte) : Z :=
  fold_left (λ acc b, Z.lor (Z.shiftl acc 8) (Z_of_byte b)) l 0.

Lemma length_be_put n z : length (be_put n z) = n.
Proof. induction n as [|n IH]; simpl; auto. Qed.

Lemma len_be_put n z : len (be_put n z) = Z.of_nat n.
Proof. unfold len. by rewrite length_be_put. Qed.
#[export] Hint Rewrite len_be_put : len.

(** Or-ing digits that do not overlap adds them. *)
Lemma lor_low_high v x k :
  0 ≤ k → 0 ≤ v < 2 ^ k → Z.lor v (x * 2 ^ k) = v + x * 2 ^ k.
Proof.
  intros Hk Hv. assert (Z.land v (x * 2 ^ k) = 0) as Hl.
  { apply Z.bits_inj'. intros n Hn. rewrite Z.land_spec, Z.bits_0.
    destruct (decide (n < k)).
    - rewrite Z.mul_pow2_bits_low by lia. apply andb_false_r.
    - rewrite <- (Z.mod_small v (2 ^ k)), Z.mod_pow2_bits_high by lia. done. }
  rewrite <- Z.lxor_lor by done. symmetry. by apply Z.add_nocarry_lxor.
Qed.

(** The accumulation step is arithmetic: the low byte is free. *)
Lemma lor_byte a b : Z.lor (Z.shiftl a 8) (Z_of_byte b) = a * 256 + Z_of_byte b.
Proof.
  rewrite Z.shiftl_mul_pow2, Z.lor_comm, lor_low_high by
    (try apply Z_of_byte_range; lia). lia.
Qed.

Lemma be_get_acc l acc :
  fold_left (λ acc b, Z.lor (Z.shiftl acc 8) (Z_of_byte b)) l acc
  = acc * 256 ^ len l + be_get l.
Proof.
  unfold be_get. revert acc. induction l as [|b l IH]; intros acc; simpl.
  { rewrite len_nil. lia. }
  rewrite IH, (IH (Z.lor _ _)), !lor_byte, len_cons, Z.pow_add_r by (unfold len; lia).
  change (256 ^ 1) with 256. lia.
Qed.

Lemma be_get_cons b l : be_get (b :: l) = Z_of_byte b * 256 ^ len l + be_get l.
Proof. unfold be_get at 1. simpl. rewrite be_get_acc. f_equal. Qed.

Lemma be_get_put n z : be_get (be_put n z) = z mod 256 ^ Z.of_nat n.
Proof.
  induction n as [|n IH]; [by rewrite Z.mod_1_r|].
  simpl be_put. rewrite be_get_cons, Z_of_byte_of_Z, len_be_put, IH.
  rewrite Z.shiftr_div_pow2 by lia.
  replace (2 ^ (8 * Z.of_nat n)) with (256 ^ Z.of_nat n) by (by rewrite Z.pow_mul_r by lia).
  rewrite Nat2Z.inj_succ, Z.pow_succ_r, (Z.mul_comm 256) by lia.
  rewrite Z.rem_mul_r by lia. lia.
Qed.

(** Writing a signed value big-endian and reading it back at its width. *)
Lemma be_roundtrip n z :
  inS (8 * Z.of_nat n) z → n ≠ O → wrapS (8 * Z.of_nat n) (be_get (be_put n z)) = z.
Proof.
  intros Hz Hn. rewrite be_get_put.
  replace (256 ^ Z.of_nat n) with (2 ^ (8 * Z.of_nat n)) by (by rewrite Z.pow_mul_r by lia).
  rewrite wrapS_mod by lia. apply wrapS_id; [lia | done].
Qed.

(** * Maps built by successive assignments *)

(** The Go loop [for k, v := range l { m[k] = v }]. *)
Definition assign_all `{Countable K} {V} (m : gmap K V) (l : list (K * V)) : gmap K V :=
  foldl (λ m kv, <[kv.1 := kv.2]> m) m l.

Lemma assign_all_union `{Countable K} {V} (m : gmap K V) l :
  NoDup l.*1 → assign_all m l = list_to_map l ∪ m.
Proof.
  unfold assign_all. revert m. induction l as [|[k v] l IH]; intros m Hn.
  { rewrite list_to_map_nil. by rewrite map_empty_union. }
  rewrite fmap_cons, NoDup_cons in Hn. destruct Hn as [Hk Hn].
  cbn [foldl fst snd]. rewrite IH by done. rewrite list_to_map_cons.
  rewrite <- insert_union_l, <- insert_union_r; [done|]. by apply not_elem_of_list_to_map_1.
Qed.

(** Assigning the entries of a map in any order gives the map. *)
Lemma assign_all_order `{Countable K} {V} (m : gmap K V) l :
  l ≡ₚ map_to_list m → assign_all ∅ l = m.
Proof.
  intros Hl. assert (NoDup l.*1) as Hn.
  { rewrite Hl. apply NoDup_fst_map_to_list. }
  rewrite assign_all_union by done. rewrite map_union_empty.
  by rewrite (list_to_map_proper l (map_to_list m)), list_to_map_to_list.
Qed.

(** * Measures over the elements of a list *)

(** The sum of a measure after one element is replaced or removed. *)
Lemma sum_insert {A} (f : A → nat) i x y l :
  l !! i = Some x → (sum_list (map f (<[i := y]> l)) + f x = sum_list (map f l) + f y)%nat.
Proof.
  revert i. induction l as [|z l IH]; intros [|i] E; simplify_eq/=; [lia|]. specialize (IH i E). lia.
Qed.

Lemma sum_delete {A} (f : A → nat) i x l :
  l !! i = Some x → (sum_list (map f (delete i l)) + f x = sum_list (map f l))%nat.
Proof.
  revert i. induction l as [|z l IH]; intros [|i] E; simplify_eq/=; [lia|]. specialize (IH i E). lia.
Qed.
