(* ===== verification/Errors.v ===== *)
(** * Errors (error.go)

    The kafka error codes with their classification and texts, the Go error
    values the library produces or forwards, and the helpers that inspect
    them.  An [error] is a [goerror]; Go's [nil] is [None] where a function
    returns an [error], so the type of an optional error is [option goerror]. *)

From S2P Require Import Prelude.

(** ** Error codes: [type Error int] *)

Module Code.
Definition Unknown : Z := (-1).
Definition OffsetOutOfRange : Z := 1.
Definition InvalidMessage : Z := 2.
Definition UnknownTopicOrPartition : Z := 3.
Definition InvalidMessageSize : Z := 4.
Definition LeaderNotAvailable : Z := 5.
Definition NotLeaderForPartition : Z := 6.
Definition RequestTimedOut : Z := 7.
Definition BrokerNotAvailable : Z := 8.
Definition ReplicaNotAvailable : Z := 9.
Definition MessageSizeTooLarge : Z := 10.
Definition StaleControllerEpoch : Z := 11.
Definition OffsetMetadataTooLarge : Z := 12.
Definition NetworkException : Z := 13.
Definition GroupLoadInProgress : Z := 14.
Definition GroupCoordinatorNotAvailable : Z := 15.
Definition NotCoordinatorForGroup : Z := 16.
Definition InvalidTopic : Z := 17.
Definition RecordListTooLarge : Z := 18.
Definition NotEnoughReplicas : Z := 19.
Definition NotEnoughReplicasAfterAppend : Z := 20.
Definition InvalidRequiredAcks : Z := 21.
Definition IllegalGeneration : Z := 22.
Definition InconsistentGroupProtocol : Z := 23.
Definition InvalidGroupId : Z := 24.
Definition UnknownMemberId : Z := 25.
Definition InvalidSessionTimeout : Z := 26.
Definition RebalanceInProgress : Z := 27.
Definition InvalidCommitOffsetSize : Z := 28.
Definition TopicAuthorizationFailed : Z := 29.
Definition GroupAuthorizationFailed : Z := 30.
Definition ClusterAuthorizationFailed : Z := 31.
Definition InvalidTimestamp : Z := 32.
Definition UnsupportedSASLMechanism : Z := 33.
Definition IllegalSASLState : Z := 34.
Definition UnsupportedVersion : Z := 35.
Definition TopicAlreadyExists : Z := 36.
Definition InvalidPartitionNumber : Z := 37.
Definition InvalidReplicationFactor : Z := 38.
Definition InvalidReplicaAssignment : Z := 39.
Definition InvalidConfiguration : Z := 40.
Definition NotController : Z := 41.
Definition InvalidRequest : Z := 42.
Definition UnsupportedForMessageFormat : Z := 43.
Definition PolicyViolation : Z := 44.
Definition OutOfOrderSequenceNumber : Z := 45.
Definition DuplicateSequenceNumber : Z := 46.
Definition InvalidProducerEpoch : Z := 47.
Definition InvalidTransactionState : Z := 48.
Definition InvalidProducerIDMapping : Z := 49.
Definition InvalidTransactionTimeout : Z := 50.
Definition ConcurrentTransactions : Z := 51.
Definition TransactionCoordinatorFenced : Z := 52.
Definition TransactionalIDAuthorizationFailed : Z := 53.
Definition SecurityDisabled : Z := 54.
Definition BrokerAuthorizationFailed : Z := 55.
Definition KafkaStorageError : Z := 56.
Definition LogDirNotFound : Z := 57.
Definition SASLAuthenticationFailed : Z := 58.
Definition UnknownProducerId : Z := 59.
Definition ReassignmentInProgress : Z := 60.
Definition DelegationTokenAuthDisabled : Z := 61.
Definition DelegationTokenNotFound : Z := 62.
Definition DelegationTokenOwnerMismatch : Z := 63.
Definition DelegationTokenRequestNotAllowed : Z := 64.
Definition DelegationTokenAuthorizationFailed : Z := 65.
Definition DelegationTokenExpired : Z := 66.
Definition InvalidPrincipalType : Z := 67.
Definition NonEmptyGroup : Z := 68.
Definition GroupIdNotFound : Z := 69.
Definition FetchSessionIDNotFound : Z := 70.
Definition InvalidFetchSessionEpoch : Z := 71.
Definition ListenerNotFound : Z := 72.
Definition TopicDeletionDisabled : Z := 73.
Definition FencedLeaderEpoch : Z := 74.
Definition UnknownLeaderEpoch : Z := 75.
Definition UnsupportedCompressionType : Z := 76.
Definition OffsetNotAvailable : Z := 78.
Definition PreferredLeaderNotAvailable : Z := 80.

(** Every declared code, in the order of the declarations. *)
Definition all : list Z :=
  [Unknown; OffsetOutOfRange; InvalidMessage; UnknownTopicOrPartition;
   InvalidMessageSize; LeaderNotAvailable; NotLeaderForPartition;
   RequestTimedOut; BrokerNotAvailable; ReplicaNotAvailable;
   MessageSizeTooLarge; StaleControllerEpoch; OffsetMetadataTooLarge;
   NetworkException; GroupLoadInProgress; GroupCoordinatorNotAvailable;
   NotCoordinatorForGroup; InvalidTopic; RecordListTooLarge;
   NotEnoughReplicas; NotEnoughReplicasAfterAppend; InvalidRequiredAcks;
   IllegalGeneration; InconsistentGroupProtocol; InvalidGroupId;
   UnknownMemberId; InvalidSessionTimeout; RebalanceInProgress;
   InvalidCommitOffsetSize; TopicAuthorizationFailed;
   GroupAuthorizationFailed; ClusterAuthorizationFailed; InvalidTimestamp;
   UnsupportedSASLMechanism; IllegalSASLState; UnsupportedVersion;
   TopicAlreadyExists; InvalidPartitionNumber; InvalidReplicationFactor;
   InvalidReplicaAssignment; InvalidConfiguration; NotController;
   InvalidRequest; UnsupportedForMessageFormat; PolicyViolation;
   OutOfOrderSequenceNumber; DuplicateSequenceNumber;
   InvalidProducerEpoch; InvalidTransactionState;
   InvalidProducerIDMapping; InvalidTransactionTimeout;
   ConcurrentTransactions; TransactionCoordinatorFenced;
   TransactionalIDAuthorizationFailed; SecurityDisabled;
   BrokerAuthorizationFailed; KafkaStorageError; LogDirNotFound;
   SASLAuthenticationFailed; UnknownProducerId; ReassignmentInProgress;
   DelegationTokenAuthDisabled; DelegationTokenNotFound;
   DelegationTokenOwnerMismatch; DelegationTokenRequestNotAllowed;
   DelegationTokenAuthorizationFailed; DelegationTokenExpired;
   InvalidPrincipalType; NonEmptyGroup; GroupIdNotFound;
   FetchSessionIDNotFound; InvalidFetchSessionEpoch; ListenerNotFound;
   TopicDeletionDisabled; FencedLeaderEpoch; UnknownLeaderEpoch;
   UnsupportedCompressionType; OffsetNotAvailable;
   PreferredLeaderNotAvailable].

(** [Error.Timeout]. *)
Definition Timeout (e : Z) : bool := e =? RequestTimedOut.

(** [Error.Temporary]. *)
Definition Temporary (e : Z) : bool :=
  (e =? InvalidMessage) ||
  (e =? UnknownTopicOrPartition) ||
  (e =? LeaderNotAvailable) ||
  (e =? RequestTimedOut) ||
  (e =? NetworkException) ||
  (e =? GroupLoadInProgress) ||
  (e =? GroupCoordinatorNotAvailable) ||
  (e =? NotEnoughReplicas) ||
  (e =? NotEnoughReplicasAfterAppend) ||
  (e =? KafkaStorageError) ||
  (e =? FetchSessionIDNotFound) ||
  (e =? InvalidFetchSessionEpoch) ||
  (e =? ListenerNotFound) ||
  (e =? FencedLeaderEpoch) ||
  (e =? UnknownLeaderEpoch) ||
  (e =? OffsetNotAvailable) ||
  (e =? PreferredLeaderNotAvailable) ||
  Timeout e.

Local Open Scope string_scope.

(** [Error.Title]. *)
Definition Title (e : Z) : string :=
  if Z.eqb e Unknown then "Unknown" else
  if Z.eqb e OffsetOutOfRange then "Offset Out Of Range" else
  if Z.eqb e InvalidMessage then "Invalid Message" else
  if Z.eqb e UnknownTopicOrPartition then "Unknown Topic Or Partition" else
  if Z.eqb e InvalidMessageSize then "Invalid Message Size" else
  if Z.eqb e LeaderNotAvailable then "Leader Not Available" else
  if Z.eqb e NotLeaderForPartition then "Not Leader For Partition" else
  if Z.eqb e RequestTimedOut then "Request Timed Out" else
  if Z.eqb e BrokerNotAvailable then "Broker Not Available" else
  if Z.eqb e ReplicaNotAvailable then "Replica Not Available" else
  if Z.eqb e MessageSizeTooLarge then "Message Size Too Large" else
  if Z.eqb e StaleControllerEpoch then "Stale Controller Epoch" else
  if Z.eqb e OffsetMetadataTooLarge then "Offset Metadata Too Large" else
  if Z.eqb e NetworkException then "Network Exception" else
  if Z.eqb e GroupLoadInProgress then "Group Load In Progress" else
  if Z.eqb e GroupCoordinatorNotAvailable then "Group Coordinator Not Available" else
  if Z.eqb e NotCoordinatorForGroup then "Not Coordinator For Group" else
  if Z.eqb e InvalidTopic then "Invalid Topic" else
  if Z.eqb e RecordListTooLarge then "Record List Too Large" else
  if Z.eqb e NotEnoughReplicas then "Not Enough Replicas" else
  if Z.eqb e NotEnoughReplicasAfterAppend then "Not Enough Replicas After Append" else
  if Z.eqb e InvalidRequiredAcks then "Invalid Required Acks" else
  if Z.eqb e IllegalGeneration then "Illegal Generation" else
  if Z.eqb e InconsistentGroupProtocol then "Inconsistent Group Protocol" else
  if Z.eqb e InvalidGroupId then "Invalid Group ID" else
  if Z.eqb e UnknownMemberId then "Unknown Member ID" else
  if Z.eqb e InvalidSessionTimeout then "Invalid Session Timeout" else
  if Z.eqb e RebalanceInProgress then "Rebalance In Progress" else
  if Z.eqb e InvalidCommitOffsetSize then "Invalid Commit Offset Size" else
  if Z.eqb e TopicAuthorizationFailed then "Topic Authorization Failed" else
  if Z.eqb e GroupAuthorizationFailed then "Group Authorization Failed" else
  if Z.eqb e ClusterAuthorizationFailed then "Cluster Authorization Failed" else
  if Z.eqb e InvalidTimestamp then "Invalid Timestamp" else
  if Z.eqb e UnsupportedSASLMechanism then "Unsupported SASL Mechanism" else
  if Z.eqb e IllegalSASLState then "Illegal SASL State" else
  if Z.eqb e UnsupportedVersion then "Unsupported Version" else
  if Z.eqb e TopicAlreadyExists then "Topic Already Exists" else
  if Z.eqb e InvalidPartitionNumber then "Invalid Partition Number" else
  if Z.eqb e InvalidReplicationFactor then "Invalid Replication Factor" else
  if Z.eqb e InvalidReplicaAssignment then "Invalid Replica Assignment" else
  if Z.eqb e InvalidConfiguration then "Invalid Configuration" else
  if Z.eqb e NotController then "Not Controller" else
  if Z.eqb e InvalidRequest then "Invalid Request" else
  if Z.eqb e UnsupportedForMessageFormat then "Unsupported For Message Format" else
  if Z.eqb e PolicyViolation then "Policy Violation" else
  if Z.eqb e OutOfOrderSequenceNumber then "Out Of Order Sequence Number" else
  if Z.eqb e DuplicateSequenceNumber then "Duplicate Sequence Number" else
  if Z.eqb e InvalidProducerEpoch then "Invalid Producer Epoch" else
  if Z.eqb e InvalidTransactionState then "Invalid Transaction State" else
  if Z.eqb e InvalidProducerIDMapping then "Invalid Producer ID Mapping" else
  if Z.eqb e InvalidTransactionTimeout then "Invalid Transaction Timeout" else
  if Z.eqb e ConcurrentTransactions then "Concurrent Transactions" else
  if Z.eqb e TransactionCoordinatorFenced then "Transaction Coordinator Fenced" else
  if Z.eqb e TransactionalIDAuthorizationFailed then "Transactional ID Authorization Failed" else
  if Z.eqb e SecurityDisabled then "Security Disabled" else
  if Z.eqb e BrokerAuthorizationFailed then "Broker Authorization Failed" else
  if Z.eqb e KafkaStorageError then "Kafka Storage Error" else
  if Z.eqb e LogDirNotFound then "Log Dir Not Found" else
  if Z.eqb e SASLAuthenticationFailed then "SASL Authentication Failed" else
  if Z.eqb e UnknownProducerId then "Unknown Producer ID" else
  if Z.eqb e ReassignmentInProgress then "Reassignment In Progress" else
  if Z.eqb e DelegationTokenAuthDisabled then "Delegation Token Auth Disabled" else
  if Z.eqb e DelegationTokenNotFound then "Delegation Token Not Found" else
  if Z.eqb e DelegationTokenOwnerMismatch then "Delegation Token Owner Mismatch" else
  if Z.eqb e DelegationTokenRequestNotAllowed then "Delegation Token Request Not Allowed" else
  if Z.eqb e DelegationTokenAuthorizationFailed then "Delegation Token Authorization Failed" else
  if Z.eqb e DelegationTokenExpired then "Delegation Token Expired" else
  if Z.eqb e InvalidPrincipalType then "Invalid Principal Type" else
  if Z.eqb e NonEmptyGroup then "Non Empty Group" else
  if Z.eqb e GroupIdNotFound then "Group ID Not Found" else
  if Z.eqb e FetchSessionIDNotFound then "Fetch Session ID Not Found" else
  if Z.eqb e InvalidFetchSessionEpoch then "Invalid Fetch Session Epoch" else
  if Z.eqb e ListenerNotFound then "Listener Not Found" else
  if Z.eqb e TopicDeletionDisabled then "Topic Deletion Disabled" else
  if Z.eqb e FencedLeaderEpoch then "Fenced Leader Epoch" else
  if Z.eqb e UnknownLeaderEpoch then "Unknown Leader Epoch" else
  if Z.eqb e UnsupportedCompressionType then "Unsupported Compression Type" else
  if Z.eqb e OffsetNotAvailable then "Offset Not Available" else
  if Z.eqb e PreferredLeaderNotAvailable then "Preferred Leader not available" else
  EmptyString.

(** [Error.Description]. *)
Definition Description (e : Z) : string :=
  if Z.eqb e Unknown then "an unexpected server error occurred" else
  if Z.eqb e OffsetOutOfRange then "the requested offset is outside the range of offsets maintained by the server for the given topic/partition" else
  if Z.eqb e InvalidMessage then "the message contents does not match its CRC" else
  if Z.eqb e UnknownTopicOrPartition then "the request is for a topic or partition that does not exist on this broker" else
  if Z.eqb e InvalidMessageSize then "the message has a negative size" else
  if Z.eqb e LeaderNotAvailable then "the cluster is in the middle of a leadership election and there is currently no leader for this partition and hence it is unavailable for writes" else
  if Z.eqb e NotLeaderForPartition then "the client attempted to send messages to a replica that is not the leader for some partition, the client's metadata are likely out of date" else
  if Z.eqb e RequestTimedOut then "the request exceeded the user-specified time limit in the request" else
  if Z.eqb e BrokerNotAvailable then "not a client facing error and is used mostly by tools when a broker is not alive" else
  if Z.eqb e ReplicaNotAvailable then "a replica is expected on a broker, but is not (this can be safely ignored)" else
  if Z.eqb e MessageSizeTooLarge then "the server has a configurable maximum message size to avoid unbounded memory allocation and the client attempted to produce a message larger than this maximum" else
  if Z.eqb e StaleControllerEpoch then "internal error code for broker-to-broker communication" else
  if Z.eqb e OffsetMetadataTooLarge then "the client specified a string larger than configured maximum for offset metadata" else
  if Z.eqb e GroupLoadInProgress then "the broker returns this error code for an offset fetch request if it is still loading offsets (after a leader change for that offsets topic partition), or in response to group membership requests (such as heartbeats) when group metadata is being loaded by the coordinator" else
  if Z.eqb e GroupCoordinatorNotAvailable then "the broker returns this error code for group coordinator requests, offset commits, and most group management requests if the offsets topic has not yet been created, or if the group coordinator is not active" else
  if Z.eqb e NotCoordinatorForGroup then "the broker returns this error code if it receives an offset fetch or commit request for a group that it is not a coordinator for" else
  if Z.eqb e InvalidTopic then "a request which attempted to access an invalid topic (e.g. one which has an illegal name), or if an attempt was made to write to an internal topic (such as the consumer offsets topic)" else
  if Z.eqb e RecordListTooLarge then "a message batch in a produce request exceeds the maximum configured segment size" else
  if Z.eqb e NotEnoughReplicas then "the number of in-sync replicas is lower than the configured minimum and requiredAcks is -1" else
  if Z.eqb e NotEnoughReplicasAfterAppend then "the message was written to the log, but with fewer in-sync replicas than required." else
  if Z.eqb e InvalidRequiredAcks then "the requested requiredAcks is invalid (anything other than -1, 1, or 0)" else
  if Z.eqb e IllegalGeneration then "the generation id provided in the request is not the current generation" else
  if Z.eqb e InconsistentGroupProtocol then "the member provided a protocol type or set of protocols which is not compatible with the current group" else
  if Z.eqb e InvalidGroupId then "the group id is empty or null" else
  if Z.eqb e UnknownMemberId then "the member id is not in the current generation" else
  if Z.eqb e InvalidSessionTimeout then "the requested session timeout is outside of the allowed range on the broker" else
  if Z.eqb e RebalanceInProgress then "the coordinator has begun rebalancing the group, the client should rejoin the group" else
  if Z.eqb e InvalidCommitOffsetSize then "an offset commit was rejected because of oversize metadata" else
  if Z.eqb e TopicAuthorizationFailed then "the client is not authorized to access the requested topic" else
  if Z.eqb e GroupAuthorizationFailed then "the client is not authorized to access a particular group id" else
  if Z.eqb e ClusterAuthorizationFailed then "the client is not authorized to use an inter-broker or administrative API" else
  if Z.eqb e InvalidTimestamp then "the timestamp of the message is out of acceptable range" else
  if Z.eqb e UnsupportedSASLMechanism then "the broker does not support the requested SASL mechanism" else
  if Z.eqb e IllegalSASLState then "the request is not valid given the current SASL state" else
  if Z.eqb e UnsupportedVersion then "the version of API is not supported" else
  if Z.eqb e TopicAlreadyExists then "a topic with this name already exists" else
  if Z.eqb e InvalidPartitionNumber then "the number of partitions is invalid" else
  if Z.eqb e InvalidReplicationFactor then "the replication-factor is invalid" else
  if Z.eqb e InvalidReplicaAssignment then "the replica assignment is invalid" else
  if Z.eqb e InvalidConfiguration then "the configuration is invalid" else
  if Z.eqb e NotController then "this is not the correct controller for this cluster" else
  if Z.eqb e InvalidRequest then "this most likely occurs because of a request being malformed by the client library or the message was sent to an incompatible broker, se the broker logs for more details" else
  if Z.eqb e UnsupportedForMessageFormat then "the message format version on the broker does not support the request" else
  if Z.eqb e PolicyViolation then "the request parameters do not satisfy the configured policy" else
  if Z.eqb e OutOfOrderSequenceNumber then "the broker received an out of order sequence number" else
  if Z.eqb e DuplicateSequenceNumber then "the broker received a duplicate sequence number" else
  if Z.eqb e InvalidProducerEpoch then "the producer attempted an operation with an old epoch, either there is a newer producer with the same transactional ID, or the producer's transaction has been expired by the broker" else
  if Z.eqb e InvalidTransactionState then "the producer attempted a transactional operation in an invalid state" else
  if Z.eqb e InvalidProducerIDMapping then "the producer attempted to use a producer id which is not currently assigned to its transactional ID" else
  if Z.eqb e InvalidTransactionTimeout then "the transaction timeout is larger than the maximum value allowed by the broker (as configured by max.transaction.timeout.ms)" else
  if Z.eqb e ConcurrentTransactions then "the producer attempted to update a transaction while another concurrent operation on the same transaction was ongoing" else
  if Z.eqb e TransactionCoordinatorFenced then "the transaction coordinator sending a WriteTxnMarker is no longer the current coordinator for a given producer" else
  if Z.eqb e TransactionalIDAuthorizationFailed then "the transactional ID authorization failed" else
  if Z.eqb e SecurityDisabled then "the security features are disabled" else
  if Z.eqb e BrokerAuthorizationFailed then "the broker authorization failed" else
  if Z.eqb e KafkaStorageError then "disk error when trying to access log file on the disk" else
  if Z.eqb e LogDirNotFound then "the user-specified log directory is not found in the broker config" else
  if Z.eqb e SASLAuthenticationFailed then "SASL Authentication failed" else
  if Z.eqb e UnknownProducerId then "the broker could not locate the producer metadata associated with the producer ID" else
  if Z.eqb e ReassignmentInProgress then "a partition reassignment is in progress" else
  if Z.eqb e DelegationTokenAuthDisabled then "delegation token feature is not enabled" else
  if Z.eqb e DelegationTokenNotFound then "delegation token is not found on server" else
  if Z.eqb e DelegationTokenOwnerMismatch then "specified principal is not valid owner/renewer" else
  if Z.eqb e DelegationTokenRequestNotAllowed then "delegation token requests are not allowed on plaintext/1-way ssl channels and on delegation token authenticated channels" else
  if Z.eqb e DelegationTokenAuthorizationFailed then "delegation token authorization failed" else
  if Z.eqb e DelegationTokenExpired then "delegation token is expired" else
  if Z.eqb e InvalidPrincipalType then "supplied principaltype is not supported" else
  if Z.eqb e NonEmptyGroup then "the group is not empty" else
  if Z.eqb e GroupIdNotFound then "the group ID does not exist" else
  if Z.eqb e FetchSessionIDNotFound then "the fetch session ID was not found" else
  if Z.eqb e InvalidFetchSessionEpoch then "the fetch session epoch is invalid" else
  if Z.eqb e ListenerNotFound then "there is no listener on the leader broker that matches the listener on which metadata request was processed" else
  if Z.eqb e TopicDeletionDisabled then "topic deletion is disabled" else
  if Z.eqb e FencedLeaderEpoch then "the leader epoch in the request is older than the epoch on the broker" else
  if Z.eqb e UnknownLeaderEpoch then "the leader epoch in the request is newer than the epoch on the broker" else
  if Z.eqb e UnsupportedCompressionType then "the requesting client does not support the compression type of given partition" else
  EmptyString.
End Code.

(** ** Go error values *)

(** The error values that reach the library.  [NetErr] is a [net.Error]
    of the network stack with the answers of its [Timeout] and [Temporary]
    methods; [Errorf] is a value made by [fmt.Errorf] or by [errors.New]
    that the code never compares with anything; [GoPanic] stands for a
    run-time panic, which unwinds the call exactly as a returned error
    aborts a sequence of reads. *)
Inductive goerror : Type :=
| EOF | ErrUnexpectedEOF | ErrShortBuffer | ErrClosedPipe
| ErrBufferFull | ErrNegativeCount
| ContextCanceled | ContextDeadlineExceeded
| NetErr (timeout temporary : bool)
| KafkaError (e : Z)
| errShortRead | errUnknownCodec
| errInvalidWriteTopic | errInvalidWritePartition
| errOnlyAvailableWithGroup | errNotAvailableWithGroup
| Errorf (format : string) (arg : Z)
| GoPanic (what : string).

#[global] Instance goerror_eq_dec : EqDecision goerror.
Proof. solve_decision. Defined.

(** The dynamic type test [err.(interface { Timeout() bool })]: kafka
    errors, network errors and [context.DeadlineExceeded] have the method. *)
Definition isTimeout (err : option goerror) : bool :=
  match err with
  | Some (KafkaError e) => Code.Timeout e
  | Some (NetErr timeout _) => timeout
  | Some ContextDeadlineExceeded => true
  | _ => false
  end.

Definition isTemporary (err : option goerror) : bool :=
  match err with
  | Some (KafkaError e) => Code.Temporary e
  | Some (NetErr _ temporary) => temporary
  | Some ContextDeadlineExceeded => true
  | _ => false
  end.

(** The type test [err.(net.Error)]: the interface asks for [Error],
    [Timeout] and [Temporary], which kafka's own [Error] has as well. *)
Definition is_net_Error (err : option goerror) : bool :=
  match err with
  | Some (KafkaError _) | Some (NetErr _ _) | Some ContextDeadlineExceeded => true
  | _ => false
  end.

(** The type test [err.(Error)]. *)
Definition is_kafka_Error (err : option goerror) : bool :=
  match err with Some (KafkaError _) => true | _ => false end.

Definition silentEOF (err : option goerror) : option goerror :=
  if decide (err = Some EOF) then None else err.

Definition dontExpectEOF (err : option goerror) : option goerror :=
  if decide (err = Some EOF) then Some ErrUnexpectedEOF else err.

Fixpoint coalesceErrors (errs : list (option goerror)) : option goerror :=
  match errs with
  | [] => None
  | Some e :: _ => Some e
  | None :: errs => coalesceErrors errs
  end.

(** ** Retry classification (writer.go) *)

Definition needsReconnect (err : option goerror) : bool :=
  is_net_Error err || bool_decide (err = Some (KafkaError Code.NotLeaderForPartition)).

Definition shouldRetry (err : option goerror) (maxRetries attempts : Z) : bool :=
  if attempts >=? maxRetries then false
  else isTemporary err || needsReconnect err.

(** ** Properties *)

Lemma coalesceErrors_None errs :
  coalesceErrors errs = None ↔ Forall (λ e, e = None) errs.
Proof.
  induction errs as [|[e|] errs IH]; simpl.
  - split; auto.
  - split; [done|]. intros H. by inversion H.
  - rewrite IH. split; [by constructor|]. intros H. by inversion H.
Qed.

Lemma dontExpectEOF_not_EOF err : dontExpectEOF err ≠ Some EOF.
Proof. unfold dontExpectEOF. by case_decide. Qed.

(** [Code.Temporary] covers [Code.Timeout]. *)
Lemma Timeout_Temporary e : Code.Timeout e = true → Code.Temporary e = true.
Proof. unfold Code.Temporary. intros ->. by rewrite orb_true_r. Qed.

Definition declared (e : Z) : bool := bool_decide (e ∈ Code.all).

Lemma declared_cases (P : Z → Prop) :
  Forall P Code.all → ∀ e, declared e = true → P e.
Proof.
  intros H e. unfold declared. rewrite bool_decide_eq_true, list_elem_of_In.
  rewrite Forall_forall in H. intros; apply H. by apply list_elem_of_In.
Qed.

(** ** Outcomes

    What a Go function does: it returns a value, it returns an error (or
    panics, [GoPanic]), or it never returns. *)
Inductive outcome (A : Type) : Type :=
| Done (a : A)
| Failed (e : goerror)
| Diverged.
Arguments Done {A} a.
Arguments Failed {A} e.
Arguments Diverged {A}.

#[global] Instance outcome_ret : MRet outcome := @Done.

#[global] Instance outcome_bind : MBind outcome := λ A B f m,
  match m with
  | Done a => f a
  | Failed e => Failed e
  | Diverged => Diverged
  end.

(** A loop that may not end, and a call that may fail. *)
Definition may_diverge {A} (m : option A) : outcome A :=
  match m with Some a => Done a | None => Diverged end.

Definition may_fail {A} (m : goerror + A) : outcome A :=
  match m with inl e => Failed e | inr a => Done a end.

Lemma outcome_bind_done {A B} (f : A → outcome B) a : (Done a ≫= f) = f a.
Proof. done. Qed.

(** Injectivity without computing the values. *)
Lemma Done_inj {A} (a b : A) : Done a = Done b → a = b.
Proof. by intros [= ->]. Qed.
