(* ===== verification/Time.v ===== *)
(** * Instants, durations and timeouts (time.go, [backoff] of dialer.go)

    A [time.Time] is its number of nanoseconds since the Unix epoch, as an
    unbounded integer (the wall clock; the monotonic reading is not used by
    the code); the zero [Time], January 1 of year 1, is one of them.  A
    [time.Duration] is an int64 number of nanoseconds. *)

From S2P Require Import Prelude.

Module Time.

Definition Millisecond : Z := 1000000.
Definition Second : Z := 1000 * Millisecond.

(** The package [time]: the zero value, [UnixNano] (which wraps, see its
    documentation), [Sub] (which saturates), [Add] and [Unix]. *)
Definition zeroTime : Z := -62135596800 * Second.
Definition IsZero (t : Z) : bool := t =? zeroTime.
Definition UnixNano (t : Z) : Z := int64 t.
Definition Sub (t u : Z) : Z := Z.max (- 2 ^ 63) (Z.min (2 ^ 63 - 1) (t - u)).
Definition Add (t d : Z) : Z := t + d.
Definition Unix (sec nsec : Z) : Z := sec * Second + nsec.

Definition maxTimeout : Z := (2 ^ 31 - 1) * Millisecond.
Definition minTimeout : Z := (- 2 ^ 31) * Millisecond.
Definition defaultRTT : Z := 1 * Second.

Definition timestamp (t : Z) : Z :=
  if IsZero t then 0 else Z.quot (UnixNano t) Millisecond.

Definition timestampToTime (t : Z) : Z :=
  Unix (Z.quot t 1000) (Z.rem t 1000 * Millisecond).

Definition duration (ms : Z) : Z := int64 (ms * Millisecond).

Definition milliseconds (d : Z) : Z :=
  let d := if d >? maxTimeout then maxTimeout
           else if d <? minTimeout then minTimeout else d in
  int32 (Z.quot d Millisecond).

Definition deadlineToTimeout (deadline now : Z) : Z :=
  if IsZero deadline then maxTimeout else Sub deadline now.

Definition adjustDeadlineForRTT (deadline now rtt : Z) : Z :=
  if IsZero deadline then deadline
  else
    let timeout := Sub deadline now in
    let rtt := if timeout <? rtt then Z.quot timeout 4 else rtt in
    Add deadline (int64 (- rtt)).

(** [backoff] of dialer.go: both products are int64 products. *)
Definition backoff (attempt min max : Z) : Z :=
  let d := int64 (int64 (attempt * attempt) * min) in
  if d >? max then max else d.

(** ** Lemmas *)

Lemma quot_range a b c : 0 < c → - a * c ≤ b ≤ a * c → - a ≤ Z.quot b c ≤ a.
Proof.
  intros Hc H. split.
  - rewrite <- (Z.quot_mul (- a) c) by lia. apply Z.quot_le_mono; lia.
  - rewrite <- (Z.quot_mul a c) by lia. apply Z.quot_le_mono; lia.
Qed.

Lemma timestampToTime_nanos ms : timestampToTime ms = ms * Millisecond.
Proof.
  unfold timestampToTime, Unix, Second. pose proof (Z.quot_rem' ms 1000). nia.
Qed.

Lemma timestamp_of_nanos ms :
  - 9223372036854 ≤ ms ≤ 9223372036854 → timestamp (ms * Millisecond) = ms.
Proof.
  intros H. unfold timestamp, IsZero, zeroTime, UnixNano.
  destruct (Z.eqb_spec (ms * Millisecond) (-62135596800 * Second)) as [E|_].
  { exfalso. unfold Second, Millisecond in E. lia. }
  rewrite wrapS_id by (unfold inS, Millisecond; lia). by apply Z.quot_mul.
Qed.

End Time.

(** ** Properties *)

(** A broker timestamp of the representable range (the years 1677 to 2262)
    survives the conversion to a [Time] and back. *)
Lemma timestamp_roundtrip ms :
  - 9223372036854 ≤ ms ≤ 9223372036854 →
  Time.timestamp (Time.timestampToTime ms) = ms.
Proof. intros H. rewrite Time.timestampToTime_nanos. by apply Time.timestamp_of_nanos. Qed.

(** [milliseconds] is the truncated quotient clamped to int32, so that the
    conversion never wraps, whatever the duration. *)
Lemma milliseconds_clamp d :
  Time.milliseconds d =
    Z.max (- 2 ^ 31) (Z.min (2 ^ 31 - 1) (Z.quot d Time.Millisecond)).
Proof.
  unfold Time.milliseconds, Time.maxTimeout, Time.minTimeout.
  change Time.Millisecond with 1000000.
  destruct (Z.gtb_spec d ((2 ^ 31 - 1) * 1000000)) as [H1|H1].
  { assert (2 ^ 31 - 1 ≤ Z.quot d 1000000).
    { rewrite <- (Z.quot_mul (2 ^ 31 - 1) 1000000) by lia. apply Z.quot_le_mono; lia. }
    rewrite Z.quot_mul, wrapS_id by (unfold inS; lia). lia. }
  destruct (Z.ltb_spec d (- 2 ^ 31 * 1000000)) as [H2|H2].
  { assert (Z.quot d 1000000 ≤ - 2 ^ 31).
    { rewrite <- (Z.quot_mul (- 2 ^ 31) 1000000) by lia. apply Z.quot_le_mono; lia. }
    rewrite Z.quot_mul, wrapS_id by (unfold inS; lia). lia. }
  assert (Z.quot d 1000000 ≤ 2 ^ 31 - 1).
  { rewrite <- (Z.quot_mul (2 ^ 31 - 1) 1000000) by lia. apply Z.quot_le_mono; lia. }
  assert (- 2 ^ 31 ≤ Z.quot d 1000000).
  { rewrite <- (Z.quot_mul (- 2 ^ 31) 1000000) by lia. apply Z.quot_le_mono; lia. }
  rewrite wrapS_id by (unfold inS; lia). lia.
Qed.

(** The adjusted deadline never exceeds the deadline of an operation whose
    time has not run out, and leaves at least three quarters of the time
    that was left, less a round trip, so that it is never in the past. *)
Lemma adjustDeadline_bounds deadline now rtt :
  Time.IsZero deadline = false →
  now ≤ deadline → deadline - now < 2 ^ 63 → 0 ≤ rtt < 2 ^ 63 →
  now ≤ Time.adjustDeadlineForRTT deadline now rtt ≤ deadline ∧
  Z.min (3 * (deadline - now) / 4) (deadline - now - rtt)
    ≤ Time.adjustDeadlineForRTT deadline now rtt - now.
Proof.
  intros Hz Hn Hd Hr. unfold Time.adjustDeadlineForRTT. rewrite Hz.
  assert (Time.Sub deadline now = deadline - now) as -> by (unfold Time.Sub; lia).
  unfold Time.Add. destruct (Z.ltb_spec (deadline - now) rtt) as [H|H].
  - pose proof (Z.quot_div_nonneg (deadline - now) 4) as ->; [|lia..].
    rewrite wrapS_id by (try unfold inS; dlia). dlia.
  - rewrite wrapS_id by (try (unfold inS); lia). lia.
Qed.

(** As long as the products fit (for the 100ms base used everywhere, up to
    303700 attempts) the backoff is the quadratic delay capped by [max]. *)
Lemma backoff_quadratic attempt min max :
  0 ≤ attempt → 0 ≤ min → 0 ≤ max → attempt * attempt < 2 ^ 63 →
  attempt * attempt * min < 2 ^ 63 →
  Time.backoff attempt min max = Z.min (attempt * attempt * min) max.
Proof.
  intros. unfold Time.backoff.
  rewrite (wrapS_id 64 (attempt * attempt)) by (try unfold inS; nia).
  rewrite wrapS_id by (try unfold inS; nia).
  destruct (Z.gtb_spec (attempt * attempt * min) max); lia.
Qed.

(** One attempt more and the product wraps to a negative delay: the loops
    that never reset their attempt counter stop backing off. *)
Lemma backoff_overflows :
  Time.backoff 303700 (100 * Time.Millisecond) (1 * Time.Second) = Time.Second ∧
  Time.backoff 303701 (100 * Time.Millisecond) (1 * Time.Second) < 0.
Proof. by vm_compute. Qed.
