(* ===== verification/Bufio.v ===== *)
(** * Buffered readers and the reading monad

    [bufreader] models a [*bufio.Reader]: the bytes its source still
    delivers, the error the source reports once they are exhausted (io.EOF,
    a timeout, a connection error, ...) and the capacity of the buffer, which
    bounds [Peek].  Every reading function of the library has the shape

      func readX(r *bufio.Reader, sz int, v *T) (remain int, err error)

    where [sz] counts the bytes left in the current response.  It is a value
    of [rd T]: from the reader and [sz] to the error or the value stored in
    [v], with the new [sz] and the new reader.  The monadic bind is the idiom
    [if remain, err = readX(r, remain, &v); err != nil { return }]. *)

From S2P Require Import Prelude Errors.

Record bufreader : Type := BufReader {
  rd_data : list byte;
  rd_err : goerror;
  rd_bufsize : Z;
}.

Definition with_data (r : bufreader) (d : list byte) : bufreader :=
  BufReader d (rd_err r) (rd_bufsize r).

(** [bufio.NewReader(bytes.NewReader(b))]. *)
Definition NewReader (b : list byte) : bufreader := BufReader b EOF 4096.

(** [bufio.Reader.Peek]. *)
Definition Peek (n : Z) (r : bufreader) : list byte * option goerror :=
  if n <? 0 then ([], Some ErrNegativeCount)
  else if rd_bufsize r <? n then (ztake (rd_bufsize r) (rd_data r), Some ErrBufferFull)
  else if n <=? len (rd_data r) then (ztake n (rd_data r), None)
  else (rd_data r, Some (rd_err r)).

(** [bufio.Reader.Discard]: the number of bytes skipped, the error and
    the reader after them. *)
Definition Discard (n : Z) (r : bufreader) : Z * option goerror * bufreader :=
  if n <? 0 then (0, Some ErrNegativeCount, r)
  else if n <=? len (rd_data r) then (n, None, with_data r (zdrop n (rd_data r)))
  else (len (rd_data r), Some (rd_err r), with_data r []).

(** [io.ReadFull] into a buffer of [n] bytes. *)
Definition ReadFull (n : Z) (r : bufreader) : list byte * option goerror * bufreader :=
  if n <=? len (rd_data r)
  then (ztake n (rd_data r), None, with_data r (zdrop n (rd_data r)))
  else
    let err := if decide (rd_err r = EOF ∧ rd_data r ≠ []) then ErrUnexpectedEOF else rd_err r in
    (rd_data r, Some err, with_data r []).

(** ** The monad *)

Definition rd (A : Type) : Type := bufreader → Z → (goerror + A) * (Z * bufreader).

#[global] Instance rd_ret : MRet rd := λ A a r sz, (inr a, (sz, r)).

#[global] Instance rd_bind : MBind rd := λ A B f m r sz,
  match m r sz with
  | (inl e, s) => (inl e, s)
  | (inr a, (sz', r')) => f a r' sz'
  end.

Definition throw {A} (e : goerror) : rd A := λ r sz, (inl e, (sz, r)).

(** The current value of [sz]. *)
Definition remaining : rd Z := λ r sz, (inr sz, (sz, r)).

Definition res_of (err : option goerror) : goerror + unit :=
  match err with Some e => inl e | None => inr tt end.

(** The [n]-fold repetition of a read that keeps every value, for the loops
    [for n := int(len); n > 0; n--]. *)
Fixpoint repeatM {A} (n : nat) (m : rd A) : rd (list A) :=
  match n with
  | O => mret []
  | S n => a ← m; l ← repeatM n m; mret (a :: l)
  end.

(** ** Framing

    A read is framed when it takes from the reader exactly the bytes it
    subtracts from [sz] and never takes more than [sz]: whatever the bytes
    are and whether or not it fails, it leaves the reader on the byte that
    [sz] says, and does not touch the bytes of the next response. *)
Class Framed {A} (m : rd A) : Prop := framed : ∀ r sz res sz' r',
  m r sz = (res, (sz', r')) →
  (sz' = sz ∨ 0 ≤ sz' ≤ sz) ∧
  sz - sz' ≤ len (rd_data r) ∧
  r' = with_data r (zdrop (sz - sz') (rd_data r)).

(** ** Decoding

    [reads m bs a]: with [bs] in front of any bytes, and at least as many
    bytes left in the response, [m] returns [a] and consumes exactly [bs].
    Readers have room for 16 bytes at least, which [bufio] guarantees. *)
Definition reads {A} (m : rd A) (bs : list byte) (a : A) : Prop :=
  ∀ r sz tail, len bs ≤ sz → 16 ≤ rd_bufsize r →
    m (with_data r (bs ++ tail)) sz = (inr a, (sz - len bs, with_data r tail)).

(** ** Lemmas *)

Lemma with_data_id r : with_data r (rd_data r) = r.
Proof. by destruct r. Qed.

Lemma with_data_with_data r d1 d2 : with_data (with_data r d1) d2 = with_data r d2.
Proof. done. Qed.

Lemma with_data_0 r sz : r = with_data r (zdrop (sz - sz) (rd_data r)).
Proof. by rewrite Z.sub_diag, zdrop_0, with_data_id. Qed.

(** A read that takes nothing is framed. *)
Ltac framed_stay :=
  intros r sz res sz' r' [= <- <- <-]; split; [by left|];
  split; [pose proof (len_nonneg (rd_data r)); lia | apply with_data_0].

#[global] Instance framed_ret {A} (a : A) : Framed (mret a).
Proof. framed_stay. Qed.

#[global] Instance framed_throw {A} e : Framed (throw (A:=A) e).
Proof. framed_stay. Qed.

#[global] Instance framed_remaining : Framed remaining.
Proof. framed_stay. Qed.

#[global] Instance framed_bind {A B} (m : rd A) (f : A → rd B) :
  Framed m → (∀ a, Framed (f a)) → Framed (m ≫= f).
Proof.
  intros Hm Hf r sz res sz' r' E. unfold mbind, rd_bind in E.
  destruct (m r sz) as [[e|a] [sz1 r1]] eqn:Em.
  - injection E as <- <- <-. by eapply Hm.
  - apply Hm in Em as (Hsz1 & Hl1 & ->). apply Hf in E as (Hsz2 & Hl2 & ->).
    simpl in *. assert (0 ≤ sz - sz1) by lia.
    rewrite len_zdrop in Hl2 by (pose proof (len_nonneg (rd_data r)); lia).
    rewrite zdrop_zdrop, with_data_with_data by lia.
    split; [lia|]. split; [lia|]. do 2 f_equal. lia.
Qed.

#[global] Instance framed_if {A} (b : bool) (m1 m2 : rd A) :
  Framed m1 → Framed m2 → Framed (if b then m1 else m2).
Proof. by destruct b. Qed.

#[global] Instance framed_decide {A} P `{Decision P} (m1 m2 : rd A) :
  Framed m1 → Framed m2 → Framed (if decide P then m1 else m2).
Proof. by case_decide. Qed.

#[global] Instance framed_repeatM {A} n (m : rd A) : Framed m → Framed (repeatM n m).
Proof. intros H. induction n; simpl; apply _. Qed.

Lemma reads_ret {A} (a : A) : reads (mret a) [] a.
Proof.
  intros r sz tail Hsz _. unfold mret, rd_ret.
  by rewrite len_nil, Z.sub_0_r.
Qed.

Lemma reads_bind {A B} (m : rd A) (f : A → rd B) bs1 bs2 a b :
  reads m bs1 a → reads (f a) bs2 b → reads (m ≫= f) (bs1 ++ bs2) b.
Proof.
  intros Hm Hf r sz tail Hsz Hb. rewrite len_app in Hsz.
  pose proof (len_nonneg bs1). pose proof (len_nonneg bs2).
  unfold mbind, rd_bind. rewrite <- app_assoc, Hm, Hf by (simpl; lia).
  rewrite len_app. do 2 f_equal. lia.
Qed.

Lemma reads_bind_nil {A B} (m : rd A) (f : A → rd B) bs a b :
  reads m bs a → reads (f a) [] b → reads (m ≫= f) bs b.
Proof. intros. rewrite <- (app_nil_r bs). by eapply reads_bind. Qed.

(** Running a read on its encoding, with the count of bytes at hand. *)
Lemma reads_step {A B} (m : rd A) (f : A → rd B) bs a r sz tail :
  reads m bs a → 16 ≤ rd_bufsize r → len bs ≤ sz →
  (m ≫= f) (with_data r (bs ++ tail)) sz = f a (with_data r tail) (sz - len bs).
Proof. intros H Hb Hs. unfold mbind, rd_bind. by rewrite H. Qed.

(** Reading the concatenation of encodings. *)
Lemma reads_repeatM {A} (m : rd A) (enc : A → list byte) (norm : A → A) l :
  Forall (λ a, reads m (enc a) (norm a)) l →
  reads (repeatM (length l) m) (concat (map enc l)) (map norm l).
Proof.
  induction 1 as [|a l Ha Hl IH]; simpl; [apply reads_ret|].
  eapply reads_bind; [done|]. eapply reads_bind_nil; [done|apply reads_ret].
Qed.
