(* ===== verification/Read.v ===== *)
(** * Primitive readers (read.go, discard.go, the makeInt functions of protocol.go)

    A Go [string] is its bytes; a [[]byte] is an [option (list byte)] whose
    [None] is Go's [nil], which the protocol encodes differently from an empty
    slice.  The out-parameters of a read that fails are not modelled: no
    caller looks at them. *)

From S2P Require Import Prelude Errors Bufio.

Definition gostring : Type := list byte.
Definition bytes : Type := option (list byte).

#[global] Instance gostring_eq_dec : EqDecision gostring := _.
#[global] Instance bytes_eq_dec : EqDecision bytes := _.

(** The contents of a slice: [nil] has none. *)
Definition bdata (b : bytes) : list byte := default [] b.

(** What a slice becomes on the wire and back: [nil] and empty are one. *)
Definition bnorm (b : bytes) : bytes :=
  match b with Some [] => None | _ => b end.

(** ** protocol.go *)

Definition makeInt8 (b : list byte) : Z := int8 (Z_of_byte (hd x00 b)).
Definition makeInt16 (b : list byte) : Z := int16 (be_get (take 2 b)).
Definition makeInt32 (b : list byte) : Z := int32 (be_get (take 4 b)).
Definition makeInt64 (b : list byte) : Z := int64 (be_get (take 8 b)).

Definition expectZeroSize {A} (m : rd A) : rd A :=
  a ← m; sz ← remaining;
  if sz =? 0 then mret a
  else throw (Errorf "reading a response left %d unread bytes" sz).

(** ** discard.go *)

Definition discardN (n : Z) : rd unit := λ r sz,
  if n <=? sz then
    let '(k, err, r') := Discard n r in (res_of err, (sz - k, r'))
  else
    let '(k, err, r') := Discard sz r in
    let err := match err with None => Some errShortRead | _ => err end in
    (res_of err, (sz - k, r')).

Definition discardInt8 : rd unit := discardN 1.
Definition discardInt16 : rd unit := discardN 2.
Definition discardInt32 : rd unit := discardN 4.
Definition discardInt64 : rd unit := discardN 8.

(** ** read.go: integers *)

Definition peekRead {A} (n : Z) (f : list byte → A) : rd A := λ r sz,
  if n >? sz then (inl errShortRead, (sz, r))
  else
    match Peek n r with
    | (_, Some err) => (inl err, (sz, r))
    | (b, None) => (discardN n ≫= λ _, mret (f b)) r sz
    end.

Definition readInt8 : rd Z := peekRead 1 makeInt8.
Definition readInt16 : rd Z := peekRead 2 makeInt16.
Definition readInt32 : rd Z := peekRead 4 makeInt32.
Definition readInt64 : rd Z := peekRead 8 makeInt64.
Definition readBool : rd bool := peekRead 1 (λ b, negb (Z_of_byte (hd x00 b) =? 0)).

(** The loop of [readVarInt]: at most one iteration per byte left in the
    response, which bounds the fuel. [l] counts iterations, [v] accumulates;
    a shift by 64 or more gives 0 in Go, as it does modulo [2^64]. *)
Fixpoint readVarInt_loop (fuel : nat) (l v : Z) : rd Z :=
  match fuel with
  | O => throw (GoPanic "out of fuel")
  | S fuel =>
    b ← peekRead 1 (λ b, Z_of_byte (hd x00 b));
    let done := Z.land b 128 =? 0 in
    let v := Z.lor v (int64 (Z.shiftl (Z.land b 127) (l * 7))) in
    if done then mret v else readVarInt_loop fuel (l + 1) v
  end.

Definition zigzag_decode (v : Z) : Z := Z.lxor (Z.shiftr v 1) (- Z.land v 1).

Definition readVarInt : rd Z := λ r sz,
  (v ← readVarInt_loop (S (Z.to_nat sz)) 0 0; mret (zigzag_decode v)) r sz.

(** ** read.go: strings, byte slices and arrays *)

Definition readNewBytes (n : Z) : rd bytes := λ r sz,
  if n >? 0 then
    let '(n, shortRead) := if sz <? n then (sz, true) else (n, false) in
    if n <? 0 then (inl (GoPanic "makeslice: len out of range"), (sz, r))
    else
      let '(b, err, r') := ReadFull n r in
      let sz := sz - len b in
      match err with
      | Some e => (inl e, (sz, r'))
      | None => if shortRead : bool then (inl errShortRead, (sz, r')) else (inr (Some b), (sz, r'))
      end
  else (inr None, (sz, r)).

Definition readNewString (n : Z) : rd gostring :=
  b ← readNewBytes n; mret (bdata b).

Definition readArrayLen : rd Z := readInt32.

Definition readStringWith {A} (cb : Z → rd A) : rd A :=
  n ← readInt16; sz ← remaining;
  if n >? sz then throw errShortRead else cb n.

Definition readString : rd gostring := readStringWith readNewString.

Definition readBytesWith {A} (cb : Z → rd A) : rd A :=
  n ← readArrayLen; sz ← remaining;
  if n >? sz then throw errShortRead else cb n.

Definition readBytes : rd bytes := readBytesWith readNewBytes.

Definition discard_cb (n : Z) : rd unit :=
  if n <? 0 then mret tt else discardN n.

Definition discardString : rd unit := readStringWith discard_cb.
Definition discardBytes : rd unit := readBytesWith discard_cb.

Definition readArrayWith {A} (cb : rd A) : rd (list A) :=
  n ← readInt32; repeatM (Z.to_nat n) cb.

Definition readStringArray : rd (list gostring) := readArrayWith readString.

(** [readMapStringInt32]: the entries in the order they were read; a
    repeated key overwrites the earlier entry, as [content[key] = values]. *)
Definition readMapStringInt32 : rd (gmap gostring (list Z)) :=
  l ← readArrayWith (k ← readString; vs ← readArrayWith readInt32; mret (k, vs));
  mret (assign_all ∅ l).

(** ** Framing of the primitives *)

#[global] Instance framed_discardN n : Framed (discardN n).
Proof.
  intros r sz res sz' r'. unfold discardN, Discard.
  pose proof (len_nonneg (rd_data r)) as Hl.
  repeat case_match; intros; simplify_eq/=;
    repeat match goal with
    | H : (_ <? _) = true |- _ => apply Z.ltb_lt in H
    | H : (_ <? _) = false |- _ => apply Z.ltb_ge in H
    | H : (_ <=? _) = true |- _ => apply Z.leb_le in H
    | H : (_ <=? _) = false |- _ => apply Z.leb_gt in H
    end;
    (split; [lia|split; [lia|]]); simpl;
    rewrite ?Z.sub_0_r; try apply with_data_0;
    match goal with |- _ = with_data _ (zdrop ?k _) =>
      first [ replace k with (len (rd_data r)) by lia; by rewrite zdrop_all
            | f_equal; f_equal; lia ] end.
Qed.

#[global] Instance framed_peekRead {A} n (f : list byte → A) : Framed (peekRead n f).
Proof.
  intros r sz res sz' r'. unfold peekRead.
  destruct (n >? sz); [by apply framed_throw|].
  destruct (Peek n r) as [b [e|]]; [by apply (framed_throw e)|]. by apply framed_bind; apply _.
Qed.

#[global] Instance framed_readInt8 : Framed readInt8 := framed_peekRead _ _.
#[global] Instance framed_readInt16 : Framed readInt16 := framed_peekRead _ _.
#[global] Instance framed_readInt32 : Framed readInt32 := framed_peekRead _ _.
#[global] Instance framed_readInt64 : Framed readInt64 := framed_peekRead _ _.
#[global] Instance framed_readBool : Framed readBool := framed_peekRead _ _.
#[global] Instance framed_readArrayLen : Framed readArrayLen := framed_peekRead _ _.

#[global] Instance framed_readVarInt_loop fuel l v : Framed (readVarInt_loop fuel l v).
Proof. revert l v. induction fuel as [|fuel IH]; intros; simpl; apply _. Qed.

#[global] Instance framed_readVarInt : Framed readVarInt.
Proof.
  intros r sz. unfold readVarInt.
  apply (framed_bind (readVarInt_loop (S (Z.to_nat sz)) 0 0)
           (λ v, mret (zigzag_decode v))); apply _.
Qed.

#[global] Instance framed_readNewBytes n : Framed (readNewBytes n).
Proof.
  intros r sz res sz' r'. unfold readNewBytes, ReadFull.
  pose proof (len_nonneg (rd_data r)) as Hl.
  destruct (Z.gtb_spec n 0); [|by apply framed_ret].
  destruct (if sz <? n then _ else _) as [k short] eqn:Ek.
  assert (k ≤ sz ∧ (short = true → k = sz)) as [Hk _].
  { destruct (Z.ltb_spec sz n); injection Ek as <- <-; lia. }
  destruct (Z.ltb_spec k 0); [by apply framed_throw|].
  destruct (Z.leb_spec k (len (rd_data r))).
  - rewrite len_ztake by lia. intros E.
    assert (sz' = sz - k ∧ r' = with_data r (zdrop k (rd_data r))) as [-> ->]
      by (destruct short; by simplify_eq).
    split; [lia|split; [lia|]]. do 2 f_equal. lia.
  - intros E. simplify_eq. split; [lia|split; [lia|]].
    replace (sz - (sz - len (rd_data r))) with (len (rd_data r)) by lia.
    by rewrite zdrop_all.
Qed.

#[global] Instance framed_readNewString n : Framed (readNewString n) := _.

#[global] Instance framed_readStringWith {A} (cb : Z → rd A) :
  (∀ n, Framed (cb n)) → Framed (readStringWith cb).
Proof. intros. unfold readStringWith. apply _. Qed.

#[global] Instance framed_readBytesWith {A} (cb : Z → rd A) :
  (∀ n, Framed (cb n)) → Framed (readBytesWith cb).
Proof. intros. unfold readBytesWith. apply _. Qed.

#[global] Instance framed_discard_cb n : Framed (discard_cb n).
Proof. unfold discard_cb. apply _. Qed.

#[global] Instance framed_readString : Framed readString := _.
#[global] Instance framed_readBytes : Framed readBytes := _.
#[global] Instance framed_discardString : Framed discardString := _.
#[global] Instance framed_discardBytes : Framed discardBytes := _.

#[global] Instance framed_readArrayWith {A} (cb : rd A) : Framed cb → Framed (readArrayWith cb).
Proof. intros. unfold readArrayWith. apply _. Qed.

#[global] Instance framed_readStringArray : Framed readStringArray := _.
#[global] Instance framed_readMapStringInt32 : Framed readMapStringInt32.
Proof. unfold readMapStringInt32. apply _. Qed.

#[global] Instance framed_expectZeroSize {A} (m : rd A) : Framed m → Framed (expectZeroSize m).
Proof. intros. unfold expectZeroSize. apply _. Qed.

(** ** Decoding with the primitives *)

Lemma reads_peekRead {A} n (f : list byte → A) bs :
  len bs = n → n ≤ 16 → reads (peekRead n f) bs (f bs).
Proof.
  intros Hn H16 r sz tail Hsz Hb. pose proof (len_nonneg bs). pose proof (len_nonneg tail).
  unfold peekRead, Peek. rewrite Z.gtb_ltb. simpl.
  rewrite (proj2 (Z.ltb_ge sz n)), (proj2 (Z.ltb_ge n 0)), (proj2 (Z.ltb_ge _ n)),
    (proj2 (Z.leb_le n _)) by len_lia.
  unfold mbind, rd_bind, discardN, Discard. simpl.
  rewrite (proj2 (Z.leb_le n sz)), (proj2 (Z.ltb_ge n 0)), (proj2 (Z.leb_le n _)) by len_lia.
  simpl. unfold mret, rd_ret. rewrite zdrop_app, ztake_app by done. by rewrite <- Hn.
Qed.

Lemma reads_remaining_bind {A} (f : Z → rd A) bs a :
  (∀ sz, len bs ≤ sz → reads (f sz) bs a) → reads (remaining ≫= f) bs a.
Proof. intros H r sz tail Hsz Hb. by apply H. Qed.

Lemma reads_readNewBytes bs :
  reads (readNewBytes (len bs)) bs (bnorm (Some bs)).
Proof.
  intros r sz tail Hsz Hb. unfold readNewBytes.
  pose proof (len_nonneg bs). pose proof (len_nonneg tail).
  destruct bs as [|b bs']; [by rewrite len_nil, Z.sub_0_r|].
  set (bs := b :: bs') in *.
  assert (0 < len bs) by (pose proof (len_nonneg bs'); unfold bs; len_lia).
  rewrite (proj2 (Z.gtb_lt _ _)), (proj2 (Z.ltb_ge sz _)), (proj2 (Z.ltb_ge _ 0)) by lia.
  unfold ReadFull. cbn [with_data rd_data].
  rewrite (proj2 (Z.leb_le (len bs) (len (bs ++ tail)))) by (rewrite len_app; lia).
  by rewrite ztake_app, zdrop_app.
Qed.

Lemma reads_readNewString bs : reads (readNewString (len bs)) bs bs.
Proof.
  unfold readNewString. eapply reads_bind_nil; [apply reads_readNewBytes|].
  destruct bs; apply reads_ret.
Qed.
