(* ===== verification/Write.v ===== *)
(** * Primitive writers and sizes (write.go, sizeof.go)

    A function [writeX(w, v)] is modelled by the bytes it appends to the
    buffered writer: [bufio.Writer] keeps the order of the bytes, and a failure
    of the connection is sticky and reported by [Flush] only.  Sizes are int32
    computations that wrap where Go's do. *)

From S2P Require Import Prelude Errors Bufio Read.

(** ** write.go: integers *)

Definition writeInt8 (i : Z) : list byte := [byte_of_Z i].
Definition writeInt16 (i : Z) : list byte := be_put 2 i.
Definition writeInt32 (i : Z) : list byte := be_put 4 i.
Definition writeInt64 (i : Z) : list byte := be_put 8 i.

Definition zigzag_encode (i : Z) : Z := Z.lxor (int64 (Z.shiftl i 1)) (Z.shiftr i 63).

(** The loop of [writeVarInt]; [None] is a loop that has not ended within
    the fuel.  It either ends within ten iterations or never does, see
    [writeVarInt_terminates] and [writeVarInt_diverges]. *)
Fixpoint writeVarInt_loop (fuel : nat) (i : Z) : option (list byte) :=
  match fuel with
  | O => None
  | S fuel =>
    if Z.land i 127 =? i then Some [byte_of_Z i]
    else
      bs ← writeVarInt_loop fuel (Z.shiftr i 7);
      Some (byte_of_Z (Z.lor (Z.land i 127) 128) :: bs)
  end.

Definition writeVarInt (i : Z) : option (list byte) :=
  writeVarInt_loop 10 (zigzag_encode i).

Fixpoint varIntLen_loop (fuel : nat) (i l : Z) : option Z :=
  match fuel with
  | O => None
  | S fuel =>
    if Z.land i 127 =? i then Some (l + 1)
    else varIntLen_loop fuel (Z.shiftr i 7) (l + 1)
  end.

Definition varIntLen (i : Z) : option Z := varIntLen_loop 10 (zigzag_encode i) 0.

(** ** write.go: strings, byte slices and arrays *)

Definition writeString (s : gostring) : list byte := writeInt16 (int16 (len s)) ++ s.

Definition writeBytes (b : bytes) : list byte :=
  let n := match b with None => -1 | Some b => len b end in
  writeInt32 (int32 n) ++ bdata b.

Definition writeBool (b : bool) : list byte := writeInt8 (if b then 1 else 0).

Definition writeArrayLen (n : Z) : list byte := writeInt32 (int32 n).

Definition writeArray {A} (f : A → list byte) (l : list A) : list byte :=
  writeArrayLen (len l) ++ concat (map f l).

Definition writeStringArray (a : list gostring) : list byte := writeArray writeString a.
Definition writeInt32Array (a : list Z) : list byte := writeArray writeInt32 a.

(** ** sizeof.go *)

Definition sizeofInt8 (_ : Z) : Z := 1.
Definition sizeofInt16 (_ : Z) : Z := 2.
Definition sizeofInt32 (_ : Z) : Z := 4.
Definition sizeofInt64 (_ : Z) : Z := 8.
Definition sizeofBool (_ : bool) : Z := 1.
Definition sizeofString (s : gostring) : Z := int32 (2 + int32 (len s)).
Definition sizeofBytes (b : bytes) : Z := int32 (4 + int32 (len (bdata b))).

Definition sizeofArray {A} (f : A → Z) (l : list A) : Z :=
  fold_left (λ s a, int32 (s + f a)) l 4.

Definition sizeofInt32Array (a : list Z) : Z := int32 (4 + int32 (4 * int32 (len a))).
Definition sizeofStringArray (a : list gostring) : Z := sizeofArray sizeofString a.

(** ** The dynamically typed [write] and [sizeof]

    [AWritable] is a value of the interfaces [writable] and [sizable], given
    by what its methods return; [AOther] is a value of any other type, for
    which both functions panic ([None]). *)
Inductive any : Type :=
| AInt8 (i : Z) | AInt16 (i : Z) | AInt32 (i : Z) | AInt64 (i : Z)
| AString (s : gostring) | ABool (b : bool) | ABytes (b : bytes)
| AWritable (size : Z) (bs : list byte)
| AOther.

Definition write (a : any) : option (list byte) :=
  match a with
  | AInt8 i => Some (writeInt8 i)
  | AInt16 i => Some (writeInt16 i)
  | AInt32 i => Some (writeInt32 i)
  | AInt64 i => Some (writeInt64 i)
  | AString s => Some (writeString s)
  | ABytes b => Some (writeBytes b)
  | ABool b => Some (writeBool b)
  | AWritable _ bs => Some bs
  | AOther => None
  end.

Definition sizeof (a : any) : option Z :=
  match a with
  | AInt8 _ => Some 1
  | AInt16 _ => Some 2
  | AInt32 _ => Some 4
  | AInt64 _ => Some 8
  | AString s => Some (sizeofString s)
  | ABool _ => Some 1
  | ABytes b => Some (sizeofBytes b)
  | AWritable size _ => Some size
  | AOther => None
  end.

(** ** Lengths of the encodings *)

Lemma len_writeInt8 i : len (writeInt8 i) = 1.
Proof. done. Qed.
Lemma len_writeInt16 i : len (writeInt16 i) = 2.
Proof. apply len_be_put. Qed.
Lemma len_writeInt32 i : len (writeInt32 i) = 4.
Proof. apply len_be_put. Qed.
Lemma len_writeInt64 i : len (writeInt64 i) = 8.
Proof. apply len_be_put. Qed.
Lemma len_writeBool b : len (writeBool b) = 1.
Proof. done. Qed.
#[export] Hint Rewrite len_writeInt8 len_writeInt16 len_writeInt32 len_writeInt64 len_writeBool : len.

Lemma len_writeString s : len (writeString s) = 2 + len s.
Proof. unfold writeString. len_lia. Qed.
Lemma len_writeBytes b : len (writeBytes b) = 4 + len (bdata b).
Proof. unfold writeBytes. len_lia. Qed.
Lemma len_writeArrayLen n : len (writeArrayLen n) = 4.
Proof. apply len_writeInt32. Qed.
#[export] Hint Rewrite len_writeString len_writeBytes len_writeArrayLen : len.

Lemma len_writeArray {A} (f : A → list byte) l :
  len (writeArray f l) = 4 + len (concat (map f l)).
Proof. unfold writeArray. len_lia. Qed.
#[export] Hint Rewrite @len_writeArray : len.

(** A size is right when it is the length of the encoding, at int32. *)
Lemma sizeofString_ok s : sizeofString s = int32 (len (writeString s)).
Proof. unfold sizeofString. autorewrite with len. wrap_eq. Qed.

Lemma sizeofBytes_ok b : sizeofBytes b = int32 (len (writeBytes b)).
Proof. unfold sizeofBytes. autorewrite with len. wrap_eq. Qed.

Lemma sizeofArray_acc {A} (f : A → Z) (g : A → list byte) l s :
  Forall (λ a, f a = int32 (len (g a))) l →
  fold_left (λ s a, int32 (s + f a)) l (int32 s) = int32 (s + len (concat (map g l))).
Proof.
  intros H. revert s. induction H as [|a l Ha Hl IH]; intros s; simpl.
  { f_equal. rewrite len_nil. lia. }
  rewrite Ha, wrapS_add_l, wrapS_add_r, IH, len_app. by rewrite Z.add_assoc.
Qed.

Lemma sizeofArray_ok {A} (f : A → Z) (g : A → list byte) l :
  Forall (λ a, f a = int32 (len (g a))) l →
  sizeofArray f l = int32 (len (writeArray g l)).
Proof.
  intros H. unfold sizeofArray. change 4 with (int32 4) at 1.
  by rewrite (sizeofArray_acc f g), len_writeArray.
Qed.

Lemma sizeofStringArray_ok a : sizeofStringArray a = int32 (len (writeStringArray a)).
Proof. apply sizeofArray_ok. apply Forall_true. intros. apply sizeofString_ok. Qed.

Lemma len_concat_const {A} (f : A → list byte) k l :
  (∀ a, len (f a) = k) → len (concat (map f l)) = k * len l.
Proof.
  intros H. induction l as [|a l IH]; simpl; [len_lia|].
  rewrite len_app, len_cons, H, IH. lia.
Qed.

Lemma sizeofInt32Array_ok a : sizeofInt32Array a = int32 (len (writeInt32Array a)).
Proof.
  unfold sizeofInt32Array, writeInt32Array. rewrite len_writeArray.
  rewrite (len_concat_const _ 4) by apply len_writeInt32.
  by rewrite (Z.mul_comm 4 (wrapS _ _)), wrapS_mul_l, wrapS_add_r, (Z.mul_comm _ 4) by lia.
Qed.

Create Rewrite HintDb size.
#[export] Hint Rewrite sizeofString_ok sizeofBytes_ok sizeofStringArray_ok sizeofInt32Array_ok : size.
