(* ===== verification/VarInt.v ===== *)
(** * Variable-length integers (writeVarInt and varIntLen of write.go,
      readVarInt of read.go)

    Zig-zag base-128 integers, used by the record format.  The writer ends
    exactly on the values of 63 bits, and on these the reader is its inverse
    and [varIntLen] its length. *)

From S2P Require Import Prelude Errors Bufio Read Write.

(** ** Digits *)

Lemma land127 i : Z.land i 127 = i mod 128.
Proof. apply (Z.land_ones i 7). lia. Qed.

Lemma shiftr7 i : Z.shiftr i 7 = i / 128.
Proof. by rewrite Z.shiftr_div_pow2 by lia. Qed.

Lemma land127_eqb i : (Z.land i 127 =? i) = bool_decide (0 ≤ i < 128).
Proof.
  rewrite land127. case_bool_decide.
  - rewrite Z.mod_small by lia. apply Z.eqb_refl.
  - apply Z.eqb_neq. pose proof (Z.mod_pos_bound i 128). lia.
Qed.

(** The continuation bit and the digit of a byte. *)
Lemma byte_continues b : (Z.land (Z_of_byte b) 128 =? 0) = (Z_of_byte b <? 128).
Proof. by destruct b. Qed.

Lemma byte_digit b : Z.land (Z_of_byte b) 127 = Z_of_byte b mod 128.
Proof. apply land127. Qed.

Lemma lor_continue i : Z.lor (Z.land i 127) 128 = i mod 128 + 128.
Proof.
  rewrite land127. pose proof (Z.mod_pos_bound i 128).
  change 128 with (1 * 2 ^ 7) at 2. rewrite lor_low_high by lia. lia.
Qed.

(** ** Zig-zag *)

Lemma zigzag_encode_nonneg i : 0 ≤ i < 2 ^ 62 → zigzag_encode i = 2 * i.
Proof.
  intros H. unfold zigzag_encode. rewrite Z.shiftl_mul_pow2, Z.shiftr_div_pow2 by lia.
  rewrite (Z.div_small i), Z.lxor_0_r, wrapS_id by (try unfold inS; lia). lia.
Qed.

Lemma zigzag_encode_neg i : - 2 ^ 62 ≤ i < 0 → zigzag_encode i = - 2 * i - 1.
Proof.
  intros H. unfold zigzag_encode. rewrite Z.shiftl_mul_pow2, Z.shiftr_div_pow2 by lia.
  replace (i / 2 ^ 63) with (-1) by (apply Z.div_unique with (i + 2 ^ 63); lia).
  rewrite Z.lxor_m1_r, wrapS_id by (try unfold inS; lia). unfold Z.lnot. lia.
Qed.

Lemma zigzag_encode_range i : - 2 ^ 62 ≤ i < 2 ^ 62 → 0 ≤ zigzag_encode i < 2 ^ 63.
Proof.
  intros H. destruct (decide (0 ≤ i)).
  - rewrite zigzag_encode_nonneg; lia.
  - rewrite zigzag_encode_neg; lia.
Qed.

Lemma zigzag_encode_out i :
  is_int64 i → ¬ (- 2 ^ 62 ≤ i < 2 ^ 62) → zigzag_encode i < 0.
Proof.
  unfold inS. intros Hi Ho. unfold zigzag_encode.
  rewrite Z.shiftl_mul_pow2, Z.shiftr_div_pow2 by lia.
  destruct (decide (0 ≤ i)).
  - rewrite (Z.div_small i), Z.lxor_0_r by lia. unfold wrapS.
    replace ((i * 2 ^ 1 + 2 ^ (64 - 1)) mod 2 ^ 64) with (i * 2 - 2 ^ 63)
      by (apply Z.mod_unique with 1; lia). lia.
  - replace (i / 2 ^ 63) with (-1) by (apply Z.div_unique with (i + 2 ^ 63); lia).
    rewrite Z.lxor_m1_r. unfold Z.lnot, wrapS.
    replace ((i * 2 ^ 1 + 2 ^ (64 - 1)) mod 2 ^ 64) with (i * 2 + 2 ^ 64 + 2 ^ 63)
      by (apply Z.mod_unique with (-1); lia). lia.
Qed.

Lemma zigzag_decode_encode i :
  - 2 ^ 62 ≤ i < 2 ^ 62 → zigzag_decode (zigzag_encode i) = i.
Proof.
  intros H. unfold zigzag_decode. rewrite Z.shiftr_div_pow2, (Z.land_ones _ 1) by lia.
  change (2 ^ 1) with 2. destruct (decide (0 ≤ i)).
  - rewrite zigzag_encode_nonneg by lia.
    replace (2 * i) with (i * 2) by lia. rewrite Z.div_mul, Z.mod_mul by lia. apply Z.lxor_0_r.
  - rewrite zigzag_encode_neg by lia.
    replace ((-2 * i - 1) / 2) with (- i - 1) by dlia.
    replace ((-2 * i - 1) mod 2) with 1 by dlia.
    change (- (1)) with (-1). rewrite Z.lxor_m1_r. unfold Z.lnot. lia.
Qed.

(** ** The loops *)

Lemma writeVarInt_loop_ends fuel u :
  0 ≤ u < 128 ^ Z.of_nat fuel → fuel ≠ O →
  ∃ bs, writeVarInt_loop fuel u = Some bs ∧ (length bs ≤ fuel)%nat.
Proof.
  revert u. induction fuel as [|fuel IH]; [done|]. intros u Hu _. simpl.
  rewrite land127_eqb. case_bool_decide as Hs; [by exists [byte_of_Z u]; simpl; split; [|lia]|].
  rewrite Nat2Z.inj_succ, Z.pow_succ_r in Hu by lia.
  destruct (IH (Z.shiftr u 7)) as (bs & -> & Hl).
  - rewrite shiftr7. split; [apply Z.div_pos; lia|]. apply Z.div_lt_upper_bound; lia.
  - intros ->. simpl in Hu. lia.
  - eexists. split; [done|]. simpl. lia.
Qed.

Lemma writeVarInt_loop_neg fuel i : i < 0 → writeVarInt_loop fuel i = None.
Proof.
  revert i. induction fuel as [|fuel IH]; intros i Hi; simpl; [done|].
  rewrite land127_eqb, bool_decide_false by lia. rewrite IH; [done|].
  rewrite shiftr7. apply Z.div_lt_upper_bound; lia.
Qed.

Lemma varIntLen_loop_length fuel i l :
  varIntLen_loop fuel i l = (λ bs, l + len bs) <$> writeVarInt_loop fuel i.
Proof.
  revert i l. induction fuel as [|fuel IH]; intros i l; simpl; [done|].
  destruct (_ =? _); [done|]. rewrite IH.
  destruct (writeVarInt_loop fuel _); simpl; [|done]. f_equal. rewrite len_cons. lia.
Qed.

(** One byte read by the loop: the accumulator gains its digit at place
    [l], and the loop goes on when the continuation bit is set. *)
Lemma readVarInt_loop_step fuel l v x b bs w :
  0 ≤ l → 0 ≤ v < 2 ^ (7 * l) → 0 ≤ x → x * 2 ^ (7 * l) < 2 ^ 63 →
  Z_of_byte b mod 128 = x →
  reads (if Z_of_byte b <? 128 then mret (v + x * 2 ^ (7 * l))
         else readVarInt_loop fuel (l + 1) (v + x * 2 ^ (7 * l))) bs w →
  reads (readVarInt_loop (S fuel) l v) (b :: bs) w.
Proof.
  intros Hl Hv Hx Hr Hb Hbs. simpl. change (b :: bs) with ([b] ++ bs).
  eapply reads_bind; [by apply reads_peekRead|]. simpl hd.
  rewrite byte_continues, byte_digit, Hb, Z.shiftl_mul_pow2, (Z.mul_comm l 7) by lia.
  assert (0 < 2 ^ (7 * l)) by (apply Z.pow_pos_nonneg; lia).
  rewrite wrapS_id, lor_low_high by (try unfold inS; nia). done.
Qed.

(** The reader accumulates the digits that the writer emitted. *)
Lemma readVarInt_loop_reads fuel u bs :
  writeVarInt_loop fuel u = Some bs → 0 ≤ u →
  ∀ fuel' l v, (length bs ≤ fuel')%nat → 0 ≤ l → 0 ≤ v < 2 ^ (7 * l) →
  u * 2 ^ (7 * l) < 2 ^ 63 →
  reads (readVarInt_loop fuel' l v) bs (v + u * 2 ^ (7 * l)).
Proof.
  revert u bs. induction fuel as [|fuel IH]; intros u bs E Hu fuel' l v Hf Hl Hv Hr; [done|].
  assert (0 < 2 ^ (7 * l)) by (apply Z.pow_pos_nonneg; lia).
  simpl in E. rewrite land127_eqb in E. case_bool_decide as Hs.
  - injection E as <-. destruct fuel' as [|fuel']; [simpl in Hf; lia|].
    apply readVarInt_loop_step with u; rewrite ?Z_of_byte_of_Z; try lia.
    { rewrite (Z.mod_small u 256), Z.mod_small; lia. }
    rewrite (proj2 (Z.ltb_lt _ _)) by (rewrite Z.mod_small; lia). apply reads_ret.
  - destruct (writeVarInt_loop fuel (Z.shiftr u 7)) as [bs'|] eqn:E'; [|done].
    injection E as <-. destruct fuel' as [|fuel']; [simpl in Hf; lia|]. simpl in Hf.
    rewrite lor_continue. rewrite shiftr7 in E'.
    pose proof (Z.div_mod u 128). pose proof (Z.mod_pos_bound u 128).
    assert (0 ≤ u / 128) by (apply Z.div_pos; lia).
    apply readVarInt_loop_step with (u mod 128); rewrite ?Z_of_byte_of_Z; try nia.
    { rewrite (Z.mod_small _ 256) by lia.
      rewrite <- (Z.mul_1_l 128) at 2. rewrite Z.mod_add, Z.mod_mod; lia. }
    rewrite (Z.mod_small _ 256), (proj2 (Z.ltb_ge _ _)) by lia.
    assert (2 ^ (7 * (l + 1)) = 128 * 2 ^ (7 * l)) as Hp
      by (replace (7 * (l + 1)) with (7 + 7 * l) by lia; by rewrite Z.pow_add_r by lia).
    replace (v + u * 2 ^ (7 * l))
      with (v + u mod 128 * 2 ^ (7 * l) + u / 128 * 2 ^ (7 * (l + 1))) by nia.
    apply IH; [done|lia|lia|lia| |]; nia.
Qed.

(** More fuel changes nothing once the loop has ended. *)
Lemma writeVarInt_loop_more fuel u bs :
  writeVarInt_loop fuel u = Some bs → writeVarInt_loop (S fuel) u = Some bs.
Proof.
  revert u bs. induction fuel as [|fuel IH]; intros u bs Hb; [done|].
  change (writeVarInt_loop (S (S fuel)) u) with
    (if Z.land u 127 =? u then Some [byte_of_Z u] else
     bs ← writeVarInt_loop (S fuel) (Z.shiftr u 7);
     Some (byte_of_Z (Z.lor (Z.land u 127) 128) :: bs)).
  simpl in Hb. destruct (_ =? _); [done|].
  destruct (writeVarInt_loop fuel _) eqn:Ef; [|done]. by rewrite (IH _ _ Ef).
Qed.

(** ** Properties *)

(** The writer ends on the values of 63 bits and on no other int64. *)
Lemma writeVarInt_terminates i :
  - 2 ^ 62 ≤ i < 2 ^ 62 → ∃ bs, writeVarInt i = Some bs ∧ len bs ≤ 9.
Proof.
  intros H. pose proof (zigzag_encode_range i H) as Hu.
  destruct (writeVarInt_loop_ends 9 (zigzag_encode i)) as (bs & E & Hl); [done|done|].
  exists bs. split; [by apply writeVarInt_loop_more|unfold len; lia].
Qed.

Lemma writeVarInt_diverges i fuel :
  is_int64 i → ¬ (- 2 ^ 62 ≤ i < 2 ^ 62) → writeVarInt_loop fuel (zigzag_encode i) = None.
Proof. intros. by apply writeVarInt_loop_neg, zigzag_encode_out. Qed.

Lemma varIntLen_writeVarInt i : varIntLen i = len <$> writeVarInt i.
Proof.
  unfold varIntLen, writeVarInt. rewrite varIntLen_loop_length.
  by destruct (writeVarInt_loop _ _).
Qed.

Lemma reads_readVarInt i bs :
  - 2 ^ 62 ≤ i < 2 ^ 62 → writeVarInt i = Some bs → reads readVarInt bs i.
Proof.
  intros Hi E. pose proof (zigzag_encode_range i Hi) as Hu.
  intros r sz tail Hsz Hb. unfold readVarInt.
  rewrite <- (zigzag_decode_encode i) by done.
  apply (reads_bind_nil (readVarInt_loop (S (Z.to_nat sz)) 0 0)
    (λ v, mret (zigzag_decode v)) bs (zigzag_encode i)); [|apply reads_ret|done|done].
  pose proof (readVarInt_loop_reads _ _ _ E (proj1 Hu) (S (Z.to_nat sz)) 0 0) as H.
  change (2 ^ (7 * 0)) with 1 in H.
  rewrite Z.mul_1_r, Z.add_0_l in H. apply H; unfold len in Hsz; lia.
Qed.
