(* ===== verification/Wire.v ===== *)
(** * The interfaces of protocol values

    Go's interfaces [sizable] (sizeof.go), [writable] (write.go) and
    [readable] (read.go), and [request] (protocol.go), which joins the first
    two, are operational classes; what the connection code relies on is
    stated by the classes [Request], [Response] and [Codec], whose instances
    are the theorems about the message types. *)

From S2P Require Import Prelude Errors Bufio Read Write VarInt.

Class Sizable (A : Type) : Type := size : A → Z.
Class Writable (A : Type) : Type := writeTo : A → list byte.
Class Readable (A : Type) : Type := readFrom : rd A.

#[global] Hint Mode Sizable ! : typeclass_instances.
#[global] Hint Mode Writable ! : typeclass_instances.
#[global] Hint Mode Readable ! : typeclass_instances.

(** What a request promises to the framing of requests: its [size] is the
    number of bytes it writes, at int32. *)
Class Request (A : Type) `{!Sizable A, !Writable A} : Prop :=
  size_writeTo : ∀ a : A, size a = int32 (len (writeTo a)).

(** What a response promises to the framing of responses: reading it never
    leaves the bytes of the response, and the count of the bytes that are
    left is exact. *)
Class Response (A : Type) `{!Readable A} : Prop :=
  response_framed : Framed (readFrom : rd A).

(** What is written is read back, up to [canon], for the values that the wire
    format can carry.  [canon] is the identity but for byte slices, where
    empty becomes nil. *)
Class Codec (A : Type) `{!Writable A, !Readable A} : Type := {
  wf : A → Prop;
  canon : A → A;
  codec_reads : ∀ a, wf a → reads readFrom (writeTo a) (canon a);
}.

#[global] Hint Mode Codec ! - - : typeclass_instances.

(** int32 addition, as in the sums of the [size] methods. *)
Notation "a ⊞ b" := (int32 (a + b)) (at level 50, left associativity) : Z_scope.

(** ** Sizes *)

Lemma sizeofArray_size `{Request A} (l : list A) :
  sizeofArray size l = int32 (len (writeArray writeTo l)).
Proof. apply sizeofArray_ok. apply Forall_true. intros. apply size_writeTo. Qed.

(** [solve_request sz wr]: the sum of a [size] method is the length of what
    the [writeTo] method writes. *)
Ltac solve_request sz wr :=
  intros t; change (sz t = int32 (len (wr t))); unfold sz, wr;
  unfold sizeofInt8, sizeofInt16, sizeofInt32, sizeofInt64, sizeofBool;
  rewrite ?sizeofArray_size, ?size_writeTo; autorewrite with size;
  unfold writeStringArray, writeInt32Array;
  autorewrite with len; wrap_eq.

(** ** Decoding *)

Create HintDb reads.

Lemma reads_readInt8 z : is_int8 z → reads readInt8 (writeInt8 z) z.
Proof.
  intros H. replace z with (makeInt8 (writeInt8 z)) at 2; [by apply reads_peekRead|].
  unfold makeInt8, writeInt8. simpl. rewrite Z_of_byte_of_Z.
  rewrite (wrapS_mod 8) by lia. by apply wrapS_id.
Qed.

Lemma reads_int (n : nat) z mk :
  n ≠ O → (n ≤ 16)%nat → inS (8 * Z.of_nat n) z →
  (∀ b, length b = n → mk b = wrapS (8 * Z.of_nat n) (be_get b)) →
  reads (peekRead (Z.of_nat n) mk) (be_put n z) z.
Proof.
  intros H0 Hn Hz Hmk. replace z with (mk (be_put n z)) at 2.
  - apply reads_peekRead; [apply len_be_put|lia].
  - rewrite Hmk by apply length_be_put. by apply be_roundtrip.
Qed.

Lemma reads_readInt16 z : is_int16 z → reads readInt16 (writeInt16 z) z.
Proof. intros. apply (reads_int 2); [lia|lia|done|]. intros b Hb. unfold makeInt16. by rewrite take_ge by lia. Qed.
Lemma reads_readInt32 z : is_int32 z → reads readInt32 (writeInt32 z) z.
Proof. intros. apply (reads_int 4); [lia|lia|done|]. intros b Hb. unfold makeInt32. by rewrite take_ge by lia. Qed.
Lemma reads_readInt64 z : is_int64 z → reads readInt64 (writeInt64 z) z.
Proof. intros. apply (reads_int 8); [lia|lia|done|]. intros b Hb. unfold makeInt64. by rewrite take_ge by lia. Qed.

Lemma reads_readBool b : reads readBool (writeBool b) b.
Proof.
  pose proof (reads_peekRead 1 (λ b, negb (Z_of_byte (hd x00 b) =? 0)) (writeBool b)) as H.
  by destruct b; apply H.
Qed.

(** A string of at most 32767 bytes, a slice of at most 2^31-1 bytes. *)
Definition wf_string (s : gostring) : Prop := len s < 2 ^ 15.
Definition wf_bytes (b : bytes) : Prop := len (bdata b) < 2 ^ 31.
Definition wf_list {A} (P : A → Prop) (l : list A) : Prop := len l < 2 ^ 31 ∧ Forall P l.

#[global] Instance wf_string_dec s : Decision (wf_string s).
Proof. unfold wf_string. apply _. Defined.
#[global] Instance wf_bytes_dec s : Decision (wf_bytes s).
Proof. unfold wf_bytes. apply _. Defined.
#[global] Instance wf_list_dec {A} (P : A → Prop) `{∀ a, Decision (P a)} l : Decision (wf_list P l).
Proof. unfold wf_list. apply _. Defined.

Lemma reads_readStringWith {A} (cb : Z → rd A) s a :
  wf_string s → reads (cb (len s)) s a → reads (readStringWith cb) (writeString s) a.
Proof.
  intros Hs Hcb. pose proof (len_nonneg s). unfold readStringWith, writeString, wf_string in *.
  rewrite wrapS_id by (try unfold inS; lia).
  eapply reads_bind; [apply reads_readInt16; unfold inS; lia|].
  apply reads_remaining_bind. intros sz Hsz.
  by rewrite Z.gtb_ltb, (proj2 (Z.ltb_ge _ _)) by lia.
Qed.

Lemma reads_readString s : wf_string s → reads readString (writeString s) s.
Proof. intros. apply reads_readStringWith; [done|]. apply reads_readNewString. Qed.

Lemma reads_discard_cb bs : reads (discard_cb (len bs)) bs tt.
Proof.
  intros r sz tail Hsz Hb. pose proof (len_nonneg bs). pose proof (len_nonneg tail).
  unfold discard_cb, discardN, Discard. rewrite (proj2 (Z.ltb_ge _ 0)) by lia.
  cbn [with_data rd_data].
  rewrite (proj2 (Z.leb_le (len bs) sz)) by lia.
  rewrite (proj2 (Z.leb_le _ (len (bs ++ tail)))) by (rewrite len_app; lia).
  by rewrite zdrop_app.
Qed.

Lemma reads_discardString s : wf_string s → reads discardString (writeString s) tt.
Proof. intros. apply reads_readStringWith; [done|]. apply reads_discard_cb. Qed.

Lemma reads_readBytesWith {A} (cb : Z → rd A) b a :
  wf_bytes b → reads (cb (match b with None => -1 | Some b => len b end)) (bdata b) a →
  reads (readBytesWith cb) (writeBytes b) a.
Proof.
  intros Hb Hcb. unfold readBytesWith, writeBytes, wf_bytes in *.
  set (n := match b with None => -1 | Some b => len b end) in *.
  assert (-1 ≤ n ≤ len (bdata b)).
  { unfold n. destruct b as [l|]; simpl; [pose proof (len_nonneg l); lia|by vm_compute]. }
  rewrite wrapS_id by (try unfold inS; lia).
  eapply reads_bind; [apply reads_readInt32; unfold inS; lia|].
  apply reads_remaining_bind. intros sz Hsz.
  by rewrite Z.gtb_ltb, (proj2 (Z.ltb_ge _ _)) by lia.
Qed.

Lemma reads_readBytes b : wf_bytes b → reads readBytes (writeBytes b) (bnorm b).
Proof.
  intros. apply reads_readBytesWith; [done|].
  destruct b as [l|]; [apply reads_readNewBytes|apply reads_ret].
Qed.

Lemma reads_discardBytes b : wf_bytes b → reads discardBytes (writeBytes b) tt.
Proof.
  intros. apply reads_readBytesWith; [done|].
  destruct b as [l|]; [apply reads_discard_cb|]. apply reads_ret.
Qed.

Lemma reads_readArrayWith {A} (m : rd A) enc (norm : A → A) l :
  wf_list (λ a, reads m (enc a) (norm a)) l →
  reads (readArrayWith m) (writeArray enc l) (map norm l).
Proof.
  intros [Hn Hl]. unfold readArrayWith, writeArray, writeArrayLen.
  pose proof (len_nonneg l). rewrite wrapS_id by (try unfold inS; lia).
  eapply reads_bind; [apply reads_readInt32; unfold inS; lia|].
  unfold len at 1. rewrite Nat2Z.id. by apply reads_repeatM.
Qed.

Lemma wf_list_impl {A} (P Q : A → Prop) l : (∀ a, P a → Q a) → wf_list P l → wf_list Q l.
Proof. intros H [? ?]. split; [done|]. by eapply Forall_impl. Qed.

Lemma reads_readArrayWith_codec `{Codec A} (l : list A) :
  wf_list wf l → reads (readArrayWith readFrom) (writeArray writeTo l) (map canon l).
Proof. intros. apply reads_readArrayWith. eapply wf_list_impl; [|done]. apply codec_reads. Qed.

Lemma reads_readStringArray l :
  wf_list wf_string l → reads readStringArray (writeStringArray l) l.
Proof.
  intros. rewrite <- (map_id l) at 2. apply reads_readArrayWith.
  eapply wf_list_impl; [|done]. apply reads_readString.
Qed.

Lemma reads_readInt32Array l :
  wf_list is_int32 l → reads (readArrayWith readInt32) (writeInt32Array l) l.
Proof.
  intros. rewrite <- (map_id l) at 2. apply reads_readArrayWith.
  eapply wf_list_impl; [|done]. apply reads_readInt32.
Qed.

#[export] Hint Resolve reads_readInt8 reads_readInt16 reads_readInt32 reads_readInt64
  reads_readBool reads_readString reads_readBytes reads_discardString reads_discardBytes
  reads_readStringArray reads_readInt32Array
  reads_readArrayWith_codec codec_reads : reads.

(** [solve_reads]: follows a sequence of reads along the encoding. *)
Ltac solve_reads :=
  repeat match goal with H : _ ∧ _ |- _ => destruct H end;
  repeat (first
    [ eapply reads_bind_nil; [solve [eauto with reads]|solve [apply reads_ret]]
    | eapply reads_bind; [solve [eauto with reads]|cbn beta]
    | solve [eauto with reads] ]).

(** [solve_codec rf wr cn]: what the method [wr] writes, [rf] reads. *)
Ltac solve_codec rf wr cn :=
  match goal with |- reads _ _ (_ ?t) => change (reads rf (wr t) (cn t)) end;
  unfold rf, wr, cn; solve_reads.

(** [solve_response rf]: a sequence of framed reads is framed. *)
#[global] Instance response_readFrom `{Response A} : Framed (readFrom : rd A) := response_framed.
Ltac solve_response rf :=
  match goal with |- Response ?A => change (Framed (rf : rd A)) end; unfold rf; apply _.
