(* ===== verification/OffsetMessages.v ===== *)
(** * Offset messages (offsetcommit.go, offsetfetch.go, listoffset.go) *)

From S2P Require Import Prelude Errors Bufio Read Write VarInt Wire.

(** ** [offsetCommitRequestV2Partition] *)

Record offsetCommitRequestV2Partition : Type := {
  ocrp_Partition : Z;
  ocrp_Offset : Z;
  ocrp_Metadata : gostring;
}.

Definition offsetCommitRequestV2Partition_size (t : offsetCommitRequestV2Partition) : Z :=
  sizeofInt32 (ocrp_Partition t) ⊞
  sizeofInt64 (ocrp_Offset t) ⊞
  sizeofString (ocrp_Metadata t).

#[global] Instance offsetCommitRequestV2Partition_sizable : Sizable offsetCommitRequestV2Partition := offsetCommitRequestV2Partition_size.

Definition offsetCommitRequestV2Partition_writeTo (t : offsetCommitRequestV2Partition) : list byte :=
  writeInt32 (ocrp_Partition t) ++
  writeInt64 (ocrp_Offset t) ++
  writeString (ocrp_Metadata t).

#[global] Instance offsetCommitRequestV2Partition_writable : Writable offsetCommitRequestV2Partition := offsetCommitRequestV2Partition_writeTo.

#[global] Instance offsetCommitRequestV2Partition_request : Request offsetCommitRequestV2Partition.
Proof. solve_request offsetCommitRequestV2Partition_size offsetCommitRequestV2Partition_writeTo. Qed.

(** ** [offsetCommitRequestV2Topic] *)

Record offsetCommitRequestV2Topic : Type := {
  ocrt_Topic : gostring;
  ocrt_Partitions : list offsetCommitRequestV2Partition;
}.

Definition offsetCommitRequestV2Topic_size (t : offsetCommitRequestV2Topic) : Z :=
  sizeofString (ocrt_Topic t) ⊞
  sizeofArray size (ocrt_Partitions t).

#[global] Instance offsetCommitRequestV2Topic_sizable : Sizable offsetCommitRequestV2Topic := offsetCommitRequestV2Topic_size.

Definition offsetCommitRequestV2Topic_writeTo (t : offsetCommitRequestV2Topic) : list byte :=
  writeString (ocrt_Topic t) ++
  writeArray writeTo (ocrt_Partitions t).

#[global] Instance offsetCommitRequestV2Topic_writable : Writable offsetCommitRequestV2Topic := offsetCommitRequestV2Topic_writeTo.

#[global] Instance offsetCommitRequestV2Topic_request : Request offsetCommitRequestV2Topic.
Proof. solve_request offsetCommitRequestV2Topic_size offsetCommitRequestV2Topic_writeTo. Qed.

(** ** [offsetCommitRequestV2] *)

Record offsetCommitRequestV2 : Type := {
  ocr_GroupID : gostring;
  ocr_GenerationID : Z;
  ocr_MemberID : gostring;
  ocr_RetentionTime : Z;
  ocr_Topics : list offsetCommitRequestV2Topic;
}.

Definition offsetCommitRequestV2_size (t : offsetCommitRequestV2) : Z :=
  sizeofString (ocr_GroupID t) ⊞
  sizeofInt32 (ocr_GenerationID t) ⊞
  sizeofString (ocr_MemberID t) ⊞
  sizeofInt64 (ocr_RetentionTime t) ⊞
  sizeofArray size (ocr_Topics t).

#[global] Instance offsetCommitRequestV2_sizable : Sizable offsetCommitRequestV2 := offsetCommitRequestV2_size.

Definition offsetCommitRequestV2_writeTo (t : offsetCommitRequestV2) : list byte :=
  writeString (ocr_GroupID t) ++
  writeInt32 (ocr_GenerationID t) ++
  writeString (ocr_MemberID t) ++
  writeInt64 (ocr_RetentionTime t) ++
  writeArray writeTo (ocr_Topics t).

#[global] Instance offsetCommitRequestV2_writable : Writable offsetCommitRequestV2 := offsetCommitRequestV2_writeTo.

#[global] Instance offsetCommitRequestV2_request : Request offsetCommitRequestV2.
Proof. solve_request offsetCommitRequestV2_size offsetCommitRequestV2_writeTo. Qed.

(** ** [offsetCommitResponseV2PartitionResponse] *)

Record offsetCommitResponseV2PartitionResponse : Type := {
  ocsp_Partition : Z;
  ocsp_ErrorCode : Z;
}.

Definition offsetCommitResponseV2PartitionResponse_size (t : offsetCommitResponseV2PartitionResponse) : Z :=
  sizeofInt32 (ocsp_Partition t) ⊞
  sizeofInt16 (ocsp_ErrorCode t).

#[global] Instance offsetCommitResponseV2PartitionResponse_sizable : Sizable offsetCommitResponseV2PartitionResponse := offsetCommitResponseV2PartitionResponse_size.

Definition offsetCommitResponseV2PartitionResponse_writeTo (t : offsetCommitResponseV2PartitionResponse) : list byte :=
  writeInt32 (ocsp_Partition t) ++
  writeInt16 (ocsp_ErrorCode t).

#[global] Instance offsetCommitResponseV2PartitionResponse_writable : Writable offsetCommitResponseV2PartitionResponse := offsetCommitResponseV2PartitionResponse_writeTo.

Definition offsetCommitResponseV2PartitionResponse_readFrom : rd offsetCommitResponseV2PartitionResponse :=
  partition ← readInt32;
  errorCode ← readInt16;
  mret {| ocsp_Partition := partition; ocsp_ErrorCode := errorCode |}.

#[global] Instance offsetCommitResponseV2PartitionResponse_readable : Readable offsetCommitResponseV2PartitionResponse := offsetCommitResponseV2PartitionResponse_readFrom.

#[global] Instance offsetCommitResponseV2PartitionResponse_request : Request offsetCommitResponseV2PartitionResponse.
Proof. solve_request offsetCommitResponseV2PartitionResponse_size offsetCommitResponseV2PartitionResponse_writeTo. Qed.

#[global] Instance offsetCommitResponseV2PartitionResponse_response : Response offsetCommitResponseV2PartitionResponse.
Proof. solve_response offsetCommitResponseV2PartitionResponse_readFrom. Qed.

Definition offsetCommitResponseV2PartitionResponse_wf (t : offsetCommitResponseV2PartitionResponse) : Prop :=
  is_int32 (ocsp_Partition t) ∧
  is_int16 (ocsp_ErrorCode t).

Definition offsetCommitResponseV2PartitionResponse_canon (t : offsetCommitResponseV2PartitionResponse) : offsetCommitResponseV2PartitionResponse :=
  {| ocsp_Partition := ocsp_Partition t; ocsp_ErrorCode := ocsp_ErrorCode t |}.

Lemma offsetCommitResponseV2PartitionResponse_reads t :
  offsetCommitResponseV2PartitionResponse_wf t → reads readFrom (writeTo t) (offsetCommitResponseV2PartitionResponse_canon t).
Proof.
  intros H. unfold offsetCommitResponseV2PartitionResponse_wf in H. solve_codec offsetCommitResponseV2PartitionResponse_readFrom offsetCommitResponseV2PartitionResponse_writeTo offsetCommitResponseV2PartitionResponse_canon.
Qed.

#[global] Instance offsetCommitResponseV2PartitionResponse_codec : Codec offsetCommitResponseV2PartitionResponse :=
  {| wf := offsetCommitResponseV2PartitionResponse_wf; canon := offsetCommitResponseV2PartitionResponse_canon; codec_reads := offsetCommitResponseV2PartitionResponse_reads |}.

(** ** [offsetCommitResponseV2Response] *)

Record offsetCommitResponseV2Response : Type := {
  ocst_Topic : gostring;
  ocst_PartitionResponses : list offsetCommitResponseV2PartitionResponse;
}.

Definition offsetCommitResponseV2Response_size (t : offsetCommitResponseV2Response) : Z :=
  sizeofString (ocst_Topic t) ⊞
  sizeofArray size (ocst_PartitionResponses t).

#[global] Instance offsetCommitResponseV2Response_sizable : Sizable offsetCommitResponseV2Response := offsetCommitResponseV2Response_size.

Definition offsetCommitResponseV2Response_writeTo (t : offsetCommitResponseV2Response) : list byte :=
  writeString (ocst_Topic t) ++
  writeArray writeTo (ocst_PartitionResponses t).

#[global] Instance offsetCommitResponseV2Response_writable : Writable offsetCommitResponseV2Response := offsetCommitResponseV2Response_writeTo.

Definition offsetCommitResponseV2Response_readFrom : rd offsetCommitResponseV2Response :=
  topic ← readString;
  partitionResponses ← readArrayWith readFrom;
  mret {| ocst_Topic := topic; ocst_PartitionResponses := partitionResponses |}.

#[global] Instance offsetCommitResponseV2Response_readable : Readable offsetCommitResponseV2Response := offsetCommitResponseV2Response_readFrom.

#[global] Instance offsetCommitResponseV2Response_request : Request offsetCommitResponseV2Response.
Proof. solve_request offsetCommitResponseV2Response_size offsetCommitResponseV2Response_writeTo. Qed.

#[global] Instance offsetCommitResponseV2Response_response : Response offsetCommitResponseV2Response.
Proof. solve_response offsetCommitResponseV2Response_readFrom. Qed.

Definition offsetCommitResponseV2Response_wf (t : offsetCommitResponseV2Response) : Prop :=
  wf_string (ocst_Topic t) ∧
  wf_list wf (ocst_PartitionResponses t).

Definition offsetCommitResponseV2Response_canon (t : offsetCommitResponseV2Response) : offsetCommitResponseV2Response :=
  {| ocst_Topic := ocst_Topic t; ocst_PartitionResponses := map canon (ocst_PartitionResponses t) |}.

Lemma offsetCommitResponseV2Response_reads t :
  offsetCommitResponseV2Response_wf t → reads readFrom (writeTo t) (offsetCommitResponseV2Response_canon t).
Proof.
  intros H. unfold offsetCommitResponseV2Response_wf in H. solve_codec offsetCommitResponseV2Response_readFrom offsetCommitResponseV2Response_writeTo offsetCommitResponseV2Response_canon.
Qed.

#[global] Instance offsetCommitResponseV2Response_codec : Codec offsetCommitResponseV2Response :=
  {| wf := offsetCommitResponseV2Response_wf; canon := offsetCommitResponseV2Response_canon; codec_reads := offsetCommitResponseV2Response_reads |}.

(** ** [offsetCommitResponseV2] *)

Record offsetCommitResponseV2 : Type := {
  ocs_Responses : list offsetCommitResponseV2Response;
}.

Definition offsetCommitResponseV2_size (t : offsetCommitResponseV2) : Z :=
  sizeofArray size (ocs_Responses t).

#[global] Instance offsetCommitResponseV2_sizable : Sizable offsetCommitResponseV2 := offsetCommitResponseV2_size.

Definition offsetCommitResponseV2_writeTo (t : offsetCommitResponseV2) : list byte :=
  writeArray writeTo (ocs_Responses t).

#[global] Instance offsetCommitResponseV2_writable : Writable offsetCommitResponseV2 := offsetCommitResponseV2_writeTo.

Definition offsetCommitResponseV2_readFrom : rd offsetCommitResponseV2 :=
  responses ← readArrayWith readFrom;
  mret {| ocs_Responses := responses |}.

#[global] Instance offsetCommitResponseV2_readable : Readable offsetCommitResponseV2 := offsetCommitResponseV2_readFrom.

#[global] Instance offsetCommitResponseV2_request : Request offsetCommitResponseV2.
Proof. solve_request offsetCommitResponseV2_size offsetCommitResponseV2_writeTo. Qed.

#[global] Instance offsetCommitResponseV2_response : Response offsetCommitResponseV2.
Proof. solve_response offsetCommitResponseV2_readFrom. Qed.

Definition offsetCommitResponseV2_wf (t : offsetCommitResponseV2) : Prop :=
  wf_list wf (ocs_Responses t).

Definition offsetCommitResponseV2_canon (t : offsetCommitResponseV2) : offsetCommitResponseV2 :=
  {| ocs_Responses := map canon (ocs_Responses t) |}.

Lemma offsetCommitResponseV2_reads t :
  offsetCommitResponseV2_wf t → reads readFrom (writeTo t) (offsetCommitResponseV2_canon t).
Proof.
  intros H. unfold offsetCommitResponseV2_wf in H. solve_codec offsetCommitResponseV2_readFrom offsetCommitResponseV2_writeTo offsetCommitResponseV2_canon.
Qed.

#[global] Instance offsetCommitResponseV2_codec : Codec offsetCommitResponseV2 :=
  {| wf := offsetCommitResponseV2_wf; canon := offsetCommitResponseV2_canon; codec_reads := offsetCommitResponseV2_reads |}.

(** ** [offsetFetchRequestV1Topic] *)

Record offsetFetchRequestV1Topic : Type := {
  ofrt_Topic : gostring;
  ofrt_Partitions : list Z;
}.

Definition offsetFetchRequestV1Topic_size (t : offsetFetchRequestV1Topic) : Z :=
  sizeofString (ofrt_Topic t) ⊞
  sizeofInt32Array (ofrt_Partitions t).

#[global] Instance offsetFetchRequestV1Topic_sizable : Sizable offsetFetchRequestV1Topic := offsetFetchRequestV1Topic_size.

Definition offsetFetchRequestV1Topic_writeTo (t : offsetFetchRequestV1Topic) : list byte :=
  writeString (ofrt_Topic t) ++
  writeInt32Array (ofrt_Partitions t).

#[global] Instance offsetFetchRequestV1Topic_writable : Writable offsetFetchRequestV1Topic := offsetFetchRequestV1Topic_writeTo.

#[global] Instance offsetFetchRequestV1Topic_request : Request offsetFetchRequestV1Topic.
Proof. solve_request offsetFetchRequestV1Topic_size offsetFetchRequestV1Topic_writeTo. Qed.

(** ** [offsetFetchRequestV1] *)

Record offsetFetchRequestV1 : Type := {
  ofr_GroupID : gostring;
  ofr_Topics : list offsetFetchRequestV1Topic;
}.

Definition offsetFetchRequestV1_size (t : offsetFetchRequestV1) : Z :=
  sizeofString (ofr_GroupID t) ⊞
  sizeofArray size (ofr_Topics t).

#[global] Instance offsetFetchRequestV1_sizable : Sizable offsetFetchRequestV1 := offsetFetchRequestV1_size.

Definition offsetFetchRequestV1_writeTo (t : offsetFetchRequestV1) : list byte :=
  writeString (ofr_GroupID t) ++
  writeArray writeTo (ofr_Topics t).

#[global] Instance offsetFetchRequestV1_writable : Writable offsetFetchRequestV1 := offsetFetchRequestV1_writeTo.

#[global] Instance offsetFetchRequestV1_request : Request offsetFetchRequestV1.
Proof. solve_request offsetFetchRequestV1_size offsetFetchRequestV1_writeTo. Qed.

(** ** [offsetFetchResponseV1PartitionResponse] *)

Record offsetFetchResponseV1PartitionResponse : Type := {
  ofsp_Partition : Z;
  ofsp_Offset : Z;
  ofsp_Metadata : gostring;
  ofsp_ErrorCode : Z;
}.

Definition offsetFetchResponseV1PartitionResponse_size (t : offsetFetchResponseV1PartitionResponse) : Z :=
  sizeofInt32 (ofsp_Partition t) ⊞
  sizeofInt64 (ofsp_Offset t) ⊞
  sizeofString (ofsp_Metadata t) ⊞
  sizeofInt16 (ofsp_ErrorCode t).

#[global] Instance offsetFetchResponseV1PartitionResponse_sizable : Sizable offsetFetchResponseV1PartitionResponse := offsetFetchResponseV1PartitionResponse_size.

Definition offsetFetchResponseV1PartitionResponse_writeTo (t : offsetFetchResponseV1PartitionResponse) : list byte :=
  writeInt32 (ofsp_Partition t) ++
  writeInt64 (ofsp_Offset t) ++
  writeString (ofsp_Metadata t) ++
  writeInt16 (ofsp_ErrorCode t).

#[global] Instance offsetFetchResponseV1PartitionResponse_writable : Writable offsetFetchResponseV1PartitionResponse := offsetFetchResponseV1PartitionResponse_writeTo.

Definition offsetFetchResponseV1PartitionResponse_readFrom : rd offsetFetchResponseV1PartitionResponse :=
  partition ← readInt32;
  offset ← readInt64;
  metadata ← readString;
  errorCode ← readInt16;
  mret {| ofsp_Partition := partition; ofsp_Offset := offset; ofsp_Metadata := metadata; ofsp_ErrorCode := errorCode |}.

#[global] Instance offsetFetchResponseV1PartitionResponse_readable : Readable offsetFetchResponseV1PartitionResponse := offsetFetchResponseV1PartitionResponse_readFrom.

#[global] Instance offsetFetchResponseV1PartitionResponse_request : Request offsetFetchResponseV1PartitionResponse.
Proof. solve_request offsetFetchResponseV1PartitionResponse_size offsetFetchResponseV1PartitionResponse_writeTo. Qed.

#[global] Instance offsetFetchResponseV1PartitionResponse_response : Response offsetFetchResponseV1PartitionResponse.
Proof. solve_response offsetFetchResponseV1PartitionResponse_readFrom. Qed.

Definition offsetFetchResponseV1PartitionResponse_wf (t : offsetFetchResponseV1PartitionResponse) : Prop :=
  is_int32 (ofsp_Partition t) ∧
  is_int64 (ofsp_Offset t) ∧
  wf_string (ofsp_Metadata t) ∧
  is_int16 (ofsp_ErrorCode t).

Definition offsetFetchResponseV1PartitionResponse_canon (t : offsetFetchResponseV1PartitionResponse) : offsetFetchResponseV1PartitionResponse :=
  {| ofsp_Partition := ofsp_Partition t; ofsp_Offset := ofsp_Offset t; ofsp_Metadata := ofsp_Metadata t; ofsp_ErrorCode := ofsp_ErrorCode t |}.

Lemma offsetFetchResponseV1PartitionResponse_reads t :
  offsetFetchResponseV1PartitionResponse_wf t → reads readFrom (writeTo t) (offsetFetchResponseV1PartitionResponse_canon t).
Proof.
  intros H. unfold offsetFetchResponseV1PartitionResponse_wf in H. solve_codec offsetFetchResponseV1PartitionResponse_readFrom offsetFetchResponseV1PartitionResponse_writeTo offsetFetchResponseV1PartitionResponse_canon.
Qed.

#[global] Instance offsetFetchResponseV1PartitionResponse_codec : Codec offsetFetchResponseV1PartitionResponse :=
  {| wf := offsetFetchResponseV1PartitionResponse_wf; canon := offsetFetchResponseV1PartitionResponse_canon; codec_reads := offsetFetchResponseV1PartitionResponse_reads |}.

(** ** [offsetFetchResponseV1Response] *)

Record offsetFetchResponseV1Response : Type := {
  ofst_Topic : gostring;
  ofst_PartitionResponses : list offsetFetchResponseV1PartitionResponse;
}.

Definition offsetFetchResponseV1Response_size (t : offsetFetchResponseV1Response) : Z :=
  sizeofString (ofst_Topic t) ⊞
  sizeofArray size (ofst_PartitionResponses t).

#[global] Instance offsetFetchResponseV1Response_sizable : Sizable offsetFetchResponseV1Response := offsetFetchResponseV1Response_size.

Definition offsetFetchResponseV1Response_writeTo (t : offsetFetchResponseV1Response) : list byte :=
  writeString (ofst_Topic t) ++
  writeArray writeTo (ofst_PartitionResponses t).

#[global] Instance offsetFetchResponseV1Response_writable : Writable offsetFetchResponseV1Response := offsetFetchResponseV1Response_writeTo.

Definition offsetFetchResponseV1Response_readFrom : rd offsetFetchResponseV1Response :=
  topic ← readString;
  partitionResponses ← readArrayWith readFrom;
  mret {| ofst_Topic := topic; ofst_PartitionResponses := partitionResponses |}.

#[global] Instance offsetFetchResponseV1Response_readable : Readable offsetFetchResponseV1Response := offsetFetchResponseV1Response_readFrom.

#[global] Instance offsetFetchResponseV1Response_request : Request offsetFetchResponseV1Response.
Proof. solve_request offsetFetchResponseV1Response_size offsetFetchResponseV1Response_writeTo. Qed.

#[global] Instance offsetFetchResponseV1Response_response : Response offsetFetchResponseV1Response.
Proof. solve_response offsetFetchResponseV1Response_readFrom. Qed.

Definition offsetFetchResponseV1Response_wf (t : offsetFetchResponseV1Response) : Prop :=
  wf_string (ofst_Topic t) ∧
  wf_list wf (ofst_PartitionResponses t).

Definition offsetFetchResponseV1Response_canon (t : offsetFetchResponseV1Response) : offsetFetchResponseV1Response :=
  {| ofst_Topic := ofst_Topic t; ofst_PartitionResponses := map canon (ofst_PartitionResponses t) |}.

Lemma offsetFetchResponseV1Response_reads t :
  offsetFetchResponseV1Response_wf t → reads readFrom (writeTo t) (offsetFetchResponseV1Response_canon t).
Proof.
  intros H. unfold offsetFetchResponseV1Response_wf in H. solve_codec offsetFetchResponseV1Response_readFrom offsetFetchResponseV1Response_writeTo offsetFetchResponseV1Response_canon.
Qed.

#[global] Instance offsetFetchResponseV1Response_codec : Codec offsetFetchResponseV1Response :=
  {| wf := offsetFetchResponseV1Response_wf; canon := offsetFetchResponseV1Response_canon; codec_reads := offsetFetchResponseV1Response_reads |}.

(** ** [offsetFetchResponseV1] *)

Record offsetFetchResponseV1 : Type := {
  ofs_Responses : list offsetFetchResponseV1Response;
}.

Definition offsetFetchResponseV1_size (t : offsetFetchResponseV1) : Z :=
  sizeofArray size (ofs_Responses t).

#[global] Instance offsetFetchResponseV1_sizable : Sizable offsetFetchResponseV1 := offsetFetchResponseV1_size.

Definition offsetFetchResponseV1_writeTo (t : offsetFetchResponseV1) : list byte :=
  writeArray writeTo (ofs_Responses t).

#[global] Instance offsetFetchResponseV1_writable : Writable offsetFetchResponseV1 := offsetFetchResponseV1_writeTo.

Definition offsetFetchResponseV1_readFrom : rd offsetFetchResponseV1 :=
  responses ← readArrayWith readFrom;
  mret {| ofs_Responses := responses |}.

#[global] Instance offsetFetchResponseV1_readable : Readable offsetFetchResponseV1 := offsetFetchResponseV1_readFrom.

#[global] Instance offsetFetchResponseV1_request : Request offsetFetchResponseV1.
Proof. solve_request offsetFetchResponseV1_size offsetFetchResponseV1_writeTo. Qed.

#[global] Instance offsetFetchResponseV1_response : Response offsetFetchResponseV1.
Proof. solve_response offsetFetchResponseV1_readFrom. Qed.

Definition offsetFetchResponseV1_wf (t : offsetFetchResponseV1) : Prop :=
  wf_list wf (ofs_Responses t).

Definition offsetFetchResponseV1_canon (t : offsetFetchResponseV1) : offsetFetchResponseV1 :=
  {| ofs_Responses := map canon (ofs_Responses t) |}.

Lemma offsetFetchResponseV1_reads t :
  offsetFetchResponseV1_wf t → reads readFrom (writeTo t) (offsetFetchResponseV1_canon t).
Proof.
  intros H. unfold offsetFetchResponseV1_wf in H. solve_codec offsetFetchResponseV1_readFrom offsetFetchResponseV1_writeTo offsetFetchResponseV1_canon.
Qed.

#[global] Instance offsetFetchResponseV1_codec : Codec offsetFetchResponseV1 :=
  {| wf := offsetFetchResponseV1_wf; canon := offsetFetchResponseV1_canon; codec_reads := offsetFetchResponseV1_reads |}.

(** ** [listOffsetRequestPartitionV1] *)

Record listOffsetRequestPartitionV1 : Type := {
  lorp_Partition : Z;
  lorp_Time : Z;
}.

Definition listOffsetRequestPartitionV1_size (t : listOffsetRequestPartitionV1) : Z :=
  4 ⊞
  8.

#[global] Instance listOffsetRequestPartitionV1_sizable : Sizable listOffsetRequestPartitionV1 := listOffsetRequestPartitionV1_size.

Definition listOffsetRequestPartitionV1_writeTo (t : listOffsetRequestPartitionV1) : list byte :=
  writeInt32 (lorp_Partition t) ++
  writeInt64 (lorp_Time t).

#[global] Instance listOffsetRequestPartitionV1_writable : Writable listOffsetRequestPartitionV1 := listOffsetRequestPartitionV1_writeTo.

#[global] Instance listOffsetRequestPartitionV1_request : Request listOffsetRequestPartitionV1.
Proof. solve_request listOffsetRequestPartitionV1_size listOffsetRequestPartitionV1_writeTo. Qed.

(** ** [listOffsetRequestTopicV1] *)

Record listOffsetRequestTopicV1 : Type := {
  lort_TopicName : gostring;
  lort_Partitions : list listOffsetRequestPartitionV1;
}.

Definition listOffsetRequestTopicV1_size (t : listOffsetRequestTopicV1) : Z :=
  sizeofString (lort_TopicName t) ⊞
  sizeofArray size (lort_Partitions t).

#[global] Instance listOffsetRequestTopicV1_sizable : Sizable listOffsetRequestTopicV1 := listOffsetRequestTopicV1_size.

Definition listOffsetRequestTopicV1_writeTo (t : listOffsetRequestTopicV1) : list byte :=
  writeString (lort_TopicName t) ++
  writeArray writeTo (lort_Partitions t).

#[global] Instance listOffsetRequestTopicV1_writable : Writable listOffsetRequestTopicV1 := listOffsetRequestTopicV1_writeTo.

#[global] Instance listOffsetRequestTopicV1_request : Request listOffsetRequestTopicV1.
Proof. solve_request listOffsetRequestTopicV1_size listOffsetRequestTopicV1_writeTo. Qed.

(** ** [listOffsetRequestV1] *)

Record listOffsetRequestV1 : Type := {
  lor_ReplicaID : Z;
  lor_Topics : list listOffsetRequestTopicV1;
}.

Definition listOffsetRequestV1_size (t : listOffsetRequestV1) : Z :=
  4 ⊞
  sizeofArray size (lor_Topics t).

#[global] Instance listOffsetRequestV1_sizable : Sizable listOffsetRequestV1 := listOffsetRequestV1_size.

Definition listOffsetRequestV1_writeTo (t : listOffsetRequestV1) : list byte :=
  writeInt32 (lor_ReplicaID t) ++
  writeArray writeTo (lor_Topics t).

#[global] Instance listOffsetRequestV1_writable : Writable listOffsetRequestV1 := listOffsetRequestV1_writeTo.

#[global] Instance listOffsetRequestV1_request : Request listOffsetRequestV1.
Proof. solve_request listOffsetRequestV1_size listOffsetRequestV1_writeTo. Qed.

(** ** [partitionOffsetV1] *)

Record partitionOffsetV1 : Type := {
  po_Partition : Z;
  po_ErrorCode : Z;
  po_Timestamp : Z;
  po_Offset : Z;
}.

Definition partitionOffsetV1_size (t : partitionOffsetV1) : Z :=
  4 ⊞
  2 ⊞
  8 ⊞
  8.

#[global] Instance partitionOffsetV1_sizable : Sizable partitionOffsetV1 := partitionOffsetV1_size.

Definition partitionOffsetV1_writeTo (t : partitionOffsetV1) : list byte :=
  writeInt32 (po_Partition t) ++
  writeInt16 (po_ErrorCode t) ++
  writeInt64 (po_Timestamp t) ++
  writeInt64 (po_Offset t).

#[global] Instance partitionOffsetV1_writable : Writable partitionOffsetV1 := partitionOffsetV1_writeTo.

Definition partitionOffsetV1_readFrom : rd partitionOffsetV1 :=
  partition ← readInt32;
  errorCode ← readInt16;
  timestamp ← readInt64;
  offset ← readInt64;
  mret {| po_Partition := partition; po_ErrorCode := errorCode; po_Timestamp := timestamp; po_Offset := offset |}.

#[global] Instance partitionOffsetV1_readable : Readable partitionOffsetV1 := partitionOffsetV1_readFrom.

#[global] Instance partitionOffsetV1_request : Request partitionOffsetV1.
Proof. solve_request partitionOffsetV1_size partitionOffsetV1_writeTo. Qed.

#[global] Instance partitionOffsetV1_response : Response partitionOffsetV1.
Proof. solve_response partitionOffsetV1_readFrom. Qed.

Definition partitionOffsetV1_wf (t : partitionOffsetV1) : Prop :=
  is_int32 (po_Partition t) ∧
  is_int16 (po_ErrorCode t) ∧
  is_int64 (po_Timestamp t) ∧
  is_int64 (po_Offset t).

Definition partitionOffsetV1_canon (t : partitionOffsetV1) : partitionOffsetV1 :=
  {| po_Partition := po_Partition t; po_ErrorCode := po_ErrorCode t; po_Timestamp := po_Timestamp t; po_Offset := po_Offset t |}.

Lemma partitionOffsetV1_reads t :
  partitionOffsetV1_wf t → reads readFrom (writeTo t) (partitionOffsetV1_canon t).
Proof.
  intros H. unfold partitionOffsetV1_wf in H. solve_codec partitionOffsetV1_readFrom partitionOffsetV1_writeTo partitionOffsetV1_canon.
Qed.

#[global] Instance partitionOffsetV1_codec : Codec partitionOffsetV1 :=
  {| wf := partitionOffsetV1_wf; canon := partitionOffsetV1_canon; codec_reads := partitionOffsetV1_reads |}.

(** ** [listOffsetResponseTopicV1] *)

Record listOffsetResponseTopicV1 : Type := {
  lost_TopicName : gostring;
  lost_PartitionOffsets : list partitionOffsetV1;
}.

Definition listOffsetResponseTopicV1_size (t : listOffsetResponseTopicV1) : Z :=
  sizeofString (lost_TopicName t) ⊞
  sizeofArray size (lost_PartitionOffsets t).

#[global] Instance listOffsetResponseTopicV1_sizable : Sizable listOffsetResponseTopicV1 := listOffsetResponseTopicV1_size.

Definition listOffsetResponseTopicV1_writeTo (t : listOffsetResponseTopicV1) : list byte :=
  writeString (lost_TopicName t) ++
  writeArray writeTo (lost_PartitionOffsets t).

#[global] Instance listOffsetResponseTopicV1_writable : Writable listOffsetResponseTopicV1 := listOffsetResponseTopicV1_writeTo.

#[global] Instance listOffsetResponseTopicV1_request : Request listOffsetResponseTopicV1.
Proof. solve_request listOffsetResponseTopicV1_size listOffsetResponseTopicV1_writeTo. Qed.

(** ** [listOffsetResponseV1] *)

Definition listOffsetResponseV1 : Type := list listOffsetResponseTopicV1.

Definition listOffsetResponseV1_size (r : listOffsetResponseV1) : Z :=
  sizeofArray size (r : list listOffsetResponseTopicV1).

#[global] Instance listOffsetResponseV1_sizable : Sizable listOffsetResponseV1 :=
  listOffsetResponseV1_size.

Definition listOffsetResponseV1_writeTo (r : listOffsetResponseV1) : list byte :=
  writeArray writeTo (r : list listOffsetResponseTopicV1).

#[global] Instance listOffsetResponseV1_writable : Writable listOffsetResponseV1 :=
  listOffsetResponseV1_writeTo.

#[global] Instance listOffsetResponseV1_request : Request listOffsetResponseV1.
Proof. solve_request listOffsetResponseV1_size listOffsetResponseV1_writeTo. Qed.

(** ** [findOffset] of offsetfetch.go *)

Definition findOffset (topic : gostring) (partition : Z) (response : offsetFetchResponseV1) :
    option Z :=
  let in_topic (r : offsetFetchResponseV1Response) :=
    if decide (ofst_Topic r = topic)
    then ofsp_Offset <$> List.find (λ pr, ofsp_Partition pr =? partition) (ofst_PartitionResponses r)
    else None in
  fold_left (λ acc r, match acc with Some o => Some o | None => in_topic r end)
    (ofs_Responses response) None.
