(* ===== verification/TopicMessages.v ===== *)
(** * Topic messages (createtopics.go, deletetopics.go, metadata.go) *)

From S2P Require Import Prelude Errors Bufio Read Write VarInt Wire.

(** ** [createTopicsRequestV0ConfigEntry] *)

Record createTopicsRequestV0ConfigEntry : Type := {
  ctce_ConfigName : gostring;
  ctce_ConfigValue : gostring;
}.

Definition createTopicsRequestV0ConfigEntry_size (t : createTopicsRequestV0ConfigEntry) : Z :=
  sizeofString (ctce_ConfigName t) ⊞
  sizeofString (ctce_ConfigValue t).

#[global] Instance createTopicsRequestV0ConfigEntry_sizable : Sizable createTopicsRequestV0ConfigEntry := createTopicsRequestV0ConfigEntry_size.

Definition createTopicsRequestV0ConfigEntry_writeTo (t : createTopicsRequestV0ConfigEntry) : list byte :=
  writeString (ctce_ConfigName t) ++
  writeString (ctce_ConfigValue t).

#[global] Instance createTopicsRequestV0ConfigEntry_writable : Writable createTopicsRequestV0ConfigEntry := createTopicsRequestV0ConfigEntry_writeTo.

#[global] Instance createTopicsRequestV0ConfigEntry_request : Request createTopicsRequestV0ConfigEntry.
Proof. solve_request createTopicsRequestV0ConfigEntry_size createTopicsRequestV0ConfigEntry_writeTo. Qed.

(** ** [createTopicsRequestV0ReplicaAssignment] *)

Record createTopicsRequestV0ReplicaAssignment : Type := {
  ctra_Partition : Z;
  ctra_Replicas : Z;
}.

Definition createTopicsRequestV0ReplicaAssignment_size (t : createTopicsRequestV0ReplicaAssignment) : Z :=
  sizeofInt32 (ctra_Partition t) ⊞
  sizeofInt32 (ctra_Replicas t).

#[global] Instance createTopicsRequestV0ReplicaAssignment_sizable : Sizable createTopicsRequestV0ReplicaAssignment := createTopicsRequestV0ReplicaAssignment_size.

Definition createTopicsRequestV0ReplicaAssignment_writeTo (t : createTopicsRequestV0ReplicaAssignment) : list byte :=
  writeInt32 (ctra_Partition t) ++
  writeInt32 (ctra_Replicas t).

#[global] Instance createTopicsRequestV0ReplicaAssignment_writable : Writable createTopicsRequestV0ReplicaAssignment := createTopicsRequestV0ReplicaAssignment_writeTo.

#[global] Instance createTopicsRequestV0ReplicaAssignment_request : Request createTopicsRequestV0ReplicaAssignment.
Proof. solve_request createTopicsRequestV0ReplicaAssignment_size createTopicsRequestV0ReplicaAssignment_writeTo. Qed.

(** ** [createTopicsRequestV0Topic] *)

Record createTopicsRequestV0Topic : Type := {
  ctt_Topic : gostring;
  ctt_NumPartitions : Z;
  ctt_ReplicationFactor : Z;
  ctt_ReplicaAssignments : list createTopicsRequestV0ReplicaAssignment;
  ctt_ConfigEntries : list createTopicsRequestV0ConfigEntry;
}.

Definition createTopicsRequestV0Topic_size (t : createTopicsRequestV0Topic) : Z :=
  sizeofString (ctt_Topic t) ⊞
  sizeofInt32 (ctt_NumPartitions t) ⊞
  sizeofInt16 (ctt_ReplicationFactor t) ⊞
  sizeofArray size (ctt_ReplicaAssignments t) ⊞
  sizeofArray size (ctt_ConfigEntries t).

#[global] Instance createTopicsRequestV0Topic_sizable : Sizable createTopicsRequestV0Topic := createTopicsRequestV0Topic_size.

Definition createTopicsRequestV0Topic_writeTo (t : createTopicsRequestV0Topic) : list byte :=
  writeString (ctt_Topic t) ++
  writeInt32 (ctt_NumPartitions t) ++
  writeInt16 (ctt_ReplicationFactor t) ++
  writeArray writeTo (ctt_ReplicaAssignments t) ++
  writeArray writeTo (ctt_ConfigEntries t).

#[global] Instance createTopicsRequestV0Topic_writable : Writable createTopicsRequestV0Topic := createTopicsRequestV0Topic_writeTo.

#[global] Instance createTopicsRequestV0Topic_request : Request createTopicsRequestV0Topic.
Proof. solve_request createTopicsRequestV0Topic_size createTopicsRequestV0Topic_writeTo. Qed.

(** ** [createTopicsRequestV0] *)

Record createTopicsRequestV0 : Type := {
  ctr_Topics : list createTopicsRequestV0Topic;
  ctr_Timeout : Z;
}.

Definition createTopicsRequestV0_size (t : createTopicsRequestV0) : Z :=
  sizeofArray size (ctr_Topics t) ⊞
  sizeofInt32 (ctr_Timeout t).

#[global] Instance createTopicsRequestV0_sizable : Sizable createTopicsRequestV0 := createTopicsRequestV0_size.

Definition createTopicsRequestV0_writeTo (t : createTopicsRequestV0) : list byte :=
  writeArray writeTo (ctr_Topics t) ++
  writeInt32 (ctr_Timeout t).

#[global] Instance createTopicsRequestV0_writable : Writable createTopicsRequestV0 := createTopicsRequestV0_writeTo.

#[global] Instance createTopicsRequestV0_request : Request createTopicsRequestV0.
Proof. solve_request createTopicsRequestV0_size createTopicsRequestV0_writeTo. Qed.

(** ** [createTopicsResponseV0TopicError] *)

Record createTopicsResponseV0TopicError : Type := {
  ctse_Topic : gostring;
  ctse_ErrorCode : Z;
}.

Definition createTopicsResponseV0TopicError_size (t : createTopicsResponseV0TopicError) : Z :=
  sizeofString (ctse_Topic t) ⊞
  sizeofInt16 (ctse_ErrorCode t).

#[global] Instance createTopicsResponseV0TopicError_sizable : Sizable createTopicsResponseV0TopicError := createTopicsResponseV0TopicError_size.

Definition createTopicsResponseV0TopicError_writeTo (t : createTopicsResponseV0TopicError) : list byte :=
  writeString (ctse_Topic t) ++
  writeInt16 (ctse_ErrorCode t).

#[global] Instance createTopicsResponseV0TopicError_writable : Writable createTopicsResponseV0TopicError := createTopicsResponseV0TopicError_writeTo.

Definition createTopicsResponseV0TopicError_readFrom : rd createTopicsResponseV0TopicError :=
  topic ← readString;
  errorCode ← readInt16;
  mret {| ctse_Topic := topic; ctse_ErrorCode := errorCode |}.

#[global] Instance createTopicsResponseV0TopicError_readable : Readable createTopicsResponseV0TopicError := createTopicsResponseV0TopicError_readFrom.

#[global] Instance createTopicsResponseV0TopicError_request : Request createTopicsResponseV0TopicError.
Proof. solve_request createTopicsResponseV0TopicError_size createTopicsResponseV0TopicError_writeTo. Qed.

#[global] Instance createTopicsResponseV0TopicError_response : Response createTopicsResponseV0TopicError.
Proof. solve_response createTopicsResponseV0TopicError_readFrom. Qed.

Definition createTopicsResponseV0TopicError_wf (t : createTopicsResponseV0TopicError) : Prop :=
  wf_string (ctse_Topic t) ∧
  is_int16 (ctse_ErrorCode t).

Definition createTopicsResponseV0TopicError_canon (t : createTopicsResponseV0TopicError) : createTopicsResponseV0TopicError :=
  {| ctse_Topic := ctse_Topic t; ctse_ErrorCode := ctse_ErrorCode t |}.

Lemma createTopicsResponseV0TopicError_reads t :
  createTopicsResponseV0TopicError_wf t → reads readFrom (writeTo t) (createTopicsResponseV0TopicError_canon t).
Proof.
  intros H. unfold createTopicsResponseV0TopicError_wf in H. solve_codec createTopicsResponseV0TopicError_readFrom createTopicsResponseV0TopicError_writeTo createTopicsResponseV0TopicError_canon.
Qed.

#[global] Instance createTopicsResponseV0TopicError_codec : Codec createTopicsResponseV0TopicError :=
  {| wf := createTopicsResponseV0TopicError_wf; canon := createTopicsResponseV0TopicError_canon; codec_reads := createTopicsResponseV0TopicError_reads |}.

(** ** [createTopicsResponseV0] *)

Record createTopicsResponseV0 : Type := {
  cts_TopicErrors : list createTopicsResponseV0TopicError;
}.

Definition createTopicsResponseV0_size (t : createTopicsResponseV0) : Z :=
  sizeofArray size (cts_TopicErrors t).

#[global] Instance createTopicsResponseV0_sizable : Sizable createTopicsResponseV0 := createTopicsResponseV0_size.

Definition createTopicsResponseV0_writeTo (t : createTopicsResponseV0) : list byte :=
  writeArray writeTo (cts_TopicErrors t).

#[global] Instance createTopicsResponseV0_writable : Writable createTopicsResponseV0 := createTopicsResponseV0_writeTo.

Definition createTopicsResponseV0_readFrom : rd createTopicsResponseV0 :=
  topicErrors ← readArrayWith readFrom;
  mret {| cts_TopicErrors := topicErrors |}.

#[global] Instance createTopicsResponseV0_readable : Readable createTopicsResponseV0 := createTopicsResponseV0_readFrom.

#[global] Instance createTopicsResponseV0_request : Request createTopicsResponseV0.
Proof. solve_request createTopicsResponseV0_size createTopicsResponseV0_writeTo. Qed.

#[global] Instance createTopicsResponseV0_response : Response createTopicsResponseV0.
Proof. solve_response createTopicsResponseV0_readFrom. Qed.

Definition createTopicsResponseV0_wf (t : createTopicsResponseV0) : Prop :=
  wf_list wf (cts_TopicErrors t).

Definition createTopicsResponseV0_canon (t : createTopicsResponseV0) : createTopicsResponseV0 :=
  {| cts_TopicErrors := map canon (cts_TopicErrors t) |}.

Lemma createTopicsResponseV0_reads t :
  createTopicsResponseV0_wf t → reads readFrom (writeTo t) (createTopicsResponseV0_canon t).
Proof.
  intros H. unfold createTopicsResponseV0_wf in H. solve_codec createTopicsResponseV0_readFrom createTopicsResponseV0_writeTo createTopicsResponseV0_canon.
Qed.

#[global] Instance createTopicsResponseV0_codec : Codec createTopicsResponseV0 :=
  {| wf := createTopicsResponseV0_wf; canon := createTopicsResponseV0_canon; codec_reads := createTopicsResponseV0_reads |}.

(** ** [deleteTopicsRequestV0] *)

Record deleteTopicsRequestV0 : Type := {
  dtr_Topics : list gostring;
  dtr_Timeout : Z;
}.

Definition deleteTopicsRequestV0_size (t : deleteTopicsRequestV0) : Z :=
  sizeofStringArray (dtr_Topics t) ⊞
  sizeofInt32 (dtr_Timeout t).

#[global] Instance deleteTopicsRequestV0_sizable : Sizable deleteTopicsRequestV0 := deleteTopicsRequestV0_size.

Definition deleteTopicsRequestV0_writeTo (t : deleteTopicsRequestV0) : list byte :=
  writeStringArray (dtr_Topics t) ++
  writeInt32 (dtr_Timeout t).

#[global] Instance deleteTopicsRequestV0_writable : Writable deleteTopicsRequestV0 := deleteTopicsRequestV0_writeTo.

#[global] Instance deleteTopicsRequestV0_request : Request deleteTopicsRequestV0.
Proof. solve_request deleteTopicsRequestV0_size deleteTopicsRequestV0_writeTo. Qed.

(** ** [deleteTopicsResponseV0TopicErrorCode] *)

Record deleteTopicsResponseV0TopicErrorCode : Type := {
  dtse_Topic : gostring;
  dtse_ErrorCode : Z;
}.

Definition deleteTopicsResponseV0TopicErrorCode_size (t : deleteTopicsResponseV0TopicErrorCode) : Z :=
  sizeofString (dtse_Topic t) ⊞
  sizeofInt16 (dtse_ErrorCode t).

#[global] Instance deleteTopicsResponseV0TopicErrorCode_sizable : Sizable deleteTopicsResponseV0TopicErrorCode := deleteTopicsResponseV0TopicErrorCode_size.

Definition deleteTopicsResponseV0TopicErrorCode_writeTo (t : deleteTopicsResponseV0TopicErrorCode) : list byte :=
  writeString (dtse_Topic t) ++
  writeInt16 (dtse_ErrorCode t).

#[global] Instance deleteTopicsResponseV0TopicErrorCode_writable : Writable deleteTopicsResponseV0TopicErrorCode := deleteTopicsResponseV0TopicErrorCode_writeTo.

Definition deleteTopicsResponseV0TopicErrorCode_readFrom : rd deleteTopicsResponseV0TopicErrorCode :=
  topic ← readString;
  errorCode ← readInt16;
  mret {| dtse_Topic := topic; dtse_ErrorCode := errorCode |}.

#[global] Instance deleteTopicsResponseV0TopicErrorCode_readable : Readable deleteTopicsResponseV0TopicErrorCode := deleteTopicsResponseV0TopicErrorCode_readFrom.

#[global] Instance deleteTopicsResponseV0TopicErrorCode_request : Request deleteTopicsResponseV0TopicErrorCode.
Proof. solve_request deleteTopicsResponseV0TopicErrorCode_size deleteTopicsResponseV0TopicErrorCode_writeTo. Qed.

#[global] Instance deleteTopicsResponseV0TopicErrorCode_response : Response deleteTopicsResponseV0TopicErrorCode.
Proof. solve_response deleteTopicsResponseV0TopicErrorCode_readFrom. Qed.

Definition deleteTopicsResponseV0TopicErrorCode_wf (t : deleteTopicsResponseV0TopicErrorCode) : Prop :=
  wf_string (dtse_Topic t) ∧
  is_int16 (dtse_ErrorCode t).

Definition deleteTopicsResponseV0TopicErrorCode_canon (t : deleteTopicsResponseV0TopicErrorCode) : deleteTopicsResponseV0TopicErrorCode :=
  {| dtse_Topic := dtse_Topic t; dtse_ErrorCode := dtse_ErrorCode t |}.

Lemma deleteTopicsResponseV0TopicErrorCode_reads t :
  deleteTopicsResponseV0TopicErrorCode_wf t → reads readFrom (writeTo t) (deleteTopicsResponseV0TopicErrorCode_canon t).
Proof.
  intros H. unfold deleteTopicsResponseV0TopicErrorCode_wf in H. solve_codec deleteTopicsResponseV0TopicErrorCode_readFrom deleteTopicsResponseV0TopicErrorCode_writeTo deleteTopicsResponseV0TopicErrorCode_canon.
Qed.

#[global] Instance deleteTopicsResponseV0TopicErrorCode_codec : Codec deleteTopicsResponseV0TopicErrorCode :=
  {| wf := deleteTopicsResponseV0TopicErrorCode_wf; canon := deleteTopicsResponseV0TopicErrorCode_canon; codec_reads := deleteTopicsResponseV0TopicErrorCode_reads |}.

(** ** [deleteTopicsResponseV0] *)

Record deleteTopicsResponseV0 : Type := {
  dts_TopicErrorCodes : list deleteTopicsResponseV0TopicErrorCode;
}.

Definition deleteTopicsResponseV0_size (t : deleteTopicsResponseV0) : Z :=
  sizeofArray size (dts_TopicErrorCodes t).

#[global] Instance deleteTopicsResponseV0_sizable : Sizable deleteTopicsResponseV0 := deleteTopicsResponseV0_size.

Definition deleteTopicsResponseV0_writeTo (t : deleteTopicsResponseV0) : list byte :=
  writeArray writeTo (dts_TopicErrorCodes t).

#[global] Instance deleteTopicsResponseV0_writable : Writable deleteTopicsResponseV0 := deleteTopicsResponseV0_writeTo.

Definition deleteTopicsResponseV0_readFrom : rd deleteTopicsResponseV0 :=
  topicErrorCodes ← readArrayWith readFrom;
  mret {| dts_TopicErrorCodes := topicErrorCodes |}.

#[global] Instance deleteTopicsResponseV0_readable : Readable deleteTopicsResponseV0 := deleteTopicsResponseV0_readFrom.

#[global] Instance deleteTopicsResponseV0_request : Request deleteTopicsResponseV0.
Proof. solve_request deleteTopicsResponseV0_size deleteTopicsResponseV0_writeTo. Qed.

#[global] Instance deleteTopicsResponseV0_response : Response deleteTopicsResponseV0.
Proof. solve_response deleteTopicsResponseV0_readFrom. Qed.

Definition deleteTopicsResponseV0_wf (t : deleteTopicsResponseV0) : Prop :=
  wf_list wf (dts_TopicErrorCodes t).

Definition deleteTopicsResponseV0_canon (t : deleteTopicsResponseV0) : deleteTopicsResponseV0 :=
  {| dts_TopicErrorCodes := map canon (dts_TopicErrorCodes t) |}.

Lemma deleteTopicsResponseV0_reads t :
  deleteTopicsResponseV0_wf t → reads readFrom (writeTo t) (deleteTopicsResponseV0_canon t).
Proof.
  intros H. unfold deleteTopicsResponseV0_wf in H. solve_codec deleteTopicsResponseV0_readFrom deleteTopicsResponseV0_writeTo deleteTopicsResponseV0_canon.
Qed.

#[global] Instance deleteTopicsResponseV0_codec : Codec deleteTopicsResponseV0 :=
  {| wf := deleteTopicsResponseV0_wf; canon := deleteTopicsResponseV0_canon; codec_reads := deleteTopicsResponseV0_reads |}.

(** ** [brokerMetadataV1] *)

Record brokerMetadataV1 : Type := {
  bm_NodeID : Z;
  bm_Host : gostring;
  bm_Port : Z;
  bm_Rack : gostring;
}.

Definition brokerMetadataV1_size (t : brokerMetadataV1) : Z :=
  4 ⊞
  4 ⊞
  sizeofString (bm_Host t) ⊞
  sizeofString (bm_Rack t).

#[global] Instance brokerMetadataV1_sizable : Sizable brokerMetadataV1 := brokerMetadataV1_size.

Definition brokerMetadataV1_writeTo (t : brokerMetadataV1) : list byte :=
  writeInt32 (bm_NodeID t) ++
  writeString (bm_Host t) ++
  writeInt32 (bm_Port t) ++
  writeString (bm_Rack t).

#[global] Instance brokerMetadataV1_writable : Writable brokerMetadataV1 := brokerMetadataV1_writeTo.

Definition brokerMetadataV1_read : rd brokerMetadataV1 :=
  nodeID ← readInt32;
  host ← readString;
  port ← readInt32;
  rack ← readString;
  mret {| bm_NodeID := nodeID; bm_Host := host; bm_Port := port; bm_Rack := rack |}.

#[global] Instance brokerMetadataV1_readable : Readable brokerMetadataV1 := brokerMetadataV1_read.

#[global] Instance brokerMetadataV1_request : Request brokerMetadataV1.
Proof. solve_request brokerMetadataV1_size brokerMetadataV1_writeTo. Qed.

#[global] Instance brokerMetadataV1_response : Response brokerMetadataV1.
Proof. solve_response brokerMetadataV1_read. Qed.

Definition brokerMetadataV1_wf (t : brokerMetadataV1) : Prop :=
  is_int32 (bm_NodeID t) ∧
  wf_string (bm_Host t) ∧
  is_int32 (bm_Port t) ∧
  wf_string (bm_Rack t).

Definition brokerMetadataV1_canon (t : brokerMetadataV1) : brokerMetadataV1 :=
  {| bm_NodeID := bm_NodeID t; bm_Host := bm_Host t; bm_Port := bm_Port t; bm_Rack := bm_Rack t |}.

Lemma brokerMetadataV1_reads t :
  brokerMetadataV1_wf t → reads readFrom (writeTo t) (brokerMetadataV1_canon t).
Proof.
  intros H. unfold brokerMetadataV1_wf in H. solve_codec brokerMetadataV1_read brokerMetadataV1_writeTo brokerMetadataV1_canon.
Qed.

#[global] Instance brokerMetadataV1_codec : Codec brokerMetadataV1 :=
  {| wf := brokerMetadataV1_wf; canon := brokerMetadataV1_canon; codec_reads := brokerMetadataV1_reads |}.

(** ** [partitionMetadataV1] *)

Record partitionMetadataV1 : Type := {
  pm_PartitionErrorCode : Z;
  pm_PartitionID : Z;
  pm_Leader : Z;
  pm_Replicas : list Z;
  pm_Isr : list Z;
}.

Definition partitionMetadataV1_size (t : partitionMetadataV1) : Z :=
  2 ⊞
  4 ⊞
  4 ⊞
  sizeofInt32Array (pm_Replicas t) ⊞
  sizeofInt32Array (pm_Isr t).

#[global] Instance partitionMetadataV1_sizable : Sizable partitionMetadataV1 := partitionMetadataV1_size.

Definition partitionMetadataV1_writeTo (t : partitionMetadataV1) : list byte :=
  writeInt16 (pm_PartitionErrorCode t) ++
  writeInt32 (pm_PartitionID t) ++
  writeInt32 (pm_Leader t) ++
  writeInt32Array (pm_Replicas t) ++
  writeInt32Array (pm_Isr t).

#[global] Instance partitionMetadataV1_writable : Writable partitionMetadataV1 := partitionMetadataV1_writeTo.

Definition partitionMetadataV1_read : rd partitionMetadataV1 :=
  partitionErrorCode ← readInt16;
  partitionID ← readInt32;
  leader ← readInt32;
  replicas ← readArrayWith readInt32;
  isr ← readArrayWith readInt32;
  mret {| pm_PartitionErrorCode := partitionErrorCode; pm_PartitionID := partitionID; pm_Leader := leader; pm_Replicas := replicas; pm_Isr := isr |}.

#[global] Instance partitionMetadataV1_readable : Readable partitionMetadataV1 := partitionMetadataV1_read.

#[global] Instance partitionMetadataV1_request : Request partitionMetadataV1.
Proof. solve_request partitionMetadataV1_size partitionMetadataV1_writeTo. Qed.

#[global] Instance partitionMetadataV1_response : Response partitionMetadataV1.
Proof. solve_response partitionMetadataV1_read. Qed.

Definition partitionMetadataV1_wf (t : partitionMetadataV1) : Prop :=
  is_int16 (pm_PartitionErrorCode t) ∧
  is_int32 (pm_PartitionID t) ∧
  is_int32 (pm_Leader t) ∧
  wf_list is_int32 (pm_Replicas t) ∧
  wf_list is_int32 (pm_Isr t).

Definition partitionMetadataV1_canon (t : partitionMetadataV1) : partitionMetadataV1 :=
  {| pm_PartitionErrorCode := pm_PartitionErrorCode t; pm_PartitionID := pm_PartitionID t; pm_Leader := pm_Leader t; pm_Replicas := pm_Replicas t; pm_Isr := pm_Isr t |}.

Lemma partitionMetadataV1_reads t :
  partitionMetadataV1_wf t → reads readFrom (writeTo t) (partitionMetadataV1_canon t).
Proof.
  intros H. unfold partitionMetadataV1_wf in H. solve_codec partitionMetadataV1_read partitionMetadataV1_writeTo partitionMetadataV1_canon.
Qed.

#[global] Instance partitionMetadataV1_codec : Codec partitionMetadataV1 :=
  {| wf := partitionMetadataV1_wf; canon := partitionMetadataV1_canon; codec_reads := partitionMetadataV1_reads |}.

(** ** [topicMetadataV1] *)

Record topicMetadataV1 : Type := {
  tm_TopicErrorCode : Z;
  tm_TopicName : gostring;
  tm_Internal : bool;
  tm_Partitions : list partitionMetadataV1;
}.

Definition topicMetadataV1_size (t : topicMetadataV1) : Z :=
  2 ⊞
  1 ⊞
  sizeofString (tm_TopicName t) ⊞
  sizeofArray size (tm_Partitions t).

#[global] Instance topicMetadataV1_sizable : Sizable topicMetadataV1 := topicMetadataV1_size.

Definition topicMetadataV1_writeTo (t : topicMetadataV1) : list byte :=
  writeInt16 (tm_TopicErrorCode t) ++
  writeString (tm_TopicName t) ++
  writeBool (tm_Internal t) ++
  writeArray writeTo (tm_Partitions t).

#[global] Instance topicMetadataV1_writable : Writable topicMetadataV1 := topicMetadataV1_writeTo.

Definition topicMetadataV1_read : rd topicMetadataV1 :=
  topicErrorCode ← readInt16;
  topicName ← readString;
  internal ← readBool;
  partitions ← readArrayWith readFrom;
  mret {| tm_TopicErrorCode := topicErrorCode; tm_TopicName := topicName; tm_Internal := internal; tm_Partitions := partitions |}.

#[global] Instance topicMetadataV1_readable : Readable topicMetadataV1 := topicMetadataV1_read.

#[global] Instance topicMetadataV1_request : Request topicMetadataV1.
Proof. solve_request topicMetadataV1_size topicMetadataV1_writeTo. Qed.

#[global] Instance topicMetadataV1_response : Response topicMetadataV1.
Proof. solve_response topicMetadataV1_read. Qed.

Definition topicMetadataV1_wf (t : topicMetadataV1) : Prop :=
  is_int16 (tm_TopicErrorCode t) ∧
  wf_string (tm_TopicName t) ∧
  wf_list wf (tm_Partitions t).

Definition topicMetadataV1_canon (t : topicMetadataV1) : topicMetadataV1 :=
  {| tm_TopicErrorCode := tm_TopicErrorCode t; tm_TopicName := tm_TopicName t; tm_Internal := tm_Internal t; tm_Partitions := map canon (tm_Partitions t) |}.

Lemma topicMetadataV1_reads t :
  topicMetadataV1_wf t → reads readFrom (writeTo t) (topicMetadataV1_canon t).
Proof.
  intros H. unfold topicMetadataV1_wf in H. solve_codec topicMetadataV1_read topicMetadataV1_writeTo topicMetadataV1_canon.
Qed.

#[global] Instance topicMetadataV1_codec : Codec topicMetadataV1 :=
  {| wf := topicMetadataV1_wf; canon := topicMetadataV1_canon; codec_reads := topicMetadataV1_reads |}.

(** ** [metadataResponseV1] *)

Record metadataResponseV1 : Type := {
  ms_Brokers : list brokerMetadataV1;
  ms_ControllerID : Z;
  ms_Topics : list topicMetadataV1;
}.

Definition metadataResponseV1_size (t : metadataResponseV1) : Z :=
  4 ⊞
  sizeofArray size (ms_Brokers t) ⊞
  sizeofArray size (ms_Topics t).

#[global] Instance metadataResponseV1_sizable : Sizable metadataResponseV1 := metadataResponseV1_size.

Definition metadataResponseV1_writeTo (t : metadataResponseV1) : list byte :=
  writeArray writeTo (ms_Brokers t) ++
  writeInt32 (ms_ControllerID t) ++
  writeArray writeTo (ms_Topics t).

#[global] Instance metadataResponseV1_writable : Writable metadataResponseV1 := metadataResponseV1_writeTo.

Definition metadataResponseV1_read : rd metadataResponseV1 :=
  brokers ← readArrayWith readFrom;
  controllerID ← readInt32;
  topics ← readArrayWith readFrom;
  mret {| ms_Brokers := brokers; ms_ControllerID := controllerID; ms_Topics := topics |}.

#[global] Instance metadataResponseV1_readable : Readable metadataResponseV1 := metadataResponseV1_read.

#[global] Instance metadataResponseV1_request : Request metadataResponseV1.
Proof. solve_request metadataResponseV1_size metadataResponseV1_writeTo. Qed.

#[global] Instance metadataResponseV1_response : Response metadataResponseV1.
Proof. solve_response metadataResponseV1_read. Qed.

Definition metadataResponseV1_wf (t : metadataResponseV1) : Prop :=
  wf_list wf (ms_Brokers t) ∧
  is_int32 (ms_ControllerID t) ∧
  wf_list wf (ms_Topics t).

Definition metadataResponseV1_canon (t : metadataResponseV1) : metadataResponseV1 :=
  {| ms_Brokers := map canon (ms_Brokers t); ms_ControllerID := ms_ControllerID t; ms_Topics := map canon (ms_Topics t) |}.

Lemma metadataResponseV1_reads t :
  metadataResponseV1_wf t → reads readFrom (writeTo t) (metadataResponseV1_canon t).
Proof.
  intros H. unfold metadataResponseV1_wf in H. solve_codec metadataResponseV1_read metadataResponseV1_writeTo metadataResponseV1_canon.
Qed.

#[global] Instance metadataResponseV1_codec : Codec metadataResponseV1 :=
  {| wf := metadataResponseV1_wf; canon := metadataResponseV1_canon; codec_reads := metadataResponseV1_reads |}.

(** ** [topicMetadataRequestV1] *)

Definition topicMetadataRequestV1 : Type := list gostring.

Definition topicMetadataRequestV1_size (r : topicMetadataRequestV1) : Z := sizeofStringArray r.

#[global] Instance topicMetadataRequestV1_sizable : Sizable topicMetadataRequestV1 :=
  topicMetadataRequestV1_size.

Definition topicMetadataRequestV1_writeTo (r : topicMetadataRequestV1) : list byte :=
  writeStringArray r.

#[global] Instance topicMetadataRequestV1_writable : Writable topicMetadataRequestV1 :=
  topicMetadataRequestV1_writeTo.

#[global] Instance topicMetadataRequestV1_request : Request topicMetadataRequestV1.
Proof. solve_request topicMetadataRequestV1_size topicMetadataRequestV1_writeTo. Qed.

(** ** Topic configurations: the public types and their wire forms *)

Record ConfigEntry : Type := {
  ce_ConfigName : gostring;
  ce_ConfigValue : gostring;
}.

Definition toCreateTopicsRequestV0ConfigEntry (c : ConfigEntry) : createTopicsRequestV0ConfigEntry :=
  {| ctce_ConfigName := ce_ConfigName c; ctce_ConfigValue := ce_ConfigValue c |}.

Record ReplicaAssignment : Type := {
  ra_Partition : Z;
  ra_Replicas : Z;
}.

Definition toCreateTopicsRequestV0ReplicaAssignment (a : ReplicaAssignment) :
    createTopicsRequestV0ReplicaAssignment :=
  {| ctra_Partition := int32 (ra_Partition a); ctra_Replicas := int32 (ra_Replicas a) |}.

Record TopicConfig : Type := {
  tc_Topic : gostring;
  tc_NumPartitions : Z;
  tc_ReplicationFactor : Z;
  tc_ReplicaAssignments : list ReplicaAssignment;
  tc_ConfigEntries : list ConfigEntry;
}.

Definition toCreateTopicsRequestV0Topic (t : TopicConfig) : createTopicsRequestV0Topic :=
  {| ctt_Topic := tc_Topic t;
     ctt_NumPartitions := int32 (tc_NumPartitions t);
     ctt_ReplicationFactor := int16 (tc_ReplicationFactor t);
     ctt_ReplicaAssignments :=
       map toCreateTopicsRequestV0ReplicaAssignment (tc_ReplicaAssignments t);
     ctt_ConfigEntries := map toCreateTopicsRequestV0ConfigEntry (tc_ConfigEntries t) |}.
