(* ===== verification/GroupMessages.v ===== *)
(** * Group messages (joingroup.go, syncgroup.go, heartbeat.go, leavegroup.go,
      listgroups.go, findcoordinator.go, describegroups.go) *)

From S2P Require Import Prelude Errors Bufio Read Write VarInt Wire.

(** ** [groupMetadata] *)

Record groupMetadata : Type := {
  gm_Version : Z;
  gm_Topics : list gostring;
  gm_UserData : bytes;
}.

Definition groupMetadata_size (t : groupMetadata) : Z :=
  sizeofInt16 (gm_Version t) ⊞
  sizeofStringArray (gm_Topics t) ⊞
  sizeofBytes (gm_UserData t).

#[global] Instance groupMetadata_sizable : Sizable groupMetadata := groupMetadata_size.

Definition groupMetadata_writeTo (t : groupMetadata) : list byte :=
  writeInt16 (gm_Version t) ++
  writeStringArray (gm_Topics t) ++
  writeBytes (gm_UserData t).

#[global] Instance groupMetadata_writable : Writable groupMetadata := groupMetadata_writeTo.

Definition groupMetadata_readFrom : rd groupMetadata :=
  version ← readInt16;
  topics ← readStringArray;
  userData ← readBytes;
  mret {| gm_Version := version; gm_Topics := topics; gm_UserData := userData |}.

#[global] Instance groupMetadata_readable : Readable groupMetadata := groupMetadata_readFrom.

#[global] Instance groupMetadata_request : Request groupMetadata.
Proof. solve_request groupMetadata_size groupMetadata_writeTo. Qed.

#[global] Instance groupMetadata_response : Response groupMetadata.
Proof. solve_response groupMetadata_readFrom. Qed.

Definition groupMetadata_wf (t : groupMetadata) : Prop :=
  is_int16 (gm_Version t) ∧
  wf_list wf_string (gm_Topics t) ∧
  wf_bytes (gm_UserData t).

Definition groupMetadata_canon (t : groupMetadata) : groupMetadata :=
  {| gm_Version := gm_Version t; gm_Topics := gm_Topics t; gm_UserData := bnorm (gm_UserData t) |}.

Lemma groupMetadata_reads t :
  groupMetadata_wf t → reads readFrom (writeTo t) (groupMetadata_canon t).
Proof.
  intros H. unfold groupMetadata_wf in H. solve_codec groupMetadata_readFrom groupMetadata_writeTo groupMetadata_canon.
Qed.

#[global] Instance groupMetadata_codec : Codec groupMetadata :=
  {| wf := groupMetadata_wf; canon := groupMetadata_canon; codec_reads := groupMetadata_reads |}.

(** ** [joinGroupRequestGroupProtocolV1] *)

Record joinGroupRequestGroupProtocolV1 : Type := {
  jgrp_ProtocolName : gostring;
  jgrp_ProtocolMetadata : bytes;
}.

Definition joinGroupRequestGroupProtocolV1_size (t : joinGroupRequestGroupProtocolV1) : Z :=
  sizeofString (jgrp_ProtocolName t) ⊞
  sizeofBytes (jgrp_ProtocolMetadata t).

#[global] Instance joinGroupRequestGroupProtocolV1_sizable : Sizable joinGroupRequestGroupProtocolV1 := joinGroupRequestGroupProtocolV1_size.

Definition joinGroupRequestGroupProtocolV1_writeTo (t : joinGroupRequestGroupProtocolV1) : list byte :=
  writeString (jgrp_ProtocolName t) ++
  writeBytes (jgrp_ProtocolMetadata t).

#[global] Instance joinGroupRequestGroupProtocolV1_writable : Writable joinGroupRequestGroupProtocolV1 := joinGroupRequestGroupProtocolV1_writeTo.

#[global] Instance joinGroupRequestGroupProtocolV1_request : Request joinGroupRequestGroupProtocolV1.
Proof. solve_request joinGroupRequestGroupProtocolV1_size joinGroupRequestGroupProtocolV1_writeTo. Qed.

(** ** [joinGroupRequestV1] *)

Record joinGroupRequestV1 : Type := {
  jgr_GroupID : gostring;
  jgr_SessionTimeout : Z;
  jgr_RebalanceTimeout : Z;
  jgr_MemberID : gostring;
  jgr_ProtocolType : gostring;
  jgr_GroupProtocols : list joinGroupRequestGroupProtocolV1;
}.

Definition joinGroupRequestV1_size (t : joinGroupRequestV1) : Z :=
  sizeofString (jgr_GroupID t) ⊞
  sizeofInt32 (jgr_SessionTimeout t) ⊞
  sizeofInt32 (jgr_RebalanceTimeout t) ⊞
  sizeofString (jgr_MemberID t) ⊞
  sizeofString (jgr_ProtocolType t) ⊞
  sizeofArray size (jgr_GroupProtocols t).

#[global] Instance joinGroupRequestV1_sizable : Sizable joinGroupRequestV1 := joinGroupRequestV1_size.

Definition joinGroupRequestV1_writeTo (t : joinGroupRequestV1) : list byte :=
  writeString (jgr_GroupID t) ++
  writeInt32 (jgr_SessionTimeout t) ++
  writeInt32 (jgr_RebalanceTimeout t) ++
  writeString (jgr_MemberID t) ++
  writeString (jgr_ProtocolType t) ++
  writeArray writeTo (jgr_GroupProtocols t).

#[global] Instance joinGroupRequestV1_writable : Writable joinGroupRequestV1 := joinGroupRequestV1_writeTo.

#[global] Instance joinGroupRequestV1_request : Request joinGroupRequestV1.
Proof. solve_request joinGroupRequestV1_size joinGroupRequestV1_writeTo. Qed.

(** ** [joinGroupResponseMemberV1] *)

Record joinGroupResponseMemberV1 : Type := {
  jgsm_MemberID : gostring;
  jgsm_MemberMetadata : bytes;
}.

Definition joinGroupResponseMemberV1_size (t : joinGroupResponseMemberV1) : Z :=
  sizeofString (jgsm_MemberID t) ⊞
  sizeofBytes (jgsm_MemberMetadata t).

#[global] Instance joinGroupResponseMemberV1_sizable : Sizable joinGroupResponseMemberV1 := joinGroupResponseMemberV1_size.

Definition joinGroupResponseMemberV1_writeTo (t : joinGroupResponseMemberV1) : list byte :=
  writeString (jgsm_MemberID t) ++
  writeBytes (jgsm_MemberMetadata t).

#[global] Instance joinGroupResponseMemberV1_writable : Writable joinGroupResponseMemberV1 := joinGroupResponseMemberV1_writeTo.

Definition joinGroupResponseMemberV1_readFrom : rd joinGroupResponseMemberV1 :=
  memberID ← readString;
  memberMetadata ← readBytes;
  mret {| jgsm_MemberID := memberID; jgsm_MemberMetadata := memberMetadata |}.

#[global] Instance joinGroupResponseMemberV1_readable : Readable joinGroupResponseMemberV1 := joinGroupResponseMemberV1_readFrom.

#[global] Instance joinGroupResponseMemberV1_request : Request joinGroupResponseMemberV1.
Proof. solve_request joinGroupResponseMemberV1_size joinGroupResponseMemberV1_writeTo. Qed.

#[global] Instance joinGroupResponseMemberV1_response : Response joinGroupResponseMemberV1.
Proof. solve_response joinGroupResponseMemberV1_readFrom. Qed.

Definition joinGroupResponseMemberV1_wf (t : joinGroupResponseMemberV1) : Prop :=
  wf_string (jgsm_MemberID t) ∧
  wf_bytes (jgsm_MemberMetadata t).

Definition joinGroupResponseMemberV1_canon (t : joinGroupResponseMemberV1) : joinGroupResponseMemberV1 :=
  {| jgsm_MemberID := jgsm_MemberID t; jgsm_MemberMetadata := bnorm (jgsm_MemberMetadata t) |}.

Lemma joinGroupResponseMemberV1_reads t :
  joinGroupResponseMemberV1_wf t → reads readFrom (writeTo t) (joinGroupResponseMemberV1_canon t).
Proof.
  intros H. unfold joinGroupResponseMemberV1_wf in H. solve_codec joinGroupResponseMemberV1_readFrom joinGroupResponseMemberV1_writeTo joinGroupResponseMemberV1_canon.
Qed.

#[global] Instance joinGroupResponseMemberV1_codec : Codec joinGroupResponseMemberV1 :=
  {| wf := joinGroupResponseMemberV1_wf; canon := joinGroupResponseMemberV1_canon; codec_reads := joinGroupResponseMemberV1_reads |}.

(** ** [joinGroupResponseV1] *)

Record joinGroupResponseV1 : Type := {
  jgs_ErrorCode : Z;
  jgs_GenerationID : Z;
  jgs_GroupProtocol : gostring;
  jgs_LeaderID : gostring;
  jgs_MemberID : gostring;
  jgs_Members : list joinGroupResponseMemberV1;
}.

Definition joinGroupResponseV1_writeTo (t : joinGroupResponseV1) : list byte :=
  writeInt16 (jgs_ErrorCode t) ++
  writeInt32 (jgs_GenerationID t) ++
  writeString (jgs_GroupProtocol t) ++
  writeString (jgs_LeaderID t) ++
  writeString (jgs_MemberID t) ++
  writeArray writeTo (jgs_Members t).

#[global] Instance joinGroupResponseV1_writable : Writable joinGroupResponseV1 := joinGroupResponseV1_writeTo.

Definition joinGroupResponseV1_readFrom : rd joinGroupResponseV1 :=
  errorCode ← readInt16;
  generationID ← readInt32;
  groupProtocol ← readString;
  leaderID ← readString;
  memberID ← readString;
  members ← readArrayWith readFrom;
  mret {| jgs_ErrorCode := errorCode; jgs_GenerationID := generationID; jgs_GroupProtocol := groupProtocol; jgs_LeaderID := leaderID; jgs_MemberID := memberID; jgs_Members := members |}.

#[global] Instance joinGroupResponseV1_readable : Readable joinGroupResponseV1 := joinGroupResponseV1_readFrom.

#[global] Instance joinGroupResponseV1_response : Response joinGroupResponseV1.
Proof. solve_response joinGroupResponseV1_readFrom. Qed.

Definition joinGroupResponseV1_wf (t : joinGroupResponseV1) : Prop :=
  is_int16 (jgs_ErrorCode t) ∧
  is_int32 (jgs_GenerationID t) ∧
  wf_string (jgs_GroupProtocol t) ∧
  wf_string (jgs_LeaderID t) ∧
  wf_string (jgs_MemberID t) ∧
  wf_list wf (jgs_Members t).

Definition joinGroupResponseV1_canon (t : joinGroupResponseV1) : joinGroupResponseV1 :=
  {| jgs_ErrorCode := jgs_ErrorCode t; jgs_GenerationID := jgs_GenerationID t; jgs_GroupProtocol := jgs_GroupProtocol t; jgs_LeaderID := jgs_LeaderID t; jgs_MemberID := jgs_MemberID t; jgs_Members := map canon (jgs_Members t) |}.

Lemma joinGroupResponseV1_reads t :
  joinGroupResponseV1_wf t → reads readFrom (writeTo t) (joinGroupResponseV1_canon t).
Proof.
  intros H. unfold joinGroupResponseV1_wf in H. solve_codec joinGroupResponseV1_readFrom joinGroupResponseV1_writeTo joinGroupResponseV1_canon.
Qed.

#[global] Instance joinGroupResponseV1_codec : Codec joinGroupResponseV1 :=
  {| wf := joinGroupResponseV1_wf; canon := joinGroupResponseV1_canon; codec_reads := joinGroupResponseV1_reads |}.

(** ** [syncGroupRequestGroupAssignmentV0] *)

Record syncGroupRequestGroupAssignmentV0 : Type := {
  sgra_MemberID : gostring;
  sgra_MemberAssignments : bytes;
}.

Definition syncGroupRequestGroupAssignmentV0_size (t : syncGroupRequestGroupAssignmentV0) : Z :=
  sizeofString (sgra_MemberID t) ⊞
  sizeofBytes (sgra_MemberAssignments t).

#[global] Instance syncGroupRequestGroupAssignmentV0_sizable : Sizable syncGroupRequestGroupAssignmentV0 := syncGroupRequestGroupAssignmentV0_size.

Definition syncGroupRequestGroupAssignmentV0_writeTo (t : syncGroupRequestGroupAssignmentV0) : list byte :=
  writeString (sgra_MemberID t) ++
  writeBytes (sgra_MemberAssignments t).

#[global] Instance syncGroupRequestGroupAssignmentV0_writable : Writable syncGroupRequestGroupAssignmentV0 := syncGroupRequestGroupAssignmentV0_writeTo.

#[global] Instance syncGroupRequestGroupAssignmentV0_request : Request syncGroupRequestGroupAssignmentV0.
Proof. solve_request syncGroupRequestGroupAssignmentV0_size syncGroupRequestGroupAssignmentV0_writeTo. Qed.

(** ** [syncGroupRequestV0] *)

Record syncGroupRequestV0 : Type := {
  sgr_GroupID : gostring;
  sgr_GenerationID : Z;
  sgr_MemberID : gostring;
  sgr_GroupAssignments : list syncGroupRequestGroupAssignmentV0;
}.

Definition syncGroupRequestV0_size (t : syncGroupRequestV0) : Z :=
  sizeofString (sgr_GroupID t) ⊞
  sizeofInt32 (sgr_GenerationID t) ⊞
  sizeofString (sgr_MemberID t) ⊞
  sizeofArray size (sgr_GroupAssignments t).

#[global] Instance syncGroupRequestV0_sizable : Sizable syncGroupRequestV0 := syncGroupRequestV0_size.

Definition syncGroupRequestV0_writeTo (t : syncGroupRequestV0) : list byte :=
  writeString (sgr_GroupID t) ++
  writeInt32 (sgr_GenerationID t) ++
  writeString (sgr_MemberID t) ++
  writeArray writeTo (sgr_GroupAssignments t).

#[global] Instance syncGroupRequestV0_writable : Writable syncGroupRequestV0 := syncGroupRequestV0_writeTo.

#[global] Instance syncGroupRequestV0_request : Request syncGroupRequestV0.
Proof. solve_request syncGroupRequestV0_size syncGroupRequestV0_writeTo. Qed.

(** ** [syncGroupResponseV0] *)

Record syncGroupResponseV0 : Type := {
  sgs_ErrorCode : Z;
  sgs_MemberAssignments : bytes;
}.

Definition syncGroupResponseV0_size (t : syncGroupResponseV0) : Z :=
  sizeofInt16 (sgs_ErrorCode t) ⊞
  sizeofBytes (sgs_MemberAssignments t).

#[global] Instance syncGroupResponseV0_sizable : Sizable syncGroupResponseV0 := syncGroupResponseV0_size.

Definition syncGroupResponseV0_writeTo (t : syncGroupResponseV0) : list byte :=
  writeInt16 (sgs_ErrorCode t) ++
  writeBytes (sgs_MemberAssignments t).

#[global] Instance syncGroupResponseV0_writable : Writable syncGroupResponseV0 := syncGroupResponseV0_writeTo.

Definition syncGroupResponseV0_readFrom : rd syncGroupResponseV0 :=
  errorCode ← readInt16;
  memberAssignments ← readBytes;
  mret {| sgs_ErrorCode := errorCode; sgs_MemberAssignments := memberAssignments |}.

#[global] Instance syncGroupResponseV0_readable : Readable syncGroupResponseV0 := syncGroupResponseV0_readFrom.

#[global] Instance syncGroupResponseV0_request : Request syncGroupResponseV0.
Proof. solve_request syncGroupResponseV0_size syncGroupResponseV0_writeTo. Qed.

#[global] Instance syncGroupResponseV0_response : Response syncGroupResponseV0.
Proof. solve_response syncGroupResponseV0_readFrom. Qed.

Definition syncGroupResponseV0_wf (t : syncGroupResponseV0) : Prop :=
  is_int16 (sgs_ErrorCode t) ∧
  wf_bytes (sgs_MemberAssignments t).

Definition syncGroupResponseV0_canon (t : syncGroupResponseV0) : syncGroupResponseV0 :=
  {| sgs_ErrorCode := sgs_ErrorCode t; sgs_MemberAssignments := bnorm (sgs_MemberAssignments t) |}.

Lemma syncGroupResponseV0_reads t :
  syncGroupResponseV0_wf t → reads readFrom (writeTo t) (syncGroupResponseV0_canon t).
Proof.
  intros H. unfold syncGroupResponseV0_wf in H. solve_codec syncGroupResponseV0_readFrom syncGroupResponseV0_writeTo syncGroupResponseV0_canon.
Qed.

#[global] Instance syncGroupResponseV0_codec : Codec syncGroupResponseV0 :=
  {| wf := syncGroupResponseV0_wf; canon := syncGroupResponseV0_canon; codec_reads := syncGroupResponseV0_reads |}.

(** ** [heartbeatRequestV0] *)

Record heartbeatRequestV0 : Type := {
  hbr_GroupID : gostring;
  hbr_GenerationID : Z;
  hbr_MemberID : gostring;
}.

Definition heartbeatRequestV0_size (t : heartbeatRequestV0) : Z :=
  sizeofString (hbr_GroupID t) ⊞
  sizeofInt32 (hbr_GenerationID t) ⊞
  sizeofString (hbr_MemberID t).

#[global] Instance heartbeatRequestV0_sizable : Sizable heartbeatRequestV0 := heartbeatRequestV0_size.

Definition heartbeatRequestV0_writeTo (t : heartbeatRequestV0) : list byte :=
  writeString (hbr_GroupID t) ++
  writeInt32 (hbr_GenerationID t) ++
  writeString (hbr_MemberID t).

#[global] Instance heartbeatRequestV0_writable : Writable heartbeatRequestV0 := heartbeatRequestV0_writeTo.

#[global] Instance heartbeatRequestV0_request : Request heartbeatRequestV0.
Proof. solve_request heartbeatRequestV0_size heartbeatRequestV0_writeTo. Qed.

(** ** [heartbeatResponseV0] *)

Record heartbeatResponseV0 : Type := {
  hbs_ErrorCode : Z;
}.

Definition heartbeatResponseV0_size (t : heartbeatResponseV0) : Z :=
  sizeofInt16 (hbs_ErrorCode t).

#[global] Instance heartbeatResponseV0_sizable : Sizable heartbeatResponseV0 := heartbeatResponseV0_size.

Definition heartbeatResponseV0_writeTo (t : heartbeatResponseV0) : list byte :=
  writeInt16 (hbs_ErrorCode t).

#[global] Instance heartbeatResponseV0_writable : Writable heartbeatResponseV0 := heartbeatResponseV0_writeTo.

Definition heartbeatResponseV0_readFrom : rd heartbeatResponseV0 :=
  errorCode ← readInt16;
  mret {| hbs_ErrorCode := errorCode |}.

#[global] Instance heartbeatResponseV0_readable : Readable heartbeatResponseV0 := heartbeatResponseV0_readFrom.

#[global] Instance heartbeatResponseV0_request : Request heartbeatResponseV0.
Proof. solve_request heartbeatResponseV0_size heartbeatResponseV0_writeTo. Qed.

#[global] Instance heartbeatResponseV0_response : Response heartbeatResponseV0.
Proof. solve_response heartbeatResponseV0_readFrom. Qed.

Definition heartbeatResponseV0_wf (t : heartbeatResponseV0) : Prop :=
  is_int16 (hbs_ErrorCode t).

Definition heartbeatResponseV0_canon (t : heartbeatResponseV0) : heartbeatResponseV0 :=
  {| hbs_ErrorCode := hbs_ErrorCode t |}.

Lemma heartbeatResponseV0_reads t :
  heartbeatResponseV0_wf t → reads readFrom (writeTo t) (heartbeatResponseV0_canon t).
Proof.
  intros H. unfold heartbeatResponseV0_wf in H. solve_codec heartbeatResponseV0_readFrom heartbeatResponseV0_writeTo heartbeatResponseV0_canon.
Qed.

#[global] Instance heartbeatResponseV0_codec : Codec heartbeatResponseV0 :=
  {| wf := heartbeatResponseV0_wf; canon := heartbeatResponseV0_canon; codec_reads := heartbeatResponseV0_reads |}.

(** ** [leaveGroupRequestV0] *)

Record leaveGroupRequestV0 : Type := {
  lgr_GroupID : gostring;
  lgr_MemberID : gostring;
}.

Definition leaveGroupRequestV0_size (t : leaveGroupRequestV0) : Z :=
  sizeofString (lgr_GroupID t) ⊞
  sizeofString (lgr_MemberID t).

#[global] Instance leaveGroupRequestV0_sizable : Sizable leaveGroupRequestV0 := leaveGroupRequestV0_size.

Definition leaveGroupRequestV0_writeTo (t : leaveGroupRequestV0) : list byte :=
  writeString (lgr_GroupID t) ++
  writeString (lgr_MemberID t).

#[global] Instance leaveGroupRequestV0_writable : Writable leaveGroupRequestV0 := leaveGroupRequestV0_writeTo.

#[global] Instance leaveGroupRequestV0_request : Request leaveGroupRequestV0.
Proof. solve_request leaveGroupRequestV0_size leaveGroupRequestV0_writeTo. Qed.

(** ** [leaveGroupResponseV0] *)

Record leaveGroupResponseV0 : Type := {
  lgs_ErrorCode : Z;
}.

Definition leaveGroupResponseV0_size (t : leaveGroupResponseV0) : Z :=
  sizeofInt16 (lgs_ErrorCode t).

#[global] Instance leaveGroupResponseV0_sizable : Sizable leaveGroupResponseV0 := leaveGroupResponseV0_size.

Definition leaveGroupResponseV0_writeTo (t : leaveGroupResponseV0) : list byte :=
  writeInt16 (lgs_ErrorCode t).

#[global] Instance leaveGroupResponseV0_writable : Writable leaveGroupResponseV0 := leaveGroupResponseV0_writeTo.

Definition leaveGroupResponseV0_readFrom : rd leaveGroupResponseV0 :=
  errorCode ← readInt16;
  mret {| lgs_ErrorCode := errorCode |}.

#[global] Instance leaveGroupResponseV0_readable : Readable leaveGroupResponseV0 := leaveGroupResponseV0_readFrom.

#[global] Instance leaveGroupResponseV0_request : Request leaveGroupResponseV0.
Proof. solve_request leaveGroupResponseV0_size leaveGroupResponseV0_writeTo. Qed.

#[global] Instance leaveGroupResponseV0_response : Response leaveGroupResponseV0.
Proof. solve_response leaveGroupResponseV0_readFrom. Qed.

Definition leaveGroupResponseV0_wf (t : leaveGroupResponseV0) : Prop :=
  is_int16 (lgs_ErrorCode t).

Definition leaveGroupResponseV0_canon (t : leaveGroupResponseV0) : leaveGroupResponseV0 :=
  {| lgs_ErrorCode := lgs_ErrorCode t |}.

Lemma leaveGroupResponseV0_reads t :
  leaveGroupResponseV0_wf t → reads readFrom (writeTo t) (leaveGroupResponseV0_canon t).
Proof.
  intros H. unfold leaveGroupResponseV0_wf in H. solve_codec leaveGroupResponseV0_readFrom leaveGroupResponseV0_writeTo leaveGroupResponseV0_canon.
Qed.

#[global] Instance leaveGroupResponseV0_codec : Codec leaveGroupResponseV0 :=
  {| wf := leaveGroupResponseV0_wf; canon := leaveGroupResponseV0_canon; codec_reads := leaveGroupResponseV0_reads |}.

(** ** [ListGroupsResponseGroupV1] *)

Record ListGroupsResponseGroupV1 : Type := {
  lsg_GroupID : gostring;
  lsg_ProtocolType : gostring;
}.

Definition ListGroupsResponseGroupV1_size (t : ListGroupsResponseGroupV1) : Z :=
  sizeofString (lsg_GroupID t) ⊞
  sizeofString (lsg_ProtocolType t).

#[global] Instance ListGroupsResponseGroupV1_sizable : Sizable ListGroupsResponseGroupV1 := ListGroupsResponseGroupV1_size.

Definition ListGroupsResponseGroupV1_writeTo (t : ListGroupsResponseGroupV1) : list byte :=
  writeString (lsg_GroupID t) ++
  writeString (lsg_ProtocolType t).

#[global] Instance ListGroupsResponseGroupV1_writable : Writable ListGroupsResponseGroupV1 := ListGroupsResponseGroupV1_writeTo.

Definition ListGroupsResponseGroupV1_readFrom : rd ListGroupsResponseGroupV1 :=
  groupID ← readString;
  protocolType ← readString;
  mret {| lsg_GroupID := groupID; lsg_ProtocolType := protocolType |}.

#[global] Instance ListGroupsResponseGroupV1_readable : Readable ListGroupsResponseGroupV1 := ListGroupsResponseGroupV1_readFrom.

#[global] Instance ListGroupsResponseGroupV1_request : Request ListGroupsResponseGroupV1.
Proof. solve_request ListGroupsResponseGroupV1_size ListGroupsResponseGroupV1_writeTo. Qed.

#[global] Instance ListGroupsResponseGroupV1_response : Response ListGroupsResponseGroupV1.
Proof. solve_response ListGroupsResponseGroupV1_readFrom. Qed.

Definition ListGroupsResponseGroupV1_wf (t : ListGroupsResponseGroupV1) : Prop :=
  wf_string (lsg_GroupID t) ∧
  wf_string (lsg_ProtocolType t).

Definition ListGroupsResponseGroupV1_canon (t : ListGroupsResponseGroupV1) : ListGroupsResponseGroupV1 :=
  {| lsg_GroupID := lsg_GroupID t; lsg_ProtocolType := lsg_ProtocolType t |}.

Lemma ListGroupsResponseGroupV1_reads t :
  ListGroupsResponseGroupV1_wf t → reads readFrom (writeTo t) (ListGroupsResponseGroupV1_canon t).
Proof.
  intros H. unfold ListGroupsResponseGroupV1_wf in H. solve_codec ListGroupsResponseGroupV1_readFrom ListGroupsResponseGroupV1_writeTo ListGroupsResponseGroupV1_canon.
Qed.

#[global] Instance ListGroupsResponseGroupV1_codec : Codec ListGroupsResponseGroupV1 :=
  {| wf := ListGroupsResponseGroupV1_wf; canon := ListGroupsResponseGroupV1_canon; codec_reads := ListGroupsResponseGroupV1_reads |}.

(** ** [listGroupsResponseV1] *)

Record listGroupsResponseV1 : Type := {
  lss_ThrottleTimeMS : Z;
  lss_ErrorCode : Z;
  lss_Groups : list ListGroupsResponseGroupV1;
}.

Definition listGroupsResponseV1_size (t : listGroupsResponseV1) : Z :=
  sizeofInt32 (lss_ThrottleTimeMS t) ⊞
  sizeofInt16 (lss_ErrorCode t) ⊞
  sizeofArray size (lss_Groups t).

#[global] Instance listGroupsResponseV1_sizable : Sizable listGroupsResponseV1 := listGroupsResponseV1_size.

Definition listGroupsResponseV1_writeTo (t : listGroupsResponseV1) : list byte :=
  writeInt32 (lss_ThrottleTimeMS t) ++
  writeInt16 (lss_ErrorCode t) ++
  writeArray writeTo (lss_Groups t).

#[global] Instance listGroupsResponseV1_writable : Writable listGroupsResponseV1 := listGroupsResponseV1_writeTo.

Definition listGroupsResponseV1_readFrom : rd listGroupsResponseV1 :=
  throttleTimeMS ← readInt32;
  errorCode ← readInt16;
  groups ← readArrayWith readFrom;
  mret {| lss_ThrottleTimeMS := throttleTimeMS; lss_ErrorCode := errorCode; lss_Groups := groups |}.

#[global] Instance listGroupsResponseV1_readable : Readable listGroupsResponseV1 := listGroupsResponseV1_readFrom.

#[global] Instance listGroupsResponseV1_request : Request listGroupsResponseV1.
Proof. solve_request listGroupsResponseV1_size listGroupsResponseV1_writeTo. Qed.

#[global] Instance listGroupsResponseV1_response : Response listGroupsResponseV1.
Proof. solve_response listGroupsResponseV1_readFrom. Qed.

Definition listGroupsResponseV1_wf (t : listGroupsResponseV1) : Prop :=
  is_int32 (lss_ThrottleTimeMS t) ∧
  is_int16 (lss_ErrorCode t) ∧
  wf_list wf (lss_Groups t).

Definition listGroupsResponseV1_canon (t : listGroupsResponseV1) : listGroupsResponseV1 :=
  {| lss_ThrottleTimeMS := lss_ThrottleTimeMS t; lss_ErrorCode := lss_ErrorCode t; lss_Groups := map canon (lss_Groups t) |}.

Lemma listGroupsResponseV1_reads t :
  listGroupsResponseV1_wf t → reads readFrom (writeTo t) (listGroupsResponseV1_canon t).
Proof.
  intros H. unfold listGroupsResponseV1_wf in H. solve_codec listGroupsResponseV1_readFrom listGroupsResponseV1_writeTo listGroupsResponseV1_canon.
Qed.

#[global] Instance listGroupsResponseV1_codec : Codec listGroupsResponseV1 :=
  {| wf := listGroupsResponseV1_wf; canon := listGroupsResponseV1_canon; codec_reads := listGroupsResponseV1_reads |}.

(** ** [findCoordinatorRequestV0] *)

Record findCoordinatorRequestV0 : Type := {
  fcr_CoordinatorKey : gostring;
}.

Definition findCoordinatorRequestV0_size (t : findCoordinatorRequestV0) : Z :=
  sizeofString (fcr_CoordinatorKey t).

#[global] Instance findCoordinatorRequestV0_sizable : Sizable findCoordinatorRequestV0 := findCoordinatorRequestV0_size.

Definition findCoordinatorRequestV0_writeTo (t : findCoordinatorRequestV0) : list byte :=
  writeString (fcr_CoordinatorKey t).

#[global] Instance findCoordinatorRequestV0_writable : Writable findCoordinatorRequestV0 := findCoordinatorRequestV0_writeTo.

#[global] Instance findCoordinatorRequestV0_request : Request findCoordinatorRequestV0.
Proof. solve_request findCoordinatorRequestV0_size findCoordinatorRequestV0_writeTo. Qed.

(** ** [findCoordinatorResponseCoordinatorV0] *)

Record findCoordinatorResponseCoordinatorV0 : Type := {
  fcc_NodeID : Z;
  fcc_Host : gostring;
  fcc_Port : Z;
}.

Definition findCoordinatorResponseCoordinatorV0_size (t : findCoordinatorResponseCoordinatorV0) : Z :=
  sizeofInt32 (fcc_NodeID t) ⊞
  sizeofString (fcc_Host t) ⊞
  sizeofInt32 (fcc_Port t).

#[global] Instance findCoordinatorResponseCoordinatorV0_sizable : Sizable findCoordinatorResponseCoordinatorV0 := findCoordinatorResponseCoordinatorV0_size.

Definition findCoordinatorResponseCoordinatorV0_writeTo (t : findCoordinatorResponseCoordinatorV0) : list byte :=
  writeInt32 (fcc_NodeID t) ++
  writeString (fcc_Host t) ++
  writeInt32 (fcc_Port t).

#[global] Instance findCoordinatorResponseCoordinatorV0_writable : Writable findCoordinatorResponseCoordinatorV0 := findCoordinatorResponseCoordinatorV0_writeTo.

Definition findCoordinatorResponseCoordinatorV0_readFrom : rd findCoordinatorResponseCoordinatorV0 :=
  nodeID ← readInt32;
  host ← readString;
  port ← readInt32;
  mret {| fcc_NodeID := nodeID; fcc_Host := host; fcc_Port := port |}.

#[global] Instance findCoordinatorResponseCoordinatorV0_readable : Readable findCoordinatorResponseCoordinatorV0 := findCoordinatorResponseCoordinatorV0_readFrom.

#[global] Instance findCoordinatorResponseCoordinatorV0_request : Request findCoordinatorResponseCoordinatorV0.
Proof. solve_request findCoordinatorResponseCoordinatorV0_size findCoordinatorResponseCoordinatorV0_writeTo. Qed.

#[global] Instance findCoordinatorResponseCoordinatorV0_response : Response findCoordinatorResponseCoordinatorV0.
Proof. solve_response findCoordinatorResponseCoordinatorV0_readFrom. Qed.

Definition findCoordinatorResponseCoordinatorV0_wf (t : findCoordinatorResponseCoordinatorV0) : Prop :=
  is_int32 (fcc_NodeID t) ∧
  wf_string (fcc_Host t) ∧
  is_int32 (fcc_Port t).

Definition findCoordinatorResponseCoordinatorV0_canon (t : findCoordinatorResponseCoordinatorV0) : findCoordinatorResponseCoordinatorV0 :=
  {| fcc_NodeID := fcc_NodeID t; fcc_Host := fcc_Host t; fcc_Port := fcc_Port t |}.

Lemma findCoordinatorResponseCoordinatorV0_reads t :
  findCoordinatorResponseCoordinatorV0_wf t → reads readFrom (writeTo t) (findCoordinatorResponseCoordinatorV0_canon t).
Proof.
  intros H. unfold findCoordinatorResponseCoordinatorV0_wf in H. solve_codec findCoordinatorResponseCoordinatorV0_readFrom findCoordinatorResponseCoordinatorV0_writeTo findCoordinatorResponseCoordinatorV0_canon.
Qed.

#[global] Instance findCoordinatorResponseCoordinatorV0_codec : Codec findCoordinatorResponseCoordinatorV0 :=
  {| wf := findCoordinatorResponseCoordinatorV0_wf; canon := findCoordinatorResponseCoordinatorV0_canon; codec_reads := findCoordinatorResponseCoordinatorV0_reads |}.

(** ** [findCoordinatorResponseV0] *)

Record findCoordinatorResponseV0 : Type := {
  fcs_ErrorCode : Z;
  fcs_Coordinator : findCoordinatorResponseCoordinatorV0;
}.

Definition findCoordinatorResponseV0_size (t : findCoordinatorResponseV0) : Z :=
  sizeofInt16 (fcs_ErrorCode t) ⊞
  size (fcs_Coordinator t).

#[global] Instance findCoordinatorResponseV0_sizable : Sizable findCoordinatorResponseV0 := findCoordinatorResponseV0_size.

Definition findCoordinatorResponseV0_writeTo (t : findCoordinatorResponseV0) : list byte :=
  writeInt16 (fcs_ErrorCode t) ++
  writeTo (fcs_Coordinator t).

#[global] Instance findCoordinatorResponseV0_writable : Writable findCoordinatorResponseV0 := findCoordinatorResponseV0_writeTo.

Definition findCoordinatorResponseV0_readFrom : rd findCoordinatorResponseV0 :=
  errorCode ← readInt16;
  coordinator ← readFrom;
  mret {| fcs_ErrorCode := errorCode; fcs_Coordinator := coordinator |}.

#[global] Instance findCoordinatorResponseV0_readable : Readable findCoordinatorResponseV0 := findCoordinatorResponseV0_readFrom.

#[global] Instance findCoordinatorResponseV0_request : Request findCoordinatorResponseV0.
Proof. solve_request findCoordinatorResponseV0_size findCoordinatorResponseV0_writeTo. Qed.

#[global] Instance findCoordinatorResponseV0_response : Response findCoordinatorResponseV0.
Proof. solve_response findCoordinatorResponseV0_readFrom. Qed.

Definition findCoordinatorResponseV0_wf (t : findCoordinatorResponseV0) : Prop :=
  is_int16 (fcs_ErrorCode t) ∧
  wf (fcs_Coordinator t).

Definition findCoordinatorResponseV0_canon (t : findCoordinatorResponseV0) : findCoordinatorResponseV0 :=
  {| fcs_ErrorCode := fcs_ErrorCode t; fcs_Coordinator := canon (fcs_Coordinator t) |}.

Lemma findCoordinatorResponseV0_reads t :
  findCoordinatorResponseV0_wf t → reads readFrom (writeTo t) (findCoordinatorResponseV0_canon t).
Proof.
  intros H. unfold findCoordinatorResponseV0_wf in H. solve_codec findCoordinatorResponseV0_readFrom findCoordinatorResponseV0_writeTo findCoordinatorResponseV0_canon.
Qed.

#[global] Instance findCoordinatorResponseV0_codec : Codec findCoordinatorResponseV0 :=
  {| wf := findCoordinatorResponseV0_wf; canon := findCoordinatorResponseV0_canon; codec_reads := findCoordinatorResponseV0_reads |}.

(** ** [describeGroupsRequestV0] *)

Record describeGroupsRequestV0 : Type := {
  dgr_GroupIDs : list gostring;
}.

Definition describeGroupsRequestV0_size (t : describeGroupsRequestV0) : Z :=
  sizeofStringArray (dgr_GroupIDs t).

#[global] Instance describeGroupsRequestV0_sizable : Sizable describeGroupsRequestV0 := describeGroupsRequestV0_size.

Definition describeGroupsRequestV0_writeTo (t : describeGroupsRequestV0) : list byte :=
  writeStringArray (dgr_GroupIDs t).

#[global] Instance describeGroupsRequestV0_writable : Writable describeGroupsRequestV0 := describeGroupsRequestV0_writeTo.

#[global] Instance describeGroupsRequestV0_request : Request describeGroupsRequestV0.
Proof. solve_request describeGroupsRequestV0_size describeGroupsRequestV0_writeTo. Qed.

(** ** [describeGroupsResponseMemberV0] *)

Record describeGroupsResponseMemberV0 : Type := {
  dgm_MemberID : gostring;
  dgm_ClientID : gostring;
  dgm_ClientHost : gostring;
  dgm_MemberMetadata : bytes;
  dgm_MemberAssignments : bytes;
}.

Definition describeGroupsResponseMemberV0_size (t : describeGroupsResponseMemberV0) : Z :=
  sizeofString (dgm_MemberID t) ⊞
  sizeofString (dgm_ClientID t) ⊞
  sizeofString (dgm_ClientHost t) ⊞
  sizeofBytes (dgm_MemberMetadata t) ⊞
  sizeofBytes (dgm_MemberAssignments t).

#[global] Instance describeGroupsResponseMemberV0_sizable : Sizable describeGroupsResponseMemberV0 := describeGroupsResponseMemberV0_size.

Definition describeGroupsResponseMemberV0_writeTo (t : describeGroupsResponseMemberV0) : list byte :=
  writeString (dgm_MemberID t) ++
  writeString (dgm_ClientID t) ++
  writeString (dgm_ClientHost t) ++
  writeBytes (dgm_MemberMetadata t) ++
  writeBytes (dgm_MemberAssignments t).

#[global] Instance describeGroupsResponseMemberV0_writable : Writable describeGroupsResponseMemberV0 := describeGroupsResponseMemberV0_writeTo.

Definition describeGroupsResponseMemberV0_readFrom : rd describeGroupsResponseMemberV0 :=
  memberID ← readString;
  clientID ← readString;
  clientHost ← readString;
  memberMetadata ← readBytes;
  memberAssignments ← readBytes;
  mret {| dgm_MemberID := memberID; dgm_ClientID := clientID; dgm_ClientHost := clientHost; dgm_MemberMetadata := memberMetadata; dgm_MemberAssignments := memberAssignments |}.

#[global] Instance describeGroupsResponseMemberV0_readable : Readable describeGroupsResponseMemberV0 := describeGroupsResponseMemberV0_readFrom.

#[global] Instance describeGroupsResponseMemberV0_request : Request describeGroupsResponseMemberV0.
Proof. solve_request describeGroupsResponseMemberV0_size describeGroupsResponseMemberV0_writeTo. Qed.

#[global] Instance describeGroupsResponseMemberV0_response : Response describeGroupsResponseMemberV0.
Proof. solve_response describeGroupsResponseMemberV0_readFrom. Qed.

Definition describeGroupsResponseMemberV0_wf (t : describeGroupsResponseMemberV0) : Prop :=
  wf_string (dgm_MemberID t) ∧
  wf_string (dgm_ClientID t) ∧
  wf_string (dgm_ClientHost t) ∧
  wf_bytes (dgm_MemberMetadata t) ∧
  wf_bytes (dgm_MemberAssignments t).

Definition describeGroupsResponseMemberV0_canon (t : describeGroupsResponseMemberV0) : describeGroupsResponseMemberV0 :=
  {| dgm_MemberID := dgm_MemberID t; dgm_ClientID := dgm_ClientID t; dgm_ClientHost := dgm_ClientHost t; dgm_MemberMetadata := bnorm (dgm_MemberMetadata t); dgm_MemberAssignments := bnorm (dgm_MemberAssignments t) |}.

Lemma describeGroupsResponseMemberV0_reads t :
  describeGroupsResponseMemberV0_wf t → reads readFrom (writeTo t) (describeGroupsResponseMemberV0_canon t).
Proof.
  intros H. unfold describeGroupsResponseMemberV0_wf in H. solve_codec describeGroupsResponseMemberV0_readFrom describeGroupsResponseMemberV0_writeTo describeGroupsResponseMemberV0_canon.
Qed.

#[global] Instance describeGroupsResponseMemberV0_codec : Codec describeGroupsResponseMemberV0 :=
  {| wf := describeGroupsResponseMemberV0_wf; canon := describeGroupsResponseMemberV0_canon; codec_reads := describeGroupsResponseMemberV0_reads |}.

(** ** [describeGroupsResponseGroupV0] *)

Record describeGroupsResponseGroupV0 : Type := {
  dgg_ErrorCode : Z;
  dgg_GroupID : gostring;
  dgg_State : gostring;
  dgg_ProtocolType : gostring;
  dgg_Protocol : gostring;
  dgg_Members : list describeGroupsResponseMemberV0;
}.

Definition describeGroupsResponseGroupV0_size (t : describeGroupsResponseGroupV0) : Z :=
  sizeofInt16 (dgg_ErrorCode t) ⊞
  sizeofString (dgg_GroupID t) ⊞
  sizeofString (dgg_State t) ⊞
  sizeofString (dgg_ProtocolType t) ⊞
  sizeofString (dgg_Protocol t) ⊞
  sizeofArray size (dgg_Members t).

#[global] Instance describeGroupsResponseGroupV0_sizable : Sizable describeGroupsResponseGroupV0 := describeGroupsResponseGroupV0_size.

Definition describeGroupsResponseGroupV0_writeTo (t : describeGroupsResponseGroupV0) : list byte :=
  writeInt16 (dgg_ErrorCode t) ++
  writeString (dgg_GroupID t) ++
  writeString (dgg_State t) ++
  writeString (dgg_ProtocolType t) ++
  writeString (dgg_Protocol t) ++
  writeArray writeTo (dgg_Members t).

#[global] Instance describeGroupsResponseGroupV0_writable : Writable describeGroupsResponseGroupV0 := describeGroupsResponseGroupV0_writeTo.

Definition describeGroupsResponseGroupV0_readFrom : rd describeGroupsResponseGroupV0 :=
  errorCode ← readInt16;
  groupID ← readString;
  state ← readString;
  protocolType ← readString;
  protocol ← readString;
  members ← readArrayWith readFrom;
  mret {| dgg_ErrorCode := errorCode; dgg_GroupID := groupID; dgg_State := state; dgg_ProtocolType := protocolType; dgg_Protocol := protocol; dgg_Members := members |}.

#[global] Instance describeGroupsResponseGroupV0_readable : Readable describeGroupsResponseGroupV0 := describeGroupsResponseGroupV0_readFrom.

#[global] Instance describeGroupsResponseGroupV0_request : Request describeGroupsResponseGroupV0.
Proof. solve_request describeGroupsResponseGroupV0_size describeGroupsResponseGroupV0_writeTo. Qed.

#[global] Instance describeGroupsResponseGroupV0_response : Response describeGroupsResponseGroupV0.
Proof. solve_response describeGroupsResponseGroupV0_readFrom. Qed.

Definition describeGroupsResponseGroupV0_wf (t : describeGroupsResponseGroupV0) : Prop :=
  is_int16 (dgg_ErrorCode t) ∧
  wf_string (dgg_GroupID t) ∧
  wf_string (dgg_State t) ∧
  wf_string (dgg_ProtocolType t) ∧
  wf_string (dgg_Protocol t) ∧
  wf_list wf (dgg_Members t).

Definition describeGroupsResponseGroupV0_canon (t : describeGroupsResponseGroupV0) : describeGroupsResponseGroupV0 :=
  {| dgg_ErrorCode := dgg_ErrorCode t; dgg_GroupID := dgg_GroupID t; dgg_State := dgg_State t; dgg_ProtocolType := dgg_ProtocolType t; dgg_Protocol := dgg_Protocol t; dgg_Members := map canon (dgg_Members t) |}.

Lemma describeGroupsResponseGroupV0_reads t :
  describeGroupsResponseGroupV0_wf t → reads readFrom (writeTo t) (describeGroupsResponseGroupV0_canon t).
Proof.
  intros H. unfold describeGroupsResponseGroupV0_wf in H. solve_codec describeGroupsResponseGroupV0_readFrom describeGroupsResponseGroupV0_writeTo describeGroupsResponseGroupV0_canon.
Qed.

#[global] Instance describeGroupsResponseGroupV0_codec : Codec describeGroupsResponseGroupV0 :=
  {| wf := describeGroupsResponseGroupV0_wf; canon := describeGroupsResponseGroupV0_canon; codec_reads := describeGroupsResponseGroupV0_reads |}.

(** ** [describeGroupsResponseV0] *)

Record describeGroupsResponseV0 : Type := {
  dgs_Groups : list describeGroupsResponseGroupV0;
}.

Definition describeGroupsResponseV0_size (t : describeGroupsResponseV0) : Z :=
  sizeofArray size (dgs_Groups t).

#[global] Instance describeGroupsResponseV0_sizable : Sizable describeGroupsResponseV0 := describeGroupsResponseV0_size.

Definition describeGroupsResponseV0_writeTo (t : describeGroupsResponseV0) : list byte :=
  writeArray writeTo (dgs_Groups t).

#[global] Instance describeGroupsResponseV0_writable : Writable describeGroupsResponseV0 := describeGroupsResponseV0_writeTo.

Definition describeGroupsResponseV0_readFrom : rd describeGroupsResponseV0 :=
  groups ← readArrayWith readFrom;
  mret {| dgs_Groups := groups |}.

#[global] Instance describeGroupsResponseV0_readable : Readable describeGroupsResponseV0 := describeGroupsResponseV0_readFrom.

#[global] Instance describeGroupsResponseV0_request : Request describeGroupsResponseV0.
Proof. solve_request describeGroupsResponseV0_size describeGroupsResponseV0_writeTo. Qed.

#[global] Instance describeGroupsResponseV0_response : Response describeGroupsResponseV0.
Proof. solve_response describeGroupsResponseV0_readFrom. Qed.

Definition describeGroupsResponseV0_wf (t : describeGroupsResponseV0) : Prop :=
  wf_list wf (dgs_Groups t).

Definition describeGroupsResponseV0_canon (t : describeGroupsResponseV0) : describeGroupsResponseV0 :=
  {| dgs_Groups := map canon (dgs_Groups t) |}.

Lemma describeGroupsResponseV0_reads t :
  describeGroupsResponseV0_wf t → reads readFrom (writeTo t) (describeGroupsResponseV0_canon t).
Proof.
  intros H. unfold describeGroupsResponseV0_wf in H. solve_codec describeGroupsResponseV0_readFrom describeGroupsResponseV0_writeTo describeGroupsResponseV0_canon.
Qed.

#[global] Instance describeGroupsResponseV0_codec : Codec describeGroupsResponseV0 :=
  {| wf := describeGroupsResponseV0_wf; canon := describeGroupsResponseV0_canon; codec_reads := describeGroupsResponseV0_reads |}.

(** ** [listGroupsRequestV1], an empty request *)

Record listGroupsRequestV1 : Type := {}.

Definition listGroupsRequestV1_size (_ : listGroupsRequestV1) : Z := 0.

#[global] Instance listGroupsRequestV1_sizable : Sizable listGroupsRequestV1 :=
  listGroupsRequestV1_size.

Definition listGroupsRequestV1_writeTo (_ : listGroupsRequestV1) : list byte := [].

#[global] Instance listGroupsRequestV1_writable : Writable listGroupsRequestV1 :=
  listGroupsRequestV1_writeTo.

#[global] Instance listGroupsRequestV1_request : Request listGroupsRequestV1.
Proof. intros t. done. Qed.

(** ** [memberGroupMetadata] and the encoded metadata of a member *)

Record memberGroupMetadata : Type := {
  mgm_MemberID : gostring;
  mgm_Metadata : groupMetadata;
}.

Definition groupMetadata_bytes (t : groupMetadata) : bytes := Some (groupMetadata_writeTo t).

(** ** [joinGroupResponseV1.size]

    The array is measured with [len(t.MemberID)] elements, not with
    [len(t.Members)]: indexing past the members panics ([None]). *)
Definition joinGroupResponseV1_size (t : joinGroupResponseV1) : option Z :=
  members ← mapM (λ i, jgs_Members t !! i) (seq 0 (length (jgs_MemberID t)));
  Some (sizeofInt16 (jgs_ErrorCode t) ⊞
        sizeofInt32 (jgs_GenerationID t) ⊞
        sizeofString (jgs_GroupProtocol t) ⊞
        sizeofString (jgs_LeaderID t) ⊞
        sizeofString (jgs_MemberID t) ⊞
        sizeofArray size members).

(** ** [groupAssignment]

    The topics are a Go map, whose iteration order is unspecified: the
    methods that range over it take the order as an argument, a list of the
    entries of the map. *)
Record groupAssignment : Type := {
  ga_Version : Z;
  ga_Topics : gmap gostring (list Z);
  ga_UserData : bytes;
}.

Abbreviation topic_order := (list (gostring * list Z)).

(** [order] is one of the orders in which Go may range over the map. *)
Definition ranges_over (order : topic_order) (m : gmap gostring (list Z)) : Prop :=
  order ≡ₚ map_to_list m.

Definition groupAssignment_size (order : topic_order) (t : groupAssignment) : Z :=
  let sz := sizeofInt16 (ga_Version t) ⊞ sizeofInt16 (int16 (len order)) in
  let sz := fold_left (λ sz (e : gostring * list Z),
              sz ⊞ (sizeofString e.1 ⊞ sizeofInt32Array e.2)) order sz in
  sz ⊞ sizeofBytes (ga_UserData t).

Definition write_topic (e : gostring * list Z) : list byte :=
  writeString e.1 ++ writeInt32Array e.2.

Definition groupAssignment_writeTo (order : topic_order) (t : groupAssignment) : list byte :=
  writeInt16 (ga_Version t) ++
  writeInt32 (int32 (len order)) ++
  concat (map write_topic order) ++
  writeBytes (ga_UserData t).

Definition groupAssignment_readFrom : rd groupAssignment :=
  size ← remaining;
  if size =? 0 then mret {| ga_Version := 0; ga_Topics := ∅; ga_UserData := None |}
  else
    version ← readInt16;
    topics ← readMapStringInt32;
    userData ← readBytes;
    mret {| ga_Version := version; ga_Topics := topics; ga_UserData := userData |}.

#[global] Instance groupAssignment_readable : Readable groupAssignment := groupAssignment_readFrom.

Definition groupAssignment_bytes (order : topic_order) (t : groupAssignment) : bytes :=
  Some (groupAssignment_writeTo order t).

#[global] Instance groupAssignment_response : Response groupAssignment.
Proof. solve_response groupAssignment_readFrom. Qed.

Definition groupAssignment_wf (t : groupAssignment) : Prop :=
  is_int16 (ga_Version t) ∧ len (map_to_list (ga_Topics t)) < 2 ^ 31 ∧
  map_Forall (λ k v, wf_string k ∧ wf_list is_int32 v) (ga_Topics t) ∧
  wf_bytes (ga_UserData t).

Definition groupAssignment_canon (t : groupAssignment) : groupAssignment :=
  {| ga_Version := ga_Version t; ga_Topics := ga_Topics t; ga_UserData := bnorm (ga_UserData t) |}.

(** *** Lemmas *)

Lemma reads_topic e :
  wf_string e.1 ∧ wf_list is_int32 e.2 →
  reads (k ← readString; vs ← readArrayWith readInt32; mret (k, vs)) (write_topic e) e.
Proof. intros H. destruct e. unfold write_topic. cbn [fst snd] in *. solve_reads. Qed.

(** Whatever order the topics are written in, the map is read back. *)
Lemma reads_readMapStringInt32 order m :
  ranges_over order m → len (map_to_list m) < 2 ^ 31 →
  map_Forall (λ k v, wf_string k ∧ wf_list is_int32 v) m →
  reads readMapStringInt32 (writeInt32 (int32 (len order)) ++ concat (map write_topic order)) m.
Proof.
  unfold ranges_over. intros Ho Hl Hm. unfold readMapStringInt32.
  rewrite <- (assign_all_order m order) at 1 by done.
  eapply reads_bind_nil; [|apply reads_ret]. rewrite <- (map_id order) at 3.
  apply (reads_readArrayWith _ write_topic id). split.
  { unfold len in *. by rewrite Ho. }
  rewrite Ho. apply Forall_forall. intros [k v] Hkv.
  apply elem_of_map_to_list in Hkv. apply reads_topic. by apply Hm.
Qed.

Lemma groupAssignment_size_loop order sz :
  fold_left (λ sz (e : gostring * list Z),
    sz ⊞ (sizeofString e.1 ⊞ sizeofInt32Array e.2)) order (int32 sz)
  = int32 (sz + len (concat (map write_topic order))).
Proof.
  apply (sizeofArray_acc (λ e, sizeofString e.1 ⊞ sizeofInt32Array e.2) write_topic).
  apply Forall_true. intros [k v]. unfold write_topic. cbn [fst snd].
  rewrite sizeofString_ok, sizeofInt32Array_ok, len_app. wrap_eq.
Qed.
