(* ===== verification/SaslMessages.v ===== *)
(** * SASL messages (saslhandshake.go, saslauthenticate.go) *)

From S2P Require Import Prelude Errors Bufio Read Write VarInt Wire.

(** ** [saslHandshakeRequestV0] *)

Record saslHandshakeRequestV0 : Type := {
  shr_Mechanism : gostring;
}.

Definition saslHandshakeRequestV0_size (t : saslHandshakeRequestV0) : Z :=
  sizeofString (shr_Mechanism t).

#[global] Instance saslHandshakeRequestV0_sizable : Sizable saslHandshakeRequestV0 := saslHandshakeRequestV0_size.

Definition saslHandshakeRequestV0_writeTo (t : saslHandshakeRequestV0) : list byte :=
  writeString (shr_Mechanism t).

#[global] Instance saslHandshakeRequestV0_writable : Writable saslHandshakeRequestV0 := saslHandshakeRequestV0_writeTo.

Definition saslHandshakeRequestV0_readFrom : rd saslHandshakeRequestV0 :=
  mechanism ← readString;
  mret {| shr_Mechanism := mechanism |}.

#[global] Instance saslHandshakeRequestV0_readable : Readable saslHandshakeRequestV0 := saslHandshakeRequestV0_readFrom.

#[global] Instance saslHandshakeRequestV0_request : Request saslHandshakeRequestV0.
Proof. solve_request saslHandshakeRequestV0_size saslHandshakeRequestV0_writeTo. Qed.

#[global] Instance saslHandshakeRequestV0_response : Response saslHandshakeRequestV0.
Proof. solve_response saslHandshakeRequestV0_readFrom. Qed.

Definition saslHandshakeRequestV0_wf (t : saslHandshakeRequestV0) : Prop :=
  wf_string (shr_Mechanism t).

Definition saslHandshakeRequestV0_canon (t : saslHandshakeRequestV0) : saslHandshakeRequestV0 :=
  {| shr_Mechanism := shr_Mechanism t |}.

Lemma saslHandshakeRequestV0_reads t :
  saslHandshakeRequestV0_wf t → reads readFrom (writeTo t) (saslHandshakeRequestV0_canon t).
Proof.
  intros H. unfold saslHandshakeRequestV0_wf in H. solve_codec saslHandshakeRequestV0_readFrom saslHandshakeRequestV0_writeTo saslHandshakeRequestV0_canon.
Qed.

#[global] Instance saslHandshakeRequestV0_codec : Codec saslHandshakeRequestV0 :=
  {| wf := saslHandshakeRequestV0_wf; canon := saslHandshakeRequestV0_canon; codec_reads := saslHandshakeRequestV0_reads |}.

(** ** [saslHandshakeResponseV0] *)

Record saslHandshakeResponseV0 : Type := {
  shs_ErrorCode : Z;
  shs_EnabledMechanisms : list gostring;
}.

Definition saslHandshakeResponseV0_size (t : saslHandshakeResponseV0) : Z :=
  sizeofInt16 (shs_ErrorCode t) ⊞
  sizeofStringArray (shs_EnabledMechanisms t).

#[global] Instance saslHandshakeResponseV0_sizable : Sizable saslHandshakeResponseV0 := saslHandshakeResponseV0_size.

Definition saslHandshakeResponseV0_writeTo (t : saslHandshakeResponseV0) : list byte :=
  writeInt16 (shs_ErrorCode t) ++
  writeStringArray (shs_EnabledMechanisms t).

#[global] Instance saslHandshakeResponseV0_writable : Writable saslHandshakeResponseV0 := saslHandshakeResponseV0_writeTo.

Definition saslHandshakeResponseV0_readFrom : rd saslHandshakeResponseV0 :=
  errorCode ← readInt16;
  enabledMechanisms ← readStringArray;
  mret {| shs_ErrorCode := errorCode; shs_EnabledMechanisms := enabledMechanisms |}.

#[global] Instance saslHandshakeResponseV0_readable : Readable saslHandshakeResponseV0 := saslHandshakeResponseV0_readFrom.

#[global] Instance saslHandshakeResponseV0_request : Request saslHandshakeResponseV0.
Proof. solve_request saslHandshakeResponseV0_size saslHandshakeResponseV0_writeTo. Qed.

#[global] Instance saslHandshakeResponseV0_response : Response saslHandshakeResponseV0.
Proof. solve_response saslHandshakeResponseV0_readFrom. Qed.

Definition saslHandshakeResponseV0_wf (t : saslHandshakeResponseV0) : Prop :=
  is_int16 (shs_ErrorCode t) ∧
  wf_list wf_string (shs_EnabledMechanisms t).

Definition saslHandshakeResponseV0_canon (t : saslHandshakeResponseV0) : saslHandshakeResponseV0 :=
  {| shs_ErrorCode := shs_ErrorCode t; shs_EnabledMechanisms := shs_EnabledMechanisms t |}.

Lemma saslHandshakeResponseV0_reads t :
  saslHandshakeResponseV0_wf t → reads readFrom (writeTo t) (saslHandshakeResponseV0_canon t).
Proof.
  intros H. unfold saslHandshakeResponseV0_wf in H. solve_codec saslHandshakeResponseV0_readFrom saslHandshakeResponseV0_writeTo saslHandshakeResponseV0_canon.
Qed.

#[global] Instance saslHandshakeResponseV0_codec : Codec saslHandshakeResponseV0 :=
  {| wf := saslHandshakeResponseV0_wf; canon := saslHandshakeResponseV0_canon; codec_reads := saslHandshakeResponseV0_reads |}.

(** ** [saslAuthenticateRequestV0] *)

Record saslAuthenticateRequestV0 : Type := {
  sar_Data : bytes;
}.

Definition saslAuthenticateRequestV0_size (t : saslAuthenticateRequestV0) : Z :=
  sizeofBytes (sar_Data t).

#[global] Instance saslAuthenticateRequestV0_sizable : Sizable saslAuthenticateRequestV0 := saslAuthenticateRequestV0_size.

Definition saslAuthenticateRequestV0_writeTo (t : saslAuthenticateRequestV0) : list byte :=
  writeBytes (sar_Data t).

#[global] Instance saslAuthenticateRequestV0_writable : Writable saslAuthenticateRequestV0 := saslAuthenticateRequestV0_writeTo.

Definition saslAuthenticateRequestV0_readFrom : rd saslAuthenticateRequestV0 :=
  data ← readBytes;
  mret {| sar_Data := data |}.

#[global] Instance saslAuthenticateRequestV0_readable : Readable saslAuthenticateRequestV0 := saslAuthenticateRequestV0_readFrom.

#[global] Instance saslAuthenticateRequestV0_request : Request saslAuthenticateRequestV0.
Proof. solve_request saslAuthenticateRequestV0_size saslAuthenticateRequestV0_writeTo. Qed.

#[global] Instance saslAuthenticateRequestV0_response : Response saslAuthenticateRequestV0.
Proof. solve_response saslAuthenticateRequestV0_readFrom. Qed.

Definition saslAuthenticateRequestV0_wf (t : saslAuthenticateRequestV0) : Prop :=
  wf_bytes (sar_Data t).

Definition saslAuthenticateRequestV0_canon (t : saslAuthenticateRequestV0) : saslAuthenticateRequestV0 :=
  {| sar_Data := bnorm (sar_Data t) |}.

Lemma saslAuthenticateRequestV0_reads t :
  saslAuthenticateRequestV0_wf t → reads readFrom (writeTo t) (saslAuthenticateRequestV0_canon t).
Proof.
  intros H. unfold saslAuthenticateRequestV0_wf in H. solve_codec saslAuthenticateRequestV0_readFrom saslAuthenticateRequestV0_writeTo saslAuthenticateRequestV0_canon.
Qed.

#[global] Instance saslAuthenticateRequestV0_codec : Codec saslAuthenticateRequestV0 :=
  {| wf := saslAuthenticateRequestV0_wf; canon := saslAuthenticateRequestV0_canon; codec_reads := saslAuthenticateRequestV0_reads |}.

(** ** [saslAuthenticateResponseV0] *)

Record saslAuthenticateResponseV0 : Type := {
  sas_ErrorCode : Z;
  sas_ErrorMessage : gostring;
  sas_Data : bytes;
}.

Definition saslAuthenticateResponseV0_size (t : saslAuthenticateResponseV0) : Z :=
  sizeofInt16 (sas_ErrorCode t) ⊞
  sizeofString (sas_ErrorMessage t) ⊞
  sizeofBytes (sas_Data t).

#[global] Instance saslAuthenticateResponseV0_sizable : Sizable saslAuthenticateResponseV0 := saslAuthenticateResponseV0_size.

Definition saslAuthenticateResponseV0_writeTo (t : saslAuthenticateResponseV0) : list byte :=
  writeInt16 (sas_ErrorCode t) ++
  writeString (sas_ErrorMessage t) ++
  writeBytes (sas_Data t).

#[global] Instance saslAuthenticateResponseV0_writable : Writable saslAuthenticateResponseV0 := saslAuthenticateResponseV0_writeTo.

Definition saslAuthenticateResponseV0_readFrom : rd saslAuthenticateResponseV0 :=
  errorCode ← readInt16;
  errorMessage ← readString;
  data ← readBytes;
  mret {| sas_ErrorCode := errorCode; sas_ErrorMessage := errorMessage; sas_Data := data |}.

#[global] Instance saslAuthenticateResponseV0_readable : Readable saslAuthenticateResponseV0 := saslAuthenticateResponseV0_readFrom.

#[global] Instance saslAuthenticateResponseV0_request : Request saslAuthenticateResponseV0.
Proof. solve_request saslAuthenticateResponseV0_size saslAuthenticateResponseV0_writeTo. Qed.

#[global] Instance saslAuthenticateResponseV0_response : Response saslAuthenticateResponseV0.
Proof. solve_response saslAuthenticateResponseV0_readFrom. Qed.

Definition saslAuthenticateResponseV0_wf (t : saslAuthenticateResponseV0) : Prop :=
  is_int16 (sas_ErrorCode t) ∧
  wf_string (sas_ErrorMessage t) ∧
  wf_bytes (sas_Data t).

Definition saslAuthenticateResponseV0_canon (t : saslAuthenticateResponseV0) : saslAuthenticateResponseV0 :=
  {| sas_ErrorCode := sas_ErrorCode t; sas_ErrorMessage := sas_ErrorMessage t; sas_Data := bnorm (sas_Data t) |}.

Lemma saslAuthenticateResponseV0_reads t :
  saslAuthenticateResponseV0_wf t → reads readFrom (writeTo t) (saslAuthenticateResponseV0_canon t).
Proof.
  intros H. unfold saslAuthenticateResponseV0_wf in H. solve_codec saslAuthenticateResponseV0_readFrom saslAuthenticateResponseV0_writeTo saslAuthenticateResponseV0_canon.
Qed.

#[global] Instance saslAuthenticateResponseV0_codec : Codec saslAuthenticateResponseV0 :=
  {| wf := saslAuthenticateResponseV0_wf; canon := saslAuthenticateResponseV0_canon; codec_reads := saslAuthenticateResponseV0_reads |}.

