(* ===== verification/Protocol.v ===== *)
(** * Request headers and framed requests (protocol.go, [writeRequest] of conn.go) *)

From S2P Require Import Prelude Errors Bufio Read Write VarInt Wire.

(** ** API keys and versions *)

Module Api.
Definition produceRequest : Z := 0.
Definition fetchRequest : Z := 1.
Definition listOffsetRequest : Z := 2.
Definition metadataRequest : Z := 3.
Definition offsetCommitRequest : Z := 8.
Definition offsetFetchRequest : Z := 9.
Definition groupCoordinatorRequest : Z := 10.
Definition joinGroupRequest : Z := 11.
Definition heartbeatRequest : Z := 12.
Definition leaveGroupRequest : Z := 13.
Definition syncGroupRequest : Z := 14.
Definition describeGroupsRequest : Z := 15.
Definition listGroupsRequest : Z := 16.
Definition saslHandshakeRequest : Z := 17.
Definition apiVersionsRequest : Z := 18.
Definition createTopicsRequest : Z := 19.
Definition deleteTopicsRequest : Z := 20.
Definition saslAuthenticateRequest : Z := 36.

Definition v0 : Z := 0.
Definition v1 : Z := 1.
Definition v2 : Z := 2.
Definition v3 : Z := 3.
Definition v5 : Z := 5.
End Api.

(** ** [requestHeader] *)

Record requestHeader : Type := {
  h_Size : Z;
  h_ApiKey : Z;
  h_ApiVersion : Z;
  h_CorrelationID : Z;
  h_ClientID : gostring;
}.

Definition requestHeader_size (h : requestHeader) : Z :=
  4 ⊞ 2 ⊞ 2 ⊞ 4 ⊞ sizeofString (h_ClientID h).

Definition requestHeader_writeTo (h : requestHeader) : list byte :=
  writeInt32 (h_Size h) ++
  writeInt16 (h_ApiKey h) ++
  writeInt16 (h_ApiVersion h) ++
  writeInt32 (h_CorrelationID h) ++
  writeString (h_ClientID h).

#[global] Instance requestHeader_sizable : Sizable requestHeader := requestHeader_size.
#[global] Instance requestHeader_writable : Writable requestHeader := requestHeader_writeTo.
#[global] Instance requestHeader_request : Request requestHeader.
Proof. solve_request requestHeader_size requestHeader_writeTo. Qed.

(** [Conn.requestHeader]: the header of a connection with client id
    [clientID], its size still zero. *)
Definition conn_requestHeader (clientID : gostring) (apiKey apiVersion correlationID : Z) :
    requestHeader :=
  {| h_Size := 0; h_ApiKey := int16 apiKey; h_ApiVersion := int16 apiVersion;
     h_CorrelationID := correlationID; h_ClientID := clientID |}.

Definition with_Size (h : requestHeader) (sz : Z) : requestHeader :=
  {| h_Size := sz; h_ApiKey := h_ApiKey h; h_ApiVersion := h_ApiVersion h;
     h_CorrelationID := h_CorrelationID h; h_ClientID := h_ClientID h |}.

(** [Conn.writeRequest], up to the flush: the header, with the size of the
    request in it, and the request. *)
Definition writeRequest `{Sizable A, Writable A} (clientID : gostring)
    (apiKey apiVersion correlationID : Z) (req : A) : list byte :=
  let hdr := conn_requestHeader clientID apiKey apiVersion correlationID in
  let hdr := with_Size hdr (int32 ((requestHeader_size hdr ⊞ size req) - 4)) in
  requestHeader_writeTo hdr ++ writeTo req.

(** ** What a broker does with a request: its header is read back, and the
    size field delimits the request. *)

Definition readRequestHeader : rd requestHeader :=
  size ← readInt32; key ← readInt16; version ← readInt16; id ← readInt32;
  client ← readString;
  mret {| h_Size := size; h_ApiKey := key; h_ApiVersion := version;
          h_CorrelationID := id; h_ClientID := client |}.

(** A block of bytes is framed when its first four bytes, big-endian, are
    the number of the bytes after them. *)
Definition framed_block (bs : list byte) : Prop :=
  4 ≤ len bs ∧ makeInt32 bs = len bs - 4.

(** ** Lemmas *)

Lemma requestHeader_size_ok h : requestHeader_size h = int32 (len (requestHeader_writeTo h)).
Proof. apply (size_writeTo h). Qed.

Lemma len_requestHeader_writeTo h : len (requestHeader_writeTo h) = 14 + len (h_ClientID h).
Proof. unfold requestHeader_writeTo. autorewrite with len. lia. Qed.
#[export] Hint Rewrite len_requestHeader_writeTo : len.

Lemma makeInt32_writeInt32 z tail : is_int32 z → makeInt32 (writeInt32 z ++ tail) = z.
Proof.
  intros Hz. unfold makeInt32, writeInt32. rewrite take_app_length' by (by rewrite length_be_put).
  by apply (be_roundtrip 4).
Qed.

(** A header whose size field counts what follows it frames the block. *)
Lemma framed_block_header h body :
  h_Size h = int32 (len (requestHeader_writeTo h) + len body - 4) →
  len (requestHeader_writeTo h) + len body - 4 < 2 ^ 31 →
  framed_block (requestHeader_writeTo h ++ body).
Proof.
  intros Hs Hl. pose proof (len_nonneg body). pose proof (len_nonneg (h_ClientID h)).
  rewrite len_requestHeader_writeTo in *. split; [len_lia|].
  unfold requestHeader_writeTo at 1. rewrite <- !app_assoc.
  rewrite makeInt32_writeInt32; rewrite Hs.
  - rewrite wrapS_id by (try unfold inS; lia). len_lia.
  - by apply wrapS_range.
Qed.

Lemma writeRequest_framed `{Request A} clientID key version id (req : A) :
  len (writeRequest clientID key version id req) < 2 ^ 31 →
  framed_block (writeRequest clientID key version id req).
Proof.
  unfold writeRequest. rewrite len_app. intros Hl. apply framed_block_header; [|lia].
  cbn [h_Size with_Size]. rewrite requestHeader_size_ok, size_writeTo.
  rewrite !len_requestHeader_writeTo. cbn [h_ClientID with_Size]. wrap_eq.
Qed.

Lemma readRequestHeader_reads h :
  is_int32 (h_Size h) → is_int16 (h_ApiKey h) → is_int16 (h_ApiVersion h) →
  is_int32 (h_CorrelationID h) → wf_string (h_ClientID h) →
  reads readRequestHeader (requestHeader_writeTo h) h.
Proof.
  intros. unfold readRequestHeader, requestHeader_writeTo. destruct h.
  cbn [h_Size h_ApiKey h_ApiVersion h_CorrelationID h_ClientID] in *. solve_reads.
Qed.
