(* ===== verification/Crc32.v ===== *)
(** * Checksums of messages (crc32.go, and hash/crc32 as the code uses it) *)

From S2P Require Import Prelude Errors Bufio Read Write.

(** ** The package hash/crc32: reflected, table driven *)

Definition IEEE : Z := 0xedb88320.
Definition Castagnoli : Z := 0x82f63b78.

(** One step of the generation of a table entry, and the entry for byte [i]. *)
Definition table_step (poly crc : Z) : Z :=
  if Z.land crc 1 =? 1 then Z.lxor (Z.shiftr crc 1) poly else Z.shiftr crc 1.

Definition table_entry (poly i : Z) : Z := Nat.iter 8 (table_step poly) i.

(** Go's [^crc] on a uint32. *)
Definition not32 (z : Z) : Z := Z.lxor z (2 ^ 32 - 1).

Definition update_byte (poly crc : Z) (v : byte) : Z :=
  Z.lxor (table_entry poly (Z.lxor (Z.land crc 255) (Z_of_byte v))) (Z.shiftr crc 8).

Definition Update (poly crc : Z) (p : list byte) : Z :=
  not32 (fold_left (update_byte poly) p (not32 crc)).

Definition Checksum (poly : Z) (p : list byte) : Z := Update poly 0 p.

(** ** crc32.go *)

Definition crc32Update (sum : Z) (b : list byte) : Z := Update IEEE sum b.

Record crc32Buffer : Type := Crc32Buffer { cb_sum : Z; cb_buf : list byte }.

(** Each write truncates the scratch buffer, fills it and calls [update]. *)
Definition crc32Buffer_update (c : crc32Buffer) : crc32Buffer :=
  Crc32Buffer (crc32Update (cb_sum c) (cb_buf c)) (cb_buf c).

Definition crc32Buffer_writeInt8 (i : Z) (c : crc32Buffer) : crc32Buffer :=
  crc32Buffer_update (Crc32Buffer (cb_sum c) [byte_of_Z i]).

Definition crc32Buffer_writeInt32 (i : Z) (c : crc32Buffer) : crc32Buffer :=
  crc32Buffer_update (Crc32Buffer (cb_sum c) (be_put 4 i)).

Definition crc32Buffer_writeInt64 (i : Z) (c : crc32Buffer) : crc32Buffer :=
  crc32Buffer_update (Crc32Buffer (cb_sum c) (be_put 8 i)).

Definition crc32Buffer_writeBytes (b : bytes) (c : crc32Buffer) : crc32Buffer :=
  let c := crc32Buffer_writeInt32
             (match b with None => -1 | Some b => int32 (len b) end) c in
  Crc32Buffer (crc32Update (cb_sum c) (bdata b)) (cb_buf c).

(** [acquireCrc32Buffer] on the buffer the pool returned: only the sum is
    reset, the scratch bytes of the last user are still there. *)
Definition acquireCrc32Buffer (pooled : crc32Buffer) : crc32Buffer :=
  Crc32Buffer 0 (cb_buf pooled).

(** [crc32OfMessage] with the buffer the pool returned: the sum, and the
    buffer given back to the pool. *)
Definition crc32OfMessage_pooled (pooled : crc32Buffer)
    (magicByte attributes timestamp : Z) (key value : bytes) : Z * crc32Buffer :=
  let b := acquireCrc32Buffer pooled in
  let b := crc32Buffer_writeInt8 magicByte b in
  let b := crc32Buffer_writeInt8 attributes b in
  let b := if negb (magicByte =? 0) then crc32Buffer_writeInt64 timestamp b else b in
  let b := crc32Buffer_writeBytes key b in
  let b := crc32Buffer_writeBytes value b in
  (cb_sum b, b).

(** With the buffer that the pool's [New] makes. *)
Definition crc32OfMessage (magicByte attributes timestamp : Z) (key value : bytes) : Z :=
  (crc32OfMessage_pooled (Crc32Buffer 0 []) magicByte attributes timestamp key value).1.

(** The bytes of a message that the checksum covers: all of it after the
    CRC field. *)
Definition message_body (magicByte attributes timestamp : Z) (key value : bytes) : list byte :=
  writeInt8 magicByte ++ writeInt8 attributes ++
  (if negb (magicByte =? 0) then writeInt64 timestamp else []) ++
  writeBytes key ++ writeBytes value.

(** ** Lemmas *)

Lemma not32_involutive z : not32 (not32 z) = z.
Proof. unfold not32. by rewrite Z.lxor_assoc, Z.lxor_nilpotent, Z.lxor_0_r. Qed.

(** Checksums are incremental. *)
Lemma Update_app poly crc p q : Update poly (Update poly crc p) q = Update poly crc (p ++ q).
Proof. unfold Update. by rewrite not32_involutive, fold_left_app. Qed.

Lemma crc32Buffer_writeInt8_sum i c :
  cb_sum (crc32Buffer_writeInt8 i c) = crc32Update (cb_sum c) (writeInt8 i).
Proof. done. Qed.

Lemma crc32Buffer_writeInt64_sum i c :
  cb_sum (crc32Buffer_writeInt64 i c) = crc32Update (cb_sum c) (writeInt64 i).
Proof. done. Qed.

Lemma crc32Buffer_writeBytes_sum b c :
  cb_sum (crc32Buffer_writeBytes b c) = crc32Update (cb_sum c) (writeBytes b).
Proof.
  unfold crc32Buffer_writeBytes, writeBytes, crc32Update.
  rewrite <- Update_app. by destruct b.
Qed.

Lemma crc32OfMessage_pooled_sum pooled magicByte attributes timestamp key value :
  (crc32OfMessage_pooled pooled magicByte attributes timestamp key value).1
  = Checksum IEEE (message_body magicByte attributes timestamp key value).
Proof.
  unfold crc32OfMessage_pooled, message_body. cbn [fst].
  rewrite !crc32Buffer_writeBytes_sum. unfold Checksum. rewrite <- !Update_app.
  destruct (negb _);
    rewrite ?crc32Buffer_writeInt64_sum, !crc32Buffer_writeInt8_sum; [reflexivity|].
  unfold crc32Update. by rewrite (Update_app _ _ _ []), app_nil_r.
Qed.

(** ** Known checksums: "123456789" for both polynomials. *)

Example Checksum_IEEE_check :
  Checksum IEEE (map byte_of_Z [49;50;51;52;53;54;55;56;57]) = 0xcbf43926.
Proof. vm_compute. reflexivity. Qed.

Example Checksum_Castagnoli_check :
  Checksum Castagnoli (map byte_of_Z [49;50;51;52;53;54;55;56;57]) = 0xe3069283.
Proof. vm_compute. reflexivity. Qed.
