(* ===== verification/Messages.v ===== *)
(** * Messages and message sets (message.go), produce.go, fetch.go and the
    registry of codecs (compression.go)

    A compression codec is a value of Go's interface [CompressionCodec]; the
    codecs themselves (gzip, snappy, lz4) wrap packages that are not part of
    the repository, so that [Encode] and [Decode] are arbitrary functions. *)

From S2P Require Import Prelude Errors Time Bufio Read Write VarInt Wire.
From S2P Require Import Crc32.

(** ** compression.go *)

Record CompressionCodec : Type := {
  Code : Z;
  Encode : list byte → goerror + list byte;
  Decode : list byte → goerror + list byte;
}.

Definition compressionCodecMask : Z := 3.
Definition CompressionNoneCode : Z := 0.

Abbreviation codec_registry := (gmap Z CompressionCodec).

Definition RegisterCompressionCodec (codec : unit → CompressionCodec) (codecs : codec_registry) :
    codec_registry :=
  let c := codec tt in <[Code c := c]> codecs.

Definition resolveCodec (codecs : codec_registry) (code : Z) : goerror + CompressionCodec :=
  match codecs !! code with
  | None => inl errUnknownCodec
  | Some codec => inr codec
  end.

(** What the package relies on: decoding undoes encoding. *)
Definition codec_inverts (c : CompressionCodec) : Prop :=
  ∀ b e, Encode c b = inr e → Decode c e = inr b.

(** ** message.go: [Header], [Message] *)

Record Header : Type := { hd_Key : gostring; hd_Value : bytes }.

Record Message : Type := {
  msg_Topic : gostring;
  msg_Partition : Z;
  msg_Offset : Z;
  msg_Key : bytes;
  msg_Value : bytes;
  msg_Headers : list Header;
  msg_Time : Z;
}.

(** ** [message] *)

Record message : Type := {
  m_CRC : Z;
  m_MagicByte : Z;
  m_Attributes : Z;
  m_Timestamp : Z;
  m_Key : bytes;
  m_Value : bytes;
}.

Definition message_crc32 (m : message) : Z :=
  int32 (crc32OfMessage (m_MagicByte m) (m_Attributes m) (m_Timestamp m) (m_Key m) (m_Value m)).

Definition message_size (m : message) : Z :=
  let size := 4 ⊞ 1 ⊞ 1 ⊞ sizeofBytes (m_Key m) ⊞ sizeofBytes (m_Value m) in
  if negb (m_MagicByte m =? 0) then size ⊞ 8 else size.

#[global] Instance message_sizable : Sizable message := message_size.

Definition message_writeTo (m : message) : list byte :=
  writeInt32 (m_CRC m) ++
  writeInt8 (m_MagicByte m) ++
  writeInt8 (m_Attributes m) ++
  (if negb (m_MagicByte m =? 0) then writeInt64 (m_Timestamp m) else []) ++
  writeBytes (m_Key m) ++
  writeBytes (m_Value m).

#[global] Instance message_writable : Writable message := message_writeTo.

#[global] Instance message_request : Request message.
Proof.
  intros m. change (message_size m = int32 (len (message_writeTo m))).
  unfold message_size, message_writeTo. autorewrite with size.
  destruct (negb _); autorewrite with len; wrap_eq.
Qed.

(** [Message.message]. *)
Definition Message_message (msg : Message) : message :=
  let m := {| m_CRC := 0; m_MagicByte := 1; m_Attributes := 0;
              m_Timestamp := Time.timestamp (msg_Time msg);
              m_Key := msg_Key msg; m_Value := msg_Value msg |} in
  {| m_CRC := message_crc32 m; m_MagicByte := m_MagicByte m; m_Attributes := m_Attributes m;
     m_Timestamp := m_Timestamp m; m_Key := m_Key m; m_Value := m_Value m |}.

(** ** [messageSetItem], [messageSet] *)

Record messageSetItem : Type := {
  msi_Offset : Z;
  msi_MessageSize : Z;
  msi_Message : message;
}.

Definition messageSetItem_size (m : messageSetItem) : Z := 8 ⊞ 4 ⊞ size (msi_Message m).

#[global] Instance messageSetItem_sizable : Sizable messageSetItem := messageSetItem_size.

Definition messageSetItem_writeTo (m : messageSetItem) : list byte :=
  writeInt64 (msi_Offset m) ++
  writeInt32 (msi_MessageSize m) ++
  writeTo (msi_Message m).

#[global] Instance messageSetItem_writable : Writable messageSetItem := messageSetItem_writeTo.

#[global] Instance messageSetItem_request : Request messageSetItem.
Proof. solve_request messageSetItem_size messageSetItem_writeTo. Qed.

(** [Message.item]. *)
Definition Message_item (msg : Message) : messageSetItem :=
  {| msi_Offset := msg_Offset msg;
     msi_MessageSize := size (Message_message msg);
     msi_Message := Message_message msg |}.

Definition messageSet : Type := list messageSetItem.

Definition messageSet_size (s : messageSet) : Z :=
  fold_left (λ size_ m, size_ ⊞ size m) s 0.

#[global] Instance messageSet_sizable : Sizable messageSet := messageSet_size.

Definition messageSet_writeTo (s : messageSet) : list byte := concat (map writeTo s).

#[global] Instance messageSet_writable : Writable messageSet := messageSet_writeTo.

#[global] Instance messageSet_request : Request messageSet.
Proof.
  intros s. change (messageSet_size s = int32 (len (messageSet_writeTo s))).
  unfold messageSet_size, messageSet_writeTo. change 0 with (int32 0).
  rewrite (sizeofArray_acc size writeTo); [done|]. apply Forall_true. intros. apply size_writeTo.
Qed.

(** ** [produceRequestPartitionV2] *)

Record produceRequestPartitionV2 : Type := {
  prp_Partition : Z;
  prp_MessageSetSize : Z;
  prp_MessageSet : messageSet;
}.

Definition produceRequestPartitionV2_size (t : produceRequestPartitionV2) : Z :=
  4 ⊞ 4 ⊞ size (prp_MessageSet t).

#[global] Instance produceRequestPartitionV2_sizable : Sizable produceRequestPartitionV2 := produceRequestPartitionV2_size.

Definition produceRequestPartitionV2_writeTo (t : produceRequestPartitionV2) : list byte :=
  writeInt32 (prp_Partition t) ++
  writeInt32 (prp_MessageSetSize t) ++
  writeTo (prp_MessageSet t).

#[global] Instance produceRequestPartitionV2_writable : Writable produceRequestPartitionV2 := produceRequestPartitionV2_writeTo.

#[global] Instance produceRequestPartitionV2_request : Request produceRequestPartitionV2.
Proof. solve_request produceRequestPartitionV2_size produceRequestPartitionV2_writeTo. Qed.

(** ** [produceRequestTopicV2] *)

Record produceRequestTopicV2 : Type := {
  prt_TopicName : gostring;
  prt_Partitions : list produceRequestPartitionV2;
}.

Definition produceRequestTopicV2_size (t : produceRequestTopicV2) : Z :=
  sizeofString (prt_TopicName t) ⊞ sizeofArray size (prt_Partitions t).

#[global] Instance produceRequestTopicV2_sizable : Sizable produceRequestTopicV2 := produceRequestTopicV2_size.

Definition produceRequestTopicV2_writeTo (t : produceRequestTopicV2) : list byte :=
  writeString (prt_TopicName t) ++
  writeArray writeTo (prt_Partitions t).

#[global] Instance produceRequestTopicV2_writable : Writable produceRequestTopicV2 := produceRequestTopicV2_writeTo.

#[global] Instance produceRequestTopicV2_request : Request produceRequestTopicV2.
Proof. solve_request produceRequestTopicV2_size produceRequestTopicV2_writeTo. Qed.

(** ** [produceRequestV2] *)

Record produceRequestV2 : Type := {
  pr_RequiredAcks : Z;
  pr_Timeout : Z;
  pr_Topics : list produceRequestTopicV2;
}.

Definition produceRequestV2_size (t : produceRequestV2) : Z :=
  2 ⊞ 4 ⊞ sizeofArray size (pr_Topics t).

#[global] Instance produceRequestV2_sizable : Sizable produceRequestV2 := produceRequestV2_size.

Definition produceRequestV2_writeTo (t : produceRequestV2) : list byte :=
  writeInt16 (pr_RequiredAcks t) ++
  writeInt32 (pr_Timeout t) ++
  writeArray writeTo (pr_Topics t).

#[global] Instance produceRequestV2_writable : Writable produceRequestV2 := produceRequestV2_writeTo.

#[global] Instance produceRequestV2_request : Request produceRequestV2.
Proof. solve_request produceRequestV2_size produceRequestV2_writeTo. Qed.

(** ** [produceResponsePartitionV2] *)

Record produceResponsePartitionV2 : Type := {
  psp_Partition : Z;
  psp_ErrorCode : Z;
  psp_Offset : Z;
  psp_Timestamp : Z;
}.

Definition produceResponsePartitionV2_size (t : produceResponsePartitionV2) : Z :=
  4 ⊞ 2 ⊞ 8 ⊞ 8.

#[global] Instance produceResponsePartitionV2_sizable : Sizable produceResponsePartitionV2 := produceResponsePartitionV2_size.

Definition produceResponsePartitionV2_writeTo (t : produceResponsePartitionV2) : list byte :=
  writeInt32 (psp_Partition t) ++
  writeInt16 (psp_ErrorCode t) ++
  writeInt64 (psp_Offset t) ++
  writeInt64 (psp_Timestamp t).

#[global] Instance produceResponsePartitionV2_writable : Writable produceResponsePartitionV2 := produceResponsePartitionV2_writeTo.

#[global] Instance produceResponsePartitionV2_request : Request produceResponsePartitionV2.
Proof. solve_request produceResponsePartitionV2_size produceResponsePartitionV2_writeTo. Qed.

Definition produceResponsePartitionV2_readFrom : rd produceResponsePartitionV2 :=
  partition ← readInt32;
  errorCode ← readInt16;
  offset ← readInt64;
  timestamp ← readInt64;
  mret {| psp_Partition := partition; psp_ErrorCode := errorCode; psp_Offset := offset; psp_Timestamp := timestamp |}.

#[global] Instance produceResponsePartitionV2_readable : Readable produceResponsePartitionV2 := produceResponsePartitionV2_readFrom.
#[global] Instance produceResponsePartitionV2_response : Response produceResponsePartitionV2.
Proof. solve_response produceResponsePartitionV2_readFrom. Qed.

Definition produceResponsePartitionV2_wf (t : produceResponsePartitionV2) : Prop :=
  is_int32 (psp_Partition t) ∧ is_int16 (psp_ErrorCode t) ∧ is_int64 (psp_Offset t) ∧ is_int64 (psp_Timestamp t).

Definition produceResponsePartitionV2_canon (t : produceResponsePartitionV2) : produceResponsePartitionV2 := t.

Lemma produceResponsePartitionV2_reads t : produceResponsePartitionV2_wf t → reads readFrom (writeTo t) (produceResponsePartitionV2_canon t).
Proof. intros (? & ? & ? & ?). destruct t. solve_codec produceResponsePartitionV2_readFrom produceResponsePartitionV2_writeTo produceResponsePartitionV2_canon. Qed.

#[global] Instance produceResponsePartitionV2_codec : Codec produceResponsePartitionV2 :=
  {| wf := produceResponsePartitionV2_wf; canon := produceResponsePartitionV2_canon; codec_reads := produceResponsePartitionV2_reads |}.

(** ** [produceResponseTopicV2] *)

Record produceResponseTopicV2 : Type := {
  pst_TopicName : gostring;
  pst_Partitions : list produceResponsePartitionV2;
}.

Definition produceResponseTopicV2_size (t : produceResponseTopicV2) : Z :=
  sizeofString (pst_TopicName t) ⊞ sizeofArray size (pst_Partitions t).

#[global] Instance produceResponseTopicV2_sizable : Sizable produceResponseTopicV2 := produceResponseTopicV2_size.

Definition produceResponseTopicV2_writeTo (t : produceResponseTopicV2) : list byte :=
  writeString (pst_TopicName t) ++
  writeArray writeTo (pst_Partitions t).

#[global] Instance produceResponseTopicV2_writable : Writable produceResponseTopicV2 := produceResponseTopicV2_writeTo.

#[global] Instance produceResponseTopicV2_request : Request produceResponseTopicV2.
Proof. solve_request produceResponseTopicV2_size produceResponseTopicV2_writeTo. Qed.

(** ** [produceResponseV2] *)

Record produceResponseV2 : Type := {
  ps_ThrottleTime : Z;
  ps_Topics : list produceResponseTopicV2;
}.

Definition produceResponseV2_size (t : produceResponseV2) : Z :=
  4 ⊞ sizeofArray size (ps_Topics t).

#[global] Instance produceResponseV2_sizable : Sizable produceResponseV2 := produceResponseV2_size.

Definition produceResponseV2_writeTo (t : produceResponseV2) : list byte :=
  writeInt32 (ps_ThrottleTime t) ++
  writeArray writeTo (ps_Topics t).

#[global] Instance produceResponseV2_writable : Writable produceResponseV2 := produceResponseV2_writeTo.

#[global] Instance produceResponseV2_request : Request produceResponseV2.
Proof. solve_request produceResponseV2_size produceResponseV2_writeTo. Qed.

(** ** [fetchRequestPartitionV2] *)

Record fetchRequestPartitionV2 : Type := {
  frp_Partition : Z;
  frp_FetchOffset : Z;
  frp_MaxBytes : Z;
}.

Definition fetchRequestPartitionV2_size (t : fetchRequestPartitionV2) : Z :=
  4 ⊞ 8 ⊞ 4.

#[global] Instance fetchRequestPartitionV2_sizable : Sizable fetchRequestPartitionV2 := fetchRequestPartitionV2_size.

Definition fetchRequestPartitionV2_writeTo (t : fetchRequestPartitionV2) : list byte :=
  writeInt32 (frp_Partition t) ++
  writeInt64 (frp_FetchOffset t) ++
  writeInt32 (frp_MaxBytes t).

#[global] Instance fetchRequestPartitionV2_writable : Writable fetchRequestPartitionV2 := fetchRequestPartitionV2_writeTo.

#[global] Instance fetchRequestPartitionV2_request : Request fetchRequestPartitionV2.
Proof. solve_request fetchRequestPartitionV2_size fetchRequestPartitionV2_writeTo. Qed.

(** ** [fetchRequestTopicV2] *)

Record fetchRequestTopicV2 : Type := {
  frt_TopicName : gostring;
  frt_Partitions : list fetchRequestPartitionV2;
}.

Definition fetchRequestTopicV2_size (t : fetchRequestTopicV2) : Z :=
  sizeofString (frt_TopicName t) ⊞ sizeofArray size (frt_Partitions t).

#[global] Instance fetchRequestTopicV2_sizable : Sizable fetchRequestTopicV2 := fetchRequestTopicV2_size.

Definition fetchRequestTopicV2_writeTo (t : fetchRequestTopicV2) : list byte :=
  writeString (frt_TopicName t) ++
  writeArray writeTo (frt_Partitions t).

#[global] Instance fetchRequestTopicV2_writable : Writable fetchRequestTopicV2 := fetchRequestTopicV2_writeTo.

#[global] Instance fetchRequestTopicV2_request : Request fetchRequestTopicV2.
Proof. solve_request fetchRequestTopicV2_size fetchRequestTopicV2_writeTo. Qed.

(** ** [fetchRequestV2] *)

Record fetchRequestV2 : Type := {
  fr_ReplicaID : Z;
  fr_MaxWaitTime : Z;
  fr_MinBytes : Z;
  fr_Topics : list fetchRequestTopicV2;
}.

Definition fetchRequestV2_size (t : fetchRequestV2) : Z :=
  4 ⊞ 4 ⊞ 4 ⊞ sizeofArray size (fr_Topics t).

#[global] Instance fetchRequestV2_sizable : Sizable fetchRequestV2 := fetchRequestV2_size.

Definition fetchRequestV2_writeTo (t : fetchRequestV2) : list byte :=
  writeInt32 (fr_ReplicaID t) ++
  writeInt32 (fr_MaxWaitTime t) ++
  writeInt32 (fr_MinBytes t) ++
  writeArray writeTo (fr_Topics t).

#[global] Instance fetchRequestV2_writable : Writable fetchRequestV2 := fetchRequestV2_writeTo.

#[global] Instance fetchRequestV2_request : Request fetchRequestV2.
Proof. solve_request fetchRequestV2_size fetchRequestV2_writeTo. Qed.

(** ** [fetchResponsePartitionV2] *)

Record fetchResponsePartitionV2 : Type := {
  fsp_Partition : Z;
  fsp_ErrorCode : Z;
  fsp_HighwaterMarkOffset : Z;
  fsp_MessageSetSize : Z;
  fsp_MessageSet : messageSet;
}.

Definition fetchResponsePartitionV2_size (t : fetchResponsePartitionV2) : Z :=
  4 ⊞ 2 ⊞ 8 ⊞ 4 ⊞ size (fsp_MessageSet t).

#[global] Instance fetchResponsePartitionV2_sizable : Sizable fetchResponsePartitionV2 := fetchResponsePartitionV2_size.

Definition fetchResponsePartitionV2_writeTo (t : fetchResponsePartitionV2) : list byte :=
  writeInt32 (fsp_Partition t) ++
  writeInt16 (fsp_ErrorCode t) ++
  writeInt64 (fsp_HighwaterMarkOffset t) ++
  writeInt32 (fsp_MessageSetSize t) ++
  writeTo (fsp_MessageSet t).

#[global] Instance fetchResponsePartitionV2_writable : Writable fetchResponsePartitionV2 := fetchResponsePartitionV2_writeTo.

#[global] Instance fetchResponsePartitionV2_request : Request fetchResponsePartitionV2.
Proof. solve_request fetchResponsePartitionV2_size fetchResponsePartitionV2_writeTo. Qed.

(** ** [fetchResponseTopicV2] *)

Record fetchResponseTopicV2 : Type := {
  fstp_TopicName : gostring;
  fstp_Partitions : list fetchResponsePartitionV2;
}.

Definition fetchResponseTopicV2_size (t : fetchResponseTopicV2) : Z :=
  sizeofString (fstp_TopicName t) ⊞ sizeofArray size (fstp_Partitions t).

#[global] Instance fetchResponseTopicV2_sizable : Sizable fetchResponseTopicV2 := fetchResponseTopicV2_size.

Definition fetchResponseTopicV2_writeTo (t : fetchResponseTopicV2) : list byte :=
  writeString (fstp_TopicName t) ++
  writeArray writeTo (fstp_Partitions t).

#[global] Instance fetchResponseTopicV2_writable : Writable fetchResponseTopicV2 := fetchResponseTopicV2_writeTo.

#[global] Instance fetchResponseTopicV2_request : Request fetchResponseTopicV2.
Proof. solve_request fetchResponseTopicV2_size fetchResponseTopicV2_writeTo. Qed.

(** ** [fetchResponseV2] *)

Record fetchResponseV2 : Type := {
  fs_ThrottleTime : Z;
  fs_Topics : list fetchResponseTopicV2;
}.

Definition fetchResponseV2_size (t : fetchResponseV2) : Z :=
  4 ⊞ sizeofArray size (fs_Topics t).

#[global] Instance fetchResponseV2_sizable : Sizable fetchResponseV2 := fetchResponseV2_size.

Definition fetchResponseV2_writeTo (t : fetchResponseV2) : list byte :=
  writeInt32 (fs_ThrottleTime t) ++
  writeArray writeTo (fs_Topics t).

#[global] Instance fetchResponseV2_writable : Writable fetchResponseV2 := fetchResponseV2_writeTo.

#[global] Instance fetchResponseV2_request : Request fetchResponseV2.
Proof. solve_request fetchResponseV2_size fetchResponseV2_writeTo. Qed.

(** ** Registry lemmas *)

Lemma resolveCodec_Register codec codecs code :
  resolveCodec (RegisterCompressionCodec codec codecs) code =
  if decide (code = Code (codec tt)) then inr (codec tt) else resolveCodec codecs code.
Proof.
  unfold resolveCodec, RegisterCompressionCodec. cbn zeta. case_decide as H.
  - subst. by rewrite lookup_insert_eq.
  - by rewrite lookup_insert_ne.
Qed.

(** The CRC that a message carries is the checksum of the bytes after it. *)
Lemma message_writeTo_body m :
  message_writeTo m = writeInt32 (m_CRC m) ++
    message_body (m_MagicByte m) (m_Attributes m) (m_Timestamp m) (m_Key m) (m_Value m).
Proof. done. Qed.
