(* ===== verification/DataRequests.v ===== *)
(** * Fetch, list-offset and produce requests, records and record batches (write.go)

    The functions of write.go that write a request field by field instead of
    building the structures of fetch.go, listoffset.go and produce.go, and the
    format of records (message format 2). *)

From S2P Require Import Prelude Errors Time Bufio Read Write VarInt Wire.
From S2P Require Import Protocol OffsetMessages Crc32 Messages.

(** ** Fetch and list-offset requests *)

(** The header every function starts with. *)
Definition dataHeader (apiKey apiVersion correlationID : Z) (clientID : gostring) : requestHeader :=
  {| h_Size := 0; h_ApiKey := int16 apiKey; h_ApiVersion := int16 apiVersion;
     h_CorrelationID := correlationID; h_ClientID := clientID |}.

Definition writeFetchRequestV2 (correlationID : Z) (clientID topic : gostring)
    (partition offset minBytes maxBytes maxWait : Z) : list byte :=
  let h := dataHeader Api.fetchRequest Api.v2 correlationID clientID in
  let h := with_Size h
    (int32 (requestHeader_size h - 4) ⊞ 4 ⊞ 4 ⊞ 4 ⊞ 4 ⊞ sizeofString topic ⊞ 4 ⊞ 4 ⊞ 8 ⊞ 4) in
  requestHeader_writeTo h ++
  writeInt32 (-1) ++
  writeInt32 (Time.milliseconds maxWait) ++
  writeInt32 (int32 minBytes) ++
  writeArrayLen 1 ++
  writeString topic ++
  writeArrayLen 1 ++
  writeInt32 partition ++
  writeInt64 offset ++
  writeInt32 (int32 maxBytes).

Definition writeFetchRequestV5 (correlationID : Z) (clientID topic : gostring)
    (partition offset minBytes maxBytes maxWait isolationLevel : Z) : list byte :=
  let h := dataHeader Api.fetchRequest Api.v5 correlationID clientID in
  let h := with_Size h
    (int32 (requestHeader_size h - 4) ⊞ 4 ⊞ 4 ⊞ 4 ⊞ 4 ⊞ 1 ⊞ 4 ⊞ sizeofString topic ⊞
     4 ⊞ 4 ⊞ 8 ⊞ 8 ⊞ 4) in
  requestHeader_writeTo h ++
  writeInt32 (-1) ++
  writeInt32 (Time.milliseconds maxWait) ++
  writeInt32 (int32 minBytes) ++
  writeInt32 (int32 maxBytes) ++
  writeInt8 isolationLevel ++
  writeArrayLen 1 ++
  writeString topic ++
  writeArrayLen 1 ++
  writeInt32 partition ++
  writeInt64 offset ++
  writeInt64 0 ++
  writeInt32 (int32 maxBytes).

Definition writeListOffsetRequestV1 (correlationID : Z) (clientID topic : gostring)
    (partition time : Z) : list byte :=
  let h := dataHeader Api.listOffsetRequest Api.v1 correlationID clientID in
  let h := with_Size h
    (int32 (requestHeader_size h - 4) ⊞ 4 ⊞ 4 ⊞ sizeofString topic ⊞ 4 ⊞ 4 ⊞ 8) in
  requestHeader_writeTo h ++
  writeInt32 (-1) ++
  writeArrayLen 1 ++
  writeString topic ++
  writeArrayLen 1 ++
  writeInt32 partition ++
  writeInt64 time.

(** ** Messages of format 1 *)

Definition magicByte : Z := 1.

Definition msgSize (key value : bytes) : Z :=
  4 ⊞ 1 ⊞ 1 ⊞ 8 ⊞ sizeofBytes key ⊞ sizeofBytes value.

Definition writeMessage (offset attributes time : Z) (key value : bytes) : list byte :=
  let timestamp := Time.timestamp time in
  let crc32 := crc32OfMessage magicByte attributes timestamp key value in
  writeInt64 offset ++
  writeInt32 (msgSize key value) ++
  writeInt32 (int32 crc32) ++
  writeInt8 magicByte ++
  writeInt8 attributes ++
  writeInt64 timestamp ++
  writeBytes key ++
  writeBytes value.

Definition messageSetSize (msgs : list Message) : Z :=
  fold_left (λ size msg, size ⊞
    (8 ⊞ 4 ⊞ 4 ⊞ 1 ⊞ 1 ⊞ 8 ⊞ sizeofBytes (msg_Key msg) ⊞ sizeofBytes (msg_Value msg))) msgs 0.

(** The loop of [compress]: messages numbered from 0. *)
Fixpoint writeMessages_from (offset : Z) (msgs : list Message) : list byte :=
  match msgs with
  | [] => []
  | msg :: msgs =>
    writeMessage offset CompressionNoneCode (msg_Time msg) (msg_Key msg) (msg_Value msg) ++
    writeMessages_from (offset + 1) msgs
  end.

Definition zeroMessage : Message :=
  {| msg_Topic := []; msg_Partition := 0; msg_Offset := 0; msg_Key := None; msg_Value := None;
     msg_Headers := []; msg_Time := Time.zeroTime |}.

(** [bytes.Buffer.Grow] panics on a negative count, which a size that
    overflowed gives. *)
Definition negativeGrow : goerror := GoPanic "bytes.Buffer.Grow: negative count".

Definition estimatedLen (msgs : list Message) : Z :=
  fold_left (λ n msg, n + msgSize (msg_Key msg) (msg_Value msg)) msgs 0.

Definition compress (codec : CompressionCodec) (msgs : list Message) : goerror + list Message :=
  if estimatedLen msgs <? 0 then inl negativeGrow
  else match Encode codec (writeMessages_from 0 msgs) with
  | inl err => inl err
  | inr compressed =>
    inr [{| msg_Topic := msg_Topic zeroMessage; msg_Partition := msg_Partition zeroMessage;
            msg_Offset := msg_Offset zeroMessage; msg_Key := msg_Key zeroMessage;
            msg_Value := Some compressed; msg_Headers := msg_Headers zeroMessage;
            msg_Time := msg_Time zeroMessage |}]
  end.

Definition writeProduceRequestV2 (codec : option CompressionCodec) (correlationID : Z)
    (clientID topic : gostring) (partition timeout requiredAcks : Z) (msgs : list Message) :
    goerror + list byte :=
  match match codec with
        | None => inr (msgs, CompressionNoneCode)
        | Some codec =>
          match compress codec msgs with
          | inl err => inl err
          | inr msgs => inr (msgs, Code codec)
          end
        end with
  | inl err => inl err
  | inr (msgs, attributes) =>
    let size := messageSetSize msgs in
    let h := dataHeader Api.produceRequest Api.v2 correlationID clientID in
    let h := with_Size h
      (int32 (requestHeader_size h - 4) ⊞ 2 ⊞ 4 ⊞ 4 ⊞ sizeofString topic ⊞ 4 ⊞ 4 ⊞ 4 ⊞ size) in
    inr (requestHeader_writeTo h ++
         writeInt16 requiredAcks ++
         writeInt32 (Time.milliseconds timeout) ++
         writeArrayLen 1 ++
         writeString topic ++
         writeArrayLen 1 ++
         writeInt32 partition ++
         writeInt32 size ++
         concat (map (λ msg, writeMessage (msg_Offset msg) attributes (msg_Time msg)
                               (msg_Key msg) (msg_Value msg)) msgs))
  end.

(** ** Records (message format 2)

    [recordSize] is a Go [int] sum of lengths of slices in memory, which does
    not overflow; its variable-length parts may not end, see [VarInt]. *)

Definition headerSize (h : Header) : option Z :=
  k ← varIntLen (len (hd_Key h));
  v ← varIntLen (len (bdata (hd_Value h)));
  Some (k + len (hd_Key h) + v + len (bdata (hd_Value h))).

Fixpoint headersSize (hs : list Header) : option Z :=
  match hs with
  | [] => Some 0
  | h :: hs => a ← headerSize h; b ← headersSize hs; Some (a + b)
  end.

Definition recordSize (msg : Message) (timestampDelta offsetDelta : Z) : option Z :=
  t ← varIntLen timestampDelta;
  o ← varIntLen offsetDelta;
  k ← varIntLen (len (bdata (msg_Key msg)));
  v ← varIntLen (len (bdata (msg_Value msg)));
  h ← varIntLen (len (msg_Headers msg));
  hs ← headersSize (msg_Headers msg);
  Some (1 + t + o + k + len (bdata (msg_Key msg)) + v + len (bdata (msg_Value msg)) + h + hs).

Definition writeHeader (h : Header) : option (list byte) :=
  k ← writeVarInt (len (hd_Key h));
  v ← writeVarInt (len (bdata (hd_Value h)));
  Some (k ++ hd_Key h ++ v ++ bdata (hd_Value h)).

Fixpoint writeHeaders (hs : list Header) : option (list byte) :=
  match hs with
  | [] => Some []
  | h :: hs => a ← writeHeader h; b ← writeHeaders hs; Some (a ++ b)
  end.

(** The part of [writeRecord] after the length of the record. *)
Definition writeRecordBody (attributes timestampDelta offsetDelta : Z) (msg : Message) :
    option (list byte) :=
  t ← writeVarInt timestampDelta;
  o ← writeVarInt offsetDelta;
  k ← writeVarInt (len (bdata (msg_Key msg)));
  v ← writeVarInt (len (bdata (msg_Value msg)));
  h ← writeVarInt (len (msg_Headers msg));
  hs ← writeHeaders (msg_Headers msg);
  Some (writeInt8 attributes ++ t ++ o ++ k ++ bdata (msg_Key msg) ++
        v ++ bdata (msg_Value msg) ++ h ++ hs).

Definition writeRecord (attributes baseTime offset : Z) (msg : Message) : option (list byte) :=
  let timestampDelta := Time.Sub (msg_Time msg) baseTime in
  let offsetDelta := offset in
  n ← recordSize msg timestampDelta offsetDelta;
  l ← writeVarInt n;
  body ← writeRecordBody attributes timestampDelta offsetDelta msg;
  Some (l ++ body).

(** The loops over the messages of a batch, numbered from [i]. *)
Fixpoint writeRecords (baseTime i : Z) (msgs : list Message) : option (list byte) :=
  match msgs with
  | [] => Some []
  | msg :: msgs =>
    a ← writeRecord 0 baseTime i msg;
    b ← writeRecords baseTime (i + 1) msgs;
    Some (a ++ b)
  end.

Fixpoint recordsSize (baseTime i size : Z) (msgs : list Message) : option Z :=
  match msgs with
  | [] => Some size
  | msg :: msgs =>
    sz ← recordSize msg (Time.Sub (msg_Time msg) baseTime) i;
    l ← varIntLen sz;
    recordsSize baseTime (i + 1) (size ⊞ int32 (sz + l)) msgs
  end.

(** ** Record batches *)

Definition recordBatchHeaderSize : Z := 8 + 4 + 4 + 1 + 4 + 2 + 4 + 8 + 8 + 8 + 2 + 4 + 4.

(** [msgs[0]] *)
Definition first_message (msgs : list Message) : outcome Message :=
  match msgs with [] => Failed (GoPanic "index out of range") | msg :: _ => Done msg end.

Definition recordBatchSize (msgs : list Message) : outcome Z :=
  m0 ← first_message msgs;
  may_diverge (recordsSize (msg_Time m0) 0 recordBatchHeaderSize msgs).

(** The part of a batch that its checksum covers. *)
Definition batch_crc_part (attributes baseTime lastTime n : Z) (payload : list byte) : list byte :=
  writeInt16 attributes ++
  writeInt32 (int32 (n - 1)) ++
  writeInt64 (Time.timestamp baseTime) ++
  writeInt64 (Time.timestamp lastTime) ++
  writeInt64 (-1) ++
  writeInt16 (-1) ++
  writeInt32 (-1) ++
  writeInt32 (int32 n) ++
  payload.

(** [writeRecordBatch]; [payload] is what the callback writes. *)
Definition writeRecordBatch (attributes size : Z) (payload : list byte) (msgs : list Message) :
    outcome (list byte) :=
  m0 ← first_message msgs;
  let lastTime := msg_Time (List.last msgs m0) in
  let crcBuf := batch_crc_part attributes (msg_Time m0) lastTime (len msgs) payload in
  if int32 (size - 12) <? 0 then Failed negativeGrow
  else
  Done (writeInt64 0 ++
        writeInt32 (int32 (size - 12)) ++
        writeInt32 (-1) ++
        writeInt8 2 ++
        writeInt32 (int32 (Checksum Castagnoli crcBuf)) ++
        crcBuf).

(** [writeProduceRequestV3] once the batch has its size, its payload and its
    attributes. *)
Definition sendRecordBatch (correlationID : Z) (clientID topic : gostring)
    (partition timeout requiredAcks : Z) (msgs : list Message)
    (size : Z) (payload : list byte) (attributes : Z) : outcome (list byte) :=
  let h := dataHeader Api.produceRequest Api.v3 correlationID clientID in
  let h := with_Size h
    (int32 (requestHeader_size h - 4) ⊞ 2 ⊞ 2 ⊞ 4 ⊞ 4 ⊞ sizeofString topic ⊞ 4 ⊞ 4 ⊞ 4 ⊞ size) in
  batch ← writeRecordBatch attributes size payload msgs;
  Done (requestHeader_writeTo h ++
        writeInt16 (-1) ++
        writeInt16 requiredAcks ++
        writeInt32 (Time.milliseconds timeout) ++
        writeArrayLen 1 ++
        writeString topic ++
        writeArrayLen 1 ++
        writeInt32 partition ++
        writeInt32 size ++
        batch).

Definition writeProduceRequestV3 (codec : option CompressionCodec) (correlationID : Z)
    (clientID topic : gostring) (partition timeout requiredAcks : Z) (msgs : list Message) :
    outcome (list byte) :=
  total ← recordBatchSize msgs;
  m0 ← first_message msgs;
  let send := sendRecordBatch correlationID clientID topic partition timeout requiredAcks msgs in
  match codec with
  | Some codec =>
    if total <? 0 then Failed negativeGrow
    else
      records ← may_diverge (writeRecords (msg_Time m0) 0 msgs);
      compressed ← may_fail (Encode codec records);
      send (recordBatchHeaderSize ⊞ int32 (len compressed)) compressed (Code codec)
  | None =>
    records ← may_diverge (writeRecords (msg_Time m0) 0 msgs);
    send total records 0
  end.

(** ** The optimised requests are the structures of the protocol *)

Lemma dataHeader_conn apiKey apiVersion correlationID clientID :
  dataHeader apiKey apiVersion correlationID clientID =
  conn_requestHeader clientID apiKey apiVersion correlationID.
Proof. done. Qed.

(** A request written field by field is [writeRequest] of a structure when the
    body is the one the structure writes and the sizes agree. *)
Lemma writeRequest_fields `{Request A} clientID key version id (req : A) sz body :
  writeTo req = body →
  sz = int32 (14 + len clientID + len body - 4) →
  requestHeader_writeTo (with_Size (dataHeader key version id clientID) sz) ++ body
  = writeRequest clientID key version id req.
Proof.
  intros <- ->. unfold writeRequest. rewrite dataHeader_conn.
  rewrite requestHeader_size_ok, size_writeTo, len_requestHeader_writeTo.
  cbn [h_ClientID conn_requestHeader]. do 3 f_equal. symmetry. wrap_eq.
Qed.

(** [solve_fields]: the size of the header counts the bytes of the body. *)
Ltac solve_fields :=
  rewrite requestHeader_size_ok, len_requestHeader_writeTo; cbn [h_ClientID dataHeader];
  autorewrite with size; autorewrite with len; wrap_eq.

Definition fetchRequestV2_of (topic : gostring)
    (partition offset minBytes maxBytes maxWait : Z) : fetchRequestV2 :=
  {| fr_ReplicaID := -1; fr_MaxWaitTime := Time.milliseconds maxWait;
     fr_MinBytes := int32 minBytes;
     fr_Topics := [{| frt_TopicName := topic;
       frt_Partitions := [{| frp_Partition := partition; frp_FetchOffset := offset;
                             frp_MaxBytes := int32 maxBytes |}] |}] |}.

#[local] Arguments writeArray : simpl never.
#[local] Arguments writeInt8 : simpl never.
#[local] Arguments writeInt16 : simpl never.
#[local] Arguments writeInt32 : simpl never.
#[local] Arguments writeInt64 : simpl never.

Lemma writeArray_1 {A} (f : A → list byte) a : writeArray f [a] = writeArrayLen 1 ++ f a.
Proof. unfold writeArray. simpl. by rewrite app_nil_r. Qed.

Lemma writeFetchRequestV2_struct id clientID topic partition offset minBytes maxBytes maxWait :
  writeFetchRequestV2 id clientID topic partition offset minBytes maxBytes maxWait
  = writeRequest clientID Api.fetchRequest Api.v2 id
      (fetchRequestV2_of topic partition offset minBytes maxBytes maxWait).
Proof.
  unfold writeFetchRequestV2. apply writeRequest_fields; [|solve_fields].
  unfold writeTo, fetchRequestV2_writable, fetchRequestV2_writeTo, fetchRequestV2_of. cbn.
  rewrite writeArray_1. unfold writeTo, fetchRequestTopicV2_writable, fetchRequestTopicV2_writeTo. cbn.
  by rewrite writeArray_1.
Qed.

Definition listOffsetRequestV1_of (topic : gostring) (partition time : Z) : listOffsetRequestV1 :=
  {| lor_ReplicaID := -1;
     lor_Topics := [{| lort_TopicName := topic;
       lort_Partitions := [{| lorp_Partition := partition; lorp_Time := time |}] |}] |}.

Lemma writeListOffsetRequestV1_struct id clientID topic partition time :
  writeListOffsetRequestV1 id clientID topic partition time
  = writeRequest clientID Api.listOffsetRequest Api.v1 id
      (listOffsetRequestV1_of topic partition time).
Proof.
  unfold writeListOffsetRequestV1. apply writeRequest_fields; [|solve_fields].
  unfold writeTo, listOffsetRequestV1_writable, listOffsetRequestV1_writeTo, listOffsetRequestV1_of.
  cbn. rewrite writeArray_1.
  unfold writeTo, listOffsetRequestTopicV1_writable, listOffsetRequestTopicV1_writeTo. cbn.
  by rewrite writeArray_1.
Qed.

(** A message written by [writeMessage] is an item of a message set. *)
Definition item_of (attributes : Z) (msg : Message) : messageSetItem :=
  let m := {| m_CRC := int32 (crc32OfMessage 1 attributes (Time.timestamp (msg_Time msg))
                                (msg_Key msg) (msg_Value msg));
              m_MagicByte := 1; m_Attributes := attributes;
              m_Timestamp := Time.timestamp (msg_Time msg);
              m_Key := msg_Key msg; m_Value := msg_Value msg |} in
  {| msi_Offset := msg_Offset msg; msi_MessageSize := size m; msi_Message := m |}.

Lemma item_of_Message msg : item_of 0 msg = Message_item msg.
Proof. reflexivity. Qed.

Lemma msgSize_size attributes msg :
  msgSize (msg_Key msg) (msg_Value msg) = msi_MessageSize (item_of attributes msg).
Proof.
  unfold item_of. cbn [msi_MessageSize]. unfold size, message_sizable, message_size.
  cbn. unfold msgSize. wrap_eq.
Qed.

Lemma writeMessage_item attributes msg :
  writeMessage (msg_Offset msg) attributes (msg_Time msg) (msg_Key msg) (msg_Value msg)
  = writeTo (item_of attributes msg).
Proof.
  unfold writeMessage. rewrite (msgSize_size attributes).
  unfold writeTo, messageSetItem_writable, messageSetItem_writeTo. reflexivity.
Qed.

Lemma messageSetSize_size attributes msgs :
  messageSetSize msgs = size (map (item_of attributes) msgs : messageSet).
Proof.
  rewrite size_writeTo. unfold writeTo, messageSet_writable, messageSet_writeTo.
  rewrite map_map. unfold messageSetSize. change 0 with (int32 0).
  rewrite (sizeofArray_acc _ (λ x, writeTo (item_of attributes x))); [done|].
  apply Forall_true. intros msg. rewrite <- size_writeTo.
  unfold size, messageSetItem_sizable, messageSetItem_size.
  cbn [item_of msi_Message]. unfold size, message_sizable, message_size. cbn. wrap_eq.
Qed.

Definition produceRequestV2_of (topic : gostring) (partition timeout requiredAcks : Z)
    (ms : messageSet) : produceRequestV2 :=
  {| pr_RequiredAcks := requiredAcks; pr_Timeout := Time.milliseconds timeout;
     pr_Topics := [{| prt_TopicName := topic;
       prt_Partitions := [{| prp_Partition := partition; prp_MessageSetSize := size ms;
                             prp_MessageSet := ms |}] |}] |}.

Lemma concat_writeMessage attributes msgs :
  concat (map (λ msg, writeMessage (msg_Offset msg) attributes (msg_Time msg)
                        (msg_Key msg) (msg_Value msg)) msgs)
  = writeTo (map (item_of attributes) msgs : messageSet).
Proof.
  unfold writeTo, messageSet_writable, messageSet_writeTo. rewrite map_map.
  f_equal. apply map_ext. intros. apply writeMessage_item.
Qed.

(** What [writeProduceRequestV2] sends: the messages and the attributes. *)
Definition produced (codec : option CompressionCodec) (msgs : list Message) :
    goerror + list Message * Z :=
  match codec with
  | None => inr (msgs, CompressionNoneCode)
  | Some codec =>
    match compress codec msgs with inl err => inl err | inr msgs => inr (msgs, Code codec) end
  end.

Lemma writeProduceRequestV2_struct codec id clientID topic partition timeout acks msgs :
  writeProduceRequestV2 codec id clientID topic partition timeout acks msgs
  = match produced codec msgs with
    | inl err => inl err
    | inr (msgs, attributes) =>
      inr (writeRequest clientID Api.produceRequest Api.v2 id
             (produceRequestV2_of topic partition timeout acks (map (item_of attributes) msgs)))
    end.
Proof.
  unfold writeProduceRequestV2. fold (produced codec msgs).
  destruct (produced codec msgs) as [err|[ms attributes]]; [done|]. f_equal.
  rewrite concat_writeMessage, (messageSetSize_size attributes).
  apply writeRequest_fields.
  - unfold writeTo at 1, produceRequestV2_writable, produceRequestV2_writeTo, produceRequestV2_of.
    cbn [pr_RequiredAcks pr_Timeout pr_Topics]. rewrite writeArray_1.
    unfold writeTo at 1, produceRequestTopicV2_writable, produceRequestTopicV2_writeTo.
    cbn [prt_TopicName prt_Partitions]. rewrite writeArray_1. reflexivity.
  - rewrite size_writeTo. solve_fields.
Qed.

Lemma writeFetchRequestV5_framed id clientID topic partition offset minBytes maxBytes maxWait iso :
  len (writeFetchRequestV5 id clientID topic partition offset minBytes maxBytes maxWait iso) < 2 ^ 31 →
  framed_block
    (writeFetchRequestV5 id clientID topic partition offset minBytes maxBytes maxWait iso).
Proof.
  unfold writeFetchRequestV5. rewrite len_app. intros Hl. apply framed_block_header; [|lia].
  rewrite len_requestHeader_writeTo. cbn [h_Size h_ClientID with_Size]. solve_fields.
Qed.

(** ** Sizes of records *)

(** [size_of m n]: [n] computes the length of what [m] writes; both end or
    neither does. *)
Definition size_of (n : option Z) (m : option (list byte)) : Prop := n = len <$> m.

Lemma size_of_bind {A} n (m : option (list byte)) (f : Z → option Z) (g : list byte → option A) h :
  size_of n m → (∀ bs, f (len bs) = h <$> g bs) → (n ≫= f) = h <$> (m ≫= g).
Proof. intros ->. by destruct m; simpl. Qed.

(** [solve_size]: follows two sequences that write and count the same fields. *)
Ltac solve_size :=
  repeat (eapply size_of_bind; [solve [eauto with size_of]|intros ?]);
  simpl; f_equal; autorewrite with len; lia.

Create HintDb size_of.

Lemma size_of_varInt i : size_of (varIntLen i) (writeVarInt i).
Proof. apply varIntLen_writeVarInt. Qed.
#[local] Hint Resolve size_of_varInt : size_of.

Lemma size_of_header h : size_of (headerSize h) (writeHeader h).
Proof. unfold size_of, headerSize, writeHeader. solve_size. Qed.
#[local] Hint Resolve size_of_header : size_of.

Lemma size_of_headers hs : size_of (headersSize hs) (writeHeaders hs).
Proof. induction hs as [|h hs IH]; unfold size_of; cbn [headersSize writeHeaders]; [done|]. solve_size. Qed.
#[local] Hint Resolve size_of_headers : size_of.

Lemma size_of_record attributes t o msg :
  size_of (recordSize msg t o) (writeRecordBody attributes t o msg).
Proof. unfold size_of, recordSize, writeRecordBody. solve_size. Qed.

Lemma size_of_records baseTime i s msgs :
  recordsSize baseTime i (int32 s) msgs
  = (λ bs, int32 (s + len bs)) <$> writeRecords baseTime i msgs.
Proof.
  revert i s. induction msgs as [|msg msgs IH]; intros i s; cbn [recordsSize writeRecords].
  { simpl. do 2 f_equal. rewrite len_nil. lia. }
  unfold writeRecord. rewrite (size_of_record 0).
  destruct (writeRecordBody _ _ _ _) as [body|] eqn:Eb; [|done]. simpl.
  rewrite size_of_varInt. destruct (writeVarInt _) as [l|]; [|done]. simpl.
  wrap_norm. rewrite IH. destruct (writeRecords _ _ _); [|done]. simpl.
  f_equal. f_equal. autorewrite with len. lia.
Qed.

(** ** Termination of the record writer *)

Definition in62 (i : Z) : Prop := - 2 ^ 62 ≤ i < 2 ^ 62.

Definition headers_weight (hs : list Header) : Z :=
  fold_right (λ h n, len (hd_Key h) + len (bdata (hd_Value h)) + 18 + n) 0 hs.

(** A message that fits a record: its time is within 2^62 nanoseconds (146
    years) of the first message's, and its bytes within the address space. *)
Definition record_ok (baseTime : Z) (msg : Message) : Prop :=
  in62 (Time.Sub (msg_Time msg) baseTime) ∧
  len (bdata (msg_Key msg)) + len (bdata (msg_Value msg)) + headers_weight (msg_Headers msg)
  < 2 ^ 61.

#[global] Instance record_ok_dec baseTime msg : Decision (record_ok baseTime msg).
Proof. unfold record_ok, in62. apply _. Defined.

Lemma headers_weight_len hs : 0 ≤ 18 * len hs ≤ headers_weight hs.
Proof.
  induction hs as [|h hs IH]; [by vm_compute|]. cbn [headers_weight fold_right] in *.
  pose proof (len_nonneg (hd_Key h)). pose proof (len_nonneg (bdata (hd_Value h))).
  fold (headers_weight hs). rewrite len_cons. lia.
Qed.

(** [vi i bs]: the value [i] takes part in the termination argument. *)
Ltac varint i bs E :=
  let H := fresh "Hl" in
  destruct (writeVarInt_terminates i) as (bs & E & H); [unfold in62 in *; lia|];
  rewrite E; cbn [mbind option_bind].

Lemma writeHeaders_terminates hs :
  headers_weight hs < 2 ^ 61 →
  ∃ bs, writeHeaders hs = Some bs ∧ len bs ≤ headers_weight hs.
Proof.
  induction hs as [|h hs IH]; intros Hw; cbn [writeHeaders]; [by exists []|].
  pose proof (headers_weight_len hs). cbn [headers_weight fold_right] in *.
  fold (headers_weight hs) in *.
  pose proof (len_nonneg (hd_Key h)). pose proof (len_nonneg (bdata (hd_Value h))).
  unfold writeHeader. varint (len (hd_Key h)) k Ek. varint (len (bdata (hd_Value h))) v Ev.
  destruct IH as (bs & -> & Hb); [lia|]. cbn [mbind option_bind].
  eexists. split; [done|]. autorewrite with len. lia.
Qed.

Lemma writeRecordBody_terminates attributes baseTime o msg :
  record_ok baseTime msg → 0 ≤ o < 2 ^ 62 →
  ∃ bs, writeRecordBody attributes (Time.Sub (msg_Time msg) baseTime) o msg = Some bs
        ∧ len bs < 2 ^ 62.
Proof.
  intros [Ht Hw] Ho. pose proof (headers_weight_len (msg_Headers msg)).
  pose proof (len_nonneg (bdata (msg_Key msg))). pose proof (len_nonneg (bdata (msg_Value msg))).
  unfold writeRecordBody. varint (Time.Sub (msg_Time msg) baseTime) t Et. varint o o' Eo.
  varint (len (bdata (msg_Key msg))) k Ek. varint (len (bdata (msg_Value msg))) v Ev.
  varint (len (msg_Headers msg)) h Eh.
  destruct (writeHeaders_terminates (msg_Headers msg)) as (hs & -> & Hhs); [lia|].
  eexists. split; [done|]. autorewrite with len. lia.
Qed.

Lemma writeRecord_terminates attributes baseTime o msg :
  record_ok baseTime msg → 0 ≤ o < 2 ^ 62 →
  ∃ l body, writeRecordBody attributes (Time.Sub (msg_Time msg) baseTime) o msg = Some body
    ∧ writeVarInt (len body) = Some l ∧ in62 (len body)
    ∧ writeRecord attributes baseTime o msg = Some (l ++ body).
Proof.
  intros Hm Ho. destruct (writeRecordBody_terminates attributes baseTime o msg) as (body & Eb & Hb);
    [done|done|].
  pose proof (len_nonneg body). unfold writeRecord.
  rewrite (size_of_record attributes), Eb. simpl. varint (len body) l El.
  exists l, body. unfold in62. repeat split; try done; lia.
Qed.

Lemma writeRecords_terminates baseTime i msgs :
  Forall (record_ok baseTime) msgs → 0 ≤ i → i + len msgs ≤ 2 ^ 62 →
  ∃ bs, writeRecords baseTime i msgs = Some bs.
Proof.
  intros Hm. revert i. induction Hm as [|msg msgs Hmsg Hm IH]; intros i Hi Hl;
    cbn [writeRecords]; [by eexists|].
  rewrite len_cons in Hl. pose proof (len_nonneg msgs).
  destruct (writeRecord_terminates 0 baseTime i msg) as (l & body & _ & _ & _ & ->); [done|lia|].
  destruct (IH (i + 1)) as [bs ->]; [lia|lia|]. by eexists.
Qed.

(** ** Produce requests of version 3 *)

Lemma len_writeRecordBatch attributes size payload msgs batch :
  writeRecordBatch attributes size payload msgs = Done batch →
  len batch = recordBatchHeaderSize + len payload.
Proof.
  unfold writeRecordBatch, batch_crc_part. destruct (first_message msgs); [|done|done].
  cbn [mbind outcome_bind]. destruct (_ <? 0); [done|]. intros <-%Done_inj.
  autorewrite with len. unfold recordBatchHeaderSize. lia.
Qed.

(** The size announced for the batch is the size of the batch. *)
Lemma recordBatchSize_records msgs total m0 records :
  recordBatchSize msgs = Done total → first_message msgs = Done m0 →
  writeRecords (msg_Time m0) 0 msgs = Some records →
  total = int32 (recordBatchHeaderSize + len records).
Proof.
  intros Ht Hm Hr. unfold recordBatchSize in Ht. rewrite Hm in Ht. cbn [mbind outcome_bind] in Ht.
  change recordBatchHeaderSize with (int32 recordBatchHeaderSize) in Ht.
  rewrite size_of_records, Hr in Ht. by injection Ht as <-.
Qed.

Lemma sendRecordBatch_framed id clientID topic partition timeout acks msgs size payload attributes bs :
  size = int32 (recordBatchHeaderSize + len payload) →
  sendRecordBatch id clientID topic partition timeout acks msgs size payload attributes = Done bs →
  len bs < 2 ^ 31 → framed_block bs.
Proof.
  intros Hs. unfold sendRecordBatch.
  destruct (writeRecordBatch _ _ _ _) as [batch| |] eqn:Eb; [|done|done].
  apply len_writeRecordBatch in Eb. cbn [mbind outcome_bind].
  intros <-%Done_inj Hl. rewrite len_app in Hl.
  apply framed_block_header; [|lia].
  rewrite len_requestHeader_writeTo. cbn [h_Size h_ClientID with_Size]. subst size.
  autorewrite with len. rewrite Eb. solve_fields.
Qed.

Lemma writeProduceRequestV3_framed codec id clientID topic partition timeout acks msgs bs :
  writeProduceRequestV3 codec id clientID topic partition timeout acks msgs = Done bs →
  len bs < 2 ^ 31 → framed_block bs.
Proof.
  unfold writeProduceRequestV3.
  destruct (recordBatchSize msgs) as [total| |] eqn:Et; [|done|done]. cbn [mbind outcome_bind].
  destruct (first_message msgs) as [m0| |] eqn:Em; [|done|done]. cbn [mbind outcome_bind].
  destruct (writeRecords _ _ _) as [records|] eqn:Er; cbn [may_diverge mbind outcome_bind].
  2: { by destruct codec; [destruct (_ <? _)|]. }
  destruct codec as [codec|].
  - destruct (total <? 0); [done|]. destruct (Encode _ _) as [|compressed]; [done|].
    cbn [may_fail mbind outcome_bind]. apply sendRecordBatch_framed. wrap_eq.
  - apply sendRecordBatch_framed. by eapply recordBatchSize_records.
Qed.
