(* ===== verification/ReadAny.v ===== *)
(** * The dynamically typed [read] (read.go)

    [read] and [readPtr] dispatch on the type of the pointer they are given,
    [read] by reflection for structs and slices.  [gotype] is the universe of
    the types, [govalue] the values stored. *)

From S2P Require Import Prelude Errors Bufio Read.

#[local] Set Warnings "-register-all".

Inductive gotype : Type :=
| TInt8 | TInt16 | TInt32 | TInt64 | TBool | TString | TBytes
| TStruct (fields : list gotype)
| TSlice (elem : gotype)
| TOther.

Inductive govalue : Type :=
| VInt (i : Z)
| VBool (b : bool)
| VString (s : gostring)
| VBytes (b : bytes)
| VStruct (fields : list govalue)
| VSlice (elems : option (list govalue)).

(** The reads of a list of pointers, in order; the first error ends them. *)
Fixpoint readSeq {A} (ms : list (rd A)) : rd (list A) :=
  match ms with
  | [] => mret []
  | m :: ms => a ← m; l ← readSeq ms; mret (a :: l)
  end.

(** [readSlice], given how an element is read: a negative length is nil. *)
Definition readSlice (elem : rd govalue) : rd govalue :=
  n ← readInt32;
  if n <? 0 then mret (VSlice None)
  else l ← repeatM (Z.to_nat n) elem; mret (VSlice (Some l)).

(** [readStruct], given how each field is read. *)
Definition readStruct (fields : list (rd govalue)) : rd govalue :=
  l ← readSeq fields; mret (VStruct l).

Fixpoint read (t : gotype) : rd govalue :=
  match t with
  | TInt8 => i ← readInt8; mret (VInt i)
  | TInt16 => i ← readInt16; mret (VInt i)
  | TInt32 => i ← readInt32; mret (VInt i)
  | TInt64 => i ← readInt64; mret (VInt i)
  | TBool => b ← readBool; mret (VBool b)
  | TString => s ← readString; mret (VString s)
  | TBytes => b ← readBytes; mret (VBytes b)
  | TStruct fields => readStruct (map read fields)
  | TSlice elem => readSlice (read elem)
  | TOther => throw (GoPanic "unsupported type")
  end.

(** A pointer given to [readPtr]: to a basic type, or to a [readable], given by
    its [readFrom]; anything else panics. *)
Inductive ptr : Type :=
| PInt8 | PInt16 | PInt32 | PInt64 | PString | PBytes
| PReadable (m : rd govalue)
| POther.

Definition readPtr (p : ptr) : rd govalue :=
  match p with
  | PInt8 => read TInt8
  | PInt16 => read TInt16
  | PInt32 => read TInt32
  | PInt64 => read TInt64
  | PString => read TString
  | PBytes => read TBytes
  | PReadable m => m
  | POther => throw (GoPanic "unsupported type")
  end.

Definition readAll (ptrs : list ptr) : rd (list govalue) := readSeq (map readPtr ptrs).

(** ** Framing *)

Lemma framed_readSeq {A} (ms : list (rd A)) : Forall Framed ms → Framed (readSeq ms).
Proof. induction 1; simpl; apply _. Qed.

(** Induction on types, through the fields of structs. *)
Lemma gotype_rect' (P : gotype → Prop) :
  P TInt8 → P TInt16 → P TInt32 → P TInt64 → P TBool → P TString → P TBytes →
  (∀ fs, Forall P fs → P (TStruct fs)) → (∀ t, P t → P (TSlice t)) → P TOther →
  ∀ t, P t.
Proof.
  intros H1 H2 H3 H4 H5 H6 H7 Hs Hl Ho. fix IH 1.
  intros [| | | | | | |fs|t|]; [assumption..| | |assumption].
  - apply Hs. induction fs; constructor; [apply IH|assumption].
  - apply Hl, IH.
Qed.

#[global] Instance framed_read t : Framed (read t).
Proof.
  induction t using gotype_rect'; simpl; try apply _.
  unfold readStruct. apply framed_bind; [|intros; apply _].
  by apply framed_readSeq, Forall_map.
Qed.

(** Reading ignores which of the two dispatches is used. *)
Lemma readAll_struct ptrs ts :
  map readPtr ptrs = map read ts → (l ← readAll ptrs; mret (VStruct l)) = read (TStruct ts).
Proof. unfold readAll. by intros ->. Qed.
