(* ===== verification/FetchResponse.v ===== *)
(** * Headers of fetch responses and of messages (read.go)

    [readFetchResponseHeaderV2] and [V5] return the throttle time and the
    high watermark, and leave the reader on the message set, whose size is
    what is left of the response. *)

From S2P Require Import Prelude Errors Bufio Read ReadAny Write VarInt Wire.
From S2P Require Import Messages.

(** The struct [p] that the header of version 2 reads by reflection. *)
Record fetchPartitionV2 : Type := {
  fp2_Partition : Z;
  fp2_ErrorCode : Z;
  fp2_HighwaterMarkOffset : Z;
  fp2_MessageSetSize : Z;
}.

Definition fetchPartitionV2_type : gotype := TStruct [TInt32; TInt16; TInt64; TInt32].

Definition read_fetchPartitionV2 : rd fetchPartitionV2 :=
  partition ← readInt32; errorCode ← readInt16; hw ← readInt64; size ← readInt32;
  mret {| fp2_Partition := partition; fp2_ErrorCode := errorCode;
          fp2_HighwaterMarkOffset := hw; fp2_MessageSetSize := size |}.

Definition fetchPartitionV2_value (p : fetchPartitionV2) : govalue :=
  VStruct [VInt (fp2_Partition p); VInt (fp2_ErrorCode p);
           VInt (fp2_HighwaterMarkOffset p); VInt (fp2_MessageSetSize p)].

(** The part that both versions share: the throttle time, one topic whose name
    is skipped and one partition. *)
Definition expect_one (what : string) : rd unit :=
  n ← readInt32; if negb (n =? 1) then throw (Errorf what n) else mret tt.

Definition one_topic : string := "1 kafka topic was expected in the fetch response but the client received %d".
Definition one_partition : string := "1 kafka partition was expected in the fetch response but the client received %d".
Definition bad_set_size : string := "the size of the message set in a fetch response doesn't match the number of remaining bytes (message set size = %d)".

Definition readFetchResponseHeaderV2 : rd (Z * Z) :=
  throttle ← readInt32;
  _ ← expect_one one_topic;
  _ ← discardString;
  _ ← expect_one one_partition;
  p ← read_fetchPartitionV2;
  if negb (fp2_ErrorCode p =? 0) then throw (KafkaError (fp2_ErrorCode p))
  else
    remain ← remaining;
    if negb (remain =? fp2_MessageSetSize p) then throw (Errorf bad_set_size (fp2_MessageSetSize p))
    else mret (throttle, fp2_HighwaterMarkOffset p).

Record fetchPartitionV5 : Type := {
  fp5_Partition : Z;
  fp5_ErrorCode : Z;
  fp5_HighwaterMarkOffset : Z;
  fp5_LastStableOffset : Z;
  fp5_LogStartOffset : Z;
}.

Definition fetchPartitionV5_type : gotype := TStruct [TInt32; TInt16; TInt64; TInt64; TInt64].

Definition read_fetchPartitionV5 : rd fetchPartitionV5 :=
  partition ← readInt32; errorCode ← readInt16; hw ← readInt64; lso ← readInt64; log ← readInt64;
  mret {| fp5_Partition := partition; fp5_ErrorCode := errorCode; fp5_HighwaterMarkOffset := hw;
          fp5_LastStableOffset := lso; fp5_LogStartOffset := log |}.

Definition fetchPartitionV5_value (p : fetchPartitionV5) : govalue :=
  VStruct [VInt (fp5_Partition p); VInt (fp5_ErrorCode p); VInt (fp5_HighwaterMarkOffset p);
           VInt (fp5_LastStableOffset p); VInt (fp5_LogStartOffset p)].

(** [AbortedTransaction]: producer id and first offset. *)
Definition read_AbortedTransaction : rd (Z * Z) :=
  producerId ← readInt64; firstOffset ← readInt64; mret (producerId, firstOffset).

(** [make([]AbortedTransaction, n)] panics when [n] is less than -1. *)
Definition readAbortedTransactions : rd (option (list (Z * Z))) :=
  n ← readArrayLen;
  if n =? -1 then mret None
  else if n <? 0 then throw (GoPanic "makeslice: len out of range")
  else l ← repeatM (Z.to_nat n) read_AbortedTransaction; mret (Some l).

Definition readFetchResponseHeaderV5 : rd (Z * Z) :=
  throttle ← readInt32;
  _ ← expect_one one_topic;
  _ ← discardString;
  _ ← expect_one one_partition;
  p ← read_fetchPartitionV5;
  _ ← readAbortedTransactions;
  if negb (fp5_ErrorCode p =? 0) then throw (KafkaError (fp5_ErrorCode p))
  else
    messageSetSize ← readInt32;
    remain ← remaining;
    if negb (remain =? messageSetSize) then throw (Errorf bad_set_size messageSetSize)
    else mret (throttle, fp5_HighwaterMarkOffset p).

(** [readMessageHeader]: offset, attributes and timestamp (0 for version 0). *)
Definition unsupported_version : string := "unsupported message version %d found in fetch response".

Definition readMessageHeader : rd (Z * Z * Z) :=
  offset ← readInt64;
  _ ← discardN 8;
  version ← readInt8;
  attributes ← readInt8;
  if version =? 0 then mret (offset, attributes, 0)
  else if version =? 1 then timestamp ← readInt64; mret (offset, attributes, timestamp)
  else throw (Errorf unsupported_version version).

(** ** Framing *)

#[global] Instance framed_expect_one w : Framed (expect_one w).
Proof. unfold expect_one. apply _. Qed.
#[global] Instance framed_read_fetchPartitionV2 : Framed read_fetchPartitionV2.
Proof. unfold read_fetchPartitionV2. apply _. Qed.
#[global] Instance framed_read_fetchPartitionV5 : Framed read_fetchPartitionV5.
Proof. unfold read_fetchPartitionV5. apply _. Qed.
#[global] Instance framed_readAbortedTransactions : Framed readAbortedTransactions.
Proof. unfold readAbortedTransactions, read_AbortedTransaction. apply _. Qed.
#[global] Instance framed_readFetchResponseHeaderV2 : Framed readFetchResponseHeaderV2.
Proof. unfold readFetchResponseHeaderV2. apply _. Qed.
#[global] Instance framed_readFetchResponseHeaderV5 : Framed readFetchResponseHeaderV5.
Proof. unfold readFetchResponseHeaderV5. apply _. Qed.
#[global] Instance framed_readMessageHeader : Framed readMessageHeader.
Proof. unfold readMessageHeader. apply _. Qed.

(** ** The monad laws that relate the two ways of reading a struct *)

Lemma rd_bind_assoc {A B C} (m : rd A) (f : A → rd B) (g : B → rd C) r sz :
  ((m ≫= f) ≫= g) r sz = (m ≫= λ a, f a ≫= g) r sz.
Proof. unfold mbind, rd_bind. by destruct (m r sz) as [[] []]. Qed.

(** The reflective read of the struct reads its fields in order. *)
Lemma read_fetchPartitionV2_reflect r sz :
  read fetchPartitionV2_type r sz
  = (p ← read_fetchPartitionV2; mret (fetchPartitionV2_value p)) r sz.
Proof.
  unfold read_fetchPartitionV2, mbind, rd_bind, mret, rd_ret. cbn.
  unfold readStruct, readSeq, mbind, rd_bind, mret, rd_ret.
  destruct (readInt32 r sz) as [[] []]; [done|]. destruct (readInt16 _ _) as [[] []]; [done|].
  destruct (readInt64 _ _) as [[] []]; [done|]. by destruct (readInt32 _ _) as [[] []].
Qed.

Lemma read_fetchPartitionV5_reflect r sz :
  read fetchPartitionV5_type r sz
  = (p ← read_fetchPartitionV5; mret (fetchPartitionV5_value p)) r sz.
Proof.
  unfold read_fetchPartitionV5, mbind, rd_bind, mret, rd_ret. cbn.
  unfold readStruct, readSeq, mbind, rd_bind, mret, rd_ret.
  destruct (readInt32 r sz) as [[] []]; [done|]. destruct (readInt16 _ _) as [[] []]; [done|].
  destruct (readInt64 _ _) as [[] []]; [done|]. destruct (readInt64 _ _) as [[] []]; [done|].
  by destruct (readInt64 _ _) as [[] []].
Qed.

(** ** The header of a response written by fetch.go *)

(** The error path of a response: the size check is not reached. *)
Definition fetchResponseV2_of (throttle : Z) (topic : gostring) (partition errorCode hw : Z)
    (ms : messageSet) : fetchResponseV2 :=
  {| fs_ThrottleTime := throttle;
     fs_Topics := [{| fstp_TopicName := topic;
       fstp_Partitions := [{| fsp_Partition := partition; fsp_ErrorCode := errorCode;
                              fsp_HighwaterMarkOffset := hw; fsp_MessageSetSize := size ms;
                              fsp_MessageSet := ms |}] |}] |}.

Definition fetchHeader_bytes (throttle : Z) (topic : gostring) (partition errorCode hw sz : Z) :
    list byte :=
  writeInt32 throttle ++ writeInt32 1 ++ writeString topic ++ writeInt32 1 ++
  writeInt32 partition ++ writeInt16 errorCode ++ writeInt64 hw ++ writeInt32 sz.

Lemma fetchResponseV2_bytes throttle topic partition errorCode hw ms :
  writeTo (fetchResponseV2_of throttle topic partition errorCode hw ms)
  = fetchHeader_bytes throttle topic partition errorCode hw (size ms) ++ writeTo ms.
Proof.
  unfold writeTo at 1, fetchResponseV2_writable, fetchResponseV2_writeTo, fetchResponseV2_of.
  cbn [fs_ThrottleTime fs_Topics]. unfold writeArray at 1.
  cbn [map concat]. unfold writeTo at 1, fetchResponseTopicV2_writable, fetchResponseTopicV2_writeTo.
  cbn [fstp_TopicName fstp_Partitions]. unfold writeArray. cbn [map concat].
  unfold writeTo at 1, fetchResponsePartitionV2_writable, fetchResponsePartitionV2_writeTo.
  cbn [fsp_Partition fsp_ErrorCode fsp_HighwaterMarkOffset fsp_MessageSetSize fsp_MessageSet].
  unfold fetchHeader_bytes. rewrite !app_nil_r, <- !app_assoc. reflexivity.
Qed.

Lemma reads_expect_one w : reads (expect_one w) (writeInt32 1) tt.
Proof.
  unfold expect_one. eapply reads_bind_nil; [apply reads_readInt32; by vm_compute|]. apply reads_ret.
Qed.
#[export] Hint Resolve reads_expect_one : reads.

Lemma reads_fetchPartitionV2 p :
  is_int32 (fp2_Partition p) → is_int16 (fp2_ErrorCode p) → is_int64 (fp2_HighwaterMarkOffset p) →
  is_int32 (fp2_MessageSetSize p) →
  reads read_fetchPartitionV2
    (writeInt32 (fp2_Partition p) ++ writeInt16 (fp2_ErrorCode p) ++
     writeInt64 (fp2_HighwaterMarkOffset p) ++ writeInt32 (fp2_MessageSetSize p)) p.
Proof.
  intros. unfold read_fetchPartitionV2. destruct p.
  cbn [fp2_Partition fp2_ErrorCode fp2_HighwaterMarkOffset fp2_MessageSetSize] in *. solve_reads.
Qed.

(** [step_reads]: runs the first read of a sequence on its encoding. *)
Ltac step_reads :=
  rewrite <- ?app_assoc; erewrite reads_step by
    (first [solve [eauto with reads] | done | (autorewrite with len; lia)]).

Lemma readFetchResponseHeaderV2_run r throttle topic partition errorCode hw sz tail n :
  16 ≤ rd_bufsize r → is_int32 throttle → wf_string topic → is_int32 partition →
  is_int16 errorCode → is_int64 hw → is_int32 sz → 0 ≤ n →
  let hdr := fetchHeader_bytes throttle topic partition errorCode hw sz in
  readFetchResponseHeaderV2 (with_data r (hdr ++ tail)) (len hdr + n)
  = (if negb (errorCode =? 0) then inl (KafkaError errorCode)
     else if negb (n =? sz) then inl (Errorf bad_set_size sz)
     else inr (throttle, hw), (n, with_data r tail)).
Proof.
  intros Hb Ht Htop Hp He Hh Hs Hn. cbn zeta. pose proof (len_nonneg topic).
  unfold fetchHeader_bytes, readFetchResponseHeaderV2.
  do 4 step_reads.
  set (p := {| fp2_Partition := partition; fp2_ErrorCode := errorCode;
               fp2_HighwaterMarkOffset := hw; fp2_MessageSetSize := sz |}).
  pose proof (reads_fetchPartitionV2 p Hp He Hh Hs) as Hr.
  cbn [p fp2_Partition fp2_ErrorCode fp2_HighwaterMarkOffset fp2_MessageSetSize] in Hr.
  match type of Hr with reads _ ?bs _ =>
    match goal with |- _ (with_data r ?d) _ = _ =>
      replace d with (bs ++ tail) by (by rewrite <- !app_assoc)
    end end.
  rewrite (reads_step _ _ _ _ _ _ _ Hr) by (first [done | (autorewrite with len; lia)]).
  cbn [p fp2_ErrorCode fp2_MessageSetSize fp2_HighwaterMarkOffset].
  match goal with |- _ _ ?k = _ => replace k with n by (autorewrite with len; lia) end.
  destruct (negb (errorCode =? 0)); [done|]. unfold mbind at 1, rd_bind at 1, remaining.
  by destruct (negb (n =? sz)).
Qed.
