(* ===== verification/MessageSet.v ===== *)
(** * Message set readers (message.go)

    A message set is read through a stack of readers: the bottom one reads
    from the connection, the ones above it from the decompressed contents of
    compressed messages.  [readerStack] keeps the bottom frame apart from the
    frames above it: the connection owns the bottom reader, which outlives its
    frame ([rs_popped] says that the stack is Go's [nil]). *)

From S2P Require Import Prelude Errors Bufio Read Write VarInt Wire Messages.
From S2P Require Import FetchResponse.

Record frame : Type := Frame { fr_reader : bufreader; fr_remain : Z; fr_base : Z }.

Record readerStack : Type := Stack {
  rs_inner : list frame;   (* innermost first *)
  rs_bottom : frame;
  rs_popped : bool;
}.

(** Runs a read on a frame: [r.remain, err = read(r.reader, r.remain, ...)]. *)
Definition on_frame {A} (m : rd A) (f : frame) : (goerror + A) * frame :=
  let '(res, (sz, r)) := m (fr_reader f) (fr_remain f) in (res, Frame r sz (fr_base f)).

(** The current frame and its replacement. *)
Definition top (s : readerStack) : frame :=
  match rs_inner s with [] => rs_bottom s | f :: _ => f end.

Definition set_top (s : readerStack) (f : frame) : readerStack :=
  match rs_inner s with
  | [] => Stack [] f (rs_popped s)
  | _ :: fs => Stack (f :: fs) (rs_bottom s) (rs_popped s)
  end.

(** [r.readerStack = r.parent]. *)
Definition pop (s : readerStack) : readerStack :=
  match rs_inner s with
  | [] => Stack [] (rs_bottom s) true
  | _ :: fs => Stack fs (rs_bottom s) (rs_popped s)
  end.

Definition push (f : frame) (s : readerStack) : readerStack :=
  Stack (f :: rs_inner s) (rs_bottom s) (rs_popped s).

Definition has_parent (s : readerStack) : bool :=
  match rs_inner s with [] => false | _ => true end.

(** [readerStack == nil]: the bottom frame was popped. *)
Definition is_nil (s : readerStack) : bool := rs_popped s.

Definition on_top {A} (m : rd A) (s : readerStack) : (goerror + A) * readerStack :=
  let '(res, f) := on_frame m (top s) in (res, set_top s f).

(** A codec's error inside a read. *)
Definition lift {A} (res : goerror + A) : rd A := λ r sz, (res, (sz, r)).

(** ** [extractOffset]

    Every iteration that does not fail consumes at least 12 bytes, so that the
    length of the set bounds the iterations. *)

Fixpoint extractOffset_loop (fuel : nat) (offset : Z) : rd Z := λ r remain,
  if remain >? 0 then
    match fuel with
    | O => (inl (GoPanic "out of fuel"), (remain, r))
    | S fuel =>
      (offset ← readInt64; sz ← readInt32; _ ← discardN sz; extractOffset_loop fuel offset) r remain
    end
  else (inr offset, (remain, r)).

Definition extractOffset (base : Z) (msgSet : list byte) : goerror + Z :=
  match (extractOffset_loop (length msgSet) 0 (NewReader msgSet) (len msgSet)).1 with
  | inl err => inl err
  | inr offset => inr (int64 (base - offset))
  end.

(** ** Version 1 *)

Section readers.
Context (codecs : codec_registry).

(** What a reader returns for one message, with what the callbacks [key]
    and [val] made of its key and value. *)
Record msgResult (K V : Type) : Type := MsgResult {
  mr_offset : Z;
  mr_timestamp : Z;
  mr_headers : list Header;
  mr_key : K;
  mr_value : V;
}.

(** The contents of a compressed message: the null key is skipped, the value
    is decompressed. *)
Definition readCompressed (codec : CompressionCodec) : rd (list byte) :=
  _ ← discardN 4;
  readBytesWith (λ n, value ← readNewBytes n; lift (Decode codec (bdata value))).

Context {K V : Type} (key : Z → rd K) (val : Z → rd V).

(** [messageSetReaderV1.readMessage].  An iteration pops a frame, pushes one,
    skips a message or returns; [Diverged] is a loop that is still running when
    the fuel is out. *)
Fixpoint V1_readMessage (fuel : nat) (min : Z) (s : readerStack) :
    outcome (msgResult K V) * readerStack :=
  match fuel with
  | O => (Diverged, s)
  | S fuel =>
    if is_nil s then (Failed errShortRead, s)
    else if fr_remain (top s) =? 0 then V1_readMessage fuel min (pop s)
    else
      match on_top readMessageHeader s with
      | (inl err, s) => (Failed err, s)
      | (inr (offset, attributes, timestamp), s) =>
        let code := Z.land attributes compressionCodecMask in
        if negb (code =? 0) then
          match resolveCodec codecs code with
          | inl err => (Failed err, s)
          | inr codec =>
            match on_top (readCompressed codec) s with
            | (inl err, s) => (Failed err, s)
            | (inr decompressed, s) =>
              match extractOffset offset decompressed with
              | inl err => (Failed err, s)
              | inr offset =>
                V1_readMessage fuel min
                  (push (Frame (NewReader decompressed) (len decompressed) offset) s)
              end
            end
          end
        else
          let offset := int64 (offset + fr_base (top s)) in
          if offset <? min then
            match on_top (_ ← discardBytes; discardBytes) s with
            | (inl err, s) => (Failed err, s)
            | (inr _, s) => V1_readMessage fuel min s
            end
          else
            match on_top (k ← readBytesWith key; v ← readBytesWith val; mret (k, v)) s with
            | (inl err, s) => (Failed err, s)
            | (inr (k, v), s) => (Done (MsgResult K V offset timestamp [] k v), s)
            end
      end
  end.

Definition V1_remaining (s : readerStack) : Z :=
  if is_nil s then 0
  else fold_right (λ f n, fr_remain f + n) (fr_remain (rs_bottom s)) (rs_inner s).

(** [messageSetReaderV1.discard]: rewinds to the reader of the connection. *)
Definition V1_discard (s : readerStack) : option goerror * readerStack :=
  if is_nil s then (None, s)
  else
    let s := Stack [] (rs_bottom s) (rs_popped s) in
    match on_top (discardN (fr_remain (top s))) s with
    | (inl err, s) => (Some err, s)
    | (inr _, s) => (None, s)
    end.

(** ** Version 2 *)

Record messageSetHeaderV2 : Type := {
  h2_firstOffset : Z;
  h2_length : Z;
  h2_partitionLeaderEpoch : Z;
  h2_magic : Z;
  h2_crc : Z;
  h2_batchAttributes : Z;
  h2_lastOffsetDelta : Z;
  h2_firstTimestamp : Z;
  h2_maxTimestamp : Z;
  h2_producerId : Z;
  h2_producerEpoch : Z;
  h2_firstSequence : Z;
}.

Definition compression (h : messageSetHeaderV2) : Z := int8 (Z.land (h2_batchAttributes h) 7).
Definition timestampType (h : messageSetHeaderV2) : Z := int8 (Z.land (h2_batchAttributes h) 8).
Definition transactionType (h : messageSetHeaderV2) : Z := int8 (Z.land (h2_batchAttributes h) 16).
Definition controlType (h : messageSetHeaderV2) : Z := int8 (Z.land (h2_batchAttributes h) 32).

(** [readHeader]: the header and the count of records. *)
Definition readHeader : rd (messageSetHeaderV2 * Z) :=
  firstOffset ← readInt64; length ← readInt32; epoch ← readInt32; magic ← readInt8;
  crc ← readInt32; attributes ← readInt16; lastOffsetDelta ← readInt32;
  firstTimestamp ← readInt64; maxTimestamp ← readInt64; producerId ← readInt64;
  producerEpoch ← readInt16; firstSequence ← readInt32; messageCount ← readInt32;
  mret ({| h2_firstOffset := firstOffset; h2_length := length; h2_partitionLeaderEpoch := epoch;
           h2_magic := magic; h2_crc := crc; h2_batchAttributes := attributes;
           h2_lastOffsetDelta := lastOffsetDelta; h2_firstTimestamp := firstTimestamp;
           h2_maxTimestamp := maxTimestamp; h2_producerId := producerId;
           h2_producerEpoch := producerEpoch; h2_firstSequence := firstSequence |}, messageCount).

Record messageSetReaderV2 : Type := {
  v2_stack : readerStack;
  v2_messageCount : Z;
  v2_header : messageSetHeaderV2;
}.

Definition zeroHeaderV2 : messageSetHeaderV2 :=
  {| h2_firstOffset := 0; h2_length := 0; h2_partitionLeaderEpoch := 0; h2_magic := 0; h2_crc := 0;
     h2_batchAttributes := 0; h2_lastOffsetDelta := 0; h2_firstTimestamp := 0;
     h2_maxTimestamp := 0; h2_producerId := 0; h2_producerEpoch := 0; h2_firstSequence := 0 |}.

(** The header of a record: [messageSetReaderV2.readMessageHeader]. *)
Definition readRecordHeader : rd Header :=
  keyLen ← readVarInt; k ← readNewString keyLen;
  valLen ← readVarInt; v ← readNewBytes valLen;
  mret {| hd_Key := k; hd_Value := v |}.

(** A record: the offset and timestamp deltas, the headers, the key, the
    value.  [make([]Header, headerCount)] panics on a negative count. *)
Definition readRecord : rd (Z * Z * list Header * K * V) :=
  _ ← readVarInt;
  _ ← readInt8;
  timestampDelta ← readVarInt;
  offsetDelta ← readVarInt;
  keyLen ← readVarInt;
  k ← key keyLen;
  valueLen ← readVarInt;
  v ← val valueLen;
  headerCount ← readVarInt;
  if headerCount <? 0 then throw (GoPanic "makeslice: len out of range")
  else
    headers ← repeatM (Z.to_nat headerCount) readRecordHeader;
    mret (offsetDelta, timestampDelta, headers, k, v).

(** The contents of a compressed batch: peeked, decompressed, then skipped. *)
Definition readCompressedBatch (codec : CompressionCodec) (batchRemain : Z) : rd (list byte) :=
  λ r remain,
    if batchRemain >? remain then (inl errShortRead, (remain, r))
    else
      match Peek batchRemain r with
      | (_, Some err) => (inl err, (remain, r))
      | (b, None) =>
        match Decode codec b with
        | inl err => (inl err, (remain, r))
        | inr decompressed => (_ ← discardN batchRemain; mret decompressed) r remain
        end
      end.

(** The start of [readMessage] when the current batch is exhausted.  (A header
    that ends half way leaves some of its fields in the reader; the batch keeps
    the error and never looks at them: here the old header stays.) *)
Definition V2_nextBatch (m : messageSetReaderV2) : (goerror + unit) * messageSetReaderV2 :=
  let s := v2_stack m in
  let s := if fr_remain (top s) =? 0 then if has_parent s then pop s else s else s in
  match on_top readHeader s with
  | (inl err, s) =>
    (inl err, {| v2_stack := s; v2_messageCount := v2_messageCount m; v2_header := v2_header m |})
  | (inr (h, count), s) =>
    let m := {| v2_stack := s; v2_messageCount := count; v2_header := h |} in
    let code := compression h in
    if negb (code =? 0) then
      match resolveCodec codecs code with
      | inl err => (inl err, m)
      | inr codec =>
        match on_top (readCompressedBatch codec (int32 (h2_length h - 49))) s with
        | (inl err, s) =>
          (inl err, {| v2_stack := s; v2_messageCount := count; v2_header := h |})
        | (inr decompressed, s) =>
          (inr tt, {| v2_stack := push (Frame (NewReader decompressed) (len decompressed) (-1)) s;
                      v2_messageCount := count; v2_header := h |})
        end
      end
    else (inr tt, m)
  end.

(** [messageSetReaderV2.readMessage]. *)
Definition V2_readMessage (m : messageSetReaderV2) :
    outcome (msgResult K V) * messageSetReaderV2 :=
  match (if v2_messageCount m =? 0 then V2_nextBatch m else (inr tt, m)) with
  | (inl err, m) => (Failed err, m)
  | (inr _, m) =>
    match on_top readRecord (v2_stack m) with
    | (inl err, s) =>
      (Failed err, {| v2_stack := s; v2_messageCount := v2_messageCount m; v2_header := v2_header m |})
    | (inr (offsetDelta, timestampDelta, headers, k, v), s) =>
      (Done (MsgResult K V (int64 (h2_firstOffset (v2_header m) + offsetDelta))
               (int64 (h2_firstTimestamp (v2_header m) + timestampDelta)) headers k v),
       {| v2_stack := s; v2_messageCount := v2_messageCount m - 1; v2_header := v2_header m |})
    end
  end.

Definition V2_remaining (m : messageSetReaderV2) : Z := fr_remain (top (v2_stack m)).

Definition V2_discard (m : messageSetReaderV2) : option goerror * messageSetReaderV2 :=
  let '(res, s) := on_top (discardN (fr_remain (top (v2_stack m)))) (v2_stack m) in
  (match res with inl err => Some err | inr _ => None end,
   {| v2_stack := s; v2_messageCount := v2_messageCount m; v2_header := v2_header m |}).

(** ** The version-independent reader *)

Inductive messageSetReader : Type :=
| EmptySet
| SetV1 (s : readerStack)
| SetV2 (m : messageSetReaderV2).

Definition readMessage (fuel : nat) (min : Z) (m : messageSetReader) :
    outcome (msgResult K V) * messageSetReader :=
  match m with
  | EmptySet => (Failed errShortRead, m)
  | SetV1 s => let '(res, s) := V1_readMessage fuel min s in (res, SetV1 s)
  | SetV2 m => let '(res, m) := V2_readMessage m in (res, SetV2 m)
  end.

End readers.

Arguments MsgResult {K V} _ _ _ _ _.
Arguments mr_offset {K V} _.
Arguments mr_timestamp {K V} _.
Arguments mr_headers {K V} _.
Arguments mr_key {K V} _.
Arguments mr_value {K V} _.

Definition set_remaining (m : messageSetReader) : Z :=
  match m with EmptySet => 0 | SetV1 s => V1_remaining s | SetV2 m => V2_remaining m end.

Definition set_discard (m : messageSetReader) : option goerror * messageSetReader :=
  match m with
  | EmptySet => (None, m)
  | SetV1 s => let '(err, s) := V1_discard s in (err, SetV1 s)
  | SetV2 m => let '(err, m) := V2_discard m in (err, SetV2 m)
  end.

(** [newMessageSetReader]: the version is the magic byte of the first message
    or batch, which is peeked and not consumed. *)
Definition newMessageSetReader (reader : bufreader) (remain : Z) : goerror + messageSetReader :=
  let headerLength := 8 + 4 + 4 + 1 in
  if headerLength >? remain then inl errShortRead
  else
    match Peek headerLength reader with
    | (_, Some err) => inl err
    | (b, None) =>
      let version := int8 (Z_of_byte (nth (Z.to_nat (headerLength - 1)) b x00)) in
      let s := Stack [] (Frame reader remain 0) false in
      if (version =? 0) || (version =? 1) then inr (SetV1 s)
      else if version =? 2 then
        inr (SetV2 {| v2_stack := s; v2_messageCount := 0; v2_header := zeroHeaderV2 |})
      else inl (Errorf unsupported_version version)
    end.
