(* ===== verification/MessageSetAlign.v ===== *)
(** * Where message set readers leave the connection

    The bottom frame of a reader reads from the connection.  Whatever the
    bytes are, its count of the bytes left is exact ([aligned]); rewinding to
    it and discarding what is left brings the connection to the end of the
    message set.  Version 1 does so, version 2 does it for uncompressed sets
    only. *)

From S2P Require Import Prelude Errors Bufio Read Write VarInt Wire Messages.
From S2P Require Import FetchResponse MessageSet.

(** The bottom frame has taken from [r0] the bytes that it has subtracted from
    [sz0], and a popped frame is exhausted. *)
Definition frame_aligned (r0 : bufreader) (sz0 : Z) (f : frame) : Prop :=
  (fr_remain f = sz0 ∨ 0 ≤ fr_remain f ≤ sz0) ∧
  sz0 - fr_remain f ≤ len (rd_data r0) ∧
  fr_reader f = with_data r0 (zdrop (sz0 - fr_remain f) (rd_data r0)).

Definition aligned (r0 : bufreader) (sz0 : Z) (s : readerStack) : Prop :=
  frame_aligned r0 sz0 (rs_bottom s) ∧
  (rs_popped s = true → fr_remain (rs_bottom s) = 0).

Section align.
Context (r0 : bufreader) (sz0 : Z).

Lemma frame_aligned_init base : frame_aligned r0 sz0 (Frame r0 sz0 base).
Proof.
  split; [by left|]. cbn [fr_remain fr_reader].
  split; [pose proof (len_nonneg (rd_data r0)); lia|apply with_data_0].
Qed.

Lemma frame_aligned_step `{Framed A m} f res f' :
  frame_aligned r0 sz0 f → on_frame m f = (res, f') → frame_aligned r0 sz0 f'.
Proof.
  intros (Hs & Hl & Hr) E. unfold on_frame in E.
  destruct (m (fr_reader f) (fr_remain f)) as [res1 [sz1 r1]] eqn:Em. injection E as <- <-.
  apply H in Em as (Hs1 & Hl1 & ->). unfold frame_aligned. cbn [fr_remain fr_reader].
  rewrite Hr in *. cbn [with_data rd_data] in Hl1.
  pose proof (len_nonneg (rd_data r0)).
  rewrite len_zdrop in Hl1 by lia.
  split; [lia|]. split; [lia|].
  cbn [with_data rd_data rd_err rd_bufsize]. rewrite zdrop_zdrop by lia.
  unfold with_data. cbn. do 2 f_equal. lia.
Qed.

Lemma aligned_on_top `{Framed A m} s res s' :
  aligned r0 sz0 s → rs_popped s = false → on_top m s = (res, s') →
  aligned r0 sz0 s' ∧ rs_popped s' = false.
Proof.
  intros [Ha _] Hp. unfold on_top, top, set_top.
  destruct (rs_inner s) eqn:Ei; (destruct (on_frame m _) as [res1 f1] eqn:Ef);
    intros E; injection E as <- <-.
  - split; [|done]. split; [by eapply frame_aligned_step|]. cbn. by rewrite Hp.
  - split; [|done]. split; [done|]. cbn. by rewrite Hp.
Qed.

Lemma aligned_pop s : aligned r0 sz0 s → fr_remain (top s) = 0 → aligned r0 sz0 (pop s).
Proof. intros [Ha Hz] Ht. unfold pop, top in *. by destruct (rs_inner s); split. Qed.

Lemma aligned_push f s : aligned r0 sz0 s → aligned r0 sz0 (push f s).
Proof. done. Qed.

#[local] Instance framed_lift {A} (res : goerror + A) : Framed (lift res).
Proof. destruct res; [apply framed_throw|apply framed_ret]. Qed.

#[local] Instance framed_readCompressed codec : Framed (readCompressed codec).
Proof. unfold readCompressed. apply _. Qed.

#[local] Instance framed_readCompressedBatch codec n : Framed (readCompressedBatch codec n).
Proof.
  intros r sz. unfold readCompressedBatch. destruct (n >? sz); [apply framed_throw|].
  destruct (Peek n r) as [b [e|]]; [apply (framed_throw e)|].
  destruct (Decode codec b) as [e|d]; [apply (framed_throw e)|].
  apply (framed_bind (discardN n) (λ _, mret d)); apply _.
Qed.

#[local] Instance framed_readHeader : Framed readHeader.
Proof. unfold readHeader. apply _. Qed.

#[local] Instance framed_readRecordHeader : Framed readRecordHeader.
Proof. unfold readRecordHeader. apply _. Qed.

(** One read of the loop: keeps the stack aligned. *)
Ltac on_top_step :=
  match goal with
  | H : on_top ?m ?s = (_, ?s'), Ha : aligned r0 sz0 ?s, Hp : rs_popped ?s = false |- _ =>
    let Ha' := fresh "Ha" in let Hp' := fresh "Hp" in
    destruct (aligned_on_top s _ s' Ha Hp H) as [Ha' Hp']; clear H Ha Hp
  end.

Context (codecs : codec_registry) {K V : Type} (key : Z → rd K) (val : Z → rd V).

Lemma V1_readMessage_aligned `{!Framed (readBytesWith key), !Framed (readBytesWith val)}
    fuel min s res s' :
  aligned r0 sz0 s → V1_readMessage codecs key val fuel min s = (res, s') → aligned r0 sz0 s'.
Proof.
  revert s. induction fuel as [|fuel IH]; intros s Ha; cbn [V1_readMessage].
  { by intros [= _ <-]. }
  destruct (is_nil s) eqn:Hp; [by intros [= _ <-]|]. unfold is_nil in Hp.
  destruct (Z.eqb_spec (fr_remain (top s)) 0) as [Hz|_]; [apply IH; by apply aligned_pop|].
  destruct (on_top readMessageHeader s) as [[e|[[o a] t]] s1] eqn:E1; on_top_step;
    [by intros [= _ <-]|].
  destruct (negb _).
  - destruct (resolveCodec _ _); [by intros [= _ <-]|].
    destruct (on_top (readCompressed _) s1) as [[e|d] s2] eqn:E2; on_top_step; [by intros [= _ <-]|].
    destruct (extractOffset o d); [by intros [= _ <-]|]. apply IH. by apply aligned_push.
  - destruct (_ <? min).
    + destruct (on_top _ s1) as [[e|[]] s2] eqn:E2; on_top_step; [by intros [= _ <-]|]. by apply IH.
    + destruct (on_top _ s1) as [[e|[k v]] s2] eqn:E2; on_top_step; by intros [= _ <-].
Qed.

Context `{!∀ n, Framed (key n), !∀ n, Framed (val n)}.

#[local] Instance framed_readRecord : Framed (readRecord key val).
Proof. unfold readRecord. apply _. Qed.

Lemma V2_readMessage_aligned m res m' :
  aligned r0 sz0 (v2_stack m) → rs_popped (v2_stack m) = false →
  V2_readMessage codecs key val m = (res, m') →
  aligned r0 sz0 (v2_stack m') ∧ rs_popped (v2_stack m') = false.
Proof.
  intros Ha Hp. unfold V2_readMessage.
  assert (∀ r1 m1, (if v2_messageCount m =? 0 then V2_nextBatch codecs m else (inr tt, m)) = (r1, m1) →
    aligned r0 sz0 (v2_stack m1) ∧ rs_popped (v2_stack m1) = false) as Hnext.
  { intros r1 m1. destruct (_ =? 0); [|by intros [= _ <-]]. unfold V2_nextBatch.
    set (s0 := if fr_remain (top (v2_stack m)) =? 0 then _ else _).
    assert (aligned r0 sz0 s0 ∧ rs_popped s0 = false) as [Ha0 Hp0].
    { unfold s0. destruct (Z.eqb_spec (fr_remain (top (v2_stack m))) 0); [|done].
      unfold has_parent. destruct (rs_inner (v2_stack m)) eqn:Ei; [done|].
      split; [by apply aligned_pop|]. unfold pop. by rewrite Ei. }
    clearbody s0. destruct (on_top readHeader s0) as [[e|[h c]] s1] eqn:E1; on_top_step;
      [by intros [= _ <-]|].
    destruct (negb _); [|by intros [= _ <-]]. destruct (resolveCodec _ _); [by intros [= _ <-]|].
    destruct (on_top (readCompressedBatch _ _) s1) as [[e|d] s2] eqn:E2; on_top_step;
      by intros [= _ <-]. }
  destruct (if v2_messageCount m =? 0 then _ else _) as [[e|[]] m1] eqn:E.
  { intros [= _ <-]. by eapply Hnext. }
  destruct (Hnext _ _ eq_refl) as [Ha1 Hp1]. clear Hnext E.
  destruct (on_top (readRecord key val) (v2_stack m1)) as [[e|[[[[o t] h] k] v]] s2] eqn:E2; on_top_step;
    by intros [= _ <-].
Qed.

(** Discarding at the bottom frame skips the rest of the set. *)
Lemma discard_bottom f res f' :
  0 ≤ sz0 ≤ len (rd_data r0) → frame_aligned r0 sz0 f →
  on_frame (discardN (fr_remain f)) f = (res, f') →
  res = inr tt ∧ fr_remain f' = 0 ∧ fr_reader f' = with_data r0 (zdrop sz0 (rd_data r0)).
Proof.
  intros Hsz (Hs & Hl & Hr) E. unfold on_frame, discardN, Discard in E.
  rewrite Z.leb_refl in E. rewrite (proj2 (Z.ltb_ge _ 0)) in E by lia.
  rewrite Hr in E. cbn [with_data rd_data] in E.
  rewrite len_zdrop in E by lia. rewrite (proj2 (Z.leb_le _ _)) in E by lia.
  injection E as <- <-. cbn. split; [done|]. split; [lia|].
  rewrite zdrop_zdrop by lia. unfold with_data. cbn. do 2 f_equal. lia.
Qed.

Lemma V1_discard_end s :
  0 ≤ sz0 ≤ len (rd_data r0) → aligned r0 sz0 s →
  (V1_discard s).1 = None ∧
  fr_reader (rs_bottom (V1_discard s).2) = with_data r0 (zdrop sz0 (rd_data r0)) ∧
  V1_remaining (V1_discard s).2 = 0.
Proof.
  intros Hsz [Ha Hz]. unfold V1_discard, is_nil. destruct (rs_popped s) eqn:Hp.
  - cbn. unfold V1_remaining, is_nil. rewrite Hp. destruct Ha as (_ & _ & ->).
    rewrite Hz by done. by rewrite Z.sub_0_r.
  - unfold on_top, top, set_top. cbn [rs_inner rs_bottom rs_popped].
    destruct (on_frame _ (rs_bottom s)) as [res f'] eqn:E.
    destruct (discard_bottom _ _ _ Hsz Ha E) as (-> & Hrem & Hrd). cbn.
    unfold V1_remaining, is_nil. cbn. by destruct (rs_popped s).
Qed.

Lemma V2_discard_end m :
  0 ≤ sz0 ≤ len (rd_data r0) → aligned r0 sz0 (v2_stack m) → rs_inner (v2_stack m) = [] →
  (V2_discard m).1 = None ∧
  fr_reader (rs_bottom (v2_stack (V2_discard m).2)) = with_data r0 (zdrop sz0 (rd_data r0)) ∧
  V2_remaining (V2_discard m).2 = 0.
Proof.
  intros Hsz [Ha _] Hi. unfold V2_discard, on_top, top, set_top. rewrite Hi.
  destruct (on_frame _ (rs_bottom (v2_stack m))) as [res f'] eqn:E.
  destruct (discard_bottom _ _ _ Hsz Ha E) as (-> & Hrem & Hrd). done.
Qed.

(** Inside a compressed batch, [discard] leaves the connection where it is. *)
Lemma V2_discard_inner m f fs :
  rs_inner (v2_stack m) = f :: fs →
  rs_bottom (v2_stack (V2_discard m).2) = rs_bottom (v2_stack m).
Proof.
  intros Hi. unfold V2_discard, on_top, top, set_top. rewrite Hi.
  by destruct (on_frame _ f).
Qed.
End align.
