(* ===== verification/MessageSetRead.v ===== *)
(** * What message set readers return

    A message set written by [writeMessage] (format 1), compressed or not, or
    by [writeRecordBatch] (format 2) is read back by the readers of
    message.go. *)

From S2P Require Import Prelude Errors Time Bufio Read Write VarInt Wire.
From S2P Require Import Crc32 Messages DataRequests FetchResponse MessageSet.

(** ** Frames and reads *)

Lemma on_top_reads {A} (m : rd A) bs a s r sz base tail :
  reads m bs a → top s = Frame (with_data r (bs ++ tail)) sz base → 16 ≤ rd_bufsize r →
  len bs ≤ sz →
  on_top m s = (inr a, set_top s (Frame (with_data r tail) (sz - len bs) base)).
Proof.
  intros Hm Ht Hb Hs. unfold on_top, on_frame. rewrite Ht. cbn [fr_reader fr_remain fr_base].
  by rewrite Hm.
Qed.

Lemma top_set_top s f : top (set_top s f) = f.
Proof. unfold top, set_top. by destruct (rs_inner s). Qed.

Lemma set_top_set_top s f g : set_top (set_top s f) g = set_top s g.
Proof. unfold set_top. destruct s as [[|] b p]; done. Qed.

Lemma is_nil_set_top s f : is_nil (set_top s f) = is_nil s.
Proof. unfold set_top, is_nil. by destruct (rs_inner s). Qed.

(** ** Messages of format 1 *)

(** The values that a message can carry. *)
Definition message_ok (msg : Message) : Prop :=
  is_int64 (msg_Offset msg) ∧ wf_bytes (msg_Key msg) ∧ wf_bytes (msg_Value msg).

#[global] Instance message_ok_dec msg : Decision (message_ok msg).
Proof. unfold message_ok. apply _. Defined.

(** A message as [writeMessage] lays it out: what [readMessageHeader] takes,
    then the key and the value. *)
Definition message_head (offset attributes time : Z) (key value : bytes) : list byte :=
  writeInt64 offset ++
  (writeInt32 (msgSize key value) ++
   writeInt32 (int32 (crc32OfMessage magicByte attributes (Time.timestamp time) key value))) ++
  writeInt8 magicByte ++ writeInt8 attributes ++ writeInt64 (Time.timestamp time).

Lemma writeMessage_head offset attributes time key value :
  writeMessage offset attributes time key value
  = message_head offset attributes time key value ++ writeBytes key ++ writeBytes value.
Proof. unfold writeMessage, message_head. by rewrite <- !app_assoc. Qed.

Lemma len_message_head offset attributes time key value :
  len (message_head offset attributes time key value) = 26.
Proof. unfold message_head. autorewrite with len. lia. Qed.
#[local] Hint Rewrite len_message_head : len.

Lemma reads_discardN n bs : len bs = n → reads (discardN n) bs tt.
Proof.
  intros Hn. pose proof (len_nonneg bs). pose proof (reads_discard_cb bs) as H'.
  unfold discard_cb in H'. rewrite (proj2 (Z.ltb_ge _ 0)) in H' by lia. by rewrite <- Hn.
Qed.

Lemma timestamp_range t : is_int64 (Time.timestamp t).
Proof.
  unfold Time.timestamp, Time.UnixNano. destruct (Time.IsZero t); [by vm_compute|].
  pose proof (wrapS_range 64 t ltac:(lia)) as H. unfold inS, Time.Millisecond in *. dlia.
Qed.

Lemma reads_readMessageHeader offset attributes time key value :
  is_int64 offset → is_int8 attributes →
  reads readMessageHeader (message_head offset attributes time key value)
    (offset, attributes, Time.timestamp time).
Proof.
  intros Ho Ha. unfold readMessageHeader, message_head.
  eapply reads_bind; [by apply reads_readInt64|].
  eapply reads_bind; [apply reads_discardN; by autorewrite with len|].
  eapply reads_bind; [by apply reads_readInt8; vm_compute|].
  eapply reads_bind; [by apply reads_readInt8|]. cbn [Z.eqb magicByte Pos.eqb].
  eapply reads_bind_nil; [apply reads_readInt64, timestamp_range|apply reads_ret].
Qed.

Section v1.
Context (codecs : codec_registry) {K V : Type} (key : Z → rd K) (val : Z → rd V).

(** [reads_as cb b x]: the callback makes [x] of a key or value [b]. *)
Definition reads_as {A} (cb : Z → rd A) (b : bytes) (x : A) : Prop :=
  reads (cb (match b with None => -1 | Some b => len b end)) (bdata b) x.

(** One iteration on an uncompressed message. *)
Lemma V1_step fuel min s r offset attributes time k v kx vx sz base tail :
  is_nil s = false → 16 ≤ rd_bufsize r →
  top s = Frame (with_data r (writeMessage offset attributes time k v ++ tail)) sz base →
  len (writeMessage offset attributes time k v) ≤ sz →
  is_int64 offset → is_int8 attributes → Z.land attributes compressionCodecMask = 0 →
  wf_bytes k → wf_bytes v → reads_as key k kx → reads_as val v vx →
  let s' := set_top s (Frame (with_data r tail)
                         (sz - len (writeMessage offset attributes time k v)) base) in
  V1_readMessage codecs key val (S fuel) min s =
  if int64 (offset + base) <? min then V1_readMessage codecs key val fuel min s'
  else (Done (MsgResult (int64 (offset + base)) (Time.timestamp time) [] kx vx), s').
Proof.
  intros Hn Hb Ht Hs Ho Ha Hc Hk Hv Hkx Hvx. cbn zeta.
  rewrite writeMessage_head in *. rewrite <- app_assoc in Ht.
  pose proof (len_nonneg (writeBytes k ++ writeBytes v)).
  assert (len (message_head offset attributes time k v) = 26) as Hh by (by autorewrite with len).
  rewrite !len_app in *. cbn [V1_readMessage]. rewrite Hn.
  replace (fr_remain (top s) =? 0) with false
    by (rewrite Ht; cbn [fr_remain]; symmetry; apply Z.eqb_neq; lia).
  rewrite (on_top_reads _ _ _ _ _ _ _ _ (reads_readMessageHeader offset attributes time k v Ho Ha) Ht)
    by (done || lia).
  rewrite Hc. cbn [Z.eqb negb]. rewrite top_set_top. cbn [fr_base].
  assert (reads (_ ← discardBytes; discardBytes) (writeBytes k ++ writeBytes v) tt) as Hskip.
  { eapply reads_bind; [by apply reads_discardBytes|by apply reads_discardBytes]. }
  assert (reads (k ← readBytesWith key; v ← readBytesWith val; mret (k, v))
            (writeBytes k ++ writeBytes v) (kx, vx)) as Hkv.
  { eapply reads_bind; [by apply reads_readBytesWith|].
    eapply reads_bind_nil; [by apply reads_readBytesWith|apply reads_ret]. }
  destruct (int64 (offset + base) <? min).
  - rewrite (on_top_reads _ _ _ _ _ _ _ _ Hskip (top_set_top _ _)) by (done || (rewrite len_app; lia)).
    by rewrite set_top_set_top, len_app, (Z.sub_add_distr sz).
  - rewrite (on_top_reads _ _ _ _ _ _ _ _ Hkv (top_set_top _ _)) by (done || (rewrite len_app; lia)).
    by rewrite set_top_set_top, len_app, (Z.sub_add_distr sz).
Qed.

(** The encoding of a message of a set, at the offset it has in the set. *)
Definition enc_message (msg : Message) : list byte :=
  writeMessage (msg_Offset msg) CompressionNoneCode (msg_Time msg) (msg_Key msg) (msg_Value msg).

Definition enc_set (msgs : list Message) : list byte := concat (map enc_message msgs).

(** The abstract reader: the first message at [min] or after, and the rest. *)
Fixpoint next_message (min base : Z) (msgs : list Message) : option (Message * list Message) :=
  match msgs with
  | [] => None
  | msg :: msgs =>
    if int64 (msg_Offset msg + base) <? min then next_message min base msgs
    else Some (msg, msgs)
  end.

Context (kf : bytes → K) (vf : bytes → V).
Context (key_reads : ∀ b, wf_bytes b → reads_as key b (kf b)).
Context (val_reads : ∀ b, wf_bytes b → reads_as val b (vf b)).

Lemma V1_finds msgs msg rest fuel min s r base tail :
  next_message min base msgs = Some (msg, rest) →
  Forall message_ok msgs → is_nil s = false → 16 ≤ rd_bufsize r →
  top s = Frame (with_data r (enc_set msgs ++ tail)) (len (enc_set msgs)) base →
  (length msgs ≤ fuel)%nat →
  V1_readMessage codecs key val fuel min s =
  (Done (MsgResult (int64 (msg_Offset msg + base)) (Time.timestamp (msg_Time msg)) []
           (kf (msg_Key msg)) (vf (msg_Value msg))),
   set_top s (Frame (with_data r (enc_set rest ++ tail)) (len (enc_set rest)) base)).
Proof.
  revert fuel s. induction msgs as [|m msgs IH]; intros fuel s Hnext Hok Hnil Hb Htop Hf; [done|].
  destruct fuel as [|fuel]; [simpl in Hf; lia|]. simpl in Hf.
  apply Forall_cons_1 in Hok as [(Ho & Hk & Hv) Hok].
  unfold enc_set in Htop. cbn [map concat] in Htop. fold (enc_set msgs) in Htop.
  rewrite <- app_assoc, len_app in Htop. pose proof (len_nonneg (enc_set msgs)).
  assert (len (enc_message m) ≤ len (enc_message m) + len (enc_set msgs)) as Hlen by lia.
  assert (is_int8 CompressionNoneCode) as Hc by (by vm_compute).
  rewrite (V1_step fuel min s r _ _ _ _ _ _ _ _ base _ Hnil Hb Htop Hlen Ho Hc eq_refl Hk Hv
             (key_reads _ Hk) (val_reads _ Hv)).
  fold (enc_message m).
  replace (len (enc_message m) + len (enc_set msgs) - len (enc_message m))
    with (len (enc_set msgs)) by lia.
  cbn [next_message] in Hnext. destruct (_ <? min).
  - erewrite IH by (first [done | lia | (by rewrite is_nil_set_top) | apply top_set_top]).
    by rewrite set_top_set_top.
  - by injection Hnext as <- <-.
Qed.

End v1.

(** ** Compressed messages *)

(** A message whose size field does not overflow. *)
Definition message_fits (msg : Message) : Prop :=
  22 + len (bdata (msg_Key msg)) + len (bdata (msg_Value msg)) < 2 ^ 31.

#[global] Instance message_fits_dec msg : Decision (message_fits msg).
Proof. unfold message_fits. apply _. Defined.

Lemma message_fits_wf msg : message_fits msg → wf_bytes (msg_Key msg) ∧ wf_bytes (msg_Value msg).
Proof.
  unfold message_fits, wf_bytes. pose proof (len_nonneg (bdata (msg_Key msg))).
  pose proof (len_nonneg (bdata (msg_Value msg))). lia.
Qed.

(** The part of a message after its size field, which the field counts. *)
Definition message_tail (attributes time : Z) (key value : bytes) : list byte :=
  writeInt32 (int32 (crc32OfMessage magicByte attributes (Time.timestamp time) key value)) ++
  writeInt8 magicByte ++ writeInt8 attributes ++ writeInt64 (Time.timestamp time) ++
  writeBytes key ++ writeBytes value.

Lemma len_message_tail attributes time key value :
  len (message_tail attributes time key value) = 22 + len (bdata key) + len (bdata value).
Proof. unfold message_tail. autorewrite with len. lia. Qed.

Lemma msgSize_tail attributes time msg :
  message_fits msg →
  msgSize (msg_Key msg) (msg_Value msg)
  = len (message_tail attributes time (msg_Key msg) (msg_Value msg)).
Proof.
  intros Hf. rewrite len_message_tail. unfold msgSize. autorewrite with size.
  unfold message_fits in Hf. pose proof (len_nonneg (bdata (msg_Key msg))).
  pose proof (len_nonneg (bdata (msg_Value msg))).
  rewrite <- (wrapS_id 32 (22 + _ + _)) by (try unfold inS; lia).
  autorewrite with len. wrap_eq.
Qed.

Lemma extractOffset_loop_step fuel o r offset attributes msg tail n :
  message_fits msg → is_int64 offset → 16 ≤ rd_bufsize r → 0 ≤ n →
  let bs := writeMessage offset attributes (msg_Time msg) (msg_Key msg) (msg_Value msg) in
  extractOffset_loop (S fuel) o (with_data r (bs ++ tail)) (len bs + n)
  = extractOffset_loop fuel offset (with_data r tail) n.
Proof.
  intros Hf Ho Hb Hn. cbn zeta.
  pose proof (msgSize_tail attributes (msg_Time msg) msg Hf) as Hsz.
  set (t := message_tail attributes (msg_Time msg) (msg_Key msg) (msg_Value msg)) in *.
  assert (writeMessage offset attributes (msg_Time msg) (msg_Key msg) (msg_Value msg)
          = writeInt64 offset ++ writeInt32 (len t) ++ t) as ->.
  { unfold writeMessage. by rewrite Hsz. }
  assert (is_int32 (len t)) as Ht.
  { unfold t. rewrite len_message_tail. unfold message_fits in Hf.
    pose proof (len_nonneg (bdata (msg_Key msg))). pose proof (len_nonneg (bdata (msg_Value msg))).
    unfold inS. lia. }
  pose proof (len_nonneg t). clearbody t.
  cbn [extractOffset_loop]. rewrite (proj2 (Z.gtb_lt _ 0)) by (autorewrite with len; lia).
  rewrite <- !app_assoc.
  rewrite (reads_step _ _ _ _ _ _ _ (reads_readInt64 offset Ho)) by (done || (autorewrite with len; lia)).
  rewrite (reads_step _ _ _ _ _ _ _ (reads_readInt32 _ Ht)) by (done || (autorewrite with len; lia)).
  rewrite (reads_step _ _ _ _ _ _ _ (reads_discardN _ t eq_refl)) by (done || (autorewrite with len; lia)).
  do 2 f_equal. autorewrite with len. lia.
Qed.

Lemma extractOffset_loop_set msgs i fuel o r tail :
  Forall message_fits msgs → 0 ≤ i → i + len msgs < 2 ^ 63 → (length msgs ≤ fuel)%nat →
  16 ≤ rd_bufsize r →
  (extractOffset_loop fuel o (with_data r (writeMessages_from i msgs ++ tail))
     (len (writeMessages_from i msgs))).1
  = inr (match msgs with [] => o | _ => i + len msgs - 1 end).
Proof.
  intros Hm. revert i fuel o. induction Hm as [|msg msgs Hmsg Hm IH]; intros i fuel o Hi Hl Hf Hb.
  { by destruct fuel. }
  destruct fuel as [|fuel]; simpl in Hf; [lia|].
  rewrite len_cons in *. pose proof (len_nonneg msgs).
  cbn [writeMessages_from]. rewrite len_app, <- app_assoc.
  rewrite extractOffset_loop_step by (try apply len_nonneg; try unfold inS; (done || lia)).
  rewrite IH by (done || lia). destruct msgs; [rewrite len_nil; do 2 f_equal; lia|].
  f_equal. lia.
Qed.

Lemma len_writeMessage offset attributes time key value :
  len (writeMessage offset attributes time key value)
  = 34 + len (bdata key) + len (bdata value).
Proof. unfold writeMessage. autorewrite with len. lia. Qed.

Lemma length_writeMessages_from i msgs : len msgs ≤ len (writeMessages_from i msgs).
Proof.
  revert i. induction msgs as [|msg msgs IH]; intros i; [done|]. cbn [writeMessages_from].
  rewrite len_app, len_cons, len_writeMessage. specialize (IH (i + 1)).
  pose proof (len_nonneg (bdata (msg_Key msg))). pose proof (len_nonneg (bdata (msg_Value msg))). lia.
Qed.

(** The base of a compressed set: the offset of its container less the
    position of its last message. *)
Lemma extractOffset_set base msgs :
  Forall message_fits msgs → msgs ≠ [] → len msgs < 2 ^ 63 →
  extractOffset base (writeMessages_from 0 msgs) = inr (int64 (base - (len msgs - 1))).
Proof.
  intros Hm Hne Hl. unfold extractOffset.
  pose proof (length_writeMessages_from 0 msgs) as Hlen.
  pose proof (extractOffset_loop_set msgs 0 (length (writeMessages_from 0 msgs)) 0
    (NewReader []) [] Hm ltac:(lia) ltac:(lia) ltac:(unfold len in Hlen; lia) ltac:(by vm_compute)) as E.
  rewrite app_nil_r in E.
  change (with_data (NewReader []) ?x) with (NewReader x) in E. rewrite E.
  destruct msgs; [done|]. do 3 f_equal.
Qed.

(** The messages of a compressed set have their positions as offsets. *)
Definition with_Offset (msg : Message) (offset : Z) : Message :=
  {| msg_Topic := msg_Topic msg; msg_Partition := msg_Partition msg; msg_Offset := offset;
     msg_Key := msg_Key msg; msg_Value := msg_Value msg; msg_Headers := msg_Headers msg;
     msg_Time := msg_Time msg |}.

Fixpoint number (i : Z) (msgs : list Message) : list Message :=
  match msgs with [] => [] | msg :: msgs => with_Offset msg i :: number (i + 1) msgs end.

Lemma writeMessages_from_number i msgs : writeMessages_from i msgs = enc_set (number i msgs).
Proof.
  revert i. induction msgs as [|msg msgs IH]; intros i; [done|].
  cbn [writeMessages_from number]. rewrite IH. reflexivity.
Qed.

Lemma length_number i msgs : length (number i msgs) = length msgs.
Proof. revert i. induction msgs; intros i; simpl; auto. Qed.

Lemma number_ok i msgs :
  Forall message_fits msgs → 0 ≤ i → i + len msgs < 2 ^ 63 → Forall message_ok (number i msgs).
Proof.
  intros Hm. revert i. induction Hm as [|msg msgs Hmsg Hm IH]; intros i Hi Hl; [constructor|].
  rewrite len_cons in Hl. pose proof (len_nonneg msgs). constructor; [|apply IH; lia].
  apply message_fits_wf in Hmsg as [? ?]. split; [|done]. unfold inS; cbn; lia.
Qed.

Lemma reads_lift {A} (a : A) : reads (lift (inr a)) [] a.
Proof. intros r sz tail ? ?. unfold lift. by rewrite len_nil, Z.sub_0_r. Qed.

(** A null key, then the compressed set as the value. *)
Lemma reads_readCompressed codec compressed decompressed :
  len compressed < 2 ^ 31 → Decode codec compressed = inr decompressed →
  reads (readCompressed codec) (writeBytes None ++ writeBytes (Some compressed)) decompressed.
Proof.
  intros Hl Hd. unfold readCompressed. eapply reads_bind; [by apply reads_discardN|].
  apply reads_readBytesWith; [done|]. eapply reads_bind_nil; [apply reads_readNewBytes|].
  replace (Decode codec _) with (inr decompressed : goerror + list byte); [apply reads_lift|].
  rewrite <- Hd. by destruct compressed.
Qed.

Section v1_compressed.
Context (codecs : codec_registry) {K V : Type} (key : Z → rd K) (val : Z → rd V).
Context (kf : bytes → K) (vf : bytes → V).
Context (key_reads : ∀ b, wf_bytes b → reads_as key b (kf b)).
Context (val_reads : ∀ b, wf_bytes b → reads_as val b (vf b)).

(** The iteration that pushes the contents of a compressed message. *)
Lemma V1_push fuel min s r offset codec time compressed decompressed base0 sz base tail :
  is_nil s = false → 16 ≤ rd_bufsize r →
  top s = Frame (with_data r
    (writeMessage offset (Code codec) time None (Some compressed) ++ tail)) sz base0 →
  len (writeMessage offset (Code codec) time None (Some compressed)) ≤ sz →
  is_int64 offset → 1 ≤ Code codec ≤ 3 → codecs !! Code codec = Some codec →
  len compressed < 2 ^ 31 → Decode codec compressed = inr decompressed →
  extractOffset offset decompressed = inr base →
  V1_readMessage codecs key val (S fuel) min s
  = V1_readMessage codecs key val fuel min
      (push (Frame (NewReader decompressed) (len decompressed) base)
        (set_top s (Frame (with_data r tail)
           (sz - len (writeMessage offset (Code codec) time None (Some compressed))) base0))).
Proof.
  intros Hn Hb Ht Hs Ho Hc Hreg Hl Hd He. rewrite writeMessage_head in *. rewrite <- app_assoc in Ht.
  assert (len (message_head offset (Code codec) time None (Some compressed)) = 26) as Hh
    by (apply len_message_head).
  pose proof (len_nonneg (writeBytes (Some compressed))).
  pose proof (len_nonneg (writeBytes None)).
  rewrite !len_app in *. cbn [V1_readMessage]. rewrite Hn.
  replace (fr_remain (top s) =? 0) with false
    by (rewrite Ht; cbn [fr_remain]; symmetry; apply Z.eqb_neq; lia).
  assert (is_int8 (Code codec)) as Hc8 by (unfold inS; lia).
  rewrite (on_top_reads _ _ _ _ _ _ _ _
    (reads_readMessageHeader offset (Code codec) time None (Some compressed) Ho Hc8) Ht) by (done || lia).
  assert (Z.land (Code codec) compressionCodecMask = Code codec) as ->.
  { unfold compressionCodecMask. rewrite (Z.land_ones _ 2) by lia. apply Z.mod_small. lia. }
  rewrite (proj2 (Z.eqb_neq (Code codec) 0)) by lia. cbn [negb].
  unfold resolveCodec. rewrite Hreg.
  rewrite (on_top_reads _ _ _ _ _ _ _ _ (reads_readCompressed codec _ _ Hl Hd) (top_set_top _ _))
    by (done || (rewrite len_app; lia)).
  by rewrite He, set_top_set_top, len_app, (Z.sub_add_distr sz).
Qed.

Lemma V1_finds_compressed msgs msg rest fuel min s r offset codec time compressed base0 sz tail :
  let base := int64 (offset - (len msgs - 1)) in
  next_message min base (number 0 msgs) = Some (msg, rest) →
  Forall message_fits msgs → len msgs < 2 ^ 63 →
  codec_inverts codec → Encode codec (writeMessages_from 0 msgs) = inr compressed →
  is_nil s = false → 16 ≤ rd_bufsize r →
  top s = Frame (with_data r
    (writeMessage offset (Code codec) time None (Some compressed) ++ tail)) sz base0 →
  len (writeMessage offset (Code codec) time None (Some compressed)) ≤ sz →
  is_int64 offset → 1 ≤ Code codec ≤ 3 → codecs !! Code codec = Some codec →
  len compressed < 2 ^ 31 → (length msgs ≤ fuel)%nat →
  V1_readMessage codecs key val (S fuel) min s =
  (Done (MsgResult (int64 (msg_Offset msg + base)) (Time.timestamp (msg_Time msg)) []
           (kf (msg_Key msg)) (vf (msg_Value msg))),
   push (Frame (NewReader (enc_set rest)) (len (enc_set rest)) base)
     (set_top s (Frame (with_data r tail)
        (sz - len (writeMessage offset (Code codec) time None (Some compressed))) base0))).
Proof.
  intros base Hnext Hfit Hn Hinv Henc Hnil Hb Ht Hs Ho Hc Hreg Hl Hf.
  assert (msgs ≠ []) as Hne by (by destruct msgs).
  rewrite (V1_push fuel min s r offset codec time compressed (writeMessages_from 0 msgs) base0 sz base tail);
    [|done..|by apply Hinv|by apply extractOffset_set].
  rewrite writeMessages_from_number.
  set (s' := set_top _ _).
  rewrite (V1_finds codecs key val kf vf key_reads val_reads (number 0 msgs) msg rest fuel min
    (push (Frame (NewReader (enc_set (number 0 msgs))) (len (enc_set (number 0 msgs))) base) s')
    (NewReader []) base []).
  - f_equal. unfold push, set_top at 1. cbn [rs_inner rs_bottom rs_popped].
    by rewrite app_nil_r.
  - done.
  - apply number_ok; [done|lia|lia].
  - unfold push, is_nil. cbn. rewrite <- Hnil. apply (is_nil_set_top s).
  - by vm_compute.
  - unfold top, push. cbn [rs_inner]. by rewrite app_nil_r.
  - by rewrite length_number.
Qed.
End v1_compressed.

(** The callbacks of [Batch.ReadMessage]. *)
Lemma readNewBytes_reads_as b : wf_bytes b → reads_as readNewBytes b (bnorm b).
Proof. intros _. destruct b; [apply reads_readNewBytes|apply reads_ret]. Qed.
