(* ===== verification/RecordBatchRead.v ===== *)
(** * Reading back record batches (message format 2)

    What [writeRecordBatch] writes, [messageSetReaderV2] reads: the records in
    order, with their keys, values and headers, at consecutive offsets. *)

From S2P Require Import Prelude Errors Time Bufio Read Write VarInt Wire.
From S2P Require Import Crc32 Messages DataRequests FetchResponse MessageSet MessageSetRead.

(** What a header becomes: the wire does not tell nil from empty. *)
Definition canonHeader (h : Header) : Header :=
  {| hd_Key := hd_Key h; hd_Value := bnorm (Some (bdata (hd_Value h))) |}.

Lemma reads_readRecordHeader h bs :
  len (hd_Key h) < 2 ^ 62 → len (bdata (hd_Value h)) < 2 ^ 62 → writeHeader h = Some bs →
  reads readRecordHeader bs (canonHeader h).
Proof.
  intros Hk Hv E. unfold writeHeader in E. pose proof (len_nonneg (hd_Key h)).
  pose proof (len_nonneg (bdata (hd_Value h))).
  destruct (writeVarInt (len (hd_Key h))) as [k|] eqn:Ek; [|done]. cbn [mbind option_bind] in E.
  destruct (writeVarInt (len (bdata _))) as [v|] eqn:Ev; [|done]. cbn [mbind option_bind] in E.
  apply (inj Some) in E as <-. unfold readRecordHeader.
  eapply reads_bind; [eapply reads_readVarInt; [|done]; lia|].
  eapply reads_bind; [apply reads_readNewString|].
  eapply reads_bind; [eapply reads_readVarInt; [|done]; lia|].
  eapply reads_bind_nil; [apply reads_readNewBytes|apply reads_ret].
Qed.

Lemma reads_headers hs bs :
  headers_weight hs < 2 ^ 61 → writeHeaders hs = Some bs →
  reads (repeatM (length hs) readRecordHeader) bs (map canonHeader hs).
Proof.
  revert bs. induction hs as [|h hs IH]; intros bs Hw E; cbn [writeHeaders] in E.
  { injection E as <-. apply reads_ret. }
  pose proof (headers_weight_len hs). cbn [headers_weight fold_right] in Hw.
  fold (headers_weight hs) in Hw.
  pose proof (len_nonneg (hd_Key h)). pose proof (len_nonneg (bdata (hd_Value h))).
  destruct (writeHeader h) as [a|] eqn:Ea; [|done]. cbn [mbind option_bind] in E.
  destruct (writeHeaders hs) as [b|] eqn:Eb; [|done]. cbn [mbind option_bind] in E.
  apply (inj Some) in E as <-. cbn [repeatM length map].
  eapply reads_bind; [eapply reads_readRecordHeader; [| |done]; lia|].
  eapply reads_bind_nil; [apply IH; [lia|done]|apply reads_ret].
Qed.

Section records.
Context {K V : Type} (key : Z → rd K) (val : Z → rd V) (kf : bytes → K) (vf : bytes → V).
Context (key_reads : ∀ b, wf_bytes b → reads_as key b (kf b)).
Context (val_reads : ∀ b, wf_bytes b → reads_as val b (vf b)).

(** A record is read with its key and value as non-nil slices. *)
Definition recordResult (i delta : Z) (msg : Message) : Z * Z * list Header * K * V :=
  (i, delta, map canonHeader (msg_Headers msg),
   kf (Some (bdata (msg_Key msg))), vf (Some (bdata (msg_Value msg)))).

(** [some_bind E x Ex]: the next option of [E] has a value. *)
Ltac some_bind E x Ex :=
  match type of E with
  | mbind _ ?m = Some _ => destruct m as [x|] eqn:Ex; [|discriminate E]; cbn [mbind option_bind] in E
  end.

Lemma reads_readRecord baseTime i msg l body :
  record_ok baseTime msg → 0 ≤ i < 2 ^ 62 → wf_bytes (msg_Key msg) → wf_bytes (msg_Value msg) →
  writeRecordBody 0 (Time.Sub (msg_Time msg) baseTime) i msg = Some body →
  in62 (len body) → writeVarInt (len body) = Some l →
  reads (readRecord key val) (l ++ body) (recordResult i (Time.Sub (msg_Time msg) baseTime) msg).
Proof.
  intros [Ht Hw] Hi Hk Hv Eb Hb El. unfold wf_bytes in *.
  pose proof (headers_weight_len (msg_Headers msg)).
  pose proof (len_nonneg (bdata (msg_Key msg))). pose proof (len_nonneg (bdata (msg_Value msg))).
  unfold writeRecordBody in Eb. some_bind Eb t Et. some_bind Eb o Eo. some_bind Eb k Ek.
  some_bind Eb v Ev. some_bind Eb n En. some_bind Eb hs Ehs. apply (inj Some) in Eb as <-.
  unfold in62 in *. unfold readRecord.
  eapply reads_bind; [eapply reads_readVarInt; [|done]; lia|].
  eapply reads_bind; [by apply reads_readInt8; vm_compute|].
  eapply reads_bind; [eapply reads_readVarInt; [|done]; lia|].
  eapply reads_bind; [eapply reads_readVarInt; [|done]; lia|].
  eapply reads_bind; [eapply reads_readVarInt; [|done]; lia|].
  eapply reads_bind; [by apply (key_reads (Some (bdata (msg_Key msg))))|].
  eapply reads_bind; [eapply reads_readVarInt; [|done]; lia|].
  eapply reads_bind; [by apply (val_reads (Some (bdata (msg_Value msg))))|].
  eapply reads_bind; [eapply reads_readVarInt; [|done]; lia|].
  rewrite (proj2 (Z.ltb_ge _ 0)) by lia.
  eapply reads_bind_nil; [|apply reads_ret].
  unfold len. rewrite Nat2Z.id. apply reads_headers; [lia|done].
Qed.

(** ** Stepping through a batch *)

(** The reader is inside an uncompressed batch: [msgs] are the records left,
    numbered from [i], and [tail] follows the batch. *)
Record in_batch (h : messageSetHeaderV2) (baseTime i : Z) (msgs : list Message)
    (r : bufreader) (sz : Z) (tail : list byte) (m : messageSetReaderV2) : Prop := {
  ib_header : v2_header m = h;
  ib_count : v2_messageCount m = len msgs;
  ib_bufsize : 16 ≤ rd_bufsize r;
  ib_top : ∃ recs, writeRecords baseTime i msgs = Some recs ∧
    top (v2_stack m) = Frame (with_data r (recs ++ tail)) (len recs + sz) 0 ∧ 0 ≤ sz;
}.

Lemma V2_step codecs h baseTime i msg msgs r sz tail m :
  in_batch h baseTime i (msg :: msgs) r sz tail m →
  record_ok baseTime msg → 0 ≤ i < 2 ^ 62 → wf_bytes (msg_Key msg) → wf_bytes (msg_Value msg) →
  ∃ m', V2_readMessage codecs key val m =
    (Done (MsgResult (int64 (h2_firstOffset h + i))
             (int64 (h2_firstTimestamp h + Time.Sub (msg_Time msg) baseTime))
             (map canonHeader (msg_Headers msg))
             (kf (Some (bdata (msg_Key msg)))) (vf (Some (bdata (msg_Value msg))))), m')
    ∧ in_batch h baseTime (i + 1) msgs r sz tail m'.
Proof.
  intros [Hh Hc Hb (recs & Er & Htop & Hsz)] Hm Hi Hk Hv.
  cbn [writeRecords] in Er.
  destruct (writeRecord_terminates 0 baseTime i msg Hm Hi) as (l & body & Eb & El & Hb62 & Ew).
  rewrite Ew in Er. cbn [mbind option_bind] in Er. some_bind Er rest Erest.
  apply (inj Some) in Er as <-. rewrite <- app_assoc in Htop.
  pose proof (len_nonneg rest). pose proof (len_nonneg msgs).
  unfold V2_readMessage. rewrite Hc, len_cons, (proj2 (Z.eqb_neq _ 0)) by lia.
  pose proof (reads_readRecord baseTime i msg l body Hm Hi Hk Hv Eb Hb62 El) as Hr.
  rewrite (on_top_reads _ _ _ _ _ _ _ _ Hr Htop Hb) by (rewrite (len_app (l ++ body)); lia).
  unfold recordResult. rewrite Hh. eexists. split; [done|]. constructor; cbn.
  - done.
  - rewrite Hc, len_cons. lia.
  - done.
  - exists rest. split; [done|]. rewrite top_set_top. split; [|done]. f_equal.
    rewrite (len_app (l ++ body)). lia.
Qed.

(** ** The header of a batch *)

Definition batch_header (attributes size baseTime lastTime n crc : Z) : messageSetHeaderV2 :=
  {| h2_firstOffset := 0; h2_length := int32 (size - 12); h2_partitionLeaderEpoch := -1;
     h2_magic := 2; h2_crc := crc; h2_batchAttributes := attributes;
     h2_lastOffsetDelta := int32 (n - 1); h2_firstTimestamp := Time.timestamp baseTime;
     h2_maxTimestamp := Time.timestamp lastTime; h2_producerId := -1; h2_producerEpoch := -1;
     h2_firstSequence := -1 |}.

Definition batch_header_bytes (attributes size baseTime lastTime n crc : Z) : list byte :=
  writeInt64 0 ++ writeInt32 (int32 (size - 12)) ++ writeInt32 (-1) ++ writeInt8 2 ++
  writeInt32 crc ++ writeInt16 attributes ++ writeInt32 (int32 (n - 1)) ++
  writeInt64 (Time.timestamp baseTime) ++ writeInt64 (Time.timestamp lastTime) ++
  writeInt64 (-1) ++ writeInt16 (-1) ++ writeInt32 (-1) ++ writeInt32 (int32 n).

Lemma reads_readHeader attributes size baseTime lastTime n crc :
  is_int16 attributes → is_int32 crc →
  reads readHeader (batch_header_bytes attributes size baseTime lastTime n crc)
    (batch_header attributes size baseTime lastTime n crc, int32 n).
Proof.
  intros Ha Hcrc. pose proof (timestamp_range baseTime). pose proof (timestamp_range lastTime).
  pose proof (wrapS_range 32 (size - 12) ltac:(lia)). pose proof (wrapS_range 32 (n - 1) ltac:(lia)).
  pose proof (wrapS_range 32 n ltac:(lia)).
  assert (is_int64 0 ∧ is_int64 (-1) ∧ is_int32 (-1) ∧ is_int16 (-1) ∧ is_int8 2)
    as (? & ? & ? & ? & ?) by (by vm_compute).
  unfold readHeader, batch_header_bytes, batch_header. solve_reads.
Qed.

Lemma writeRecordBatch_bytes attributes size payload msgs m0 batch :
  first_message msgs = Done m0 → writeRecordBatch attributes size payload msgs = Done batch →
  let lastTime := msg_Time (List.last msgs m0) in
  batch = batch_header_bytes attributes size (msg_Time m0) lastTime (len msgs)
    (int32 (Checksum Castagnoli
       (batch_crc_part attributes (msg_Time m0) lastTime (len msgs) payload))) ++ payload.
Proof.
  intros Hm. unfold writeRecordBatch. rewrite Hm. cbn [mbind outcome_bind].
  destruct (_ <? 0); [done|]. intros <-%Done_inj. cbn zeta.
  unfold batch_header_bytes, batch_crc_part. by rewrite <- !app_assoc.
Qed.

(** Opening an uncompressed batch. *)
Lemma V2_nextBatch_opens codecs attributes size msgs m0 records batch r sz tail m :
  first_message msgs = Done m0 → writeRecords (msg_Time m0) 0 msgs = Some records →
  writeRecordBatch attributes size records msgs = Done batch →
  0 ≤ attributes < 2 ^ 15 → Z.land attributes 7 = 0 → len msgs < 2 ^ 31 → 16 ≤ rd_bufsize r →
  0 ≤ sz → top (v2_stack m) = Frame (with_data r (batch ++ tail)) (len batch + sz) 0 →
  ∃ h m', V2_nextBatch codecs m = (inr tt, m') ∧ h2_firstOffset h = 0 ∧
    h2_firstTimestamp h = Time.timestamp (msg_Time m0) ∧
    in_batch h (msg_Time m0) 0 msgs r sz tail m'.
Proof.
  intros Hm Hr Hb Ha Hcode Hl Hbuf Hsz Htop. pose proof (len_nonneg msgs).
  pose proof (len_nonneg records).
  pose proof (writeRecordBatch_bytes _ _ _ _ _ _ Hm Hb) as Hbytes. cbn zeta in Hbytes.
  set (crc := int32 (Checksum _ _)) in Hbytes.
  assert (is_int32 crc) as Hcrc by (apply wrapS_range; lia). clearbody crc.
  set (last := msg_Time (List.last msgs m0)) in *. clearbody last.
  pose proof (reads_readHeader attributes size (msg_Time m0) last (len msgs) crc
    ltac:(unfold inS; lia) Hcrc) as Hh.
  subst batch. rewrite <- app_assoc in Htop. rewrite len_app in Htop.
  assert (len (batch_header_bytes attributes size (msg_Time m0) last (len msgs) crc) = 61) as H61.
  { unfold batch_header_bytes. autorewrite with len. lia. }
  unfold V2_nextBatch.
  replace (fr_remain (top (v2_stack m)) =? 0) with false
    by (rewrite Htop; cbn [fr_remain]; symmetry; apply Z.eqb_neq; lia).
  rewrite (on_top_reads _ _ _ _ _ _ _ _ Hh Htop Hbuf) by lia.
  unfold compression. cbn [h2_batchAttributes batch_header]. rewrite Hcode.
  cbn [int8 wrapS]. change (negb (int8 0 =? 0)) with false. cbn iota.
  exists (batch_header attributes size (msg_Time m0) last (len msgs) crc). eexists. split; [done|]. split; [done|]. split; [done|]. constructor; cbn.
  - done.
  - by rewrite wrapS_id by (try unfold inS; lia).
  - done.
  - exists records. split; [done|]. rewrite top_set_top. split; [|done]. f_equal. lia.
Qed.
End records.
