(* ===== verification/ReadShort.v ===== *)
(** * Reads of responses that were cut

    A broker returns as many bytes of a partition as were asked for and may cut
    the last batch.  A read that succeeds on whole data does the same on any
    part of it that holds what it takes, and otherwise ends with
    [errShortRead]: [Cut], by composition of the reads. *)

From S2P Require Import Prelude Errors Bufio Read VarInt Wire Messages FetchResponse MessageSet MessageSetRead.

Class Cut {A} (m : rd A) : Prop := cut : ∀ r d n a n' r',
  m (with_data r d) n = (inr a, (n', r')) → n ≤ len d →
  ∀ d' sz, 0 ≤ sz ≤ n → sz ≤ len d' → ztake sz d' = ztake sz d →
  if n - n' <=? sz then m (with_data r d') sz = (inr a, (sz - (n - n'), with_data r (zdrop (n - n') d')))
  else ∃ s, m (with_data r d') sz = (inl errShortRead, s).

(** ** Lists that agree on their first bytes *)

Lemma ztake_ztake {A} n m (l : list A) : n ≤ m → ztake n (ztake m l) = ztake n l.
Proof. intros. unfold ztake. rewrite take_take. f_equal. lia. Qed.

Lemma ztake_less {A} n m (l l' : list A) : n ≤ m → ztake m l' = ztake m l → ztake n l' = ztake n l.
Proof. intros H E. by rewrite <- (ztake_ztake n m l'), E, ztake_ztake. Qed.

Lemma ztake_zdrop {A} k sz (l l' : list A) :
  0 ≤ k ≤ sz → ztake sz l' = ztake sz l → ztake (sz - k) (zdrop k l') = ztake (sz - k) (zdrop k l).
Proof.
  intros H E. unfold ztake, zdrop in *. rewrite !take_drop_commute.
  replace (Z.to_nat k + Z.to_nat (sz - k))%nat with (Z.to_nat sz) by lia. by rewrite E.
Qed.

(** ** Composition *)

#[global] Instance cut_ret {A} (a : A) : Cut (mret a).
Proof.
  intros r d n x n' r' [= <- <- <-] Hn d' sz Hsz Hl E. rewrite Z.sub_diag, (proj2 (Z.leb_le 0 _)) by lia.
  unfold mret, rd_ret. by rewrite Z.sub_0_r, zdrop_0.
Qed.

#[global] Instance cut_throw {A} e : Cut (throw (A:=A) e).
Proof. intros r d n x n' r'. done. Qed.

#[global] Instance cut_bind {A B} (m : rd A) (f : A → rd B) :
  Cut m → Framed m → (∀ a, Framed (f a)) → (∀ a, Cut (f a)) → Cut (m ≫= f).
Proof.
  intros Hm Fm Ff Hf r d n b n' r' E Hn d' sz Hsz Hl Ht. unfold mbind, rd_bind in *.
  destruct (m (with_data r d) n) as [[e|a] [n1 r1]] eqn:Em; [done|].
  destruct (Fm _ _ _ _ _ Em) as (Hn1 & Hk1 & ->). rewrite with_data_with_data in E. cbn [rd_data with_data] in *.
  destruct (Ff a _ _ _ _ _ E) as (Hn2 & Hk2 & ->). cbn [rd_data with_data] in Hk2. pose proof (len_nonneg d).
  rewrite len_zdrop in Hk2 by lia. pose proof (Hm _ _ _ _ _ _ Em Hn d' sz Hsz Hl Ht) as Hc.
  destruct (Z.leb_spec (n - n1) sz) as [Hle|Hgt].
  - rewrite Hc. assert (n1 ≤ len (zdrop (n - n1) d)) as Hn1' by (rewrite len_zdrop; lia).
    pose proof (Hf a _ _ _ _ _ _ E Hn1' (zdrop (n - n1) d') (sz - (n - n1))) as H2.
    rewrite (len_zdrop (n - n1) d') in H2 by lia.
    specialize (H2 ltac:(lia) ltac:(lia) (ztake_zdrop (n - n1) sz d d' ltac:(lia) Ht)).
    destruct (Z.leb_spec (n1 - n') (sz - (n - n1))).
    + rewrite (proj2 (Z.leb_le _ _)) by lia. rewrite H2, zdrop_zdrop by lia.
      replace (n - n1 + (n1 - n')) with (n - n') by lia. do 2 f_equal. lia.
    + rewrite (proj2 (Z.leb_gt _ _)) by lia. exact H2.
  - destruct Hc as [s Hs]. rewrite (proj2 (Z.leb_gt _ _)) by lia. rewrite Hs. by exists s.
Qed.

#[global] Instance cut_if {A} (b : bool) (m1 m2 : rd A) : Cut m1 → Cut m2 → Cut (if b then m1 else m2).
Proof. by destruct b. Qed.

#[global] Instance cut_repeatM {A} n (m : rd A) : Framed m → Cut m → Cut (repeatM n m).
Proof. intros Hf Hm. induction n; simpl; apply _. Qed.

(** ** Primitive reads *)

(** What a read of [k] bytes does. *)
Lemma peekRead_run {A} k (f : list byte → A) r d sz :
  0 ≤ k ≤ rd_bufsize r → sz ≤ len d →
  peekRead k f (with_data r d) sz =
  if k <=? sz then (inr (f (ztake k d)), (sz - k, with_data r (zdrop k d))) else (inl errShortRead, (sz, with_data r d)).
Proof.
  intros Hk Hl. unfold peekRead. rewrite Z.gtb_ltb. destruct (Z.ltb_spec sz k) as [Hlt|Hge].
  { by rewrite (proj2 (Z.leb_gt _ _)) by lia. }
  rewrite (proj2 (Z.leb_le _ _)) by lia. unfold Peek. cbn [rd_data rd_bufsize with_data].
  rewrite (proj2 (Z.ltb_ge k 0)), (proj2 (Z.ltb_ge (rd_bufsize r) k)), (proj2 (Z.leb_le k _)) by lia.
  unfold mbind, rd_bind, discardN, Discard. cbn [rd_data with_data].
  rewrite (proj2 (Z.leb_le k sz)), (proj2 (Z.ltb_ge k 0)), (proj2 (Z.leb_le k (len d))) by lia. done.
Qed.

Lemma peekRead_buf {A} k (f : list byte → A) r d n a s : peekRead k f (with_data r d) n = (inr a, s) → 0 ≤ k ≤ rd_bufsize r.
Proof.
  unfold peekRead, Peek. destruct (k >? n); [done|]. destruct (Z.ltb_spec k 0); [done|].
  cbn [rd_bufsize with_data]. destruct (Z.ltb_spec (rd_bufsize r) k); [done|]. lia.
Qed.

#[global] Instance cut_peekRead {A} k (f : list byte → A) : Cut (peekRead k f).
Proof.
  intros r d n a n' r' E Hn d' sz Hsz Hl Ht. pose proof (peekRead_buf _ _ _ _ _ _ _ E) as Hk.
  rewrite peekRead_run in E by lia. destruct (Z.leb_spec k n); [|done]. injection E as <- <- <-.
  rewrite peekRead_run by lia. replace (n - (n - k)) with k by lia. destruct (Z.leb_spec k sz); [|by eexists].
  by rewrite (ztake_less k sz d d').
Qed.

#[global] Instance cut_readNewBytes k : Cut (readNewBytes k).
Proof.
  intros r d n a n' r' E Hn d' sz Hsz Hl Ht. unfold readNewBytes in *. destruct (Z.gtb_spec k 0) as [Hk|Hk].
  2:{ injection E as <- <- <-. rewrite Z.sub_diag, (proj2 (Z.leb_le 0 _)), Z.sub_0_r, zdrop_0 by lia. done. }
  destruct (Z.ltb_spec n k) as [Hlt|Hge].
  { cbn zeta beta iota in E. destruct (n <? 0); [done|]. by destruct (ReadFull n _) as [[b [e|]] r1]. }
  rewrite (proj2 (Z.ltb_ge k 0)) in E by lia. unfold ReadFull in *. cbn [rd_data with_data] in *.
  rewrite (proj2 (Z.leb_le k _)) in E by lia. injection E as <- <- <-. rewrite len_ztake by lia.
  replace (n - (n - k)) with k by lia. destruct (Z.leb_spec k sz) as [Hks|Hks].
  - rewrite (proj2 (Z.ltb_ge sz k)), (proj2 (Z.ltb_ge k 0)), (proj2 (Z.leb_le k (len d'))) by lia.
    rewrite len_ztake by lia. by rewrite (ztake_less k sz d d').
  - rewrite (proj2 (Z.ltb_lt sz k)), (proj2 (Z.ltb_ge sz 0)), (proj2 (Z.leb_le sz (len d'))) by lia. by eexists.
Qed.

#[global] Instance cut_readNewString k : Cut (readNewString k).
Proof. unfold readNewString. apply _. Qed.

(** The loop takes a byte per iteration: fuel for one more than the bytes left
    is enough. *)
Lemma readVarInt_loop_cut fuel fuel' l v r d n a n' r' d' sz :
  readVarInt_loop fuel l v (with_data r d) n = (inr a, (n', r')) → n ≤ len d →
  0 ≤ sz ≤ n → sz ≤ len d' → ztake sz d' = ztake sz d → (Z.to_nat sz < fuel')%nat →
  if n - n' <=? sz
  then readVarInt_loop fuel' l v (with_data r d') sz = (inr a, (sz - (n - n'), with_data r (zdrop (n - n') d')))
  else ∃ s, readVarInt_loop fuel' l v (with_data r d') sz = (inl errShortRead, s).
Proof.
  revert fuel' l v d n d' sz. induction fuel as [|fuel IH]; intros fuel' l v d n d' sz E Hn Hsz Hl Ht Hf; [done|].
  destruct fuel' as [|fuel']; [lia|]. cbn [readVarInt_loop] in *. unfold mbind, rd_bind in *.
  destruct (peekRead 1 _ (with_data r d) n) as [[e|b] [n1 r1]] eqn:Ep; [done|].
  pose proof (peekRead_buf _ _ _ _ _ _ _ Ep) as Hb. rewrite peekRead_run in Ep by lia.
  destruct (Z.leb_spec 1 n); [|done]. injection Ep as <- <- <-. rewrite peekRead_run by lia.
  destruct (Z.leb_spec 1 sz) as [H1|H0].
  - rewrite (ztake_less 1 sz d d' H1 Ht). destruct (Z.land _ 128 =? 0).
    { injection E as <- <- <-. replace (n - (n - 1)) with 1 by lia. by rewrite (proj2 (Z.leb_le 1 sz)) by lia. }
    assert (n - 1 ≤ len (zdrop 1 d)) as Hn1 by (rewrite len_zdrop; lia).
    pose proof (IH fuel' _ _ _ _ (zdrop 1 d') (sz - 1) E Hn1 ltac:(lia) ltac:(rewrite len_zdrop; lia)
      (ztake_zdrop 1 sz d d' ltac:(lia) Ht) ltac:(lia)) as H2.
    pose proof (framed_readVarInt_loop fuel _ _ _ _ _ _ _ E) as (Hn2 & _).
    destruct (Z.leb_spec (n - 1 - n') (sz - 1)).
    + rewrite (proj2 (Z.leb_le _ _)) by lia. rewrite H2, zdrop_zdrop by lia.
      replace (1 + (n - 1 - n')) with (n - n') by lia. do 2 f_equal. lia.
    + rewrite (proj2 (Z.leb_gt _ _)) by lia. exact H2.
  - assert (n' ≤ n - 1) as Hn'.
    { destruct (Z.land _ 128 =? 0); [by injection E as _ <- _; lia|].
      destruct (framed_readVarInt_loop fuel _ _ _ _ _ _ _ E) as (? & _). lia. }
    rewrite (proj2 (Z.leb_gt _ _)) by lia. by eexists.
Qed.

#[global] Instance cut_readVarInt : Cut readVarInt.
Proof.
  intros r d n a n' r' E Hn d' sz Hsz Hl Ht. unfold readVarInt, mbind, rd_bind in *.
  destruct (readVarInt_loop _ 0 0 (with_data r d) n) as [[e|x] [n1 r1]] eqn:El; [done|]. injection E as <- <- <-.
  pose proof (readVarInt_loop_cut _ (S (Z.to_nat sz)) _ _ _ _ _ _ _ _ d' sz El Hn Hsz Hl Ht ltac:(lia)) as Hc.
  destruct (_ <=? sz); [by rewrite Hc|]. destruct Hc as [s ->]. by exists s.
Qed.

(** ** Message sets *)

#[global] Instance framed_readHeader' : Framed readHeader.
Proof. unfold readHeader. apply _. Qed.

#[global] Instance cut_readHeader : Cut readHeader.
Proof. unfold readHeader, readInt8, readInt16, readInt32, readInt64. apply _. Qed.

#[global] Instance framed_readRecordHeader' : Framed readRecordHeader.
Proof. unfold readRecordHeader. apply _. Qed.

#[global] Instance cut_readRecordHeader : Cut readRecordHeader.
Proof. unfold readRecordHeader. apply _. Qed.

#[global] Instance cut_readRecord {K V} (key : Z → rd K) (val : Z → rd V) :
  (∀ n, Framed (key n)) → (∀ n, Framed (val n)) → (∀ n, Cut (key n)) → (∀ n, Cut (val n)) → Cut (readRecord key val).
Proof. intros. unfold readRecord, readInt8. apply _. Qed.

(** A part of an encoding. *)
Lemma cut_short {A} `{!Cut m} bs (a : A) r sz tail :
  reads m bs a → 16 ≤ rd_bufsize r → 0 ≤ sz < len bs →
  ∃ s, m (with_data r (ztake sz bs ++ tail)) sz = (inl errShortRead, s).
Proof.
  intros Hr Hb Hsz. specialize (Hr r (len bs) [] ltac:(lia) Hb). rewrite app_nil_r, Z.sub_diag in Hr.
  assert (len (ztake sz bs) = sz) as Hl by (apply len_ztake; lia). pose proof (len_nonneg tail).
  pose proof (cut _ _ _ _ _ _ Hr ltac:(lia) (ztake sz bs ++ tail) sz ltac:(lia) ltac:(rewrite len_app; lia)) as H1.
  rewrite (proj2 (Z.leb_gt _ sz)) in H1 by lia. apply H1. by rewrite ztake_app.
Qed.
