(* ===== verification/RecordLog.v ===== *)
(** * The log of a broker in format 2, and how it is read

    Record batches as a broker stores and returns them: any first offset and
    times, deltas with holes, nil keys and values, batches compressed or not,
    and a last batch that the end of the response may cut. *)

From S2P Require Import Prelude Errors Time Bufio Read Write VarInt Wire.
From S2P Require Import Crc32 Messages DataRequests FetchResponse MessageSet MessageSetRead RecordBatchRead ReadShort.

(** ** Encodings *)

Definition vi (z : Z) : list byte := default [] (writeVarInt z).

Definition enc_nullable (b : bytes) : list byte := vi (match b with None => -1 | Some b => len b end) ++ bdata b.

Definition enc_header (h : Header) : list byte := vi (len (hd_Key h)) ++ hd_Key h ++ enc_nullable (hd_Value h).

Record record : Type := { re_time : Z; re_offset : Z; re_key : bytes; re_value : bytes; re_headers : list Header }.

Definition enc_body (x : record) : list byte :=
  writeInt8 0 ++ vi (re_time x) ++ vi (re_offset x) ++ enc_nullable (re_key x) ++ enc_nullable (re_value x) ++
  vi (len (re_headers x)) ++ concat (map enc_header (re_headers x)).

Definition enc_record (x : record) : list byte := vi (len (enc_body x)) ++ enc_body x.

Record record_wf (x : record) : Prop := {
  rw_time : in62 (re_time x);
  rw_offset : in62 (re_offset x);
  rw_key : wf_bytes (re_key x);
  rw_value : wf_bytes (re_value x);
  rw_headers : Forall (λ h, len (hd_Key h) < 2 ^ 31 ∧ wf_bytes (hd_Value h)) (re_headers x);
  rw_count : len (re_headers x) < 2 ^ 31;
  rw_body : in62 (len (enc_body x));
}.

Definition header_bytes (h : messageSetHeaderV2) (n : Z) : list byte :=
  writeInt64 (h2_firstOffset h) ++ writeInt32 (h2_length h) ++ writeInt32 (h2_partitionLeaderEpoch h) ++
  writeInt8 (h2_magic h) ++ writeInt32 (h2_crc h) ++ writeInt16 (h2_batchAttributes h) ++
  writeInt32 (h2_lastOffsetDelta h) ++ writeInt64 (h2_firstTimestamp h) ++ writeInt64 (h2_maxTimestamp h) ++
  writeInt64 (h2_producerId h) ++ writeInt16 (h2_producerEpoch h) ++ writeInt32 (h2_firstSequence h) ++ writeInt32 n.

Definition header_wf (h : messageSetHeaderV2) : Prop :=
  is_int64 (h2_firstOffset h) ∧ is_int32 (h2_length h) ∧ is_int32 (h2_partitionLeaderEpoch h) ∧ h2_magic h = 2 ∧
  is_int32 (h2_crc h) ∧ is_int16 (h2_batchAttributes h) ∧ is_int32 (h2_lastOffsetDelta h) ∧
  is_int64 (h2_firstTimestamp h) ∧ is_int64 (h2_maxTimestamp h) ∧ is_int64 (h2_producerId h) ∧
  is_int16 (h2_producerEpoch h) ∧ is_int32 (h2_firstSequence h).

(** A batch: its header, its records, and their bytes as they are stored. *)
Record rbatch : Type := { bt_header : messageSetHeaderV2; bt_records : list record; bt_payload : list byte }.

Definition enc_records (xs : list record) : list byte := concat (map enc_record xs).

Definition enc_batch (b : rbatch) : list byte := header_bytes (bt_header b) (len (bt_records b)) ++ bt_payload b.

Definition enc_batches (bs : list rbatch) : list byte := concat (map enc_batch bs).

(** A record with the header of its batch, and the offset it has. *)
Definition flatten (bs : list rbatch) : list (messageSetHeaderV2 * record) :=
  concat (map (λ b, map (pair (bt_header b)) (bt_records b)) bs).

Definition offset_of (p : messageSetHeaderV2 * record) : Z := int64 (h2_firstOffset p.1 + re_offset p.2).

(** What the reader makes of it. *)
Definition result_of (p : messageSetHeaderV2 * record) : msgResult bytes bytes :=
  MsgResult (offset_of p) (int64 (h2_firstTimestamp p.1 + re_time p.2)) (map canonHeader (re_headers p.2))
    (bnorm (re_key p.2)) (bnorm (re_value p.2)).

Lemma reads_vi z : in62 z → reads readVarInt (vi z) z.
Proof.
  intros H. unfold vi. destruct (writeVarInt_terminates z H) as (bs & E & _). rewrite E. by apply reads_readVarInt.
Qed.

Lemma in62_len {A} (l : list A) : len l < 2 ^ 31 → in62 (len l).
Proof. pose proof (len_nonneg l). unfold in62. lia. Qed.

Lemma reads_nullable {A} b (f : bytes → rd A) bs a :
  wf_bytes b → reads (f (bnorm b)) bs a →
  reads (n ← readVarInt; x ← readNewBytes n; f x) (enc_nullable b ++ bs) a.
Proof.
  intros Hb Hf. unfold enc_nullable. rewrite <- app_assoc.
  eapply reads_bind; [apply reads_vi; destruct b; [by apply in62_len|by vm_compute]|].
  eapply reads_bind; [by apply readNewBytes_reads_as|done].
Qed.

Lemma reads_enc_header h :
  len (hd_Key h) < 2 ^ 31 → wf_bytes (hd_Value h) → reads readRecordHeader (enc_header h) (canonHeader h).
Proof.
  intros Hk Hv. unfold enc_header, readRecordHeader.
  eapply reads_bind; [apply reads_vi; by apply in62_len|]. eapply reads_bind; [apply reads_readNewString|].
  rewrite <- (app_nil_r (enc_nullable _)). apply reads_nullable; [done|].
  assert (canonHeader h = {| hd_Key := hd_Key h; hd_Value := bnorm (hd_Value h) |}) as ->.
  { unfold canonHeader. by destruct (hd_Value h) as [[]|]. }
  apply reads_ret.
Qed.

Lemma reads_enc_record x :
  record_wf x →
  reads (readRecord readNewBytes readNewBytes) (enc_record x)
    (re_offset x, re_time x, map canonHeader (re_headers x), bnorm (re_key x), bnorm (re_value x)).
Proof.
  intros []. unfold enc_record, readRecord.
  eapply reads_bind; [by apply reads_vi|]. unfold enc_body.
  eapply reads_bind; [by apply reads_readInt8; vm_compute|].
  eapply reads_bind; [by apply reads_vi|]. eapply reads_bind; [by apply reads_vi|].
  apply reads_nullable; [done|]. apply reads_nullable; [done|].
  eapply reads_bind; [apply reads_vi; by apply in62_len|].
  rewrite (proj2 (Z.ltb_ge _ 0)) by apply len_nonneg. unfold len at 1. rewrite Nat2Z.id.
  eapply reads_bind_nil; [|apply reads_ret]. apply reads_repeatM.
  eapply Forall_impl; [done|]. intros h [Hk Hv]. by apply reads_enc_header.
Qed.

Lemma reads_header_bytes h n : header_wf h → is_int32 n → reads readHeader (header_bytes h n) (h, n).
Proof.
  intros (? & ? & ? & Hm & ? & ? & ? & ? & ? & ? & ? & ?) Hn. unfold readHeader, header_bytes.
  assert (is_int8 (h2_magic h)) by (by rewrite Hm). clear Hm. destruct h as [f1 f2 f3 f4 f5 f6 f7 f8 f9 f10 f11 f12].
  cbn [h2_firstOffset h2_length h2_partitionLeaderEpoch h2_magic h2_crc h2_batchAttributes h2_lastOffsetDelta
       h2_firstTimestamp h2_maxTimestamp h2_producerId h2_producerEpoch h2_firstSequence] in *.
  solve_reads.
Qed.

Lemma len_header_bytes h n : len (header_bytes h n) = 61.
Proof. unfold header_bytes. by autorewrite with len. Qed.

(** ** Batches in a response *)

Section log.
Context (codecs : codec_registry).

(** [payload] holds the bytes [data] of the records: as they are, or
    compressed by a codec that the client knows.  A compressed payload fits the
    buffer of the connection. *)
Definition packs (bufsize : Z) (h : messageSetHeaderV2) (payload data : list byte) : Prop :=
  (compression h = 0 ∧ payload = data) ∨
  (compression h ≠ 0 ∧ h2_length h = 49 + len payload ∧ len payload ≤ bufsize ∧
   ∃ codec, resolveCodec codecs (compression h) = inr codec ∧ Decode codec payload = inr data).

Record batch_wf (bufsize : Z) (b : rbatch) : Prop := {
  bw_header : header_wf (bt_header b);
  bw_some : bt_records b ≠ [];
  bw_count : len (bt_records b) < 2 ^ 31;
  bw_records : Forall record_wf (bt_records b);
  bw_packs : packs bufsize (bt_header b) (bt_payload b) (enc_records (bt_records b));
}.

(** The start of a batch that the response has no room for, and the records of
    it that are whole. *)
Inductive cut_batch : list (messageSetHeaderV2 * record) → list byte → Prop :=
| cut_header h n j : header_wf h → is_int32 n → 0 ≤ j < 61 → cut_batch [] (ztake j (header_bytes h n))
| cut_plain h n xs x j :
  header_wf h → is_int32 n → compression h = 0 → len xs < n → Forall record_wf xs → record_wf x →
  0 ≤ j < len (enc_record x) →
  cut_batch (map (pair h) xs) (header_bytes h n ++ enc_records xs ++ ztake j (enc_record x))
| cut_packed h n payload codec j :
  header_wf h → is_int32 n → compression h ≠ 0 → resolveCodec codecs (compression h) = inr codec →
  h2_length h = 49 + len payload → 0 ≤ j < len payload →
  cut_batch [] (header_bytes h n ++ ztake j payload).

Context (r : bufreader) (Hbuf : 16 ≤ rd_bufsize r) (tail cut : list byte).
Context (last : list (messageSetHeaderV2 * record)) (Hcut : cut_batch last cut).

Definition flat_stack (d : list byte) (sz : Z) : readerStack := Stack [] (Frame (with_data r d) sz 0) false.

Definition nested_stack (recs d : list byte) (sz : Z) : readerStack :=
  Stack [Frame (NewReader recs) (len recs) (-1)] (Frame (with_data r d) sz 0) false.

Definition rest (bs : list rbatch) : list byte := enc_batches bs ++ cut.

(** The reader, with the records that it has not returned: in a batch, in a
    decompressed one, or in the one that was cut. *)
Inductive records_left : list (messageSetHeaderV2 * record) → messageSetReaderV2 → Prop :=
| in_plain h xs bs :
  Forall record_wf xs → Forall (batch_wf (rd_bufsize r)) bs →
  records_left (map (pair h) xs ++ flatten bs ++ last)
    {| v2_stack := flat_stack (enc_records xs ++ rest bs ++ tail) (len (enc_records xs) + len (rest bs));
       v2_messageCount := len xs; v2_header := h |}
| in_nested h xs bs :
  Forall record_wf xs → Forall (batch_wf (rd_bufsize r)) bs →
  records_left (map (pair h) xs ++ flatten bs ++ last)
    {| v2_stack := nested_stack (enc_records xs) (rest bs ++ tail) (len (rest bs));
       v2_messageCount := len xs; v2_header := h |}
| in_cut h n xs x j :
  Forall record_wf xs → record_wf x → 0 ≤ j < len (enc_record x) → len xs < n →
  records_left (map (pair h) xs)
    {| v2_stack := flat_stack (enc_records xs ++ ztake j (enc_record x) ++ tail) (len (enc_records xs) + j);
       v2_messageCount := n; v2_header := h |}.

(** *** A record *)

Lemma record_step h n x s r0 d sz base :
  record_wf x → 16 ≤ rd_bufsize r0 → n ≠ 0 → top s = Frame (with_data r0 (enc_record x ++ d)) sz base →
  len (enc_record x) ≤ sz →
  V2_readMessage codecs readNewBytes readNewBytes {| v2_stack := s; v2_messageCount := n; v2_header := h |} =
  (Done (result_of (h, x)),
   {| v2_stack := set_top s (Frame (with_data r0 d) (sz - len (enc_record x)) base); v2_messageCount := n - 1;
      v2_header := h |}).
Proof.
  intros Hx Hb Hn Ht Hs. unfold V2_readMessage. cbn [v2_messageCount]. rewrite (proj2 (Z.eqb_neq _ _) Hn).
  cbn [v2_stack]. by rewrite (on_top_reads _ _ _ _ _ _ _ _ (reads_enc_record x Hx) Ht Hb Hs).
Qed.

(** *** The next batch *)

(** A decompressed batch that is exhausted is left. *)
Lemma nextBatch_nested h bs :
  V2_nextBatch codecs {| v2_stack := nested_stack [] (rest bs ++ tail) (len (rest bs)); v2_messageCount := 0; v2_header := h |} =
  V2_nextBatch codecs {| v2_stack := flat_stack (rest bs ++ tail) (len (rest bs)); v2_messageCount := 0; v2_header := h |}.
Proof. unfold V2_nextBatch. cbn. by destruct (len (rest bs) =? 0). Qed.

(** The header of a batch, then what its compression asks for. *)
Definition opened (s : readerStack) (h : messageSetHeaderV2) (n : Z) : (goerror + unit) * messageSetReaderV2 :=
  let m := {| v2_stack := s; v2_messageCount := n; v2_header := h |} in
  if negb (compression h =? 0) then
    match resolveCodec codecs (compression h) with
    | inl err => (inl err, m)
    | inr codec =>
      match on_top (readCompressedBatch codec (int32 (h2_length h - 49))) s with
      | (inl err, s) => (inl err, {| v2_stack := s; v2_messageCount := n; v2_header := h |})
      | (inr decompressed, s) =>
        (inr tt, {| v2_stack := push (Frame (NewReader decompressed) (len decompressed) (-1)) s;
                    v2_messageCount := n; v2_header := h |})
      end
    end
  else (inr tt, m).

Lemma flat_stays d sz :
  (if fr_remain (top (flat_stack d sz)) =? 0
   then if has_parent (flat_stack d sz) then pop (flat_stack d sz) else flat_stack d sz
   else flat_stack d sz) = flat_stack d sz.
Proof. by destruct (_ =? 0). Qed.

Lemma nextBatch_header h0 h n d sz :
  header_wf h → is_int32 n → 61 ≤ sz →
  V2_nextBatch codecs {| v2_stack := flat_stack (header_bytes h n ++ d) sz; v2_messageCount := 0; v2_header := h0 |} =
  opened (flat_stack d (sz - 61)) h n.
Proof.
  intros Hh Hn Hs. unfold V2_nextBatch. cbn [v2_stack v2_messageCount v2_header].
  rewrite flat_stays.
  rewrite (on_top_reads readHeader _ _ (flat_stack (header_bytes h n ++ d) sz) r sz 0 d (reads_header_bytes h n Hh Hn) eq_refl Hbuf)
    by (rewrite len_header_bytes; lia).
  by rewrite len_header_bytes.
Qed.

Lemma readCompressedBatch_run codec payload data d sz :
  Decode codec payload = inr data → len payload ≤ rd_bufsize r → len payload ≤ sz →
  readCompressedBatch codec (len payload) (with_data r (payload ++ d)) sz = (inr data, (sz - len payload, with_data r d)).
Proof.
  intros Hd Hb Hs. pose proof (len_nonneg payload). pose proof (len_nonneg d). unfold readCompressedBatch, Peek.
  cbn [rd_data rd_bufsize with_data].
  rewrite Z.gtb_ltb, (proj2 (Z.ltb_ge sz _)), (proj2 (Z.ltb_ge _ 0)), (proj2 (Z.ltb_ge (rd_bufsize r) _)) by lia.
  rewrite (proj2 (Z.leb_le _ _)) by (rewrite len_app; lia). rewrite ztake_app, Hd by done.
  unfold mbind, rd_bind, discardN, Discard. cbn [rd_data with_data].
  rewrite (proj2 (Z.leb_le _ sz)), (proj2 (Z.ltb_ge _ 0)) by lia.
  rewrite (proj2 (Z.leb_le _ _)) by (rewrite len_app; lia). by rewrite zdrop_app.
Qed.

Lemma opened_batch h xs bs payload :
  header_wf h → Forall record_wf xs → Forall (batch_wf (rd_bufsize r)) bs →
  packs (rd_bufsize r) h payload (enc_records xs) →
  ∃ m, opened (flat_stack (payload ++ rest bs ++ tail) (len payload + len (rest bs))) h (len xs) = (inr tt, m) ∧
    v2_messageCount m = len xs ∧ records_left (map (pair h) xs ++ flatten bs ++ last) m.
Proof.
  intros Hh Hx Hb [[Hc ->]|(Hc & Hl & Hsz & codec & Hr & Hd)]; unfold opened.
  - rewrite Hc. eexists. split; [done|]. split; [done|]. by apply in_plain.
  - rewrite (proj2 (Z.eqb_neq _ _) Hc), Hr. cbn [negb].
    destruct Hh as (_ & Hlen & _). pose proof (len_nonneg payload). pose proof (len_nonneg (rest bs)).
    replace (h2_length h - 49) with (len payload) by lia. rewrite (wrapS_id 32) by (unfold inS in *; lia).
    unfold on_top, on_frame, flat_stack. cbn [top rs_inner rs_bottom fr_reader fr_remain fr_base set_top].
    rewrite (readCompressedBatch_run codec payload _ _ _ Hd Hsz) by lia.
    replace (len payload + len (rest bs) - len payload) with (len (rest bs)) by lia.
    eexists. split; [done|]. split; [done|]. by apply (in_nested h xs bs).
Qed.

Lemma len_rest_cons b bs : len (rest (b :: bs)) = 61 + len (bt_payload b) + len (rest bs).
Proof. unfold rest, enc_batches. cbn [map concat]. unfold enc_batch at 1. rewrite !len_app, len_header_bytes. lia. Qed.

Lemma rest_cons b bs : rest (b :: bs) = header_bytes (bt_header b) (len (bt_records b)) ++ bt_payload b ++ rest bs.
Proof. unfold rest, enc_batches. cbn [map concat]. unfold enc_batch at 1. by rewrite <- !app_assoc. Qed.

(** Between batches, with a record to come. *)
Lemma nextBatch_opens h bs p todo :
  Forall (batch_wf (rd_bufsize r)) bs → flatten bs ++ last = p :: todo →
  ∃ m, V2_nextBatch codecs {| v2_stack := flat_stack (rest bs ++ tail) (len (rest bs)); v2_messageCount := 0; v2_header := h |} =
    (inr tt, m) ∧ v2_messageCount m ≠ 0 ∧ records_left (p :: todo) m.
Proof.
  intros Hbs E. destruct bs as [|b bs].
  - unfold rest. cbn [enc_batches flatten map concat app] in *. rewrite E in Hcut. inversion Hcut
      as [|h1 n xs x j Hh Hn Hc Hlt Hxs Hx Hj E1 E2|].
    pose proof (len_nonneg (enc_records xs)). pose proof (len_nonneg (ztake j (enc_record x))).
    rewrite !len_app, len_header_bytes, <- app_assoc, nextBatch_header by (done || lia).
    unfold opened. rewrite Hc. eexists. split; [done|]. cbn [v2_messageCount]. pose proof (len_nonneg xs).
    split; [lia|]. rewrite <- app_assoc.
    replace (61 + (len (enc_records xs) + len (ztake j (enc_record x))) - 61) with (len (enc_records xs) + j)
      by (rewrite (len_ztake j) by lia; lia).
    by apply in_cut.
  - apply Forall_cons_1 in Hbs as [[Hh Hne Hl Hxs Hp] Hbs]. rewrite len_rest_cons, rest_cons, <- !app_assoc.
    pose proof (len_nonneg (bt_payload b)). pose proof (len_nonneg (rest bs)). pose proof (len_nonneg (bt_records b)).
    rewrite nextBatch_header by (done || lia || (unfold inS; lia)).
    replace (61 + len (bt_payload b) + len (rest bs) - 61) with (len (bt_payload b) + len (rest bs)) by lia.
    destruct (opened_batch (bt_header b) (bt_records b) bs (bt_payload b) Hh Hxs Hbs Hp) as (m & Em & Hm & Hr).
    exists m. split; [done|]. split; [rewrite Hm; destruct (bt_records b); [done|rewrite len_cons; pose proof (len_nonneg l); lia]|].
    cbn [flatten map concat] in E. rewrite <- E, <- app_assoc. exact Hr.
Qed.

(** *** The records come one by one *)

Lemma V2_readMessage_opened m m1 :
  v2_messageCount m = 0 → V2_nextBatch codecs m = (inr tt, m1) → v2_messageCount m1 ≠ 0 →
  V2_readMessage codecs readNewBytes readNewBytes m = V2_readMessage codecs readNewBytes readNewBytes m1.
Proof. intros H0 E H1. unfold V2_readMessage at 1 2. rewrite H0, (proj2 (Z.eqb_neq _ _) H1). cbn. by rewrite E. Qed.

Lemma reading_record p todo m :
  records_left (p :: todo) m → v2_messageCount m ≠ 0 →
  ∃ m', V2_readMessage codecs readNewBytes readNewBytes m = (Done (result_of p), m') ∧ records_left todo m'.
Proof.
  intros Hr Hn. remember (p :: todo) as flat eqn:Ef. destruct Hr as [h xs bs Hxs Hbs|h xs bs Hxs Hbs|h n xs x j Hxs Hx Hj Hlt];
    cbn [v2_messageCount] in Hn.
  - destruct xs as [|x xs]; [done|]. injection Ef as <- <-. apply Forall_cons_1 in Hxs as [Hx Hxs].
    unfold enc_records. cbn [map concat]. fold (enc_records xs). pose proof (len_nonneg (enc_records xs)). pose proof (len_nonneg (rest bs)).
    rewrite <- app_assoc. erewrite record_step; [|done|exact Hbuf|done|reflexivity|rewrite len_app; lia].
    eexists. split; [done|]. rewrite len_app. cbn [set_top flat_stack rs_inner rs_popped].
    replace (len (enc_record x) + len (enc_records xs) + len (rest bs) - len (enc_record x))
      with (len (enc_records xs) + len (rest bs)) by lia.
    replace (len (x :: xs) - 1) with (len xs) by (rewrite len_cons; lia). by apply (in_plain h xs bs).
  - destruct xs as [|x xs]; [done|]. injection Ef as <- <-. apply Forall_cons_1 in Hxs as [Hx Hxs].
    unfold enc_records. cbn [map concat]. fold (enc_records xs). pose proof (len_nonneg (enc_records xs)).
    erewrite record_step; [|done|by instantiate (1 := NewReader [])|done|reflexivity|rewrite len_app; lia].
    eexists. split; [done|]. rewrite len_app. cbn [set_top nested_stack rs_inner rs_popped rs_bottom].
    replace (len (enc_record x) + len (enc_records xs) - len (enc_record x)) with (len (enc_records xs)) by lia.
    replace (len (x :: xs) - 1) with (len xs) by (rewrite len_cons; lia). by apply (in_nested h xs bs).
  - destruct xs as [|x0 xs]; [done|]. injection Ef as <- <-. apply Forall_cons_1 in Hxs as [Hx0 Hxs].
    unfold enc_records. cbn [map concat]. fold (enc_records xs). pose proof (len_nonneg (enc_records xs)).
    rewrite <- app_assoc. erewrite (record_step h n x0); [|done|exact Hbuf|done|reflexivity|rewrite len_app; lia].
    eexists. split; [done|]. rewrite len_app. cbn [set_top flat_stack rs_inner rs_popped].
    replace (len (enc_record x0) + len (enc_records xs) + j - len (enc_record x0)) with (len (enc_records xs) + j) by lia.
    rewrite len_cons in Hlt. apply (in_cut h (n - 1) xs x j); [done..|lia].
Qed.

Lemma reading_next p todo m :
  records_left (p :: todo) m →
  ∃ m', V2_readMessage codecs readNewBytes readNewBytes m = (Done (result_of p), m') ∧ records_left todo m'.
Proof.
  intros Hr. destruct (decide (v2_messageCount m = 0)) as [H0|Hn]; [|by apply reading_record].
  assert (∃ m1, V2_nextBatch codecs m = (inr tt, m1) ∧ v2_messageCount m1 ≠ 0 ∧ records_left (p :: todo) m1) as (m1 & E & H1 & Hr1).
  { remember (p :: todo) as flat eqn:Ef. destruct Hr as [h xs bs Hxs Hbs|h xs bs Hxs Hbs|h n xs x j Hxs Hx Hj Hlt];
      cbn [v2_messageCount] in H0; try (rewrite H0 in Hlt; pose proof (len_nonneg xs); lia);
      (destruct xs as [|x xs]; [|rewrite len_cons in H0; pose proof (len_nonneg xs); lia]); rewrite Ef.
    - apply (nextBatch_opens h bs); [done|exact Ef].
    - change (enc_records []) with (@nil byte). change (len (@nil record)) with 0. rewrite nextBatch_nested.
      apply nextBatch_opens; [done|exact Ef]. }
  rewrite (V2_readMessage_opened m m1 H0 E H1). by apply reading_record.
Qed.

(** *** The end of the response *)

Lemma on_top_short {A} (m : rd A) `{!Cut m} bs a d sz :
  reads m bs a → 0 ≤ sz < len bs → d = ztake sz bs ++ tail →
  ∃ s, on_top m (flat_stack d sz) = (inl errShortRead, s) ∧ rs_inner s = [].
Proof.
  intros Hm Hs ->. destruct (cut_short bs a r sz tail Hm Hbuf Hs) as [[sz' r'] E].
  unfold on_top, on_frame, flat_stack. cbn [top rs_inner rs_bottom fr_reader fr_remain]. rewrite E. by eexists.
Qed.

Lemma record_short h n x j :
  record_wf x → 0 ≤ j < len (enc_record x) → n ≠ 0 →
  ∃ m', V2_readMessage codecs readNewBytes readNewBytes
    {| v2_stack := flat_stack (ztake j (enc_record x) ++ tail) j; v2_messageCount := n; v2_header := h |} =
    (Failed errShortRead, m') ∧ rs_inner (v2_stack m') = [].
Proof.
  intros Hx Hj Hn. unfold V2_readMessage. cbn [v2_messageCount]. rewrite (proj2 (Z.eqb_neq _ _) Hn). cbn [v2_stack].
  destruct (on_top_short _ _ _ _ _ (reads_enc_record x Hx) Hj eq_refl) as (s & -> & Hs). by eexists.
Qed.

Lemma cut_ends h0 :
  last = [] →
  ∃ m', V2_readMessage codecs readNewBytes readNewBytes
    {| v2_stack := flat_stack (cut ++ tail) (len cut); v2_messageCount := 0; v2_header := h0 |} = (Failed errShortRead, m') ∧
    rs_inner (v2_stack m') = [].
Proof.
  intros E. destruct Hcut as [h n j Hh Hn Hj|h n xs x j Hh Hn Hc Hlt Hxs Hx Hj|h n payload codec j Hh Hn Hc Hr Hl Hj].
  - rewrite len_ztake by (rewrite len_header_bytes; lia).
    destruct (on_top_short readHeader _ _ _ j (reads_header_bytes h n Hh Hn) ltac:(rewrite len_header_bytes; lia) eq_refl)
      as (s & Es & Hs).
    unfold V2_readMessage, V2_nextBatch. cbn [v2_messageCount Z.eqb v2_stack].
    rewrite flat_stays.
    rewrite Es. by eexists.
  - destruct xs; [|done]. change (enc_records []) with (@nil byte). cbn [app]. rewrite len_app, len_header_bytes, len_ztake by lia.
    rewrite <- app_assoc. change (len (@nil record)) with 0 in Hlt.
    destruct (record_short h n x j Hx Hj ltac:(lia)) as (m' & Em & Hm').
    exists m'. split; [|done]. rewrite <- Em. apply V2_readMessage_opened; [done| |done||cbn [v2_messageCount]; lia].
    rewrite nextBatch_header by (done || lia). replace (61 + j - 61) with j by lia. unfold opened. by rewrite Hc.
  - rewrite len_app, len_header_bytes, len_ztake by lia. rewrite <- app_assoc. unfold V2_readMessage.
    cbn [v2_messageCount Z.eqb]. rewrite nextBatch_header by (done || lia). replace (61 + j - 61) with j by lia.
    unfold opened. rewrite (proj2 (Z.eqb_neq _ _) Hc), Hr. cbn [negb]. destruct Hh as (_ & Hlen & _).
    replace (h2_length h - 49) with (len payload) by lia. rewrite (wrapS_id 32) by (unfold inS in *; lia).
    unfold on_top, on_frame, flat_stack. cbn [top rs_inner rs_bottom fr_reader fr_remain fr_base].
    unfold readCompressedBatch. rewrite Z.gtb_ltb, (proj2 (Z.ltb_lt _ _)) by lia. by eexists.
Qed.

Lemma reading_ends m :
  records_left [] m →
  ∃ m', V2_readMessage codecs readNewBytes readNewBytes m = (Failed errShortRead, m') ∧ rs_inner (v2_stack m') = [].
Proof.
  intros Hr. remember [] as flat eqn:Ef. destruct Hr as [h xs bs Hxs Hbs|h xs bs Hxs Hbs|h n xs x j Hxs Hx Hj Hlt].
  1,2: destruct xs as [|x xs]; [|done]; (assert (bs = [] ∧ last = []) as [-> Hlast];
    [destruct bs as [|b bs]; [done|]; apply Forall_cons_1 in Hbs as [[_ Hne _ _ _] _];
     by destruct (bt_records b) eqn:Eb; [|unfold flatten in Ef; cbn in Ef; rewrite Eb in Ef] |]).
  - apply (cut_ends h Hlast).
  - destruct (cut_ends h Hlast) as (m' & E & Hm'). exists m'. split; [|done]. rewrite <- E. unfold V2_readMessage.
    change (enc_records []) with (@nil byte). change (len (@nil record)) with 0. cbn [v2_messageCount Z.eqb].
    rewrite nextBatch_nested. done.
  - destruct xs; [|done]. change (enc_records []) with (@nil byte). change (len (@nil byte)) with 0. rewrite Z.add_0_l. cbn [app].
    apply record_short; [done..|]. change (len (@nil record)) with 0 in Hlt. lia.
Qed.
End log.
