(* ===== verification/Conn.v ===== *)
(** * The request/response engine of a connection (conn.go)

    A [Conn] is the state below; its operations are values of [cm A], state
    transformers with an [outcome].  [c_rbuf] is the stream of bytes the broker
    sends, [c_out] everything that was flushed to it, [c_werr] the error that
    the network reports on a write, if any.  One goroutine uses the connection:
    a response for another request is then never taken, and [waitResponse],
    which yields until somebody takes it, diverges. *)

From S2P Require Import Prelude Errors Time Bufio Read Write VarInt Wire.
From S2P Require Import Protocol.

Record ApiVersion : Type := {
  av_ApiKey : Z;
  av_MinVersion : Z;
  av_MaxVersion : Z;
}.

(** The fields set when the connection is made. *)
Record connCfg : Type := {
  cfg_clientID : gostring;
  cfg_topic : gostring;
  cfg_partition : Z;
  cfg_fetchMaxBytes : Z;
  cfg_fetchMinSize : Z;
  cfg_apiVersions : gmap Z ApiVersion;
  cfg_fetchVersion : Z;
}.

Record conn : Type := {
  c_cfg : connCfg;
  c_rbuf : bufreader;
  c_out : list byte;
  c_werr : option goerror;
  c_closed : bool;
  c_offset : Z;
  c_correlationID : Z;
  c_requiredAcks : Z;
  c_rdeadline : Z;
  c_wdeadline : Z;
}.

Definition set_rbuf (c : conn) (r : bufreader) : conn :=
  {| c_cfg := c_cfg c; c_rbuf := r; c_out := c_out c; c_werr := c_werr c; c_closed := c_closed c;
     c_offset := c_offset c; c_correlationID := c_correlationID c;
     c_requiredAcks := c_requiredAcks c; c_rdeadline := c_rdeadline c; c_wdeadline := c_wdeadline c |}.

Definition set_out (c : conn) (out : list byte) : conn :=
  {| c_cfg := c_cfg c; c_rbuf := c_rbuf c; c_out := out; c_werr := c_werr c; c_closed := c_closed c;
     c_offset := c_offset c; c_correlationID := c_correlationID c;
     c_requiredAcks := c_requiredAcks c; c_rdeadline := c_rdeadline c; c_wdeadline := c_wdeadline c |}.

Definition set_closed (c : conn) : conn :=
  {| c_cfg := c_cfg c; c_rbuf := c_rbuf c; c_out := c_out c; c_werr := c_werr c; c_closed := true;
     c_offset := c_offset c; c_correlationID := c_correlationID c;
     c_requiredAcks := c_requiredAcks c; c_rdeadline := c_rdeadline c; c_wdeadline := c_wdeadline c |}.

Definition set_offset (c : conn) (offset : Z) : conn :=
  {| c_cfg := c_cfg c; c_rbuf := c_rbuf c; c_out := c_out c; c_werr := c_werr c; c_closed := c_closed c;
     c_offset := offset; c_correlationID := c_correlationID c;
     c_requiredAcks := c_requiredAcks c; c_rdeadline := c_rdeadline c; c_wdeadline := c_wdeadline c |}.

Definition set_correlationID (c : conn) (id : Z) : conn :=
  {| c_cfg := c_cfg c; c_rbuf := c_rbuf c; c_out := c_out c; c_werr := c_werr c; c_closed := c_closed c;
     c_offset := c_offset c; c_correlationID := id;
     c_requiredAcks := c_requiredAcks c; c_rdeadline := c_rdeadline c; c_wdeadline := c_wdeadline c |}.

Definition set_requiredAcks (c : conn) (n : Z) : conn :=
  {| c_cfg := c_cfg c; c_rbuf := c_rbuf c; c_out := c_out c; c_werr := c_werr c; c_closed := c_closed c;
     c_offset := c_offset c; c_correlationID := c_correlationID c;
     c_requiredAcks := n; c_rdeadline := c_rdeadline c; c_wdeadline := c_wdeadline c |}.

Definition set_deadlines (c : conn) (rdl wdl : Z) : conn :=
  {| c_cfg := c_cfg c; c_rbuf := c_rbuf c; c_out := c_out c; c_werr := c_werr c; c_closed := c_closed c;
     c_offset := c_offset c; c_correlationID := c_correlationID c;
     c_requiredAcks := c_requiredAcks c; c_rdeadline := rdl; c_wdeadline := wdl |}.

(** ** The monad of operations *)

Definition cm (A : Type) : Type := conn → outcome A * conn.

#[global] Instance cm_ret : MRet cm := λ A a c, (Done a, c).

#[global] Instance cm_bind : MBind cm := λ A B f m c,
  match m c with
  | (Done a, c) => f a c
  | (Failed e, c) => (Failed e, c)
  | (Diverged, c) => (Diverged, c)
  end.

Definition fail {A} (e : goerror) : cm A := λ c, (Failed e, c).
Definition get : cm conn := λ c, (Done c, c).

(** ** The network *)

(** Writing on a connection that was closed. *)
Definition errClosed : goerror := NetErr false false.

Definition conn_Close : cm unit := λ c, (Done tt, set_closed c).

(** [wbuf.Flush] of the bytes written since the last one. *)
Definition flush (bs : list byte) : cm unit := λ c,
  match (if c_closed c then Some errClosed else c_werr c) with
  | Some e => (Failed e, c)
  | None => (Done tt, set_out c (c_out c ++ bs))
  end.

(** ** Deadlines *)

Inductive connDeadline : Type := rdeadline | wdeadline.

Definition deadline_of (d : connDeadline) (c : conn) : Z :=
  match d with rdeadline => c_rdeadline c | wdeadline => c_wdeadline c end.

Definition SetDeadline (t : Z) : cm unit := λ c, (Done tt, set_deadlines c t t).
Definition SetReadDeadline (t : Z) : cm unit := λ c, (Done tt, set_deadlines c t (c_wdeadline c)).
Definition SetWriteDeadline (t : Z) : cm unit := λ c, (Done tt, set_deadlines c (c_rdeadline c) t).

(** ** Requests and responses *)

(** [doRequest]: [write] gives the bytes of the request for the deadline and
    the correlation id.  On an error the connection is closed. *)
Definition doRequest (d : connDeadline) (write : Z → Z → outcome (list byte)) : cm Z := λ c,
  let id := int32 (c_correlationID c + 1) in
  let c := set_correlationID c id in
  match write (deadline_of d c) id with
  | Diverged => (Diverged, c)
  | Failed e => (Failed e, set_closed c)
  | Done bs =>
    match flush bs c with
    | (Done _, c) => (Done id, c)
    | (Failed e, c) => (Failed e, set_closed c)
    | (Diverged, c) => (Diverged, c)
    end
  end.

Definition peekResponseSizeAndID (r : bufreader) : goerror + Z * Z :=
  match Peek 8 r with
  | (_, Some e) => inl e
  | (b, None) => inr (makeInt32 (take 4 b), makeInt32 (drop 4 b))
  end.

Definition skipResponseSizeAndID : cm unit := λ c,
  (Done tt, set_rbuf c (Discard 8 (c_rbuf c)).2).

(** [waitResponse]: the size of the response with correlation id [id]. *)
Definition waitResponse (id : Z) : cm Z := λ c,
  match peekResponseSizeAndID (c_rbuf c) with
  | inl e => (Failed e, set_closed c)
  | inr (rsz, rid) =>
    if id =? rid then (_ ← skipResponseSizeAndID; mret (int32 (rsz - 4))) c
    else (Diverged, c)
  end.

(** A read of the response from the buffer of the connection. *)
Definition read_rbuf {A} (m : rd A) (size : Z) : cm (goerror + A) := λ c,
  let '(res, (_, r)) := m (c_rbuf c) size in (Done res, set_rbuf c r).

(** The end of [do]: kafka's errors leave the connection open, any other
    closes it. *)
Definition do_read {A} (read : rd A) (size : Z) : cm A :=
  res ← read_rbuf read size;
  match res with
  | inr a => mret a
  | inl err =>
    if is_kafka_Error (Some err) then fail err else _ ← conn_Close; fail err
  end.

Definition do {A} (d : connDeadline) (write : Z → Z → outcome (list byte)) (read : rd A) : cm A :=
  id ← doRequest d write;
  size ← waitResponse id;
  do_read read size.

Definition readOperation {A} : (Z → Z → outcome (list byte)) → rd A → cm A := do rdeadline.
Definition writeOperation {A} : (Z → Z → outcome (list byte)) → rd A → cm A := do wdeadline.

(** [c.writeRequest] as the [write] argument of [do]. *)
Definition request `{Sizable A, Writable A} (c : conn) (apiKey apiVersion : Z) (req : A) :
    Z → Z → outcome (list byte) :=
  λ _ id, Done (writeRequest (cfg_clientID (c_cfg c)) apiKey apiVersion id req).

(** [readResponse]: on one of kafka's errors the rest of the response is
    skipped. *)
Definition readResponse {A} (m : rd A) : rd A := λ r sz,
  match m r sz with
  | (inl (KafkaError e), (sz', r')) =>
    match discardN sz' r' sz' with
    | (inl e', s) => (inl e', s)
    | (inr _, s) => (inl (KafkaError e), s)
    end
  | (inl e, s) => (inl e, s)
  | (inr a, (sz', r')) =>
    if sz' =? 0 then (inr a, (sz', r'))
    else (inl (Errorf "reading a response left %d unread bytes" sz'), (sz', r'))
  end.

(** ** Lemmas *)

Lemma cm_bind_done {A B} (m : cm A) (f : A → cm B) c a c' :
  m c = (Done a, c') → (m ≫= f) c = f a c'.
Proof. intros E. unfold mbind, cm_bind. by rewrite E. Qed.

(** The bytes of a response as the broker sends it. *)
Definition response_block (id : Z) (body : list byte) : list byte :=
  writeInt32 (len body + 4) ++ writeInt32 id ++ body.

(** The connection is about to get the response [body] to its next request,
    and [rest] after it. *)
Record expects (c : conn) (body rest : list byte) : Prop := {
  ex_open : c_closed c = false;
  ex_werr : c_werr c = None;
  ex_size : len body + 4 < 2 ^ 31;
  ex_bufsize : 16 ≤ rd_bufsize (c_rbuf c);
  ex_data : rd_data (c_rbuf c) = response_block (int32 (c_correlationID c + 1)) body ++ rest;
}.

(** The state after the request [bs] was sent and the response header skipped. *)
Definition sent (c : conn) (bs : list byte) (data : list byte) : conn :=
  set_rbuf (set_out (set_correlationID c (int32 (c_correlationID c + 1))) (c_out c ++ bs))
    (with_data (c_rbuf c) data).

Lemma makeInt32_be_put z : makeInt32 (be_put 4 z) = int32 z.
Proof.
  unfold makeInt32. rewrite take_ge by (by rewrite length_be_put). rewrite be_get_put.
  apply (wrapS_mod 32). lia.
Qed.

Lemma take_app_be n z (l : list byte) : take n (be_put n z ++ l) = be_put n z.
Proof. apply take_app_length'. by rewrite length_be_put. Qed.

Lemma drop_app_be n z (l : list byte) : drop n (be_put n z ++ l) = l.
Proof. apply drop_app_length'. by rewrite length_be_put. Qed.

Lemma peekResponse_block id body rest r :
  8 ≤ rd_bufsize r → rd_data r = response_block id body ++ rest → is_int32 id →
  is_int32 (len body + 4) → peekResponseSizeAndID r = inr (len body + 4, id).
Proof.
  intros Hb Hd Hid Hsz. unfold peekResponseSizeAndID, Peek.
  rewrite (proj2 (Z.ltb_ge 8 0)), (proj2 (Z.ltb_ge _ 8)) by lia.
  rewrite Hd. unfold response_block.
  pose proof (len_nonneg body). pose proof (len_nonneg rest).
  rewrite (proj2 (Z.leb_le 8 _)) by (autorewrite with len; lia).
  rewrite <- !app_assoc. rewrite app_assoc.
  rewrite ztake_app by (by autorewrite with len).
  unfold writeInt32. rewrite take_app_be, drop_app_be, !makeInt32_be_put.
  by rewrite !wrapS_id by (done || lia).
Qed.

Lemma waitResponse_block c id body rest :
  16 ≤ rd_bufsize (c_rbuf c) → rd_data (c_rbuf c) = response_block id body ++ rest →
  is_int32 id → len body + 4 < 2 ^ 31 →
  waitResponse id c = (Done (len body), set_rbuf c (with_data (c_rbuf c) (body ++ rest))).
Proof.
  intros Hb Hd Hid Hl. pose proof (len_nonneg body). pose proof (len_nonneg rest).
  unfold waitResponse. rewrite (peekResponse_block id body rest) by (unfold inS; (done || lia)).
  rewrite Z.eqb_refl. unfold mbind, cm_bind, skipResponseSizeAndID, mret, cm_ret.
  replace (int32 (len body + 4 - 4)) with (len body)
    by (rewrite wrapS_id by (try unfold inS; lia); lia).
  do 2 f_equal.
  unfold Discard. rewrite (proj2 (Z.ltb_ge 8 0)) by lia. rewrite Hd.
  unfold response_block. rewrite (proj2 (Z.leb_le 8 _)) by (autorewrite with len; lia).
  reflexivity.
Qed.

(** [do] up to the reading of the response. *)
Lemma do_expects {A} d write (read : rd A) c body rest bs :
  expects c body rest →
  write (deadline_of d c) (int32 (c_correlationID c + 1)) = Done bs →
  do d write read c = do_read read (len body) (sent c bs (body ++ rest)).
Proof.
  intros [Ho Hw Hs Hb Hd] Hwr. unfold do.
  erewrite cm_bind_done.
  2: { unfold doRequest. replace (deadline_of d _) with (deadline_of d c) by (by destruct d).
       rewrite Hwr. unfold flush. cbn [c_closed set_correlationID]. rewrite Ho. cbn [c_werr set_correlationID].
       rewrite Hw. done. }
  erewrite cm_bind_done.
  2: { eapply waitResponse_block; [done|exact Hd|apply wrapS_range; lia|done]. }
  done.
Qed.
