(* ===== verification/ConnDeadline.v ===== *)
(** * The deadlines of a connection ([connDeadline] of conn.go)

    A connection has two deadlines, one for its reads and one for its writes.
    An operation runs under one of them and puts it on the network connection
    for the request it sends and for the response it waits for; a change of a
    deadline while an operation runs under it is passed on.  [dl_rconn] and
    [dl_wconn] are the fields [rconn] and [wconn] being set. *)

From S2P Require Import Prelude Time Conn.

Record deadline : Type := { dl_value : Z; dl_rconn : bool; dl_wconn : bool }.

(** Both deadlines, those of the network connection, and the deadlines under
    which the goroutines run that hold [rlock] and [wlock]. *)
Record deadlines : Type := {
  ds_rdeadline : deadline;
  ds_wdeadline : deadline;
  ds_netRead : Z;
  ds_netWrite : Z;
  ds_reader : option connDeadline;
  ds_writer : option connDeadline;
}.

Definition deadline_at (d : connDeadline) (s : deadlines) : deadline :=
  match d with rdeadline => ds_rdeadline s | wdeadline => ds_wdeadline s end.

Definition with_deadline (d : connDeadline) (x : deadline) (netRead netWrite : Z) (s : deadlines) : deadlines :=
  match d with
  | rdeadline =>
    {| ds_rdeadline := x; ds_wdeadline := ds_wdeadline s; ds_netRead := netRead; ds_netWrite := netWrite;
       ds_reader := ds_reader s; ds_writer := ds_writer s |}
  | wdeadline =>
    {| ds_rdeadline := ds_rdeadline s; ds_wdeadline := x; ds_netRead := netRead; ds_netWrite := netWrite;
       ds_reader := ds_reader s; ds_writer := ds_writer s |}
  end.

Definition with_locks (reader writer : option connDeadline) (s : deadlines) : deadlines :=
  {| ds_rdeadline := ds_rdeadline s; ds_wdeadline := ds_wdeadline s; ds_netRead := ds_netRead s;
     ds_netWrite := ds_netWrite s; ds_reader := reader; ds_writer := writer |}.

(** ** The methods *)

Definition setDeadline (d : connDeadline) (t : Z) (s : deadlines) : deadlines :=
  let x := deadline_at d s in
  with_deadline d {| dl_value := t; dl_rconn := dl_rconn x; dl_wconn := dl_wconn x |}
    (if dl_rconn x then t else ds_netRead s) (if dl_wconn x then t else ds_netWrite s) s.

Definition setConnReadDeadline (d : connDeadline) (s : deadlines) : deadlines :=
  let x := deadline_at d s in
  with_deadline d {| dl_value := dl_value x; dl_rconn := true; dl_wconn := dl_wconn x |}
    (dl_value x) (ds_netWrite s) s.

Definition setConnWriteDeadline (d : connDeadline) (s : deadlines) : deadlines :=
  let x := deadline_at d s in
  with_deadline d {| dl_value := dl_value x; dl_rconn := dl_rconn x; dl_wconn := true |}
    (ds_netRead s) (dl_value x) s.

Definition unsetConnReadDeadline (d : connDeadline) (s : deadlines) : deadlines :=
  let x := deadline_at d s in
  with_deadline d {| dl_value := dl_value x; dl_rconn := false; dl_wconn := dl_wconn x |}
    (ds_netRead s) (ds_netWrite s) s.

Definition unsetConnWriteDeadline (d : connDeadline) (s : deadlines) : deadlines :=
  let x := deadline_at d s in
  with_deadline d {| dl_value := dl_value x; dl_rconn := dl_rconn x; dl_wconn := false |}
    (ds_netRead s) (ds_netWrite s) s.

(** ** What the operations of a connection do to them *)

Inductive dl_event : Type :=
| DSet (d : connDeadline) (t : Z)    (* SetReadDeadline and SetWriteDeadline *)
| DSend (d : connDeadline)           (* doRequest took wlock and writes *)
| DSent                              (* the request is written *)
| DWait (d : connDeadline)           (* waitResponse took rlock *)
| DYield                             (* rlock is given back as waitResponse and ApiVersions do, without more *)
| DDone.                             (* the end of do, or of waitResponse with an error *)

Definition dl_step (ev : dl_event) (s : deadlines) : option deadlines :=
  match ev, ds_reader s, ds_writer s with
  | DSet d t, _, _ => Some (setDeadline d t s)
  | DSend d, h, None => Some (with_locks h (Some d) (setConnWriteDeadline d s))
  | DSent, h, Some d => Some (with_locks h None (unsetConnWriteDeadline d s))
  | DWait d, None, w => Some (with_locks (Some d) w (setConnReadDeadline d s))
  | DYield, Some _, w => Some (with_locks None w s)
  | DDone, Some d, w => Some (with_locks None w (unsetConnReadDeadline d s))
  | _, _, _ => None
  end.

Fixpoint dl_run (evs : list dl_event) (s : deadlines) : option deadlines :=
  match evs with
  | [] => Some s
  | ev :: evs => s ← dl_step ev s; dl_run evs s
  end.

Definition dl_init : deadlines :=
  let none := {| dl_value := Time.zeroTime; dl_rconn := false; dl_wconn := false |} in
  {| ds_rdeadline := none; ds_wdeadline := none; ds_netRead := Time.zeroTime; ds_netWrite := Time.zeroTime;
     ds_reader := None; ds_writer := None |}.

(** ** The deadline that applies *)

(** A side of the connection: the deadline on the network is the one of the
    goroutine that uses that side, and no other deadline is passed on. *)
Definition side_ok (h : option connDeadline) (net vr vw : Z) (cr cw : bool) : Prop :=
  match h with
  | None => cr = false ∧ cw = false
  | Some rdeadline => net = vr ∧ cw = false
  | Some wdeadline => net = vw ∧ cr = false
  end.

Definition writes_ok (s : deadlines) : Prop :=
  side_ok (ds_writer s) (ds_netWrite s) (dl_value (ds_rdeadline s)) (dl_value (ds_wdeadline s))
    (dl_wconn (ds_rdeadline s)) (dl_wconn (ds_wdeadline s)) ∧
  ∀ d, ds_writer s = Some d → dl_wconn (deadline_at d s) = true.

Definition reads_ok (s : deadlines) : Prop :=
  side_ok (ds_reader s) (ds_netRead s) (dl_value (ds_rdeadline s)) (dl_value (ds_wdeadline s))
    (dl_rconn (ds_rdeadline s)) (dl_rconn (ds_wdeadline s)) ∧
  ∀ d, ds_reader s = Some d → dl_rconn (deadline_at d s) = true.

Definition no_yield (ev : dl_event) : Prop := match ev with DYield => False | _ => True end.

Ltac dl_cases s ev :=
  destruct s as [[vr rr wr] [vw rw ww] nr nw h w];
  destruct ev as [[] t|[]| |[]| |], h as [[]|], w as [[]|]; cbn; try done.

Lemma dl_step_writes ev s s' : writes_ok s → dl_step ev s = Some s' → writes_ok s'.
Proof.
  unfold writes_ok. dl_cases s ev; intros [H Hc] [= <-]; cbn in *;
    try specialize (Hc _ eq_refl); cbn in *; destruct_and?; subst; split; try done; by intros ? [= <-].
Qed.

Lemma dl_step_reads ev s s' : no_yield ev → reads_ok s → dl_step ev s = Some s' → reads_ok s'.
Proof.
  unfold reads_ok. dl_cases s ev; intros _ [H Hc] [= <-]; cbn in *;
    try specialize (Hc _ eq_refl); cbn in *; destruct_and?; subst; split; try done; by intros ? [= <-].
Qed.

Lemma dl_run_inv (P : deadlines → Prop) (Q : dl_event → Prop) evs s s' :
  (∀ ev s s', Q ev → P s → dl_step ev s = Some s' → P s') →
  Forall Q evs → P s → dl_run evs s = Some s' → P s'.
Proof.
  intros Hstep HQ. revert s. induction HQ as [|ev evs Hev _ IH]; intros s H E; cbn in E; [by injection E as <-|].
  destruct (dl_step ev s) as [s1|] eqn:E1; [|done]. eapply IH, E. by eapply Hstep.
Qed.

(** Fact write_deadline_applies: while a request is written, the write deadline of the network
    is the one of its operation, also after the program changed either of the
    two deadlines. *)
Lemma write_deadline_applies evs s d :
  dl_run evs dl_init = Some s → ds_writer s = Some d → ds_netWrite s = dl_value (deadline_at d s).
Proof.
  intros E Hd. assert (writes_ok s) as [H _].
  { eapply (dl_run_inv writes_ok (λ _, True)), E; [by eauto using dl_step_writes|by apply Forall_true|by vm_compute]. }
  rewrite Hd in H. by destruct d; destruct H.
Qed.

(** Fact read_deadline_applies: as long as no goroutine finds the response of another one, the
    read deadline of the network is, while a goroutine waits for its response,
    the one of its operation. *)
Lemma read_deadline_applies evs s d :
  Forall no_yield evs → dl_run evs dl_init = Some s → ds_reader s = Some d →
  ds_netRead s = dl_value (deadline_at d s).
Proof.
  intros Hy E Hd. assert (reads_ok s) as [H _].
  { eapply (dl_run_inv reads_ok no_yield), E; [by eauto using dl_step_reads|done|by vm_compute]. }
  rewrite Hd in H. by destruct d; destruct H.
Qed.

(** Finding stale_deadline: a goroutine that found the response of another one gave the lock
    back without forgetting the network connection: a later change of its
    deadline goes to the network while an operation of the other deadline waits
    there. *)
Lemma stale_deadline :
  ∃ s, dl_run [DWait rdeadline; DYield; DSet wdeadline 9; DSend wdeadline; DSent; DWait wdeadline; DSet rdeadline 5]
         dl_init = Some s ∧
    ds_reader s = Some wdeadline ∧ dl_value (deadline_at wdeadline s) = 9 ∧ ds_netRead s = 5.
Proof. eexists. split; [reflexivity|]. by vm_compute. Qed.
