(* ===== verification/ConnShared.v ===== *)
(** * Goroutines that share a connection (conn.go)

    A [Conn] is safe for concurrent use: [doRequest] runs under [wlock], and
    [waitResponse] takes [rlock], looks at the header of the next response,
    and gives the lock back unless the response is its own, in which case the
    caller reads the body and [do] unlocks.  This file models any number of
    goroutines, each in a call of [do], as a machine whose events are the
    sections that one of them runs without being interrupted, the arrival of
    any number of bytes from the broker, and the failures of the network.
    [serial_step] is the same calls one after the other, each as the other
    files model it; [inv] relates the two. *)

From S2P Require Import Prelude Errors Time Bufio Read Write VarInt Wire.
From S2P Require Import Protocol Conn.
From stdpp Require Import relations.

#[local] Open Scope Z_scope.

Section shared.
Context {A : Type}.

(** A call of [do]. *)
Record rpc : Type := {
  cl_deadline : connDeadline;
  cl_write : Z → Z → outcome (list byte);
  cl_read : rd A;
}.

(** Where a goroutine is in [do]: before [doRequest]; in the loop of
    [waitResponse], without and with [rlock]; with the header skipped and
    [rlock] held, about to read; after the call. *)
Inductive progress : Type :=
| PStart
| PWait (id : Z)
| PPeek (id : Z)
| PRead (size : Z)
| PDone (res : outcome A).

Record goroutine : Type := { g_call : rpc; g_pc : progress }.

(** The connection, the bytes that the broker sent and that have not arrived,
    the goroutine that holds [rlock], the goroutines. *)
Record shared : Type := {
  sh_conn : conn;
  sh_wire : list byte;
  sh_rlock : option nat;
  sh_gs : list goroutine;
}.

(** The argument of a read is the error that the network reports while the
    bytes are missing, if it does. *)
Inductive event : Type :=
| ERequest (i : nat)
| EArrive (n : nat)
| ELock (i : nat)
| EPeek (i : nat) (err : option goerror)
| ERead (i : nat) (err : option goerror).

Definition set_pc (i : nat) (pc : progress) (gs : list goroutine) : list goroutine :=
  alter (λ g, {| g_call := g_call g; g_pc := pc |}) i gs.

(** The goroutine [i] is now at [pc]. *)
Definition move (s : shared) (i : nat) (pc : progress) (c : conn) (wire : list byte) (rlock : option nat) :
    shared :=
  {| sh_conn := c; sh_wire := wire; sh_rlock := rlock; sh_gs := set_pc i pc (sh_gs s) |}.

(** A read of [n] bytes blocks until they are there or the network fails. *)
Definition ready (n : Z) (err : option goerror) (c : conn) : option conn :=
  match err, n <=? len (rd_data (c_rbuf c)) with
  | None, true => Some c
  | Some e, false => Some (set_rbuf c (BufReader (rd_data (c_rbuf c)) e (rd_bufsize (c_rbuf c))))
  | _, _ => None
  end.

(** The answer of the broker to the last request of what it was sent. *)
Context (broker : list byte → list byte).

Definition sh_step (ev : event) (s : shared) : option shared :=
  match ev with
  | ERequest i =>
    g ← sh_gs s !! i;
    match g_pc g with
    | PStart =>
      Some match doRequest (cl_deadline (g_call g)) (cl_write (g_call g)) (sh_conn s) with
           | (Done id, c) =>
             move s i (PWait id) c (sh_wire s ++ response_block id (broker (c_out c))) (sh_rlock s)
           | (Failed e, c) => move s i (PDone (Failed e)) c (sh_wire s) (sh_rlock s)
           | (Diverged, c) => move s i (PDone Diverged) c (sh_wire s) (sh_rlock s)
           end
    | _ => None
    end
  | EArrive n =>
    if c_closed (sh_conn s) then None else
    let r := c_rbuf (sh_conn s) in
    Some {| sh_conn := set_rbuf (sh_conn s) (with_data r (rd_data r ++ take n (sh_wire s)));
            sh_wire := drop n (sh_wire s); sh_rlock := sh_rlock s; sh_gs := sh_gs s |}
  | ELock i =>
    g ← sh_gs s !! i;
    match g_pc g, sh_rlock s with
    | PWait id, None => Some (move s i (PPeek id) (sh_conn s) (sh_wire s) (Some i))
    | _, _ => None
    end
  | EPeek i err =>
    g ← sh_gs s !! i;
    match g_pc g with
    | PPeek id =>
      c ← ready 8 err (sh_conn s);
      Some match waitResponse id c with
           | (Done size, c) => move s i (PRead size) c (sh_wire s) (sh_rlock s)
           | (Failed e, c) => move s i (PDone (Failed e)) c (sh_wire s) None
           | (Diverged, c) => move s i (PWait id) c (sh_wire s) None
           end
    | _ => None
    end
  | ERead i err =>
    g ← sh_gs s !! i;
    match g_pc g with
    | PRead size =>
      c ← ready size err (sh_conn s);
      let '(res, c) := do_read (cl_read (g_call g)) size c in
      Some (move s i (PDone res) c (sh_wire s) None)
    | _ => None
    end
  end.

Fixpoint sh_run (evs : list event) (s : shared) : option shared :=
  match evs with
  | [] => Some s
  | ev :: evs => s ← sh_step ev s; sh_run evs s
  end.

(** The calls [calls] are about to be made on [c]. *)
Definition sh_start (c : conn) (calls : list rpc) : shared :=
  {| sh_conn := c; sh_wire := []; sh_rlock := None;
     sh_gs := map (λ cl, {| g_call := cl; g_pc := PStart |}) calls |}.

(** The network does not fail. *)
Definition calm (ev : event) : Prop :=
  match ev with EPeek _ (Some _) | ERead _ (Some _) => False | _ => True end.

(** ** The calls one after the other *)

(** The connection with the answer to its next request, [cl], on it. *)
Definition answered (cl : rpc) (c : conn) : conn :=
  let id := int32 (c_correlationID c + 1) in
  match cl_write cl (deadline_of (cl_deadline cl) c) id with
  | Done bs =>
    set_rbuf c (with_data (c_rbuf c)
      (rd_data (c_rbuf c) ++ response_block id (broker (c_out c ++ bs))))
  | _ => c
  end.

Record serial : Type := {
  se_conn : conn;
  se_results : gmap nat (outcome A);
}.

Inductive serial_step (calls : list rpc) : serial → serial → Prop :=
| serve i cl c c' res results :
    calls !! i = Some cl → results !! i = None →
    do (cl_deadline cl) (cl_write cl) (cl_read cl) (answered cl c) = (res, c') →
    serial_step calls {| se_conn := c; se_results := results |}
                      {| se_conn := c'; se_results := <[i := res]> results |}.

(** ** What the calls need of the broker *)

(** The read of a call returns [res] for [body] and takes exactly that. *)
Definition decodes (cl : rpc) (body : list byte) (res : goerror + A) : Prop :=
  ∀ r tail, 16 ≤ rd_bufsize r →
    cl_read cl (with_data r (body ++ tail)) (len body) = (res, (0, with_data r tail)).

(** A value or one of kafka's errors, which leave the connection open. *)
Definition keeps_open (res : goerror + A) : Prop :=
  match res with inr _ => True | inl e => is_kafka_Error (Some e) = true end.

Record understood (cl : rpc) (body : list byte) : Prop := {
  un_size : len body + 4 < 2 ^ 31;
  un_decodes : ∃ res, keeps_open res ∧ decodes cl body res;
}.

Record serves (calls : list rpc) : Prop := {
  sv_write : ∀ cl deadline id, cl ∈ calls → ∃ bs, cl_write cl deadline id = Done bs;
  sv_answer : ∀ cl deadline id bs out, cl ∈ calls → cl_write cl deadline id = Done bs →
    understood cl (broker (out ++ bs));
  sv_many : Z.of_nat (length calls) < 2 ^ 32;
}.

(** An idle connection. *)
Record idle (c : conn) : Prop := {
  id_open : c_closed c = false;
  id_werr : c_werr c = None;
  id_data : rd_data (c_rbuf c) = [];
  id_bufsize : 16 ≤ rd_bufsize (c_rbuf c);
  id_corr : is_int32 (c_correlationID c);
}.

(** ** Lemmas on one section *)

(** [c] with [d] in its buffer. *)
Definition holding (c : conn) (d : list byte) : conn := set_rbuf c (with_data (c_rbuf c) d).

Lemma holding_holding c d d' : holding (holding c d) d' = holding c d'.
Proof. done. Qed.

Lemma holding_id c : holding c (rd_data (c_rbuf c)) = c.
Proof. destruct c as [? [] ? ? ? ? ? ? ? ?]. done. Qed.

Lemma do_read_decodes cl body res c d :
  decodes cl body res → keeps_open res → 16 ≤ rd_bufsize (c_rbuf c) →
  do_read (cl_read cl) (len body) (holding c (body ++ d)) = (may_fail res, holding c d).
Proof.
  intros Hd Hk Hb. unfold do_read, mbind, cm_bind, read_rbuf. cbn [c_rbuf holding set_rbuf].
  rewrite Hd by done. destruct res as [e|a]; [by destruct e|done].
Qed.

Lemma doRequest_idle d write c data bs :
  idle c → write (deadline_of d c) (int32 (c_correlationID c + 1)) = Done bs →
  doRequest d write (holding c data) =
  (Done (int32 (c_correlationID c + 1)),
   holding (set_out (set_correlationID c (int32 (c_correlationID c + 1))) (c_out c ++ bs)) data).
Proof.
  intros [Ho Hw _ _ _] E. unfold doRequest, holding. cbn [c_correlationID set_rbuf].
  replace (deadline_of d _) with (deadline_of d c) by (by destruct d). rewrite E.
  unfold flush. cbn [c_closed set_correlationID set_rbuf]. rewrite Ho. cbn [c_werr set_correlationID set_rbuf].
  by rewrite Hw.
Qed.

(** The connection after one call. *)
Definition served (c : conn) (bs : list byte) : conn :=
  set_out (set_correlationID c (int32 (c_correlationID c + 1))) (c_out c ++ bs).

Lemma idle_served c bs : idle c → idle (served c bs).
Proof. intros []. split; try done. by apply wrapS_range. Qed.

(** A call that is alone on the connection. *)
Lemma do_alone cl c bs res :
  idle c → cl_write cl (deadline_of (cl_deadline cl) c) (int32 (c_correlationID c + 1)) = Done bs →
  understood cl (broker (c_out c ++ bs)) → decodes cl (broker (c_out c ++ bs)) res → keeps_open res →
  do (cl_deadline cl) (cl_write cl) (cl_read cl) (answered cl c) = (may_fail res, served c bs).
Proof.
  intros Hi Hw [Hs _] Hd Hk. pose proof Hi as [Ho He Hdata Hb _].
  unfold answered. rewrite Hw, Hdata. cbn [app].
  set (body := broker (c_out c ++ bs)) in *.
  set (c1 := set_rbuf c _).
  rewrite (do_expects _ _ _ c1 body [] bs).
  - change (sent c1 bs (body ++ [])) with (holding (served c bs) (body ++ [])).
    rewrite (do_read_decodes cl body res) by done. f_equal.
    rewrite <- (holding_id (served c bs)) at 2. cbn [c_rbuf served set_out set_correlationID]. by rewrite Hdata.
  - split; try done. cbn. by rewrite app_nil_r.
  - rewrite <- Hw. by destruct (cl_deadline cl).
Qed.

(** [waitResponse] needs no more than the header. *)
Lemma Peek_app n r d wire :
  0 ≤ n ≤ len d → Peek n (with_data r d) = Peek n (with_data r (d ++ wire)).
Proof.
  intros Hn. unfold Peek. cbn [rd_data with_data rd_bufsize rd_err].
  destruct (n <? 0); [done|]. destruct (rd_bufsize r <? n) eqn:E1; [apply Z.ltb_lt in E1|].
  - f_equal. unfold ztake. rewrite take_app_le; [done|]. unfold len in Hn. lia.
  - pose proof (len_nonneg wire). rewrite !(proj2 (Z.leb_le n _)) by (rewrite ?len_app; lia).
    f_equal. unfold ztake. rewrite take_app_le; [done|]. unfold len in Hn. lia.
Qed.

Lemma waitResponse_header id id' body c d wire rest :
  16 ≤ rd_bufsize (c_rbuf c) → is_int32 id' → len body + 4 < 2 ^ 31 →
  8 ≤ len d → d ++ wire = response_block id' body ++ rest →
  waitResponse id (holding c d) =
  if decide (id = id') then (Done (len body), holding c (zdrop 8 d)) else (Diverged, holding c d).
Proof.
  intros Hb Hid Hs Hd E. pose proof (len_nonneg body).
  unfold waitResponse. cbn [c_rbuf holding set_rbuf].
  assert (peekResponseSizeAndID (with_data (c_rbuf c) d) = inr (len body + 4, id')) as ->.
  { unfold peekResponseSizeAndID. rewrite (Peek_app 8 _ d wire) by lia.
    apply (peekResponse_block id' body rest); cbn; (done || unfold inS; lia). }
  destruct (decide (id = id')) as [->|Hn]; [rewrite Z.eqb_refl|by rewrite (proj2 (Z.eqb_neq _ _))].
  unfold mbind, cm_bind, skipResponseSizeAndID, mret, cm_ret. cbn [c_rbuf holding set_rbuf].
  replace (int32 (len body + 4 - 4)) with (len body) by (rewrite wrapS_id by (try unfold inS; lia); lia).
  do 2 f_equal. unfold Discard. cbn [rd_data with_data].
  by rewrite (proj2 (Z.leb_le 8 _)).
Qed.

(** ** The simulation *)

(** A request that was sent and whose response was not read. *)
Record pending : Type := Pending { p_owner : nat; p_id : Z; p_body : list byte }.

Definition blocks (q : list pending) : list byte :=
  concat (map (λ p, response_block (p_id p) (p_body p)) q).

Definition holds (pc : progress) : bool :=
  match pc with PPeek _ | PRead _ => true | _ => false end.

(** The bytes between the position of the connection and the end of the last
    response: the header of the first may have been skipped. *)
Definition unread (s : shared) (q : list pending) : list byte :=
  match sh_rlock s ≫= λ i, g_pc <$> sh_gs s !! i, q with
  | Some (PRead _), p :: q => p_body p ++ blocks q
  | _, q => blocks q
  end.

(** A request that waits is one that the serial calls answered. *)
Record waiting (calls : list rpc) (a : serial) (p : pending) : Prop := {
  wt_size : len (p_body p) + 4 < 2 ^ 31;
  wt_int : is_int32 (p_id p);
  wt_call : ∃ cl res, calls !! p_owner p = Some cl ∧ keeps_open res ∧ decodes cl (p_body p) res ∧
    se_results a !! p_owner p = Some (may_fail res);
}.

Definition at_pc (a : serial) (q : list pending) (i : nat) (pc : progress) : Prop :=
  match pc with
  | PStart => se_results a !! i = None
  | PWait id | PPeek id => ∃ body, Pending i id body ∈ q
  | PRead size => ∃ id body q', q = Pending i id body :: q' ∧ size = len body
  | PDone res => se_results a !! i = Some res ∧ i ∉ map p_owner q
  end.

Record inv (calls : list rpc) (s : shared) (a : serial) (q : list pending) : Prop := {
  iv_calls : map g_call (sh_gs s) = calls;
  iv_idle : idle (se_conn a);
  iv_conn : sh_conn s = holding (se_conn a) (rd_data (c_rbuf (sh_conn s)));
  iv_stream : rd_data (c_rbuf (sh_conn s)) ++ sh_wire s = unread s q;
  iv_ids : ∀ k p, q !! k = Some p →
    p_id p = int32 (c_correlationID (se_conn a) - (len q - 1 - Z.of_nat k));
  iv_owners : NoDup (map p_owner q);
  iv_waiting : ∀ p, p ∈ q → waiting calls a p;
  iv_pc : ∀ i g, sh_gs s !! i = Some g → at_pc a q i (g_pc g);
  iv_lock : ∀ i, sh_rlock s = Some i ↔ ∃ g, sh_gs s !! i = Some g ∧ holds (g_pc g) = true;
}.

Lemma blocks_cons p q : blocks (p :: q) = response_block (p_id p) (p_body p) ++ blocks q.
Proof. done. Qed.

Lemma zdrop_header id body l : zdrop 8 (response_block id body ++ l) = body ++ l.
Proof.
  unfold response_block. rewrite <- !app_assoc, app_assoc. apply zdrop_app.
  unfold writeInt32. by rewrite len_app, !len_be_put.
Qed.

Lemma blocks_app q q' : blocks (q ++ q') = blocks q ++ blocks q'.
Proof. unfold blocks. by rewrite map_app, concat_app. Qed.

Lemma set_pc_lookup i pc gs g j :
  gs !! i = Some g →
  set_pc i pc gs !! j = if decide (j = i) then Some {| g_call := g_call g; g_pc := pc |} else gs !! j.
Proof.
  intros Hi. unfold set_pc. destruct (decide (j = i)) as [->|Hj].
  - by rewrite list_lookup_alter_eq, Hi.
  - by rewrite list_lookup_alter_ne.
Qed.

Lemma set_pc_calls i pc gs : map g_call (set_pc i pc gs) = map g_call gs.
Proof.
  unfold set_pc. revert i. induction gs as [|g gs IH]; intros [|i]; cbn; [done..|].
  f_equal. apply IH.
Qed.

(** The lock after a goroutine moved. *)
Lemma lock_moved s i g pc l :
  (∀ j, sh_rlock s = Some j ↔ ∃ g, sh_gs s !! j = Some g ∧ holds (g_pc g) = true) →
  sh_gs s !! i = Some g →
  (if holds pc then l = Some i ∧ (sh_rlock s = Some i ∨ sh_rlock s = None)
   else if holds (g_pc g) then l = None else l = sh_rlock s) →
  ∀ j, l = Some j ↔ ∃ g, set_pc i pc (sh_gs s) !! j = Some g ∧ holds (g_pc g) = true.
Proof.
  intros Hl Hi Hc j. rewrite (set_pc_lookup i pc _ g j Hi).
  assert (Hown : sh_rlock s = Some i ↔ holds (g_pc g) = true).
  { rewrite Hl. split; [|by eauto]. intros (g' & Hg' & Hh). congruence. }
  destruct (decide (j = i)) as [->|Hj].
  - transitivity (holds pc = true).
    + destruct (holds pc); [naive_solver|]. destruct (holds (g_pc g)); split; intros ?; try congruence.
      exfalso. subst l. intuition congruence.
    + split; [by eauto|]. by intros (g' & [= <-] & Hh).
  - rewrite <- (Hl j). destruct (holds pc); [naive_solver congruence|].
    destruct (holds (g_pc g)); [|by subst l]. subst l. split; [done|]. intros E. exfalso. naive_solver congruence.
Qed.

Lemma int32_inj a b : int32 a = int32 b → - 2 ^ 32 < a - b < 2 ^ 32 → a = b.
Proof.
  unfold wrapS. change (2 ^ (32 - 1)) with 2147483648. change (2 ^ 32) with 4294967296.
  intros. dlia.
Qed.

Section simulation.
Context (calls : list rpc) (Hserves : serves calls).

Lemma inv_bound s a q : inv calls s a q → len q < 2 ^ 32.
Proof.
  intros H. pose proof (sv_many _ Hserves).
  enough (length (map p_owner q) ≤ length (seq 0 (length calls)))%nat as Hn.
  { rewrite length_map, length_seq in Hn. unfold len. lia. }
  apply submseteq_length, NoDup_submseteq; [apply (iv_owners _ _ _ _ H)|].
  intros i Hi. apply list_elem_of_fmap in Hi as (p & -> & Hp).
  destruct (iv_waiting _ _ _ _ H p Hp) as [_ _ (cl & _ & Hc & _)].
  apply elem_of_seq. apply lookup_lt_Some in Hc. lia.
Qed.

(** The correlation ids of the pending requests are distinct. *)
Lemma ids_distinct s a q p p' :
  inv calls s a q → p ∈ q → p' ∈ q → p_id p = p_id p' → p = p'.
Proof.
  intros H Hp Hp' E. pose proof (inv_bound _ _ _ H).
  apply list_elem_of_lookup in Hp as [k Hk]. apply list_elem_of_lookup in Hp' as [k' Hk'].
  pose proof (iv_ids _ _ _ _ H _ _ Hk). pose proof (iv_ids _ _ _ _ H _ _ Hk').
  pose proof (lookup_lt_Some _ _ _ Hk). pose proof (lookup_lt_Some _ _ _ Hk').
  assert (k = k') as ->; [|congruence].
  enough (c_correlationID (se_conn a) - (len q - 1 - Z.of_nat k) =
          c_correlationID (se_conn a) - (len q - 1 - Z.of_nat k')) by lia.
  apply int32_inj; [congruence|]. unfold len in *. lia.
Qed.

Lemma owner_distinct q p p' : NoDup (map p_owner q) → p ∈ q → p' ∈ q → p_owner p = p_owner p' → p = p'.
Proof.
  intros Hn Hp Hp' E. apply list_elem_of_lookup in Hp as [k Hk]. apply list_elem_of_lookup in Hp' as [k' Hk'].
  assert (k = k') as ->; [|congruence].
  eapply (NoDup_lookup (map p_owner q)); [done|rewrite list_lookup_fmap, Hk; done|].
  rewrite list_lookup_fmap, Hk'. cbn. by rewrite E.
Qed.

(** What [unread] is in a state in which nobody reads, and in which [i] does. *)
Lemma unread_idle s q : sh_rlock s = None → unread s q = blocks q.
Proof. intros E. unfold unread. by rewrite E. Qed.

Lemma unread_at s i g q :
  sh_rlock s = Some i → sh_gs s !! i = Some g →
  unread s q = match g_pc g, q with PRead _, p :: q => p_body p ++ blocks q | _, _ => blocks q end.
Proof. intros E Ei. unfold unread. rewrite E. cbn. rewrite Ei. cbn. by destruct (g_pc g). Qed.

(** Moving one goroutine changes what is said about it only. *)
Lemma pc_moved s a q a' q' i g pc :
  sh_gs s !! i = Some g →
  (∀ j g, sh_gs s !! j = Some g → at_pc a q j (g_pc g)) →
  (∀ j g, j ≠ i → sh_gs s !! j = Some g → at_pc a q j (g_pc g) → at_pc a' q' j (g_pc g)) →
  at_pc a' q' i pc →
  ∀ j g, set_pc i pc (sh_gs s) !! j = Some g → at_pc a' q' j (g_pc g).
Proof.
  intros Hi Hpc Hother Hmine j g'. rewrite (set_pc_lookup _ _ _ _ _ Hi).
  destruct (decide (j = i)) as [->|Hj]; [by intros [= <-]|]. eauto.
Qed.

Lemma moved_lookup s i g pc c wire l :
  sh_gs s !! i = Some g → sh_gs (move s i pc c wire l) !! i = Some {| g_call := g_call g; g_pc := pc |}.
Proof. intros Hi. cbn. rewrite (set_pc_lookup _ _ _ _ _ Hi). by rewrite decide_True. Qed.

Lemma lock_inv s s' a q i :
  inv calls s a q → sh_step (ELock i) s = Some s' → inv calls s' a q.
Proof.
  intros [Hc Hi Hconn Hst Hids Hown Hw Hpc Hl] E. cbn in E.
  destruct (sh_gs s !! i) as [g|] eqn:Hg; [|done]. cbn in E.
  destruct (g_pc g) as [|id| | |] eqn:Ep; try done. destruct (sh_rlock s) as [|] eqn:El; [done|].
  injection E as <-. constructor; try done.
  - cbn. by rewrite set_pc_calls.
  - erewrite (unread_at _ i); [|reflexivity|by apply moved_lookup]. cbn.
    by rewrite unread_idle in Hst.
  - eapply (pc_moved s a q); [exact Hg|exact Hpc|by auto|].
    specialize (Hpc i g Hg). by rewrite Ep in Hpc.
  - apply (lock_moved s i g); [by rewrite El|done|]. cbn. auto.
Qed.

Lemma arrive_inv s s' a q n :
  inv calls s a q → sh_step (EArrive n) s = Some s' → inv calls s' a q.
Proof.
  intros [Hc Hi Hconn Hst Hids Hown Hw Hpc Hl] E. cbn in E.
  destruct (c_closed (sh_conn s)); [done|]. injection E as <-. constructor; try done.
  - set (d := rd_data (c_rbuf (sh_conn s)) ++ take n (sh_wire s)).
    change (holding (sh_conn s) d = holding (se_conn a) d). by rewrite Hconn.
  - cbn. by rewrite <- app_assoc, take_drop.
Qed.

(** The owner of the first response, and how its goroutine stands. *)
Lemma head_owner s a p q :
  inv calls s a (p :: q) → ∃ g, sh_gs s !! p_owner p = Some g ∧ calls !! p_owner p = Some (g_call g) ∧
    (g_pc g = PWait (p_id p) ∨ g_pc g = PPeek (p_id p) ∨ g_pc g = PRead (len (p_body p))).
Proof.
  intros H. destruct (iv_waiting _ _ _ _ H p (list_elem_of_here _ _)) as [_ _ (cl & res & Hcl & _ & _ & Hres)].
  rewrite <- (iv_calls _ _ _ _ H) in Hcl. pose proof Hcl as Hcl'.
  rewrite list_lookup_fmap in Hcl. destruct (sh_gs s !! p_owner p) as [g|] eqn:Hg; [|done].
  injection Hcl as <-. rewrite (iv_calls _ _ _ _ H) in Hcl'. exists g. split; [done|]. split; [done|].
  pose proof (iv_pc _ _ _ _ H _ _ Hg) as Hpc.
  assert (∀ id body, Pending (p_owner p) id body ∈ p :: q → id = p_id p) as Hid.
  { intros id body Hin. pose proof (owner_distinct _ _ _ (iv_owners _ _ _ _ H) Hin
      (list_elem_of_here p q) eq_refl) as <-. done. }
  destruct (g_pc g) as [|id|id|size|res']; cbn in Hpc.
  - congruence.
  - destruct Hpc as [body Hb]. rewrite (Hid _ _ Hb). auto.
  - destruct Hpc as [body Hb]. rewrite (Hid _ _ Hb). auto.
  - destruct Hpc as (id & body & q' & [= -> ->] & ->). auto.
  - destruct Hpc as [_ Hn]. destruct Hn. cbn. apply list_elem_of_here.
Qed.

Lemma call_of s a q i g : inv calls s a q → sh_gs s !! i = Some g → calls !! i = Some (g_call g).
Proof. intros H Hg. rewrite <- (iv_calls _ _ _ _ H), list_lookup_fmap, Hg. done. Qed.

(** A new request goes to the end of the stream. *)
Lemma unread_snoc s a q i g pc c wire p :
  inv calls s a q → sh_gs s !! i = Some g → holds (g_pc g) = false → holds pc = false →
  unread (move s i pc c wire (sh_rlock s)) (q ++ [p]) = unread s q ++ response_block (p_id p) (p_body p).
Proof.
  intros H Hg Hh Hp. unfold unread. cbn [sh_rlock sh_gs move].
  assert (blocks (q ++ [p]) = blocks q ++ response_block (p_id p) (p_body p)) as Eb.
  { rewrite blocks_app. cbn. unfold blocks at 2. cbn. by rewrite app_nil_r. }
  destruct (sh_rlock s) as [j|] eqn:El; [|exact Eb]. cbn.
  destruct (proj1 (iv_lock _ _ _ _ H j) El) as (g' & Hg' & Hh').
  rewrite (set_pc_lookup _ _ _ _ _ Hg). rewrite decide_False by congruence. rewrite Hg'. cbn.
  destruct (g_pc g') as [| | |size|] eqn:Ep; try exact Eb.
  pose proof (iv_pc _ _ _ _ H _ _ Hg') as Hpc. rewrite Ep in Hpc. destruct Hpc as (id & body & q' & -> & _).
  cbn. rewrite <- app_assoc. f_equal. rewrite blocks_app. unfold blocks at 2. cbn. by rewrite app_nil_r.
Qed.

(** A new result does not concern the requests that were sent before. *)
Lemma waiting_insert a i res c p :
  se_results a !! i = None → waiting calls a p →
  waiting calls {| se_conn := c; se_results := <[i := res]> (se_results a) |} p ∧ p_owner p ≠ i.
Proof.
  intros Hn [Hs Hi (cl & res' & Hcl & Hk & Hd & Hr)].
  assert (p_owner p ≠ i) by congruence. split; [|done]. split; [done..|].
  exists cl, res'. split; [done|]. split; [done|]. split; [done|]. cbn. by rewrite lookup_insert_ne.
Qed.

Lemma at_pc_snoc a q i j id body res c pc :
  j ≠ i → at_pc a q j pc →
  at_pc {| se_conn := c; se_results := <[i := res]> (se_results a) |} (q ++ [Pending i id body]) j pc.
Proof.
  intros Hj. destruct pc as [|id'|id'|size|res']; cbn.
  - by rewrite lookup_insert_ne.
  - intros [b Hb]. exists b. apply elem_of_app. auto.
  - intros [b Hb]. exists b. apply elem_of_app. auto.
  - intros (id' & b & q' & -> & ->). by exists id', b, (q' ++ [Pending i id body]).
  - intros [Hr Hnot]. split; [by rewrite lookup_insert_ne|]. rewrite map_app.
    intros [?|?%list_elem_of_singleton]%elem_of_app; done.
Qed.

Lemma request_inv s s' a q i :
  inv calls s a q → sh_step (ERequest i) s = Some s' →
  ∃ a' q', inv calls s' a' q' ∧ serial_step calls a a'.
Proof.
  intros H E. pose proof H as [Hc Hi Hconn Hst Hids Hown Hw Hpc Hl]. cbn in E.
  destruct (sh_gs s !! i) as [g|] eqn:Hg; [|done]. cbn in E.
  destruct (g_pc g) as [|id| | |] eqn:Ep; try done.
  pose proof (Hpc i g Hg) as Hn. rewrite Ep in Hn. cbn in Hn.
  pose proof (call_of _ _ _ _ _ H Hg) as Hcl. pose proof (list_elem_of_lookup_2 _ _ _ Hcl) as Hin.
  set (cl := g_call g) in *. set (ca := se_conn a) in *. set (id := int32 (c_correlationID ca + 1)) in *.
  destruct (sv_write _ Hserves cl (deadline_of (cl_deadline cl) ca) id Hin) as [bs Hbs].
  pose proof (sv_answer _ Hserves cl _ _ bs (c_out ca) Hin Hbs) as Hun.
  set (body := broker (c_out ca ++ bs)) in *.
  pose proof Hun as [Hsz (res & Hk & Hd)].
  rewrite Hconn, (doRequest_idle _ _ ca _ bs Hi Hbs) in E. injection E as <-.
  set (p := Pending i id body).
  exists {| se_conn := served ca bs; se_results := <[i := may_fail res]> (se_results a) |}, (q ++ [p]).
  split; [|destruct a as [ca' results]; by apply (serve calls i cl); [..|apply do_alone]].
  assert (Hnew : waiting calls {| se_conn := served ca bs; se_results := <[i := may_fail res]> (se_results a) |} p).
  { split; [done|by apply wrapS_range|]. exists cl, res. repeat (split; [done|]). cbn. by rewrite lookup_insert_eq. }
  assert (Hout : i ∉ map p_owner q).
  { intros (p' & -> & Hp')%list_elem_of_fmap. by destruct (waiting_insert a (p_owner p') (may_fail res) ca p' Hn (Hw _ Hp')). }
  constructor.
  - cbn. by rewrite set_pc_calls.
  - by apply idle_served.
  - done.
  - rewrite (unread_snoc _ a q i g) by (rewrite ?Ep; done). cbn. rewrite app_assoc. by rewrite Hst.
  - intros k p' Hk'. cbn [se_conn served set_out set_correlationID c_correlationID]. rewrite len_app. change (len [p]) with 1. apply lookup_snoc_Some in Hk' as [[Hlt Hk']|[-> <-]].
    + rewrite (Hids _ _ Hk'). fold ca. unfold id. rewrite wrapS_sub_l. f_equal. lia.
    + cbn. unfold id. rewrite wrapS_sub_l. f_equal. unfold len. lia.
  - rewrite map_app. apply NoDup_app. split; [done|]. split; [|apply NoDup_singleton].
    intros j Hj ->%list_elem_of_singleton. done.
  - intros p' [Hp'| ->%list_elem_of_singleton]%elem_of_app; [|done].
    by destruct (waiting_insert a i (may_fail res) (served ca bs) p' Hn (Hw _ Hp')).
  - eapply (pc_moved s a q); [exact Hg|exact Hpc| |]; cbn.
    + intros j g' Hj _. by apply at_pc_snoc.
    + exists body. apply elem_of_app. right. apply list_elem_of_singleton. done.
  - apply (lock_moved s i g); [done|done|]. by rewrite Ep.
Qed.

(** The responses after the first. *)
Lemma ids_tail k0 q p :
  (∀ k p', (p :: q) !! k = Some p' → p_id p' = int32 (k0 - (len (p :: q) - 1 - Z.of_nat k))) →
  ∀ k p', q !! k = Some p' → p_id p' = int32 (k0 - (len q - 1 - Z.of_nat k)).
Proof.
  intros H k p' Hk. rewrite (H (S k) p' Hk). f_equal. rewrite len_cons. lia.
Qed.

(** A response that was looked at is the first that is pending. *)
Lemma peek_first s a q :
  inv calls s a q → unread s q = blocks q → 8 ≤ len (rd_data (c_rbuf (sh_conn s))) →
  ∃ p q', q = p :: q' ∧
    ∀ id, waitResponse id (sh_conn s) =
      if decide (id = p_id p)
      then (Done (len (p_body p)), holding (se_conn a) (zdrop 8 (rd_data (c_rbuf (sh_conn s)))))
      else (Diverged, sh_conn s).
Proof.
  intros H Eu H8. pose proof (iv_stream _ _ _ _ H) as Hst. rewrite Eu in Hst.
  destruct q as [|p q']; [exfalso|exists p, q'; split; [done|]].
  { apply app_nil in Hst as [E _]. rewrite E in H8. done. }
  intros id. destruct (iv_waiting _ _ _ _ H p (list_elem_of_here _ _)) as [Hs Hint _].
  rewrite (iv_conn _ _ _ _ H) at 1.
  rewrite (waitResponse_header id (p_id p) (p_body p) _ _ (sh_wire s) (blocks q'));
    [by destruct (decide _); [|rewrite <- (iv_conn _ _ _ _ H)]|apply (id_bufsize _ (iv_idle _ _ _ _ H))|done..].
Qed.

Lemma peek_inv s s' a q i :
  inv calls s a q → sh_step (EPeek i None) s = Some s' → inv calls s' a q.
Proof.
  intros H E. pose proof H as [Hc Hi Hconn Hst Hids Hown Hw Hpc Hl]. cbn in E.
  destruct (sh_gs s !! i) as [g|] eqn:Hg; [|done]. cbn in E.
  destruct (g_pc g) as [| |id| |] eqn:Ep; try done. unfold ready in E.
  destruct (8 <=? _) eqn:E8; [|done]. apply Z.leb_le in E8. cbn in E.
  assert (El : sh_rlock s = Some i) by (apply Hl; exists g; by rewrite Ep).
  assert (Eu : unread s q = blocks q) by (by rewrite (unread_at _ i g), Ep).
  destruct (peek_first _ _ _ H Eu E8) as (p & q' & -> & Hwait). rewrite Hwait in E.
  pose proof (Hpc i g Hg) as Hat. rewrite Ep in Hat. destruct Hat as [body Hin].
  destruct (decide (id = p_id p)) as [->|Hne]; injection E as <-; constructor; try done; cbn [move sh_gs].
  all: try (rewrite set_pc_calls; done).
  - erewrite (unread_at _ i); [|exact El|by apply moved_lookup]. cbn [g_pc sh_conn move sh_wire].
    cbn [holding c_rbuf set_rbuf rd_data with_data]. rewrite Eu in Hst. apply (f_equal (zdrop 8)) in Hst.
    rewrite blocks_cons, zdrop_header in Hst. rewrite <- Hst. unfold zdrop. rewrite drop_app_le; [done|]. unfold len in E8. lia.
  - eapply (pc_moved s a (p :: q')); [exact Hg|exact Hpc|done|]. cbn.
    pose proof (ids_distinct _ _ _ _ _ H Hin (list_elem_of_here p q') eq_refl) as <-. by exists (p_id p), body, q'.
  - apply (lock_moved s i g); [done|done|]. cbn. auto.
  - rewrite unread_idle by done. by rewrite <- Eu.
  - eapply (pc_moved s a (p :: q')); [exact Hg|exact Hpc|done|]. by exists body.
  - apply (lock_moved s i g); [done|done|]. by rewrite Ep.
Qed.

Lemma read_inv s s' a q i :
  inv calls s a q → sh_step (ERead i None) s = Some s' → ∃ q', inv calls s' a q'.
Proof.
  intros H E. pose proof H as [Hc Hi Hconn Hst Hids Hown Hw Hpc Hl]. cbn in E.
  destruct (sh_gs s !! i) as [g|] eqn:Hg; [|done]. cbn in E.
  destruct (g_pc g) as [| | |size|] eqn:Ep; try done. unfold ready in E.
  pose proof (Hpc i g Hg) as Hat. rewrite Ep in Hat. destruct Hat as (id & body & q' & -> & ->).
  destruct (len body <=? _) eqn:E8; [|done]. apply Z.leb_le in E8. cbn [mbind option_bind] in E.
  assert (El : sh_rlock s = Some i) by (apply Hl; exists g; by rewrite Ep).
  rewrite (unread_at _ i g), Ep in Hst by done. cbn [p_body] in Hst.
  destruct (Hw _ (list_elem_of_here _ _)) as [_ _ (cl & res & Hcl & Hk & Hd & Hr)]. cbn [p_owner p_body] in *.
  pose proof (call_of _ _ _ _ _ H Hg) as Hcl'. rewrite Hcl in Hcl'. injection Hcl' as ->.
  set (d := rd_data (c_rbuf (sh_conn s))) in *.
  assert (∃ d', d = body ++ d') as [d' Ed].
  { exists (drop (length body) d). rewrite <- (take_drop (length body) d) at 1. f_equal.
    rewrite <- (take_app_le d (sh_wire s)) by (unfold len in E8; lia). rewrite Hst. by rewrite take_app_length. }
  rewrite Hconn, Ed, (do_read_decodes _ _ res) in E by (done || apply (id_bufsize _ Hi)). injection E as <-.
  exists q'. apply NoDup_cons in Hown as [Hni Hown].
  constructor; cbn [move sh_gs sh_conn se_conn]; try done.
  - by rewrite set_pc_calls.
  - rewrite unread_idle by done. rewrite Ed, <- app_assoc in Hst. by apply app_inv_head in Hst.
  - by eapply ids_tail.
  - intros p Hp. apply Hw. by apply list_elem_of_further.
  - eapply (pc_moved s a _); [exact Hg|exact Hpc| |split; [done|exact Hni]].
    intros j g' Hj Hg' Hat. destruct (g_pc g') as [|id'|id'|size'|res']; cbn in *.
    + done.
    + destruct Hat as [b [[= <- _ _]|]%elem_of_cons]; [done|eauto].
    + destruct Hat as [b [[= <- _ _]|]%elem_of_cons]; [done|eauto].
    + destruct Hat as (id' & b & q2 & [= -> _ _ _] & _). done.
    + destruct Hat as [Hr' Hn]. split; [done|]. intros Hin. apply Hn. by apply elem_of_cons; right.
  - apply (lock_moved s i g); [done|done|]. by rewrite Ep.
Qed.

Lemma step_inv s s' a q ev :
  inv calls s a q → calm ev → sh_step ev s = Some s' →
  ∃ a' q', inv calls s' a' q' ∧ rtc (serial_step calls) a a'.
Proof.
  intros H Hcalm E. destruct ev as [i|n|i|i [e|]|i [e|]]; try done.
  - destruct (request_inv _ _ _ _ _ H E) as (a' & q' & H' & Hs). exists a', q'. split; [done|by apply rtc_once].
  - exists a, q. split; [by eapply arrive_inv|done].
  - exists a, q. split; [by eapply lock_inv|done].
  - exists a, q. split; [by eapply peek_inv|done].
  - destruct (read_inv _ _ _ _ _ H E) as [q' H']. by exists a, q'.
Qed.

Lemma run_inv evs s s' a q :
  inv calls s a q → Forall calm evs → sh_run evs s = Some s' →
  ∃ a' q', inv calls s' a' q' ∧ rtc (serial_step calls) a a'.
Proof.
  intros H Hc. revert s a q H. induction Hc as [|ev evs Hev _ IH]; intros s a q H E; cbn in E.
  - injection E as <-. by exists a, q.
  - destruct (sh_step ev s) as [s1|] eqn:E1; [|done]. cbn in E.
    destruct (step_inv _ _ _ _ _ H Hev E1) as (a1 & q1 & H1 & R1).
    destruct (IH _ _ _ H1 E) as (a2 & q2 & H2 & R2). exists a2, q2. split; [done|by etrans].
Qed.

Lemma sh_start_inv c : idle c → inv calls (sh_start c calls) {| se_conn := c; se_results := ∅ |} [].
Proof.
  intros Hi. constructor; cbn; try done.
  - rewrite map_map. cbn. apply map_id.
  - by rewrite holding_id.
  - by rewrite (id_data _ Hi).
  - constructor.
  - intros p ?%elem_of_nil. done.
  - intros i g Hg. rewrite list_lookup_fmap in Hg. destruct (calls !! i); [|done]. by injection Hg as <-.
  - intros i. split; [done|]. intros (g & Hg & Hh). rewrite list_lookup_fmap in Hg.
    destruct (calls !! i); [|done]. by injection Hg as <-.
Qed.

(** ** Progress *)

Definition weight (g : goroutine) : nat :=
  match g_pc g with PStart => 2 | PDone _ => 0 | _ => 1 end.

(** What the goroutines still have to do: send a request, read a response. *)
Definition work (s : shared) : nat := sum_list (map weight (sh_gs s)).

Definition finished (s : shared) : Prop := Forall (λ g, ∃ res, g_pc g = PDone res) (sh_gs s).

Definition reaches (s s' : shared) : Prop := ∃ evs, Forall calm evs ∧ sh_run evs s = Some s'.

Lemma reaches_refl s : reaches s s.
Proof. by exists []. Qed.

Lemma reaches_step ev s s1 s' : sh_step ev s = Some s1 → calm ev → reaches s1 s' → reaches s s'.
Proof.
  intros E Hc (evs & Hevs & Er). exists (ev :: evs). split; [by constructor|]. cbn. by rewrite E.
Qed.

Lemma reaches_trans s s1 s2 : reaches s s1 → reaches s1 s2 → reaches s s2.
Proof.
  intros (evs & Hevs & Er) H. revert s Er. induction Hevs as [|ev evs Hev _ IH]; intros s Er; cbn in Er.
  - by injection Er as ->.
  - destruct (sh_step ev s) as [s'|] eqn:E; [|done]. eapply reaches_step; eauto.
Qed.

Lemma work_move s i g pc c wire l :
  sh_gs s !! i = Some g →
  (work (move s i pc c wire l) + weight g = work s + weight {| g_call := g_call g; g_pc := pc |})%nat.
Proof.
  unfold work. cbn [sh_gs move]. unfold set_pc. generalize (sh_gs s). clear. intros gs. revert i.
  induction gs as [|g' gs IH]; intros [|i] Hi; cbn in *; try done.
  - injection Hi as ->. lia.
  - specialize (IH i Hi). lia.
Qed.

Lemma finished_or s :
  finished s ∨ ∃ i g, sh_gs s !! i = Some g ∧ (∀ res, g_pc g ≠ PDone res).
Proof.
  unfold finished. destruct (decide (Forall (λ g, match g_pc g with PDone _ => true | _ => false end = true) (sh_gs s)))
    as [Hf|Hn].
  - left. eapply Forall_impl; [exact Hf|]. cbn. intros g. destruct (g_pc g) as [| | | |res]; [done..|by exists res].
  - right. apply not_Forall_Exists in Hn; [|intros ?; apply _]. apply Exists_exists in Hn as (g & Hin & Hg).
    apply list_elem_of_lookup in Hin as [i Hi]. exists i, g. split; [done|]. intros res E. cbn in Hg. by rewrite E in Hg.
Qed.

Lemma can_request s a q i g :
  inv calls s a q → sh_gs s !! i = Some g → g_pc g = PStart →
  ∃ s', sh_step (ERequest i) s = Some s' ∧ (work s' < work s)%nat.
Proof.
  intros H Hg Ep. pose proof (call_of _ _ _ _ _ H Hg) as Hcl. pose proof (list_elem_of_lookup_2 _ _ _ Hcl) as Hin.
  cbn. rewrite Hg. cbn. rewrite Ep. eexists. split; [done|].
  assert (weight g = 2%nat) as Ew by (unfold weight; by rewrite Ep).
  destruct (sv_write _ Hserves (g_call g) (deadline_of (cl_deadline (g_call g)) (se_conn a))
    (int32 (c_correlationID (se_conn a) + 1)) Hin) as [bs Hbs].
  rewrite (iv_conn _ _ _ _ H), (doRequest_idle _ _ _ _ bs (iv_idle _ _ _ _ H) Hbs).
  match goal with |- (work (move _ _ ?pc ?c ?wire ?l) < _)%nat => pose proof (work_move s i g pc c wire l Hg) as E end.
  rewrite Ew in E. cbn [weight g_pc] in E. lia.
Qed.

(** All the bytes that were sent may arrive. *)
Lemma can_arrive s a q :
  inv calls s a q → ∃ s', sh_step (EArrive (length (sh_wire s))) s = Some s' ∧ inv calls s' a q ∧
    sh_wire s' = [] ∧ work s' = work s.
Proof.
  intros H. assert (c_closed (sh_conn s) = false) as Ho.
  { rewrite (iv_conn _ _ _ _ H). apply (id_open _ (iv_idle _ _ _ _ H)). }
  destruct (sh_step (EArrive (length (sh_wire s))) s) as [s'|] eqn:E; [|cbn in E; by rewrite Ho in E].
  exists s'. split; [done|]. pose proof (arrive_inv _ _ _ _ _ H E) as H'. split; [done|].
  cbn in E. rewrite Ho in E. injection E as <-. cbn. by rewrite drop_all.
Qed.

(** With all bytes there, the goroutine that reads returns. *)
Lemma can_read s a q i g size :
  inv calls s a q → sh_wire s = [] → sh_gs s !! i = Some g → g_pc g = PRead size →
  ∃ s', sh_step (ERead i None) s = Some s' ∧ (work s' < work s)%nat.
Proof.
  intros H Hd Hg Ep. pose proof (iv_pc _ _ _ _ H _ _ Hg) as Hat. rewrite Ep in Hat.
  destruct Hat as (id & body & q' & -> & ->).
  assert (sh_rlock s = Some i) as El by (apply (iv_lock _ _ _ _ H); exists g; by rewrite Ep).
  pose proof (iv_stream _ _ _ _ H) as Hst. rewrite Hd, app_nil_r, (unread_at _ i g), Ep in Hst by done. cbn in Hst.
  cbn. rewrite Hg. cbn. rewrite Ep. unfold ready. rewrite Hst, len_app.
  pose proof (len_nonneg (blocks q')). rewrite (proj2 (Z.leb_le _ _)) by lia. cbn [mbind option_bind].
  destruct (do_read _ _ _) as [res c]. eexists. split; [done|].
  pose proof (work_move s i g (PDone res) c (sh_wire s) None Hg) as E.
  assert (weight g = 1%nat) as Ew by (unfold weight; by rewrite Ep). rewrite Ew in E. cbn [weight g_pc] in E. lia.
Qed.

(** With all bytes there, a goroutine that looks at the next response takes it
    or gives the lock back. *)
Lemma can_peek s a p q i g id :
  inv calls s a (p :: q) → sh_wire s = [] → sh_gs s !! i = Some g → g_pc g = PPeek id →
  ∃ s' g', sh_step (EPeek i None) s = Some s' ∧ inv calls s' a (p :: q) ∧ sh_wire s' = [] ∧ work s' = work s ∧
    sh_gs s' !! i = Some g' ∧
    if decide (id = p_id p) then g_pc g' = PRead (len (p_body p)) else sh_rlock s' = None.
Proof.
  intros H Hwire Hg Ep.
  assert (sh_rlock s = Some i) as El by (apply (iv_lock _ _ _ _ H); exists g; by rewrite Ep).
  assert (Eu : unread s (p :: q) = blocks (p :: q)) by (by rewrite (unread_at _ i g), Ep).
  assert (8 ≤ len (rd_data (c_rbuf (sh_conn s)))) as H8.
  { pose proof (iv_stream _ _ _ _ H) as Hst. rewrite Hwire, app_nil_r, Eu, blocks_cons in Hst. rewrite Hst.
    unfold response_block, writeInt32. rewrite !len_app, !len_be_put.
    pose proof (len_nonneg (blocks q)). pose proof (len_nonneg (p_body p)). lia. }
  destruct (peek_first _ _ _ H Eu H8) as (p' & q' & [= <- <-] & Hwait).
  assert (weight g = 1%nat) as Ew by (unfold weight; by rewrite Ep).
  assert (∃ s', sh_step (EPeek i None) s = Some s') as [s' E].
  { cbn. rewrite Hg. cbn. rewrite Ep. unfold ready. rewrite (proj2 (Z.leb_le _ _)) by done. by eexists. }
  exists s'. pose proof (peek_inv _ _ _ _ _ H E) as H'. pose proof E as Estep.
  cbn in E. rewrite Hg in E. cbn in E. rewrite Ep in E. unfold ready in E.
  rewrite (proj2 (Z.leb_le _ _)) in E by done. cbn in E. rewrite Hwait in E.
  destruct (decide (id = p_id p)); injection E as <-.
  all: eexists; split; [exact Estep|split; [exact H'|split; [exact Hwire|split; [|split; [by apply moved_lookup|done]]]]].
  all: match goal with |- work (move _ _ ?pc ?c ?wire ?l) = _ => pose proof (work_move s i g pc c wire l Hg) as E end.
  all: rewrite Ew in E; cbn [weight g_pc] in E; lia.
Qed.

(** The goroutine [i], which waits, takes the lock. *)
Lemma can_lock s a q i g id :
  inv calls s a q → sh_rlock s = None → sh_wire s = [] → sh_gs s !! i = Some g → g_pc g = PWait id →
  ∃ s' g', sh_step (ELock i) s = Some s' ∧ inv calls s' a q ∧ sh_wire s' = [] ∧ work s' = work s ∧
    sh_gs s' !! i = Some g' ∧ g_pc g' = PPeek id.
Proof.
  intros H El Hwire Hg Ep.
  assert (sh_step (ELock i) s = Some (move s i (PPeek id) (sh_conn s) (sh_wire s) (Some i))) as E.
  { cbn. rewrite Hg. cbn. by rewrite Ep, El. }
  do 2 eexists. split; [exact E|]. split; [by eapply lock_inv|]. split; [exact Hwire|].
  split; [|split; [by apply moved_lookup|done]].
  pose proof (work_move s i g (PPeek id) (sh_conn s) (sh_wire s) (Some i) Hg) as Ewk.
  assert (weight g = 1%nat) as Ew by (unfold weight; by rewrite Ep). rewrite Ew in Ewk. cbn [weight g_pc] in Ewk. lia.
Qed.

(** The owner of the next response reads it, whoever holds the lock. *)
Lemma owner_peeks s a p q g :
  inv calls s a (p :: q) → sh_wire s = [] → sh_gs s !! p_owner p = Some g → g_pc g = PPeek (p_id p) →
  ∃ s', reaches s s' ∧ (work s' < work s)%nat.
Proof.
  intros H Hwire Hg Ep.
  destruct (can_peek _ _ _ _ _ _ _ H Hwire Hg Ep) as (s1 & g1 & E1 & H1 & Hw1 & Ek1 & Hg1 & Ep1).
  rewrite decide_True in Ep1 by done.
  destruct (can_read _ _ _ _ _ _ H1 Hw1 Hg1 Ep1) as (s2 & E2 & Hlt). exists s2. split; [|lia].
  apply (reaches_step _ _ _ _ E1 I), (reaches_step _ _ _ _ E2 I), reaches_refl.
Qed.

Lemma owner_waits s a p q :
  inv calls s a (p :: q) → sh_wire s = [] → sh_rlock s = None → ∃ s', reaches s s' ∧ (work s' < work s)%nat.
Proof.
  intros H Hwire El. destruct (head_owner _ _ _ _ H) as (g & Hg & _ & Ep).
  assert (holds (g_pc g) ≠ true) as Hn.
  { intros Hh. assert (sh_rlock s = Some (p_owner p)) by (apply (iv_lock _ _ _ _ H); eauto). congruence. }
  destruct Ep as [Ep|[Ep|Ep]]; [|by rewrite Ep in Hn..].
  destruct (can_lock _ _ _ _ _ _ H El Hwire Hg Ep) as (s1 & g1 & E1 & H1 & Hw1 & Ek1 & Hg1 & Ep1).
  destruct (owner_peeks _ _ _ _ _ H1 Hw1 Hg1 Ep1) as (s2 & R2 & Hlt). exists s2. split; [|lia].
  by eapply reaches_step.
Qed.

Lemma can_advance s a q i g :
  inv calls s a q → sh_gs s !! i = Some g → (∀ res, g_pc g ≠ PDone res) →
  ∃ s', reaches s s' ∧ (work s' < work s)%nat.
Proof.
  intros H Hg Hn. pose proof (iv_pc _ _ _ _ H _ _ Hg) as Hat.
  destruct (decide (q = [])) as [->|Hq].
  { destruct (g_pc g) as [|id|id|size|res] eqn:Ep; cbn in Hat.
    - destruct (can_request _ _ _ _ _ H Hg Ep) as (s' & E & Hlt). exists s'. split; [|done].
      by apply (reaches_step _ _ _ _ E I), reaches_refl.
    - by destruct Hat as [? ?%elem_of_nil].
    - by destruct Hat as [? ?%elem_of_nil].
    - by destruct Hat as (? & ? & ? & ? & _).
    - by destruct (Hn res). }
  destruct q as [|p q]; [done|]. clear i g Hg Hn Hat.
  destruct (can_arrive _ _ _ H) as (s0 & E0 & H0 & Hw0 & Ek0).
  enough (∃ s', reaches s0 s' ∧ (work s' < work s0)%nat) as (s' & R & Hlt).
  { exists s'. split; [by apply (reaches_step _ _ _ _ E0 I)|lia]. }
  destruct (sh_rlock s0) as [j|] eqn:El; [|by eapply owner_waits].
  destruct (proj1 (iv_lock _ _ _ _ H0 j) El) as (g & Hg & Hh).
  destruct (g_pc g) as [|id|id|size|res] eqn:Ep; try done.
  - destruct (can_peek _ _ _ _ _ _ _ H0 Hw0 Hg Ep) as (s1 & g1 & E1 & H1 & Hw1 & Ek1 & Hg1 & Hnext).
    destruct (decide (id = p_id p)) as [->|_].
    + destruct (can_read _ _ _ _ _ _ H1 Hw1 Hg1 Hnext) as (s2 & E2 & Hlt). exists s2. split; [|lia].
      apply (reaches_step _ _ _ _ E1 I), (reaches_step _ _ _ _ E2 I), reaches_refl.
    + destruct (owner_waits _ _ _ _ H1 Hw1 Hnext) as (s2 & R & Hlt). exists s2. split; [by apply (reaches_step _ _ _ _ E1 I)|lia].
  - destruct (can_read _ _ _ _ _ _ H0 Hw0 Hg Ep) as (s2 & E2 & Hlt). exists s2. split; [|done].
    by apply (reaches_step _ _ _ _ E2 I), reaches_refl.
Qed.

Lemma can_finish s a q : inv calls s a q → ∃ s', reaches s s' ∧ finished s'.
Proof.
  remember (work s) as n eqn:En. revert s a q En. induction n as [n IH] using lt_wf_ind. intros s a q -> H.
  destruct (finished_or s) as [Hf|(i & g & Hg & Hn)]; [exists s; split; [apply reaches_refl|done]|].
  destruct (can_advance _ _ _ _ _ H Hg Hn) as (s1 & (evs & Hevs & Er) & Hlt).
  destruct (run_inv _ _ _ _ _ H Hevs Er) as (a1 & q1 & H1 & _).
  destruct (IH _ Hlt s1 a1 q1 eq_refl H1) as (s2 & R & Hf). exists s2. split; [|done].
  eapply reaches_trans; [by exists evs|done].
Qed.

End simulation.
End shared.

Arguments rpc : clear implicits.
Arguments progress : clear implicits.
Arguments goroutine : clear implicits.
Arguments shared : clear implicits.
Arguments serial : clear implicits.
