(* ===== verification/ConnOps.v ===== *)
(** * The operations of a connection (conn.go, createtopics.go, deletetopics.go)

    Each operation is the composition of [do] with the request it writes, the
    response it reads and its treatment of the error codes in the response.
    [now] is the result of [time.Now] in the operations that call it. *)

From S2P Require Import Prelude Errors Time Bufio Read Write VarInt Wire.
From S2P Require Import Protocol OffsetMessages TopicMessages GroupMessages SaslMessages Messages DataRequests Conn.

(** ** Calls: a request, a response and nothing after it *)

Definition call `{Sizable A, Writable A, Readable B} (d : connDeadline) (apiKey apiVersion : Z)
    (req : A) : cm B :=
  c ← get; do d (request c apiKey apiVersion req) (expectZeroSize readFrom).

(** The first error code that is not zero, as an error. *)
Definition check {A} (codes : list Z) (a : A) : cm A :=
  match list_find (λ code, code ≠ 0) codes with
  | Some (_, code) => fail (KafkaError code)
  | None => mret a
  end.

Definition describeGroups (req : describeGroupsRequestV0) : cm describeGroupsResponseV0 :=
  response ← call rdeadline Api.describeGroupsRequest Api.v0 req;
  check (map dgg_ErrorCode (dgs_Groups response)) response.

Definition findCoordinator (req : findCoordinatorRequestV0) : cm findCoordinatorResponseV0 :=
  response ← call rdeadline Api.groupCoordinatorRequest Api.v0 req;
  check [fcs_ErrorCode response] response.

Definition heartbeat (req : heartbeatRequestV0) : cm heartbeatResponseV0 :=
  response ← call wdeadline Api.heartbeatRequest Api.v0 req;
  check [hbs_ErrorCode response] response.

Definition joinGroup (req : joinGroupRequestV1) : cm joinGroupResponseV1 :=
  response ← call wdeadline Api.joinGroupRequest Api.v1 req;
  check [jgs_ErrorCode response] response.

Definition leaveGroup (req : leaveGroupRequestV0) : cm leaveGroupResponseV0 :=
  response ← call wdeadline Api.leaveGroupRequest Api.v0 req;
  check [lgs_ErrorCode response] response.

Definition listGroups (req : listGroupsRequestV1) : cm listGroupsResponseV1 :=
  response ← call rdeadline Api.listGroupsRequest Api.v1 req;
  check [lss_ErrorCode response] response.

Definition offsetCommit (req : offsetCommitRequestV2) : cm offsetCommitResponseV2 :=
  response ← call wdeadline Api.offsetCommitRequest Api.v2 req;
  check (concat (map (λ r, map ocsp_ErrorCode (ocst_PartitionResponses r)) (ocs_Responses response)))
    response.

Definition offsetFetch (req : offsetFetchRequestV1) : cm offsetFetchResponseV1 :=
  response ← call rdeadline Api.offsetFetchRequest Api.v1 req;
  check (concat (map (λ r, map ofsp_ErrorCode (ofst_PartitionResponses r)) (ofs_Responses response)))
    response.

Definition syncGroups (req : syncGroupRequestV0) : cm syncGroupResponseV0 :=
  response ← call rdeadline Api.syncGroupRequest Api.v0 req;
  check [sgs_ErrorCode response] response.

(** The timeout that a request gets from the deadline of the connection. *)
Definition deadlineTimeout (now deadline : Z) : Z :=
  Time.milliseconds (Time.deadlineToTimeout
    (Time.adjustDeadlineForRTT deadline now Time.defaultRTT) now).

Definition createTopics (now : Z) (req : createTopicsRequestV0) : cm createTopicsResponseV0 :=
  c ← get;
  response ← writeOperation (λ deadline id,
      let req := if ctr_Timeout req =? 0
                 then {| ctr_Topics := ctr_Topics req; ctr_Timeout := deadlineTimeout now deadline |}
                 else req in
      request c Api.createTopicsRequest Api.v0 req deadline id)
    (expectZeroSize readFrom);
  check (map ctse_ErrorCode (cts_TopicErrors response)) response.

(** [CreateTopics]: a topic that exists already is not an error. *)
Definition CreateTopics (now : Z) (topics : list TopicConfig) : cm unit := λ c,
  match createTopics now {| ctr_Topics := map toCreateTopicsRequestV0Topic topics; ctr_Timeout := 0 |} c with
  | (Failed err, c) =>
    if decide (err = KafkaError Code.TopicAlreadyExists) then (Done tt, c) else (Failed err, c)
  | (Done _, c) => (Done tt, c)
  | (Diverged, c) => (Diverged, c)
  end.

Definition deleteTopics (now : Z) (req : deleteTopicsRequestV0) : cm deleteTopicsResponseV0 :=
  c ← get;
  response ← writeOperation (λ deadline id,
      let req := if dtr_Timeout req =? 0
                 then {| dtr_Topics := dtr_Topics req; dtr_Timeout := deadlineTimeout now deadline |}
                 else req in
      request c Api.deleteTopicsRequest Api.v0 req deadline id)
    (expectZeroSize readFrom);
  check (map dtse_ErrorCode (dts_TopicErrorCodes response)) response.

Definition DeleteTopics (now : Z) (topics : list gostring) : cm unit :=
  _ ← deleteTopics now {| dtr_Topics := topics; dtr_Timeout := 0 |}; mret tt.

(** ** Metadata *)

Record Broker : Type := { br_Host : gostring; br_Port : Z; br_ID : Z; br_Rack : gostring }.

#[global] Instance Broker_eq_dec : EqDecision Broker.
Proof. solve_decision. Defined.

Record Partition : Type := {
  pt_Topic : gostring;
  pt_Leader : Broker;
  pt_Replicas : list Broker;
  pt_Isr : list Broker;
  pt_ID : Z;
}.

#[global] Instance Partition_eq_dec : EqDecision Partition.
Proof. solve_decision. Defined.

Definition zeroBroker : Broker := {| br_Host := []; br_Port := 0; br_ID := 0; br_Rack := [] |}.

Definition toBroker (b : brokerMetadataV1) : Broker :=
  {| br_Host := bm_Host b; br_Port := bm_Port b; br_ID := bm_NodeID b; br_Rack := bm_Rack b |}.

Definition metadata (topics : list gostring) : cm metadataResponseV1 :=
  c ← get;
  readOperation (request c Api.metadataRequest Api.v1 (topics : topicMetadataRequestV1))
    (readResponse metadataResponseV1_read).

Definition Controller : cm Broker :=
  res ← metadata [];
  mret (match list_find (λ b, bm_NodeID b = ms_ControllerID res) (ms_Brokers res) with
        | Some (_, b) => toBroker b
        | None => zeroBroker
        end).

Definition Brokers : cm (list Broker) := res ← metadata []; mret (map toBroker (ms_Brokers res)).

(** The map of brokers by id: the last one of an id wins. *)
Definition brokers_by_id (bs : list brokerMetadataV1) : gmap Z Broker :=
  assign_all ∅ (map (λ b, (bm_NodeID b, toBroker b)) bs).

Definition makeBrokers (brokers : gmap Z Broker) (ids : list Z) : list Broker :=
  map (λ id, default zeroBroker (brokers !! id)) ids.

Definition toPartition (brokers : gmap Z Broker) (topic : gostring) (p : partitionMetadataV1) : Partition :=
  {| pt_Topic := topic; pt_Leader := default zeroBroker (brokers !! pm_Leader p);
     pt_Replicas := makeBrokers brokers (pm_Replicas p); pt_Isr := makeBrokers brokers (pm_Isr p);
     pt_ID := pm_PartitionID p |}.

(** The loop over the topics: an error of the topic of the connection, or of
    any topic when it has none, ends it. *)
Fixpoint collectPartitions (connTopic : gostring) (brokers : gmap Z Broker)
    (topics : list topicMetadataV1) : goerror + list Partition :=
  match topics with
  | [] => inr []
  | t :: topics =>
    if negb (tm_TopicErrorCode t =? 0) &&
       (bool_decide (connTopic = []) || bool_decide (tm_TopicName t = connTopic))
    then inl (KafkaError (tm_TopicErrorCode t))
    else
      match collectPartitions connTopic brokers topics with
      | inl err => inl err
      | inr ps => inr (map (toPartition brokers (tm_TopicName t)) (tm_Partitions t) ++ ps)
      end
  end.

(** The partitions are collected inside the read of the response, so that an
    error is an error of the read. *)
Definition read_partitions (connTopic : gostring) : rd (list Partition) :=
  res ← readResponse metadataResponseV1_read;
  match collectPartitions connTopic (brokers_by_id (ms_Brokers res)) (ms_Topics res) with
  | inl err => throw err
  | inr ps => mret ps
  end.

Definition ReadPartitions (topics : list gostring) : cm (list Partition) :=
  c ← get;
  let connTopic := cfg_topic (c_cfg c) in
  let topics := if decide (topics = [] ∧ connTopic ≠ []) then [connTopic] else topics in
  readOperation (request c Api.metadataRequest Api.v1 (topics : topicMetadataRequestV1))
    (read_partitions connTopic).

(** ** Offsets *)

Definition FirstOffset : Z := -2.
Definition LastOffset : Z := -1.

Definition read_partitionOffset : rd Z :=
  p ← partitionOffsetV1_readFrom;
  if negb (po_ErrorCode p =? 0) then throw (KafkaError (po_ErrorCode p)) else mret (po_Offset p).

(** The offset of the last partition in the response, 0 if there is none. *)
Definition read_listOffsetResponse : rd Z :=
  expectZeroSize
    (ts ← readArrayWith (_ ← discardString; readArrayWith read_partitionOffset);
     mret (List.last (concat ts) 0)).

Definition readOffset (t : Z) : cm Z :=
  c ← get;
  readOperation (λ _ id, Done (writeListOffsetRequestV1 id (cfg_clientID (c_cfg c))
                                 (cfg_topic (c_cfg c)) (cfg_partition (c_cfg c)) t))
    read_listOffsetResponse.

Definition ReadOffset (t : Z) : cm Z := readOffset (Time.timestamp t).
Definition ReadFirstOffset : cm Z := readOffset FirstOffset.
Definition ReadLastOffset : cm Z := readOffset LastOffset.
Definition ReadOffsets : cm (Z * Z) :=
  first ← ReadFirstOffset; last ← ReadLastOffset; mret (first, last).

Definition SeekStart : Z := 0.
Definition SeekAbsolute : Z := 1.
Definition SeekEnd : Z := 2.
Definition SeekCurrent : Z := 3.

Definition Offset (c : conn) : Z * Z :=
  let offset := c_offset c in
  if offset =? FirstOffset then (0, SeekStart)
  else if offset =? LastOffset then (0, SeekEnd)
  else (offset, SeekAbsolute).

Definition Seek (offset whence : Z) : cm Z := λ c,
  if negb ((0 <=? whence) && (whence <=? 3)) then
    (Failed (Errorf "whence must be one of 0, 1, 2, or 3. (whence = %d)" whence), c)
  else if (whence =? SeekAbsolute) && (offset =? c_offset c) then (Done offset, c)
  else
    let offset := if whence =? SeekCurrent then int64 (c_offset c + offset) else offset in
    ('(first, last) ← ReadOffsets;
     let offset := if whence =? SeekStart then int64 (first + offset)
                   else if whence =? SeekEnd then int64 (last - offset) else offset in
     if (offset <? first) || (offset >? last) then fail (KafkaError Code.OffsetOutOfRange)
     else λ c, (Done offset, set_offset c offset)) c.

(** ** Producing *)

Definition SetRequiredAcks (n : Z) : cm unit := λ c,
  if (n =? -1) || (n =? 1) then (Done tt, set_requiredAcks c n)
  else (Failed (KafkaError Code.InvalidRequiredAcks), c).

Definition with_Time (msg : Message) (t : Z) : Message :=
  {| msg_Topic := msg_Topic msg; msg_Partition := msg_Partition msg; msg_Offset := msg_Offset msg;
     msg_Key := msg_Key msg; msg_Value := msg_Value msg; msg_Headers := msg_Headers msg;
     msg_Time := t |}.

(** The loop that validates the messages, sets in the slice of the caller the
    times that are not set, and counts the bytes of keys and values: the
    slice after the loop, the bytes counted, and the error that ended it. *)
Fixpoint prepareMessages (connTopic : gostring) (writeTime : Z) (msgs : list Message) :
    list Message * Z * option goerror :=
  match msgs with
  | [] => ([], 0, None)
  | msg :: msgs =>
    if decide (msg_Topic msg ≠ [] ∧ msg_Topic msg ≠ connTopic) then (msg :: msgs, 0, Some errInvalidWriteTopic)
    else if decide (msg_Partition msg ≠ 0) then (msg :: msgs, 0, Some errInvalidWritePartition)
    else
      let '(msgs, nbytes, err) := prepareMessages connTopic writeTime msgs in
      ((if Time.IsZero (msg_Time msg) then with_Time msg writeTime else msg) :: msgs,
       len (bdata (msg_Key msg)) + len (bdata (msg_Value msg)) + nbytes, err)
  end.

Record produced_at : Type := { pa_partition : Z; pa_offset : Z; pa_appendTime : Z }.

Definition read_producePartition : rd produced_at :=
  p ← produceResponsePartitionV2_readFrom;
  if negb (psp_ErrorCode p =? 0) then throw (KafkaError (psp_ErrorCode p))
  else mret {| pa_partition := psp_Partition p; pa_offset := psp_Offset p;
               pa_appendTime := Time.Unix 0 (int64 (psp_Timestamp p * Time.Millisecond)) |}.

(** The throttle time is skipped after the partitions of each topic. *)
Definition read_produceResponse : rd produced_at :=
  expectZeroSize
    (ts ← readArrayWith (_ ← discardString; ps ← readArrayWith read_producePartition;
                         _ ← discardInt32; mret ps);
     mret (List.last (concat ts) {| pa_partition := 0; pa_offset := 0; pa_appendTime := Time.zeroTime |})).

Definition maxVersion (c : conn) (key : Z) : Z :=
  default 0 (av_MaxVersion <$> cfg_apiVersions (c_cfg c) !! key).

(** An operation with its error as a value. *)
Definition try_ {A} (m : cm A) : cm (goerror + A) := λ c,
  match m c with
  | (Done a, c) => (Done (inr a), c)
  | (Failed e, c) => (Done (inl e), c)
  | (Diverged, c) => (Diverged, c)
  end.

(** [writeCompressedMessages], which reads the clock before the loop
    ([writeTime]) and when it writes the request ([now]): the number of bytes
    and where the broker put the messages, or the number of bytes that is
    returned together with an error.  (The partition, offset and time that are
    returned with an error are left out.) *)
Definition writeCompressedMessages (writeTime now : Z) (codec : option CompressionCodec) (msgs : list Message) :
    cm (Z * goerror + Z * produced_at) :=
  c ← get;
  if decide (msgs = []) then
    mret (inr (0, {| pa_partition := 0; pa_offset := 0; pa_appendTime := Time.zeroTime |}))
  else
    match prepareMessages (cfg_topic (c_cfg c)) writeTime msgs with
    | (_, nbytes, Some err) => mret (inl (nbytes, err))
    | (msgs, nbytes, None) =>
      res ← try_ (writeOperation (λ deadline id,
          let timeout := Time.deadlineToTimeout
            (Time.adjustDeadlineForRTT deadline now Time.defaultRTT) now in
          let cfg := c_cfg c in
          if maxVersion c Api.produceRequest >=? 3 then
            writeProduceRequestV3 codec id (cfg_clientID cfg) (cfg_topic cfg) (cfg_partition cfg)
              timeout (int16 (c_requiredAcks c)) msgs
          else
            may_fail (writeProduceRequestV2 codec id (cfg_clientID cfg) (cfg_topic cfg)
              (cfg_partition cfg) timeout (int16 (c_requiredAcks c)) msgs))
        read_produceResponse);
      mret match res with inl err => inl (0, err) | inr at_ => inr (nbytes, at_) end
    end.

(** The number of bytes and the error, as the Go methods return both. *)
Definition WriteCompressedMessages (writeTime now : Z) (codec : option CompressionCodec) (msgs : list Message) :
    cm (Z * option goerror) :=
  res ← writeCompressedMessages writeTime now codec msgs;
  mret match res with inl (nbytes, err) => (nbytes, Some err) | inr (nbytes, _) => (nbytes, None) end.

Definition WriteMessages (writeTime now : Z) (msgs : list Message) : cm (Z * option goerror) :=
  WriteCompressedMessages writeTime now None msgs.

Definition Write (writeTime now : Z) (b : bytes) : cm (Z * option goerror) :=
  WriteCompressedMessages writeTime now None
    [{| msg_Topic := []; msg_Partition := 0; msg_Offset := 0; msg_Key := None; msg_Value := b;
        msg_Headers := []; msg_Time := Time.zeroTime |}].

(** ** API versions *)

Definition read_ApiVersion : rd ApiVersion :=
  k ← readInt16; mn ← readInt16; mx ← readInt16;
  mret {| av_ApiKey := k; av_MinVersion := mn; av_MaxVersion := mx |}.

Definition read_apiVersionsResponse : rd (list ApiVersion) :=
  errorCode ← readInt16;
  arrSize ← readInt32;
  if arrSize <? 0 then throw (GoPanic "makeslice: len out of range")
  else
    r ← repeatM (Z.to_nat arrSize) read_ApiVersion;
    if negb (errorCode =? 0) then throw (KafkaError errorCode) else mret r.

Definition writeApiVersionsRequest (clientID : gostring) (id : Z) : list byte :=
  let h := dataHeader Api.apiVersionsRequest Api.v0 id clientID in
  requestHeader_writeTo (with_Size h (int32 (requestHeader_size h - 4))).

(** [ApiVersions] does not go through [do]: no error of the read closes the
    connection, and the end of the response is not checked. *)
Definition ApiVersions : cm (list ApiVersion) :=
  c ← get;
  id ← doRequest rdeadline (λ _ id, Done (writeApiVersionsRequest (cfg_clientID (c_cfg c)) id));
  size ← waitResponse id;
  res ← read_rbuf read_apiVersionsResponse size;
  match res with inl err => fail err | inr r => mret r end.

Definition api_version (key v : Z) : Z * ApiVersion :=
  (key, {| av_ApiKey := key; av_MinVersion := v; av_MaxVersion := v |}).

Definition defaultApiVersions : gmap Z ApiVersion := list_to_map [
  api_version Api.produceRequest 2; api_version Api.fetchRequest 2;
  api_version Api.listOffsetRequest 1; api_version Api.metadataRequest 1;
  api_version Api.offsetCommitRequest 2; api_version Api.offsetFetchRequest 1;
  api_version Api.groupCoordinatorRequest 0; api_version Api.joinGroupRequest 1;
  api_version Api.heartbeatRequest 0; api_version Api.leaveGroupRequest 0;
  api_version Api.syncGroupRequest 0; api_version Api.describeGroupsRequest 1;
  api_version Api.listGroupsRequest 1; api_version Api.apiVersionsRequest 0;
  api_version Api.createTopicsRequest 0; api_version Api.deleteTopicsRequest 1].

(** The version of fetch requests: only the entry whose own key is the fetch
    request counts. *)
Definition chooseFetchVersion (versions : gmap Z ApiVersion) : Z :=
  map_fold (λ _ v fetch,
    if av_ApiKey v =? Api.fetchRequest then if av_MaxVersion v >=? 5 then 5 else 2 else fetch)
    0 versions.

Definition selectVersions : cm unit := λ c,
  match ApiVersions c with
  | (Diverged, c) => (Diverged, c)
  | (res, c) =>
    let versions := match res with
                    | Done vs => assign_all ∅ (map (λ v, (av_ApiKey v, v)) vs)
                    | _ => defaultApiVersions
                    end in
    let cfg := c_cfg c in
    (Done tt, {| c_cfg := {| cfg_clientID := cfg_clientID cfg; cfg_topic := cfg_topic cfg;
                             cfg_partition := cfg_partition cfg;
                             cfg_fetchMaxBytes := cfg_fetchMaxBytes cfg;
                             cfg_fetchMinSize := cfg_fetchMinSize cfg; cfg_apiVersions := versions;
                             cfg_fetchVersion := chooseFetchVersion versions |};
                 c_rbuf := c_rbuf c; c_out := c_out c; c_werr := c_werr c; c_closed := c_closed c;
                 c_offset := c_offset c; c_correlationID := c_correlationID c;
                 c_requiredAcks := c_requiredAcks c; c_rdeadline := c_rdeadline c;
                 c_wdeadline := c_wdeadline c |})
  end.

(** ** SASL *)

Definition saslHandshake (mechanism : gostring) : cm unit :=
  c ← get;
  let version := if maxVersion c Api.saslHandshakeRequest >=? 1 then Api.v1 else Api.v0 in
  resp ← call wdeadline Api.saslHandshakeRequest version {| shr_Mechanism := mechanism |};
  check [shs_ErrorCode resp] tt.

(** The bytes after a version 0 handshake are not framed as requests. *)
Definition saslAuthenticate_raw (data : bytes) : cm bytes :=
  _ ← flush (writeInt32 (int32 (len (bdata data))) ++ bdata data);
  n ← read_rbuf readInt32 4;
  match n with
  | inl err => fail err
  | inr respLen =>
    resp ← read_rbuf (readNewBytes respLen) respLen;
    match resp with inl err => fail err | inr b => mret b end
  end.

Definition saslAuthenticate (data : bytes) : cm bytes :=
  c ← get;
  if maxVersion c Api.saslHandshakeRequest >=? 1 then
    resp ← call wdeadline Api.saslAuthenticateRequest Api.v0 {| sar_Data := data |};
    check [sas_ErrorCode resp] (sas_Data resp)
  else saslAuthenticate_raw data.

(** ** [NewConnWith] *)

Definition zeroItem : messageSetItem :=
  {| msi_Offset := 0; msi_MessageSize := 0;
     msi_Message := {| m_CRC := 0; m_MagicByte := 0; m_Attributes := 0; m_Timestamp := 0;
                       m_Key := None; m_Value := None |} |}.

(** The control data of a fetch response for one empty message. *)
Definition fetchMinSize_of (topic : gostring) (partition : Z) : Z :=
  size {| fs_ThrottleTime := 0;
          fs_Topics := [{| fstp_TopicName := topic;
            fstp_Partitions := [{| fsp_Partition := partition; fsp_ErrorCode := 0;
                                   fsp_HighwaterMarkOffset := 0; fsp_MessageSetSize := 0;
                                   fsp_MessageSet := [zeroItem] |}] |}] |}.

Definition maxInt32 : Z := 2 ^ 31 - 1.

(** A connection over the network connection that delivers [rbuf] and fails
    writes with [werr]; [defaultClientID] is the package's variable. *)
Definition NewConnWith (defaultClientID : gostring) (rbuf : bufreader) (werr : option goerror)
    (clientID topic : gostring) (partition : Z) : outcome conn :=
  let clientID := if decide (clientID = []) then defaultClientID else clientID in
  if (partition <? 0) || (partition >? maxInt32) then Failed (GoPanic "invalid partition number")
  else
    let minSize := fetchMinSize_of topic (int32 partition) in
    let c := {| c_cfg := {| cfg_clientID := clientID; cfg_topic := topic;
                            cfg_partition := int32 partition; cfg_fetchMaxBytes := 0;
                            cfg_fetchMinSize := minSize; cfg_apiVersions := ∅; cfg_fetchVersion := 0 |};
                c_rbuf := rbuf; c_out := []; c_werr := werr; c_closed := false;
                c_offset := FirstOffset; c_correlationID := 0; c_requiredAcks := -1;
                c_rdeadline := Time.zeroTime; c_wdeadline := Time.zeroTime |} in
    match selectVersions c with
    | (Done _, c) =>
      let cfg := c_cfg c in
      Done {| c_cfg := {| cfg_clientID := cfg_clientID cfg; cfg_topic := cfg_topic cfg;
                          cfg_partition := cfg_partition cfg;
                          cfg_fetchMaxBytes := int32 (maxInt32 - cfg_fetchMinSize cfg);
                          cfg_fetchMinSize := cfg_fetchMinSize cfg;
                          cfg_apiVersions := cfg_apiVersions cfg;
                          cfg_fetchVersion := cfg_fetchVersion cfg |};
              c_rbuf := c_rbuf c; c_out := c_out c; c_werr := c_werr c; c_closed := c_closed c;
              c_offset := c_offset c; c_correlationID := c_correlationID c;
              c_requiredAcks := c_requiredAcks c; c_rdeadline := c_rdeadline c;
              c_wdeadline := c_wdeadline c |}
    | (Failed e, _) => Failed e
    | (Diverged, _) => Diverged
    end.
