(* ===== verification/Dialer.v ===== *)
(** * Dialing brokers (dialer.go, sasl/sasl.go, sasl/plain/plain.go)

    The resolver, the network and the TLS handshake are arguments: what they
    return for an address.  A mechanism of SASL is a record of its two methods
    and of the state that they share.  A context is what the code observes of
    it: whether a pause before an attempt ran to its end, and whether it was
    done before an answer came. *)

From S2P Require Import Prelude Errors Time Bufio Read Write VarInt Wire.
From S2P Require Import Protocol TopicMessages SaslMessages Conn ConnOps.

(** ** Addresses (net and strconv) *)

Definition colon : byte := byte_of_Z 58.
Definition lbracket : byte := byte_of_Z 91.
Definition rbracket : byte := byte_of_Z 93.

(** [strings.IndexByte] and [strings.LastIndex]. *)
Definition index (b : byte) (s : gostring) : option nat := fst <$> list_find (λ x, x = b) s.
Definition lastIndex (b : byte) (s : gostring) : option nat :=
  (λ i, length s - 1 - i)%nat <$> index b (reverse s).

Definition JoinHostPort (host port : gostring) : gostring :=
  match index colon host with
  | Some _ => lbracket :: host ++ rbracket :: colon :: port
  | None => host ++ colon :: port
  end.

(** [net.SplitHostPort]; [None] is an error. *)
Definition SplitHostPort (hostport : gostring) : option (gostring * gostring) :=
  i ← lastIndex colon hostport;
  if decide (head hostport = Some lbracket) then
    e ← index rbracket hostport;
    if decide (S e = i) then
      if decide (index lbracket (drop 1 hostport) = None ∧ index rbracket (drop (S e) hostport) = None)
      then Some (drop 1 (take e hostport), drop (S i) hostport) else None
    else None
  else
    if decide (index colon (take i hostport) = None ∧ index lbracket hostport = None ∧
               index rbracket hostport = None)
    then Some (take i hostport, drop (S i) hostport) else None.

Definition splitHostPort (s : gostring) : gostring * gostring :=
  match SplitHostPort s with
  | Some (host, port) => if decide (host = [] ∧ port = []) then (s, []) else (host, port)
  | None => (s, [])
  end.

(** [strconv.Itoa]: an int has at most 19 digits. *)
Definition digit (n : Z) : byte := byte_of_Z (48 + n).

Fixpoint digits (fuel : nat) (n : Z) (acc : gostring) : gostring :=
  match fuel with
  | O => acc
  | S fuel => if n <? 10 then digit n :: acc else digits fuel (n / 10) (digit (n mod 10) :: acc)
  end.

Definition itoa (n : Z) : gostring :=
  if n <? 0 then byte_of_Z 45 :: digits 20 (- n) [] else digits 20 n [].

(** ** Mechanisms *)

Record Mechanism : Type := {
  me_state : Type;
  me_init : me_state;
  me_Start : me_state → (goerror + gostring * bytes) * me_state;
  me_Next : me_state → bytes → (goerror + bool * bytes) * me_state;
}.

Definition PLAIN : gostring := map byte_of_Z [80; 76; 65; 73; 78].

Definition plain (username password : gostring) : Mechanism :=
  {| me_state := unit; me_init := tt;
     me_Start := λ s, (inr (PLAIN, Some (byte_of_Z 0 :: username ++ byte_of_Z 0 :: password)), s);
     me_Next := λ s _, (inr (true, None), s) |}.

(** The loop of [authenticateSASL]; [fuel] bounds the number of challenges. *)
Fixpoint authenticate_loop (m : Mechanism) (fuel : nat) (s : me_state m) (state : bytes) : cm unit := λ c,
  match fuel with
  | O => (Diverged, c)
  | S fuel =>
    match saslAuthenticate state c with
    | (Failed EOF, c) => (Failed (KafkaError Code.SASLAuthenticationFailed), c)
    | (Failed err, c) => (Failed err, c)
    | (Diverged, c) => (Diverged, c)
    | (Done challenge, c) =>
      match me_Next m s challenge with
      | (inl err, _) => (Failed err, c)
      | (inr (true, _), _) => (Done tt, c)
      | (inr (false, state), s) => authenticate_loop m fuel s state c
      end
    end
  end.

Definition authenticateSASL (m : Mechanism) (fuel : nat) : cm unit :=
  match me_Start m (me_init m) with
  | (inl err, _) => fail err
  | (inr (mech, state), s) => _ ← saslHandshake mech; authenticate_loop m fuel s state
  end.

(** ** The dialer *)

(** What [NewConnWith] takes from a [net.Conn]. *)
Definition netconn : Type := bufreader * option goerror.

Record network : Type := {
  nw_dial : gostring → goerror + netconn;
  nw_handshake : gostring → netconn → goerror + netconn;
}.

Record Dialer : Type := {
  d_ClientID : gostring;
  d_Resolver : option (gostring → goerror + list gostring);
  d_TLS : option gostring;
  d_SASLMechanism : option Mechanism;
}.

(** The address that is dialed. *)
Definition resolved (resolver : option (gostring → goerror + list gostring)) (address : gostring) :
    goerror + gostring :=
  match resolver with
  | None => inr address
  | Some lookupHost =>
    let '(host, port) := splitHostPort address in
    match lookupHost host with
    | inl err => inl err
    | inr addrs =>
      let address := default address (head addrs) in
      inr (if decide (port = []) then address else JoinHostPort (splitHostPort address).1 port)
    end
  end.

(** The name that TLS checks: the one of the configuration, or the host that
    is dialed. *)
Definition serverName (configured address : gostring) : gostring :=
  if decide (configured = []) then
    match lastIndex colon address with Some i => take i address | None => address end
  else configured.

Definition dialContext (d : Dialer) (nw : network) (address : gostring) : goerror + netconn :=
  match resolved (d_Resolver d) address with
  | inl err => inl err
  | inr address =>
    match nw_dial nw address with
    | inl err => inl err
    | inr nc =>
      match d_TLS d with
      | Some name => nw_handshake nw (serverName name address) nc
      | None => inr nc
      end
    end
  end.

Section dialer.
Context (defaultClientID : gostring) (d : Dialer) (nw : network) (fuel : nat).

Definition Dialer_connect (address topic : gostring) (partition : Z) : outcome conn :=
  match dialContext d nw address with
  | inl err => Failed err
  | inr (rbuf, werr) =>
    match NewConnWith defaultClientID rbuf werr (d_ClientID d) topic partition with
    | Done c =>
      match d_SASLMechanism d with
      | None => Done c
      | Some m =>
        match authenticateSASL m fuel c with
        | (Done _, c) => Done c
        | (Failed err, _) => Failed err
        | (Diverged, _) => Diverged
        end
      end
    | Failed err => Failed err
    | Diverged => Diverged
    end
  end.

Definition DialContext (address : gostring) : outcome conn := Dialer_connect address [] 0.

(** The deadline of the context that [DialContext] gives to [connect]: [ctx] is
    the one of the caller, if it has one. *)
Definition earlier (ctx : option Z) (t : Z) : option Z :=
  Some (match ctx with Some t' => Z.min t' t | None => t end).

Definition DialContext_deadline (timeout deadline now : Z) (ctx : option Z) : option Z :=
  let ctx := if timeout =? 0 then ctx else earlier ctx (Time.Add now timeout) in
  if Time.IsZero deadline then ctx else earlier ctx deadline.

(** The one that [DialPartition] gives to it. *)
Definition DialPartition_deadline (timeout deadline now : Z) (ctx : option Z) : option Z := ctx.

Definition DialPartition (p : Partition) : outcome conn :=
  Dialer_connect (JoinHostPort (br_Host (pt_Leader p)) (itoa (br_Port (pt_Leader p)))) (pt_Topic p) (pt_ID p).

(** ** Looking partitions up *)

(** [cx_awake n]: the pause before attempt [n] ran to its end; [cx_done]: the
    context was done before an answer came; [cx_err]: its error. *)
Record context : Type := { cx_awake : nat → bool; cx_done : bool; cx_err : goerror }.

(** The goroutine of [LookupPartition]. *)
Fixpoint lookup_loop (tries : nat) (ctx : context) (attempt : nat) (topic : gostring) (partition : Z) :
    cm Partition := λ c,
  match tries with
  | O => (Diverged, c)
  | S tries =>
    if negb (attempt =? 0)%nat && negb (cx_awake ctx attempt) then (Failed (cx_err ctx), c)
    else
      match ReadPartitions [topic] c with
      | (Diverged, c) => (Diverged, c)
      | (Failed err, c) =>
        if isTemporary (Some err) then lookup_loop tries ctx (S attempt) topic partition c else (Failed err, c)
      | (Done partitions, c) =>
        match list_find (λ p, pt_ID p = partition) partitions with
        | Some (_, p) => (Done p, c)
        | None => lookup_loop tries ctx (S attempt) topic partition c
        end
      end
  end.

Definition LookupPartition (tries : nat) (ctx : context) (address topic : gostring) (partition : Z) :
    outcome Partition :=
  match DialContext address with
  | Done c => if cx_done ctx then Failed (cx_err ctx) else (lookup_loop tries ctx 0 topic partition c).1
  | Failed err => Failed err
  | Diverged => Diverged
  end.

Definition LookupLeader (tries : nat) (ctx : context) (address topic : gostring) (partition : Z) :
    outcome Broker :=
  match LookupPartition tries ctx address topic partition with
  | Done p => Done (pt_Leader p)
  | Failed err => Failed err
  | Diverged => Diverged
  end.

Definition LookupPartitions (ctx : context) (address topic : gostring) : outcome (list Partition) :=
  match DialContext address with
  | Done c => if cx_done ctx then Failed (cx_err ctx) else (ReadPartitions [topic] c).1
  | Failed err => Failed err
  | Diverged => Diverged
  end.

Definition DialLeader (tries : nat) (ctx : context) (address topic : gostring) (partition : Z) : outcome conn :=
  match LookupPartition tries ctx address topic partition with
  | Done p => DialPartition p
  | Failed err => Failed err
  | Diverged => Diverged
  end.

End dialer.

(** ** Lemmas: addresses *)

Lemma index_None b s : index b s = None ↔ b ∉ s.
Proof.
  unfold index. rewrite fmap_None, list_find_None, Forall_forall. split.
  - intros H Hb. by eapply H.
  - intros H x Hx ->. done.
Qed.

Lemma index_app b l r : b ∉ l → index b (l ++ b :: r) = Some (length l).
Proof.
  intros H. unfold index. rewrite list_find_app_r.
  - cbn. rewrite decide_True by done. cbn. by f_equal.
  - apply list_find_None, Forall_forall. intros x Hx ->. done.
Qed.

Lemma lastIndex_app b l r : b ∉ r → lastIndex b (l ++ b :: r) = Some (length l).
Proof.
  intros H. unfold lastIndex. rewrite reverse_app, reverse_cons, <- app_assoc. cbn [app].
  rewrite index_app by (by rewrite elem_of_reverse). cbn. f_equal.
  rewrite length_app, length_reverse. cbn. lia.
Qed.

(** A host or a port without the bytes that delimit them. *)
Definition no_brackets (s : gostring) : Prop := (lbracket ∉ s) ∧ (rbracket ∉ s).

Lemma split_join host port :
  no_brackets host → no_brackets port → colon ∉ port →
  SplitHostPort (JoinHostPort host port) = Some (host, port).
Proof.
  intros [Hl Hr] [Hl' Hr'] Hc. unfold JoinHostPort, SplitHostPort.
  destruct (index colon host) as [k|] eqn:Ek.
  - replace (lbracket :: host ++ rbracket :: colon :: port)
      with ((lbracket :: host ++ [rbracket]) ++ colon :: port) by (cbn; by rewrite <- app_assoc).
    rewrite lastIndex_app by done. cbn [mbind option_bind].
    rewrite decide_True by done.
    assert (index rbracket ((lbracket :: host ++ [rbracket]) ++ colon :: port) = Some (S (length host))) as ->.
    { change (S (length host)) with (length (lbracket :: host)). rewrite <- (index_app rbracket (lbracket :: host) (colon :: port)).
      - cbn. by rewrite <- app_assoc.
      - rewrite not_elem_of_cons. by split. }
    cbn [mbind option_bind]. rewrite decide_True by (cbn; rewrite length_app; cbn; lia).
    rewrite decide_True.
    + f_equal. f_equal.
      * cbn. rewrite <- app_assoc. cbn. rewrite drop_0. by rewrite take_app_length.
      * change (S (length (lbracket :: host ++ [rbracket]))) with (1 + length (lbracket :: host ++ [rbracket]))%nat.
        rewrite Nat.add_comm, <- drop_drop, drop_app_length. done.
    + split; apply index_None.
      * cbn. rewrite drop_0, !elem_of_app, !elem_of_cons. intros [[?|[?|?%elem_of_nil]]|[?|?]]; done.
      * rewrite drop_app_length' by (cbn; rewrite length_app; cbn; lia). rewrite elem_of_cons. by intros [?|?].
  - rewrite lastIndex_app by done. cbn [mbind option_bind]. apply index_None in Ek as Ek'.
    rewrite decide_False.
    2: { destruct host as [|h host]; [done|]. cbn. intros [= ->]. apply Hl. apply list_elem_of_here. }
    rewrite take_app_length. rewrite decide_True.
    + f_equal. f_equal. rewrite <- Nat.add_1_r, <- drop_drop, drop_app_length. done.
    + split; [done|]. split; apply index_None; rewrite elem_of_app, elem_of_cons; intros [?|[?|?]]; done.
Qed.

Lemma splitHostPort_join host port :
  no_brackets host → no_brackets port → colon ∉ port → port ≠ [] →
  splitHostPort (JoinHostPort host port) = (host, port).
Proof.
  intros. unfold splitHostPort. rewrite split_join by done. by rewrite decide_False by naive_solver.
Qed.

(** The value of a decimal numeral. *)
Definition decimal (s : gostring) : Z := fold_left (λ acc b, acc * 10 + (Z_of_byte b - 48)) s 0.

Lemma decimal_acc s acc :
  fold_left (λ acc b, acc * 10 + (Z_of_byte b - 48)) s acc = acc * 10 ^ len s + decimal s.
Proof.
  unfold decimal. revert acc. induction s as [|b s IH]; intros acc; cbn [fold_left]; [rewrite len_nil; lia|].
  rewrite IH, (IH (0 * 10 + _)), len_cons, Z.pow_add_r by (pose proof (len_nonneg s); lia). lia.
Qed.

Lemma Z_of_digit n : 0 ≤ n < 10 → Z_of_byte (digit n) = 48 + n.
Proof. intros. unfold digit. rewrite Z_of_byte_of_Z. rewrite Z.mod_small; lia. Qed.

Lemma digits_value fuel n acc :
  0 ≤ n < 10 ^ Z.of_nat fuel → decimal (digits fuel n acc) = n * 10 ^ len acc + decimal acc.
Proof.
  revert n acc. induction fuel as [|fuel IH]; intros n acc Hn; cbn [digits].
  { change (10 ^ Z.of_nat 0) with 1 in Hn. replace n with 0 by lia. lia. }
  destruct (Z.ltb_spec n 10).
  - unfold decimal at 1. cbn [fold_left]. rewrite decimal_acc, Z_of_digit by lia. lia.
  - rewrite Nat2Z.inj_succ, Z.pow_succ_r in Hn by lia.
    rewrite IH by (split; [apply Z.div_pos; lia|apply Z.div_lt_upper_bound; lia]).
    unfold decimal at 1. cbn [fold_left]. rewrite decimal_acc, Z_of_digit by (apply Z.mod_pos_bound; lia).
    rewrite len_cons, Z.pow_add_r by (pose proof (len_nonneg acc); lia).
    rewrite (Z.div_mod n 10) at 3 by lia. lia.
Qed.

Lemma digits_range fuel n acc :
  0 ≤ n → Forall (λ b, 48 ≤ Z_of_byte b < 58) acc → Forall (λ b, 48 ≤ Z_of_byte b < 58) (digits fuel n acc).
Proof.
  revert n acc. induction fuel as [|fuel IH]; intros n acc Hn Ha; cbn [digits]; [done|].
  destruct (Z.ltb_spec n 10).
  - constructor; [|done]. rewrite Z_of_digit; lia.
  - apply IH; [apply Z.div_pos; lia|]. constructor; [|done].
    pose proof (Z.mod_pos_bound n 10). rewrite Z_of_digit; lia.
Qed.

Lemma digits_nonempty fuel n acc : fuel ≠ 0%nat ∨ acc ≠ [] → digits fuel n acc ≠ [].
Proof.
  revert n acc. induction fuel as [|fuel IH]; intros n acc H; cbn [digits]; [naive_solver|].
  destruct (n <? 10); [done|]. apply IH. by right.
Qed.

Lemma itoa_plain n : 0 ≤ n → no_brackets (itoa n) ∧ (colon ∉ itoa n) ∧ itoa n ≠ [].
Proof.
  intros Hn. unfold itoa. rewrite (proj2 (Z.ltb_ge _ _)) by lia.
  pose proof (digits_range 20 n [] Hn (Forall_nil_2 _)) as Hr. rewrite Forall_forall in Hr.
  split; [split|split]; [intros Hin%Hr; by destruct Hin..|].
  apply digits_nonempty. by left.
Qed.
