(* ===== verification/DialTLS.v ===== *)
(** * The TLS handshake of the dialer ([connectTLS] of dialer.go)

    Two goroutines, the caller and the one that runs the handshake, meet on a
    channel without a buffer; the context of the caller may end first. *)

From S2P Require Import Prelude Errors.

(** The caller: in its [select], waiting for the handshake after it closed the
    connections, returned. *)
Inductive tls_caller : Type := TSelect | TDrain (e : goerror) | TReturned (err : option goerror).

(** The goroutine: in [Handshake], sending its result, ended. *)
Inductive tls_worker : Type := GHandshake | GSend (err : option goerror) | GEnded.

Record tls : Type := { tl_caller : tls_caller; tl_worker : tls_worker; tl_closed : bool }.

Definition tls_init : tls := {| tl_caller := TSelect; tl_worker := GHandshake; tl_closed := false |}.

Inductive tls_event : Type :=
| THandshake (err : option goerror)   (* Handshake returns *)
| TDone (e : goerror)                 (* the select takes ctx.Done *)
| TMeet.                              (* the channel passes the result *)

Definition tls_step (ev : tls_event) (s : tls) : option tls :=
  match ev, tl_caller s, tl_worker s with
  | THandshake err, caller, GHandshake => Some {| tl_caller := caller; tl_worker := GSend err; tl_closed := tl_closed s |}
  | TDone e, TSelect, worker => Some {| tl_caller := TDrain e; tl_worker := worker; tl_closed := true |}
  | TMeet, TSelect, GSend err => Some {| tl_caller := TReturned err; tl_worker := GEnded; tl_closed := tl_closed s |}
  | TMeet, TDrain e, GSend _ => Some {| tl_caller := TReturned (Some e); tl_worker := GEnded; tl_closed := tl_closed s |}
  | _, _, _ => None
  end.

Fixpoint tls_run (evs : list tls_event) (s : tls) : option tls :=
  match evs with
  | [] => Some s
  | ev :: evs => s ← tls_step ev s; tls_run evs s
  end.

Definition handshakes (evs : list tls_event) : list (option goerror) :=
  omap (λ ev, match ev with THandshake err => Some err | _ => None end) evs.

(** What a run has done. *)
Record tls_inv (done : list (option goerror)) (s : tls) : Prop := {
  ti_worker : match tl_worker s with
              | GHandshake => done = []
              | GSend err => done = [err]
              | GEnded => ∃ err, done = [err] ∧ (tl_closed s = false → tl_caller s = TReturned err)
              end;
  ti_caller : match tl_caller s with
              | TSelect => tl_worker s ≠ GEnded ∧ tl_closed s = false
              | TDrain _ => tl_worker s ≠ GEnded ∧ tl_closed s = true
              | TReturned err => tl_worker s = GEnded ∧ (tl_closed s = true → err ≠ None)
              end;
}.

Lemma tls_step_inv done ev s s' :
  tls_inv done s → tls_step ev s = Some s' → tls_inv (done ++ handshakes [ev]) s'.
Proof.
  intros [Hw Hc] E. destruct s as [caller worker closed].
  destruct ev as [err|e|], caller as [|e0|err0], worker as [|err1|]; cbn in *; simplify_eq; rewrite ?app_nil_r;
    constructor; cbn; destruct_and?; subst; eauto; naive_solver.
Qed.

Lemma tls_run_inv done evs s s' :
  tls_inv done s → tls_run evs s = Some s' → tls_inv (done ++ handshakes evs) s'.
Proof.
  revert done s. induction evs as [|ev evs IH]; intros done s Hi E; cbn in E.
  { injection E as <-. cbn. by rewrite app_nil_r. }
  apply bind_Some in E as (s1 & E1 & E). apply (tls_step_inv _ _ _ _ Hi) in E1. specialize (IH _ _ E1 E).
  rewrite <- app_assoc in IH. by destruct ev.
Qed.

(** Fact tls_joined: [connectTLS] returns only after its goroutine has ended; it returns nil only
    when the handshake succeeded and the connection is open, and when it closed the
    connection it returns the error of the context.  It waits for the handshake at
    most. *)
Theorem tls_joined evs s :
  tls_run evs tls_init = Some s →
  (∀ err, tl_caller s = TReturned err →
     tl_worker s = GEnded ∧ (err = None → handshakes evs = [None] ∧ tl_closed s = false)) ∧
  ((∃ err, tl_caller s = TReturned err) ∨ tl_worker s = GHandshake ∨ ∃ s', tls_step TMeet s = Some s').
Proof.
  intros E. assert (tls_inv [] tls_init) as H0 by (by constructor).
  pose proof (tls_run_inv _ _ _ _ H0 E) as [Hw Hc]. cbn in Hw. destruct s as [caller worker closed]. cbn in *. split.
  - intros err ->. destruct Hc as [-> Hn]. split; [done|]. intros ->. destruct closed; [by destruct Hn|].
    destruct Hw as (err & -> & H1). by injection (H1 eq_refl) as ->.
  - destruct caller; [| |by left; eexists]; right; (destruct worker as [|err|]; [by left|right; by eexists|by destruct Hc]).
Qed.

Lemma tls_joined_witness :
  ∃ s, tls_run [TDone ContextCanceled; THandshake (Some EOF); TMeet] tls_init = Some s ∧ tl_worker s = GEnded.
Proof.
  eexists. split; [reflexivity|].
  exact (proj1 (proj1 (tls_joined [TDone ContextCanceled; THandshake (Some EOF); TMeet] _ eq_refl) _ eq_refl)).
Defined.

(** Finding tls_leak: a handshake that fails leaves the network connection open, and the caller of
    [connectTLS] has no other reference to it: it returns the error. *)
Lemma tls_leak err :
  tls_run [THandshake (Some err); TMeet] tls_init =
  Some {| tl_caller := TReturned (Some err); tl_worker := GEnded; tl_closed := false |}.
Proof. done. Qed.
