(* ===== verification/Codecs.v ===== *)
(** * Compression codecs and SCRAM (gzip/, snappy/, lz4/, sasl/scram)

    These packages wrap libraries, which are arguments here: the block format of
    snappy is a pair of functions, a stream codec is a record of the methods of
    its reader and its writer, and a SCRAM client is a record of its
    conversations.  What is modelled is what the wrappers add: the framing that
    snappy-java puts around blocks, the pools of readers and writers, and the
    order in which a mechanism steps its conversation. *)

From S2P Require Import Prelude Errors Read Messages Conn Dialer.

(** ** Slices *)

(** A slice and what its array has behind it, which a slice expression may
    reach. *)
Record slice : Type := { sl_bytes : list byte; sl_spare : list byte }.

Definition out_of_range : goerror := GoPanic "slice bounds out of range".

(** [s[lo:hi]]. *)
Definition sl_range (s : slice) (lo hi : Z) : outcome (list byte) :=
  let array := sl_bytes s ++ sl_spare s in
  if (0 <=? lo) && (lo <=? hi) && (hi <=? len array)
  then Done (ztake (hi - lo) (zdrop lo array)) else Failed out_of_range.

Lemma uint32_id z : 0 ≤ z < 2 ^ 32 → uint32 z = z.
Proof. apply Z.mod_small. Qed.

(** What a caller of a codec sees; the loop of [decode] ends. *)
Definition to_result {A} (o : outcome A) : goerror + A :=
  match o with Done a => inr a | Failed e => inl e | Diverged => inl (GoPanic "no end") end.

(** ** snappy *)

Module Snappy.
Section snappy.
(** [snappy.Encode(nil, src)] and [snappy.Decode(dst, src)]. *)
Context (block_encode : list byte → list byte) (block_decode : list byte → goerror + list byte).

Definition SnappyCode : Z := 2.

Definition xerialHeader : list byte := map byte_of_Z [130; 83; 78; 65; 80; 80; 89; 0].

(** The loop over the chunks: a size of four bytes and a block. *)
Fixpoint decode_loop (fuel : nat) (src : slice) (max pos : Z) (dst : list byte) : outcome (list byte) :=
  match fuel with
  | O => Diverged
  | S fuel =>
    if pos <? max then
      word ← sl_range src pos (uint32 (pos + 4));
      let size := be_get word in
      let pos := uint32 (pos + 4) in
      block ← sl_range src pos (uint32 (pos + size));
      chunk ← may_fail (block_decode block);
      decode_loop fuel src max (uint32 (pos + size)) (dst ++ chunk)
    else Done dst
  end.

Definition decode (src : slice) : outcome (list byte) :=
  header ← sl_range src 0 8;
  if decide (header = xerialHeader) then
    decode_loop (S (length (sl_bytes src))) src (uint32 (len (sl_bytes src))) 16 []
  else may_fail (block_decode (sl_bytes src)).

(** The codec on slices that fill their arrays, as the reader of a response
    allocates them. *)
Definition codec : CompressionCodec :=
  {| Code := SnappyCode; Encode := λ src, inr (block_encode src);
     Decode := λ src, to_result (decode {| sl_bytes := src; sl_spare := [] |}) |}.

(** *** The framing *)

(** What snappy-java writes: the header, eight bytes of versions, and chunks. *)
Definition xerial_chunk (block : list byte) : list byte := be_put 4 (len block) ++ block.

Definition xerial_frame (versions : list byte) (blocks : list (list byte)) : list byte :=
  xerialHeader ++ versions ++ concat (map xerial_chunk blocks).

Lemma sl_range_app a b c lo hi spare :
  lo = len a → hi = len a + len b → sl_range {| sl_bytes := a ++ b ++ c; sl_spare := spare |} lo hi = Done b.
Proof.
  intros -> ->. pose proof (len_nonneg a). pose proof (len_nonneg b). unfold sl_range. cbn [sl_bytes sl_spare].
  rewrite <- !app_assoc, (proj2 (Z.leb_le 0 (len a))), (proj2 (Z.leb_le (len a) _)), (proj2 (Z.leb_le (len a + len b) _)).
  - cbn [andb]. rewrite zdrop_app by done. by rewrite ztake_app by lia.
  - rewrite !len_app. pose proof (len_nonneg c). pose proof (len_nonneg spare). lia.
  - lia.
  - lia.
Qed.

Lemma decode_loop_frame fuel pre blocks chunks dst spare :
  Forall2 (λ block chunk, block_decode block = inr chunk) blocks chunks →
  len (pre ++ concat (map xerial_chunk blocks)) < 2 ^ 32 → (length blocks < fuel)%nat →
  decode_loop fuel {| sl_bytes := pre ++ concat (map xerial_chunk blocks); sl_spare := spare |}
    (len (pre ++ concat (map xerial_chunk blocks))) (len pre) dst = Done (dst ++ concat chunks).
Proof.
  intros Hb. revert fuel pre dst. induction Hb as [|block chunk blocks chunks Hd Hb IH]; intros fuel pre dst Hl Hf.
  { destruct fuel as [|fuel]; [cbn in Hf; lia|]. cbn [decode_loop map concat]. rewrite !app_nil_r.
    by rewrite Z.ltb_irrefl. }
  destruct fuel as [|fuel]; [cbn in Hf; lia|]. cbn [map concat decode_loop length] in *.
  set (rest := concat (map xerial_chunk blocks)) in *. unfold xerial_chunk in *.
  assert (len (pre ++ (be_put 4 (len block) ++ block) ++ rest) = len pre + 4 + len block + len rest) as El.
  { rewrite !len_app, len_be_put. lia. }
  pose proof (len_nonneg pre). pose proof (len_nonneg block). pose proof (len_nonneg rest). rewrite El in *.
  rewrite (proj2 (Z.ltb_lt _ _)) by lia.
  rewrite (uint32_id (len pre + 4)) by lia. rewrite <- (app_assoc (be_put 4 (len block))).
  rewrite sl_range_app by (rewrite ?len_be_put; lia). rewrite outcome_bind_done, be_get_put.
  change (256 ^ Z.of_nat 4) with (2 ^ 32). rewrite Z.mod_small by lia. rewrite (uint32_id (len pre + 4 + len block)) by lia.
  rewrite (app_assoc pre), (sl_range_app _ block) by (rewrite len_app, len_be_put; lia).
  rewrite outcome_bind_done, Hd. cbn [may_fail]. rewrite outcome_bind_done.
  rewrite (app_assoc _ block). specialize (IH fuel ((pre ++ be_put 4 (len block)) ++ block) (dst ++ chunk)).
  fold rest in IH.
  assert (len (((pre ++ be_put 4 (len block)) ++ block) ++ rest) = len pre + 4 + len block + len rest) as El'.
  { rewrite !len_app, len_be_put. lia. }
  assert (len ((pre ++ be_put 4 (len block)) ++ block) = len pre + 4 + len block) as El''.
  { rewrite !len_app, len_be_put. lia. }
  rewrite El', El'' in IH. rewrite IH by (try done; lia). cbn [concat]. by rewrite <- app_assoc.
Qed.

Lemma frame_blocks blocks : (length blocks ≤ length (concat (map xerial_chunk blocks)))%nat.
Proof.
  induction blocks as [|b bs IH]; [done|]. cbn [map concat length]. rewrite length_app. unfold xerial_chunk at 1.
  rewrite length_app, length_be_put. lia.
Qed.

(** *** The loop ends *)

Lemma sl_range_bounds s lo hi l : sl_range s lo hi = Done l → 0 ≤ lo ≤ hi ∧ len l = hi - lo ∧ hi ≤ len (sl_bytes s ++ sl_spare s).
Proof.
  unfold sl_range. intros E. destruct (_ && _) eqn:H; [|done]. injection E as <-.
  rewrite !andb_true_iff, !Z.leb_le in H. destruct H as [[H1 H2] H3]. split; [lia|]. split; [|done].
  rewrite len_ztake; [done|]. rewrite len_zdrop; lia.
Qed.

Lemma sl_range_done s lo hi : sl_range s lo hi ≠ Diverged.
Proof. unfold sl_range. by destruct (_ && _). Qed.

Lemma decode_loop_ends fuel src max pos dst :
  0 ≤ pos → (0 < fuel)%nat → max - pos < Z.of_nat fuel → decode_loop fuel src max pos dst ≠ Diverged.
Proof.
  revert pos dst. induction fuel as [|fuel IH]; intros pos dst Hp Hf0 Hf; [lia|]. cbn [decode_loop].
  destruct (Z.ltb_spec pos max); [|done].
  destruct (sl_range src pos (uint32 (pos + 4))) as [word|e|] eqn:E1; [|done|by destruct (sl_range_done _ _ _ E1)].
  rewrite outcome_bind_done. apply sl_range_bounds in E1 as (H1 & _ & _). cbn zeta.
  destruct (sl_range src (uint32 (pos + 4)) _) as [block|e|] eqn:E2; [|done|by destruct (sl_range_done _ _ _ E2)].
  rewrite outcome_bind_done. apply sl_range_bounds in E2 as (H2 & _ & _).
  destruct (block_decode block) as [e|chunk]; [done|]. cbn [may_fail]. rewrite outcome_bind_done.
  assert (uint32 (pos + 4) ≠ pos) as Hne.
  { unfold wrapU. intros He. pose proof (Z.div_mod (pos + 4) (2 ^ 32)). lia. }
  apply IH; lia.
Qed.

(** *** Blocks *)

(** The start of a block, by the format of snappy: the length of the data as a
    varint, then, unless it is zero, a literal, whose tag ends in two zero
    bits. *)
Inductive starts_block : list byte → Prop :=
| starts_empty b : Z_of_byte b < 128 → starts_block [b]
| starts_literal b tag l : Z_of_byte b < 128 → Z.land (Z_of_byte tag) 3 = 0 → starts_block (b :: tag :: l)
| starts_more b l : 128 ≤ Z_of_byte b → starts_block l → starts_block (b :: l).

Lemma block_third b1 b2 b3 l :
  starts_block (b1 :: b2 :: b3 :: l) → 128 ≤ Z_of_byte b1 → Z_of_byte b2 < 128 → Z.land (Z_of_byte b3) 3 = 0.
Proof.
  intros Hs H1 H2. inversion Hs as [|? ? ? Hb|? ? _ Hs']; subst; [lia|].
  inversion Hs' as [|? ? ? _ Ht|? ? Hb _]; subst; [done|lia].
Qed.

(** No block starts like the header of the framing. *)
Lemma block_not_framed l : starts_block l → ztake 8 l ≠ xerialHeader.
Proof.
  intros Hs E. destruct l as [|b1 [|b2 [|b3 l]]]; try done. unfold ztake in E. cbn [take Z.to_nat Pos.to_nat] in E.
  assert (b1 = byte_of_Z 130 ∧ b2 = byte_of_Z 83 ∧ b3 = byte_of_Z 78) as (-> & -> & ->) by (by inversion E).
  by apply block_third in Hs.
Qed.
End snappy.
End Snappy.

(** ** Stream codecs: gzip and lz4 *)

Module Pooled.
(** The methods of a writer and a reader of package gzip or lz4.  A writer
    holds the buffer it writes to. *)
Record library : Type := {
  lb_writer : Type;
  lb_reader : Type;
  lb_NewWriter : lb_writer;
  lb_ResetWriter : lb_writer → lb_writer;
  lb_Write : list byte → lb_writer → option goerror * lb_writer;
  lb_Close : lb_writer → option goerror * lb_writer;
  lb_buffer : lb_writer → list byte;
  lb_NewReader : lb_reader;
  lb_ResetReader : list byte → lb_reader → option goerror * lb_reader;
  lb_ReadAll : lb_reader → (list byte * option goerror) * lb_reader;
}.

Section codec.
Context (lib : library).

(** [readerPool] and [writerPool]. *)
Record pools : Type := { po_writers : list (lb_writer lib); po_readers : list (lb_reader lib) }.

(** [Get] of a [sync.Pool] returns one of the objects, or a new one. *)
Definition pool_get {A} (choice : option nat) (new : A) (l : list A) : A * list A :=
  match choice ≫= λ k, (λ x, (x, delete k l)) <$> l !! k with Some r => r | None => (new, l) end.

Record stream_codec : Type := { sc_Code : Z; sc_level : Z }.

Definition GzipCode : Z := 1.
Definition Lz4Code : Z := 3.
Definition DefaultCompressionLevel : Z := -1.

Definition NewCompressionCodecWith (level : Z) : stream_codec := {| sc_Code := GzipCode; sc_level := level |}.
Definition NewCompressionCodec : stream_codec := NewCompressionCodecWith DefaultCompressionLevel.
Definition NewLz4CompressionCodec : stream_codec := {| sc_Code := Lz4Code; sc_level := 0 |}.

(** [Encode]: a writer that failed is not returned to the pool. *)
Definition stream_Encode (c : stream_codec) (choice : option nat) (src : list byte) (p : pools) :
    (goerror + list byte) * pools :=
  let '(w, writers) := pool_get choice (lb_NewWriter lib) (po_writers p) in
  let dropped := {| po_writers := writers; po_readers := po_readers p |} in
  match lb_Write lib src (lb_ResetWriter lib w) with
  | (Some err, _) => (inl err, dropped)
  | (None, w) =>
    match lb_Close lib w with
    | (Some err, _) => (inl err, dropped)
    | (None, w) => (inr (lb_buffer lib w), {| po_writers := w :: writers; po_readers := po_readers p |})
    end
  end.

(** [Decode]: a reader that failed is not returned either.  [Reset] of an lz4
    reader does not fail. *)
Definition stream_Decode (c : stream_codec) (choice : option nat) (src : list byte) (p : pools) :
    (list byte * option goerror) * pools :=
  let '(r, readers) := pool_get choice (lb_NewReader lib) (po_readers p) in
  let dropped := {| po_writers := po_writers p; po_readers := readers |} in
  match lb_ResetReader lib src r with
  | (Some err, _) => (([], Some err), dropped)
  | (None, r) =>
    match lb_ReadAll lib r with
    | ((res, None), r) => ((res, None), {| po_writers := po_writers p; po_readers := r :: readers |})
    | ((res, Some err), _) => ((res, Some err), dropped)
    end
  end.

(** The codec of package lz4 has the same code on its own pools. *)
Definition lz4_Encode : option nat → list byte → pools → (goerror + list byte) * pools :=
  stream_Encode NewLz4CompressionCodec.

Definition lz4_Decode : option nat → list byte → pools → (list byte * option goerror) * pools :=
  stream_Decode NewLz4CompressionCodec.

(** Finding level_ignored: the compression level of a codec changes nothing. *)
Lemma level_ignored level level' choice src p :
  stream_Encode (NewCompressionCodecWith level) choice src p = stream_Encode (NewCompressionCodecWith level') choice src p.
Proof. done. Qed.
End codec.
End Pooled.

(** ** SCRAM *)

Module Scram.
(** A client of package scram: a conversation takes the message of the server
    and returns the next one of the client. *)
Record client : Type := {
  cl_convo : Type;
  cl_NewConversation : cl_convo;
  cl_Step : gostring → cl_convo → (gostring * option goerror) * cl_convo;
  cl_Done : cl_convo → bool;
}.

(** [mechanism]: the name of its algorithm and its conversation, nil before
    [Start]. *)
Definition scram (name : gostring) (cl : client) : Mechanism :=
  {| me_state := option (cl_convo cl);
     me_init := None;
     me_Start := λ _,
       let '((str, err), convo) := cl_Step cl [] (cl_NewConversation cl) in
       (match err with Some e => inl e | None => inr (name, Some str) end, Some convo);
     me_Next := λ s challenge,
       match s with
       | None => (inl (GoPanic "nil pointer dereference"), s)
       | Some convo =>
         let '((str, err), convo) := cl_Step cl (bdata challenge) convo in
         (match err with Some e => inl e | None => inr (cl_Done cl convo, Some str) end, Some convo)
       end |}.

Definition SHA256_Name : gostring := map byte_of_Z [83; 67; 82; 65; 77; 45; 83; 72; 65; 45; 50; 53; 54].
Definition SHA512_Name : gostring := map byte_of_Z [83; 67; 82; 65; 77; 45; 83; 72; 65; 45; 53; 49; 50].
End Scram.
