(* ===== verification/ConnSync.v ===== *)
(** * Connections stay in step with their broker

    A connection reads responses from one stream.  Every operation must leave
    the stream on the first byte of the next response, or close the
    connection: otherwise the operations that follow read garbage.  [in_step]
    says so of an operation; it holds of every call whose response reader is
    framed and reports no kafka error of its own ([Quiet]). *)

From S2P Require Import Prelude Errors Time Bufio Read Write VarInt Wire.
From S2P Require Import Protocol OffsetMessages TopicMessages GroupMessages SaslMessages Messages DataRequests Conn.
From S2P Require Import ConnOps.

(** ** Reads that report no kafka error of their own *)

Class Quiet {A} (m : rd A) : Prop := quiet : ∀ r sz e s,
  is_kafka_Error (Some (rd_err r)) = false → m r sz = (inl e, s) → is_kafka_Error (Some e) = false.

#[global] Instance quiet_ret {A} (a : A) : Quiet (mret a).
Proof. intros r sz e s _. unfold mret, rd_ret. done. Qed.

#[global] Instance quiet_remaining : Quiet remaining.
Proof. intros r sz e s _. done. Qed.

Lemma quiet_throw {A} e : is_kafka_Error (Some e) = false → Quiet (throw (A:=A) e).
Proof. by intros He r sz e' s _ [= <- _]. Qed.

#[global] Instance quiet_bind {A B} (m : rd A) (f : A → rd B) :
  Framed m → Quiet m → (∀ a, Quiet (f a)) → Quiet (m ≫= f).
Proof.
  intros Hf Hm Hq r sz e s Hr E. unfold mbind, rd_bind in E.
  destruct (m r sz) as [[e1|a] [sz1 r1]] eqn:Em.
  - injection E as -> _. by eapply Hm.
  - pose proof (Hf _ _ _ _ _ Em) as (_ & _ & ->). by eapply (Hq a); [|exact E].
Qed.

#[global] Instance quiet_if {A} (b : bool) (m1 m2 : rd A) :
  Quiet m1 → Quiet m2 → Quiet (if b then m1 else m2).
Proof. by destruct b. Qed.

#[global] Instance quiet_discardN n : Quiet (discardN n).
Proof.
  intros r sz e s Hr. unfold discardN, Discard.
  repeat case_match; intros; simplify_eq/=; done.
Qed.

#[global] Instance quiet_peekRead {A} n (f : list byte → A) : Quiet (peekRead n f).
Proof.
  intros r sz e s Hr. unfold peekRead. destruct (n >? sz); [by intros [= <- _]|].
  destruct (Peek n r) as [b [e1|]] eqn:Ep.
  - intros [= <- _]. unfold Peek in Ep. repeat case_match; simplify_eq; done.
  - apply (quiet_bind (discardN n) (λ _, mret (f b)) _ _ _ r sz e s Hr).
Qed.

#[global] Instance quiet_readInt8 : Quiet readInt8 := quiet_peekRead _ _.
#[global] Instance quiet_readInt16 : Quiet readInt16 := quiet_peekRead _ _.
#[global] Instance quiet_readInt32 : Quiet readInt32 := quiet_peekRead _ _.
#[global] Instance quiet_readInt64 : Quiet readInt64 := quiet_peekRead _ _.
#[global] Instance quiet_readBool : Quiet readBool := quiet_peekRead _ _.
#[global] Instance quiet_readArrayLen : Quiet readArrayLen := quiet_peekRead _ _.

#[global] Instance quiet_readNewBytes n : Quiet (readNewBytes n).
Proof.
  intros r sz e s Hr. unfold readNewBytes, ReadFull.
  destruct (n >? 0); [|done]. destruct (if sz <? n then _ else _) as [k short].
  destruct (k <? 0); [by intros [= <- _]|]. destruct (k <=? _).
  - destruct short; [by intros [= <- _]|done].
  - case_decide; by intros [= <- _].
Qed.

#[global] Instance quiet_readNewString n : Quiet (readNewString n).
Proof. unfold readNewString. apply _. Qed.

#[local] Hint Extern 1 (Quiet (throw _)) => (apply quiet_throw; reflexivity) : typeclass_instances.

#[global] Instance quiet_readStringWith {A} (cb : Z → rd A) :
  (∀ n, Quiet (cb n)) → Quiet (readStringWith cb).
Proof. intros. unfold readStringWith. apply _. Qed.

#[global] Instance quiet_readBytesWith {A} (cb : Z → rd A) :
  (∀ n, Quiet (cb n)) → Quiet (readBytesWith cb).
Proof. intros. unfold readBytesWith. apply _. Qed.

#[global] Instance quiet_discard_cb n : Quiet (discard_cb n).
Proof. unfold discard_cb. apply _. Qed.

#[global] Instance quiet_readString : Quiet readString := _.
#[global] Instance quiet_readBytes : Quiet readBytes := _.
#[global] Instance quiet_discardString : Quiet discardString := _.
#[global] Instance quiet_discardBytes : Quiet discardBytes := _.

#[global] Instance quiet_repeatM {A} n (m : rd A) : Framed m → Quiet m → Quiet (repeatM n m).
Proof. intros Hf Hq. induction n; simpl; apply _. Qed.

#[global] Instance quiet_readArrayWith {A} (cb : rd A) : Framed cb → Quiet cb → Quiet (readArrayWith cb).
Proof. intros. unfold readArrayWith. apply _. Qed.

#[global] Instance quiet_readStringArray : Quiet readStringArray := _.

#[global] Instance quiet_expectZeroSize {A} (m : rd A) : Framed m → Quiet m → Quiet (expectZeroSize m).
Proof. intros. unfold expectZeroSize. apply _. Qed.

(** ** The responses of the calls *)

Class QuietResponse (A : Type) `{!Readable A} : Prop :=
  response_quiet : Quiet (readFrom : rd A).
#[global] Instance quiet_readFrom `{QuietResponse A} : Quiet (readFrom : rd A) := response_quiet.

Ltac solve_quiet rf :=
  match goal with |- QuietResponse ?A => change (Quiet (rf : rd A)) end; unfold rf; apply _.

#[global] Instance offsetCommitResponseV2PartitionResponse_quiet : QuietResponse offsetCommitResponseV2PartitionResponse.
Proof. solve_quiet offsetCommitResponseV2PartitionResponse_readFrom. Qed.
#[global] Instance offsetCommitResponseV2Response_quiet : QuietResponse offsetCommitResponseV2Response.
Proof. solve_quiet offsetCommitResponseV2Response_readFrom. Qed.
#[global] Instance offsetCommitResponseV2_quiet : QuietResponse offsetCommitResponseV2.
Proof. solve_quiet offsetCommitResponseV2_readFrom. Qed.
#[global] Instance offsetFetchResponseV1PartitionResponse_quiet : QuietResponse offsetFetchResponseV1PartitionResponse.
Proof. solve_quiet offsetFetchResponseV1PartitionResponse_readFrom. Qed.
#[global] Instance offsetFetchResponseV1Response_quiet : QuietResponse offsetFetchResponseV1Response.
Proof. solve_quiet offsetFetchResponseV1Response_readFrom. Qed.
#[global] Instance offsetFetchResponseV1_quiet : QuietResponse offsetFetchResponseV1.
Proof. solve_quiet offsetFetchResponseV1_readFrom. Qed.
#[global] Instance createTopicsResponseV0TopicError_quiet : QuietResponse createTopicsResponseV0TopicError.
Proof. solve_quiet createTopicsResponseV0TopicError_readFrom. Qed.
#[global] Instance createTopicsResponseV0_quiet : QuietResponse createTopicsResponseV0.
Proof. solve_quiet createTopicsResponseV0_readFrom. Qed.
#[global] Instance deleteTopicsResponseV0TopicErrorCode_quiet : QuietResponse deleteTopicsResponseV0TopicErrorCode.
Proof. solve_quiet deleteTopicsResponseV0TopicErrorCode_readFrom. Qed.
#[global] Instance deleteTopicsResponseV0_quiet : QuietResponse deleteTopicsResponseV0.
Proof. solve_quiet deleteTopicsResponseV0_readFrom. Qed.
#[global] Instance heartbeatResponseV0_quiet : QuietResponse heartbeatResponseV0.
Proof. solve_quiet heartbeatResponseV0_readFrom. Qed.
#[global] Instance joinGroupResponseMemberV1_quiet : QuietResponse joinGroupResponseMemberV1.
Proof. solve_quiet joinGroupResponseMemberV1_readFrom. Qed.
#[global] Instance joinGroupResponseV1_quiet : QuietResponse joinGroupResponseV1.
Proof. solve_quiet joinGroupResponseV1_readFrom. Qed.
#[global] Instance leaveGroupResponseV0_quiet : QuietResponse leaveGroupResponseV0.
Proof. solve_quiet leaveGroupResponseV0_readFrom. Qed.
#[global] Instance ListGroupsResponseGroupV1_quiet : QuietResponse ListGroupsResponseGroupV1.
Proof. solve_quiet ListGroupsResponseGroupV1_readFrom. Qed.
#[global] Instance listGroupsResponseV1_quiet : QuietResponse listGroupsResponseV1.
Proof. solve_quiet listGroupsResponseV1_readFrom. Qed.
#[global] Instance syncGroupResponseV0_quiet : QuietResponse syncGroupResponseV0.
Proof. solve_quiet syncGroupResponseV0_readFrom. Qed.
#[global] Instance saslHandshakeResponseV0_quiet : QuietResponse saslHandshakeResponseV0.
Proof. solve_quiet saslHandshakeResponseV0_readFrom. Qed.
#[global] Instance saslAuthenticateResponseV0_quiet : QuietResponse saslAuthenticateResponseV0.
Proof. solve_quiet saslAuthenticateResponseV0_readFrom. Qed.
#[global] Instance findCoordinatorResponseCoordinatorV0_quiet : QuietResponse findCoordinatorResponseCoordinatorV0.
Proof. solve_quiet findCoordinatorResponseCoordinatorV0_readFrom. Qed.
#[global] Instance findCoordinatorResponseV0_quiet : QuietResponse findCoordinatorResponseV0.
Proof. solve_quiet findCoordinatorResponseV0_readFrom. Qed.
#[global] Instance describeGroupsResponseMemberV0_quiet : QuietResponse describeGroupsResponseMemberV0.
Proof. solve_quiet describeGroupsResponseMemberV0_readFrom. Qed.
#[global] Instance describeGroupsResponseGroupV0_quiet : QuietResponse describeGroupsResponseGroupV0.
Proof. solve_quiet describeGroupsResponseGroupV0_readFrom. Qed.
#[global] Instance describeGroupsResponseV0_quiet : QuietResponse describeGroupsResponseV0.
Proof. solve_quiet describeGroupsResponseV0_readFrom. Qed.
#[global] Instance metadata_quiet : Quiet metadataResponseV1_read.
Proof.
  unfold metadataResponseV1_read, readFrom, brokerMetadataV1_readable, topicMetadataV1_readable,
    brokerMetadataV1_read, topicMetadataV1_read, readFrom, partitionMetadataV1_readable,
    partitionMetadataV1_read. apply _.
Qed.

(** ** Staying in step *)

(** After the operation the connection is closed, or its stream is on the
    first byte after the response. *)
Definition in_step {A} (m : cm A) : Prop := ∀ c body rest,
  expects c body rest → is_kafka_Error (Some (rd_err (c_rbuf c))) = false →
  (m c).1 ≠ Diverged ∧
  (c_closed (m c).2 = true ∨ c_rbuf (m c).2 = with_data (c_rbuf c) rest).

Lemma expectZeroSize_end {A} (m : rd A) r sz a sz' r' :
  expectZeroSize m r sz = (inr a, (sz', r')) → sz' = 0 ∧ m r sz = (inr a, (0, r')).
Proof.
  unfold expectZeroSize, mbind, rd_bind, remaining, mret, rd_ret, throw.
  destruct (m r sz) as [[e|a1] [sz1 r1]]; [done|].
  destruct (Z.eqb_spec sz1 0) as [->|]; [|done]. by intros [= <- <- <-].
Qed.

(** A framed read that consumes a whole response ends where it ends. *)
Lemma framed_whole `{Framed A m} r body rest a r' :
  m (with_data r (body ++ rest)) (len body) = (inr a, (0, r')) → r' = with_data r rest.
Proof.
  intros E. apply H in E as (_ & _ & ->). cbn [rd_data with_data]. rewrite Z.sub_0_r.
  unfold with_data. cbn. by rewrite zdrop_app.
Qed.

Lemma do_in_step `{Framed A m, !Quiet m} d write :
  (∀ deadline id, ∃ bs, write deadline id = Done bs) →
  in_step (do d write (expectZeroSize m)).
Proof.
  intros Hw c body rest He Hk. pose proof He as [Ho _ _ _ _].
  destruct (Hw (deadline_of d c) (int32 (c_correlationID c + 1))) as [bs Hbs].
  rewrite (do_expects d write _ c body rest bs He Hbs).
  set (c1 := sent c bs (body ++ rest)).
  unfold do_read, mbind, cm_bind, read_rbuf. cbn [c_rbuf c1 sent set_rbuf].
  destruct (expectZeroSize m (with_data (c_rbuf c) (body ++ rest)) (len body)) as [[e|a] [sz1 r1]] eqn:E.
  - assert (is_kafka_Error (Some e) = false) as ->.
    { by eapply (quiet_expectZeroSize m _ _ (with_data (c_rbuf c) (body ++ rest))). }
    split; [done|by left].
  - apply expectZeroSize_end in E as [-> E]. split; [done|right]. cbn.
    by apply (framed_whole (m:=m)) in E.
Qed.

Lemma request_done `{Sizable A, Writable A} c key version (req : A) deadline id :
  ∃ bs, request c key version req deadline id = Done bs.
Proof. unfold request. by eexists. Qed.

(** Checking codes does not touch the connection. *)
Lemma in_step_check {A B} (m : cm A) (codes : A → list Z) (k : A → B) :
  in_step m → in_step (a ← m; check (codes a) (k a)).
Proof.
  intros Hm c body rest He Hk. destruct (Hm c body rest He Hk) as [Hd Hs].
  unfold mbind, cm_bind. destruct (m c) as [[a|e|] c1]; [|done|done].
  unfold check. by destruct (list_find _ _) as [[]|].
Qed.

Lemma in_step_get {A} (m : conn → cm A) : (∀ c, in_step (m c)) → in_step (c ← get; m c).
Proof. intros H c body rest He Hk. exact (H c c body rest He Hk). Qed.

Lemma call_in_step `{Sizable A, Writable A, QuietResponse B, !Response B} d key version (req : A) :
  in_step (call d key version req : cm B).
Proof.
  unfold call. apply in_step_get. intros c. apply do_in_step. intros. apply request_done.
Qed.
#[export] Hint Resolve call_in_step : kafka.

Lemma createTopics_in_step now req : in_step (createTopics now req).
Proof.
  unfold createTopics. apply in_step_get. intros c. apply in_step_check, do_in_step.
  intros. apply request_done.
Qed.

Lemma deleteTopics_in_step now req : in_step (deleteTopics now req).
Proof.
  unfold deleteTopics. apply in_step_get. intros c. apply in_step_check, do_in_step.
  intros. apply request_done.
Qed.

(** ** What a call returns *)

Lemma reads_expectZeroSize {A} (m : rd A) bs a r rest :
  reads m bs a → 16 ≤ rd_bufsize r →
  expectZeroSize m (with_data r (bs ++ rest)) (len bs) = (inr a, (0, with_data r rest)).
Proof.
  intros Hm Hb. unfold expectZeroSize. rewrite (reads_step m _ bs a r (len bs) rest Hm Hb) by lia.
  by rewrite Z.sub_diag.
Qed.

Lemma do_returns {A} d write (m : rd A) c body rest bs a :
  expects c body rest → write (deadline_of d c) (int32 (c_correlationID c + 1)) = Done bs →
  reads m body a → do d write (expectZeroSize m) c = (Done a, sent c bs rest).
Proof.
  intros He Hw Hm. rewrite (do_expects d write _ c body rest bs He Hw).
  unfold do_read, mbind, cm_bind, read_rbuf. cbn [c_rbuf sent set_rbuf].
  by rewrite (reads_expectZeroSize m body a _ rest Hm (ex_bufsize _ _ _ He)).
Qed.

Lemma call_returns `{Sizable A, Writable A, Codec B} d key version (req : A) c (resp : B) rest :
  expects c (writeTo resp) rest → wf resp →
  (call d key version req : cm B) c =
  (Done (canon resp),
   sent c (writeRequest (cfg_clientID (c_cfg c)) key version (int32 (c_correlationID c + 1)) req) rest).
Proof.
  intros He Hwf. unfold call. apply (do_returns d (request c key version req) _ c (writeTo resp));
    [done|done|by apply codec_reads].
Qed.

(** ** Responses read to their end *)

(** [readResponse] skips what one of kafka's errors leaves unread: it ends
    on the next response, or with an error that closes the connection. *)
Lemma readResponse_end `{Framed A m} r body rest :
  match readResponse m (with_data r (body ++ rest)) (len body) with
  | (inl e, (_, r')) => is_kafka_Error (Some e) = true → r' = with_data r rest
  | (inr _, (_, r')) => r' = with_data r rest
  end.
Proof.
  unfold readResponse. destruct (m _ _) as [res [sz1 r1]] eqn:E.
  apply H in E as (Hs & Hl & ->). cbn [rd_data with_data] in Hl |- *.
  pose proof (len_nonneg body). pose proof (len_nonneg rest). rewrite len_app in Hl.
  destruct res as [e|a].
  - destruct e; try done. assert (0 ≤ sz1 ≤ len body) as Hsz by lia.
    unfold discardN, Discard. rewrite Z.leb_refl, (proj2 (Z.ltb_ge sz1 0)) by lia.
    cbn [rd_data with_data].
    assert (sz1 ≤ len (zdrop (len body - sz1) (body ++ rest))) as Hle.
    { rewrite len_zdrop by (rewrite len_app; lia). rewrite len_app. lia. }
    rewrite (proj2 (Z.leb_le _ _) Hle). intros _. rewrite zdrop_zdrop by lia.
    replace (len body - sz1 + sz1) with (len body) by lia. unfold with_data. cbn. by rewrite zdrop_app.
  - destruct (Z.eqb_spec sz1 0) as [->|Hne]; [|done]. rewrite Z.sub_0_r. unfold with_data. cbn.
    by rewrite zdrop_app.
Qed.

(** The same when a check that reads nothing follows. *)
Lemma readResponse_in_step `{Framed A m} {B} d write (k : A → rd B) :
  (∀ a r sz, ∃ res, k a r sz = (res, (sz, r))) →
  (∀ deadline id, ∃ bs, write deadline id = Done bs) → in_step (do d write (a ← readResponse m; k a)).
Proof.
  intros Hkk Hw c body rest He Hk. pose proof He as [Ho _ _ _ _].
  destruct (Hw (deadline_of d c) (int32 (c_correlationID c + 1))) as [bs Hbs].
  rewrite (do_expects d write _ c body rest bs He Hbs).
  unfold do_read, mbind, cm_bind, rd_bind, read_rbuf. cbn [c_rbuf sent set_rbuf].
  pose proof (readResponse_end (m:=m) (c_rbuf c) body rest) as Hend.
  destruct (readResponse m _ _) as [[e|a] [sz1 r1]].
  - destruct (is_kafka_Error (Some e)); (split; [done|]); [right; by apply Hend|by left].
  - destruct (Hkk a r1 sz1) as [[e|b] ->]; [|split; [done|right; exact Hend]].
    destruct (is_kafka_Error (Some e)); (split; [done|]); [right; exact Hend|by left].
Qed.

Lemma in_step_map {A B} (m : cm A) (f : A → B) : in_step m → in_step (a ← m; mret (f a)).
Proof.
  intros Hm c body rest He Hk. destruct (Hm c body rest He Hk) as [Hd Hs].
  unfold mbind, cm_bind. by destruct (m c) as [[a|e|] c1].
Qed.

#[local] Instance framed_metadata : Framed metadataResponseV1_read :=
  response_framed (A:=metadataResponseV1).

Lemma in_step_ext {A} (m m' : cm A) : (∀ c, m c = m' c) → in_step m → in_step m'.
Proof. intros E Hm c body rest He Hk. rewrite <- E. exact (Hm c body rest He Hk). Qed.

Lemma rd_bind_ret {A} (m : rd A) r sz : (a ← m; mret a) r sz = m r sz.
Proof. unfold mbind, rd_bind. by destruct (m r sz) as [[] []]. Qed.

Lemma do_ext {A} d write (m m' : rd A) c :
  (∀ r sz, m r sz = m' r sz) → do d write m c = do d write m' c.
Proof.
  intros E. unfold do, mbind, cm_bind. destruct (doRequest _ _ c) as [[id|e|] c1]; [|done|done].
  destruct (waitResponse id c1) as [[sz|e|] c2]; [|done|done]. unfold do_read, mbind, cm_bind, read_rbuf. by rewrite E.
Qed.

Lemma metadata_in_step topics : in_step (metadata topics).
Proof.
  unfold metadata. apply in_step_get. intros c.
  apply (in_step_ext (do rdeadline (request c Api.metadataRequest Api.v1 (topics : topicMetadataRequestV1))
    (a ← readResponse metadataResponseV1_read; mret a))).
  - intros c'. apply do_ext, rd_bind_ret.
  - apply readResponse_in_step; [by eexists|intros; apply request_done].
Qed.

Lemma ReadPartitions_in_step topics : in_step (ReadPartitions topics).
Proof.
  unfold ReadPartitions. apply in_step_get. intros c. apply readResponse_in_step; [|intros; apply request_done].
  intros a r sz. destruct (collectPartitions _ _ _); by eexists.
Qed.
