(* ===== verification/ConnData.v ===== *)
(** * Offsets and produce responses on a connection

    What [readOffset], [Seek] and [writeCompressedMessages] do with the
    response of a broker, on success and on an error code. *)

From S2P Require Import Prelude Errors Time Bufio Read Write VarInt Wire.
From S2P Require Import Protocol OffsetMessages Messages DataRequests Conn ConnOps ConnSync.

(** ** Failing reads

    [fails m bs e]: with [bs] in front, [m] fails with [e] and has consumed
    exactly [bs]. *)
Definition fails {A} (m : rd A) (bs : list byte) (e : goerror) : Prop :=
  ∀ r sz tail, len bs ≤ sz → 16 ≤ rd_bufsize r →
    m (with_data r (bs ++ tail)) sz = (inl e, (sz - len bs, with_data r tail)).

Lemma fails_throw {A} e : fails (throw (A:=A) e) [] e.
Proof. intros r sz tail _ _. unfold throw. by rewrite len_nil, Z.sub_0_r. Qed.

Lemma fails_here {A B} (m : rd A) (f : A → rd B) bs e : fails m bs e → fails (m ≫= f) bs e.
Proof. intros H r sz tail Hs Hb. unfold mbind, rd_bind. by rewrite H. Qed.

Lemma fails_after {A B} (m : rd A) (f : A → rd B) bs1 bs2 a e :
  reads m bs1 a → fails (f a) bs2 e → fails (m ≫= f) (bs1 ++ bs2) e.
Proof.
  intros Hm Hf r sz tail Hs Hb. rewrite len_app in *. pose proof (len_nonneg bs1).
  pose proof (len_nonneg bs2).
  rewrite <- app_assoc, (reads_step m f bs1 a r sz (bs2 ++ tail) Hm Hb) by lia.
  rewrite Hf by (done || lia). by rewrite Z.sub_add_distr.
Qed.

Lemma fails_after_nil {A B} (m : rd A) (f : A → rd B) bs a e :
  reads m bs a → fails (f a) [] e → fails (m ≫= f) bs e.
Proof. intros. rewrite <- (app_nil_r bs). by eapply fails_after. Qed.

(** An array of one element. *)
Lemma reads_array_1 {A} (m : rd A) bs a :
  reads m bs a → reads (readArrayWith m) (writeArrayLen 1 ++ bs) [a].
Proof.
  intros Hm. unfold readArrayWith. eapply reads_bind; [by apply (reads_readInt32 1); vm_compute|].
  change (Z.to_nat 1) with 1%nat. cbn [repeatM]. eapply reads_bind_nil; [done|].
  eapply reads_bind_nil; apply reads_ret.
Qed.

Lemma fails_array_1 {A} (m : rd A) bs e :
  fails m bs e → fails (readArrayWith m) (writeArrayLen 1 ++ bs) e.
Proof.
  intros Hm. unfold readArrayWith. eapply fails_after; [by apply (reads_readInt32 1); vm_compute|].
  change (Z.to_nat 1) with 1%nat. cbn [repeatM]. by apply fails_here.
Qed.

Lemma do_fails {A} d write (m : rd A) c bs1 bs2 rest bs code :
  expects c (bs1 ++ bs2) rest → write (deadline_of d c) (int32 (c_correlationID c + 1)) = Done bs →
  fails m bs1 (KafkaError code) →
  do d write (expectZeroSize m) c = (Failed (KafkaError code), sent c bs (bs2 ++ rest)).
Proof.
  intros He Hw Hm. rewrite (do_expects d write _ c (bs1 ++ bs2) rest bs He Hw).
  unfold do_read, mbind, cm_bind, read_rbuf. cbn [c_rbuf sent set_rbuf].
  unfold expectZeroSize. rewrite <- app_assoc. pose proof (len_nonneg bs2).
  pose proof (fails_here m (λ a, sz ← remaining;
    if sz =? 0 then mret a else throw (Errorf "reading a response left %d unread bytes" sz)) _ _ Hm) as Hf.
  rewrite Hf by (try apply (ex_bufsize _ _ _ He); rewrite len_app; lia). done.
Qed.

(** ** List-offset responses *)

Definition listOffset_bytes (topic : gostring) (p : partitionOffsetV1) : list byte :=
  writeArrayLen 1 ++ writeString topic ++ writeArrayLen 1 ++ writeTo p.

Lemma listOffset_bytes_struct topic p :
  listOffset_bytes topic p
  = writeTo ([{| lost_TopicName := topic; lost_PartitionOffsets := [p] |}] : listOffsetResponseV1).
Proof.
  change (writeTo _) with (listOffsetResponseV1_writeTo
    [{| lost_TopicName := topic; lost_PartitionOffsets := [p] |}]).
  unfold listOffsetResponseV1_writeTo. rewrite writeArray_1.
  change (writeTo _) with (listOffsetResponseTopicV1_writeTo
    {| lost_TopicName := topic; lost_PartitionOffsets := [p] |}).
  unfold listOffsetResponseTopicV1_writeTo. cbn [lost_TopicName lost_PartitionOffsets].
  by rewrite writeArray_1.
Qed.

(** The reader of [readOffset] before the check of the end. *)
Definition listOffset_reader : rd Z :=
  ts ← readArrayWith (_ ← discardString; readArrayWith read_partitionOffset);
  mret (List.last (concat ts) 0).

Lemma listOffset_reader_ok topic p :
  wf_string topic → wf p → po_ErrorCode p = 0 →
  reads listOffset_reader (listOffset_bytes topic p) (po_Offset p).
Proof.
  intros Ht Hp He. unfold listOffset_reader.
  eapply reads_bind_nil; [|apply (reads_ret (List.last (concat [[po_Offset p]]) 0))].
  apply reads_array_1. eapply reads_bind; [by apply reads_discardString|].
  apply reads_array_1. unfold read_partitionOffset.
  eapply reads_bind_nil; [by apply codec_reads|]. cbn [canon partitionOffsetV1_codec].
  unfold partitionOffsetV1_canon. destruct p. cbn in *. subst. apply reads_ret.
Qed.

Lemma listOffset_reader_error topic p :
  wf_string topic → wf p → po_ErrorCode p ≠ 0 →
  fails listOffset_reader (listOffset_bytes topic p) (KafkaError (po_ErrorCode p)).
Proof.
  intros Ht Hp He. unfold listOffset_reader. apply fails_here, fails_array_1.
  eapply fails_after; [by apply reads_discardString|].
  apply fails_array_1. unfold read_partitionOffset.
  eapply fails_after_nil; [by apply codec_reads|]. cbn [canon partitionOffsetV1_codec].
  unfold partitionOffsetV1_canon. destruct p. cbn in *.
  rewrite (proj2 (Z.eqb_neq _ _)) by done. apply fails_throw.
Qed.

(** The request of [readOffset], and the state after it. *)
Definition offset_request (c : conn) (t : Z) : list byte :=
  writeListOffsetRequestV1 (int32 (c_correlationID c + 1)) (cfg_clientID (c_cfg c))
    (cfg_topic (c_cfg c)) (cfg_partition (c_cfg c)) t.

Lemma readOffset_spec t c topic p rest :
  expects c (listOffset_bytes topic p) rest → wf_string topic → wf p →
  readOffset t c =
  (if po_ErrorCode p =? 0 then Done (po_Offset p) else Failed (KafkaError (po_ErrorCode p)),
   sent c (offset_request c t) rest).
Proof.
  intros He Ht Hp. unfold readOffset, readOperation, mbind at 1, cm_bind at 1, get.
  change read_listOffsetResponse with (expectZeroSize listOffset_reader).
  destruct (Z.eqb_spec (po_ErrorCode p) 0) as [Hz|Hz].
  - apply (do_returns _ _ _ _ _ _ _ _ He); [done|by apply listOffset_reader_ok].
  - rewrite <- (app_nil_r (listOffset_bytes topic p)) in He.
    apply (do_fails _ _ _ _ _ _ _ _ _ He); [done|by apply listOffset_reader_error].
Qed.

(** ** [ReadOffsets] and [Seek] *)

(** The responses for the first and the last offset, in this order. *)
Record expects_offsets (c : conn) (topic : gostring) (p1 p2 : partitionOffsetV1) (rest : list byte) : Prop := {
  eo_first : expects c (listOffset_bytes topic p1)
    (response_block (int32 (int32 (c_correlationID c + 1) + 1)) (listOffset_bytes topic p2) ++ rest);
  eo_size : len (listOffset_bytes topic p2) + 4 < 2 ^ 31;
  eo_topic : wf_string topic;
  eo_wf1 : wf p1;
  eo_wf2 : wf p2;
}.

(** The state after both. *)
Definition after_offsets (c : conn) (rest : list byte) : conn :=
  let c1 := sent c (offset_request c FirstOffset) [] in
  sent c1 (offset_request c1 LastOffset) rest.

Lemma ReadOffsets_spec c topic p1 p2 rest :
  expects_offsets c topic p1 p2 rest → po_ErrorCode p1 = 0 → po_ErrorCode p2 = 0 →
  ReadOffsets c = (Done (po_Offset p1, po_Offset p2), after_offsets c rest).
Proof.
  intros [He Hs Ht H1 H2] E1 E2. unfold ReadOffsets.
  erewrite cm_bind_done.
  2: { unfold ReadFirstOffset. rewrite (readOffset_spec _ _ _ _ _ He Ht H1), E1. done. }
  pose proof He as [Ho Hw _ Hb _].
  erewrite cm_bind_done.
  2: { unfold ReadLastOffset. rewrite (readOffset_spec _ _ topic p2 rest); [by rewrite E2| |done|done].
       by constructor. }
  done.
Qed.

(** The target of a seek, given the bounds of the partition. *)
Definition seek_target (offset whence current first last : Z) : Z :=
  if whence =? SeekStart then int64 (first + offset)
  else if whence =? SeekEnd then int64 (last - offset)
  else if whence =? SeekCurrent then int64 (current + offset)
  else offset.

Lemma Seek_spec c topic p1 p2 rest offset whence :
  expects_offsets c topic p1 p2 rest → po_ErrorCode p1 = 0 → po_ErrorCode p2 = 0 →
  0 ≤ whence ≤ 3 → ¬ (whence = SeekAbsolute ∧ offset = c_offset c) →
  let target := seek_target offset whence (c_offset c) (po_Offset p1) (po_Offset p2) in
  Seek offset whence c =
  if decide (po_Offset p1 ≤ target ≤ po_Offset p2)
  then (Done target, set_offset (after_offsets c rest) target)
  else (Failed (KafkaError Code.OffsetOutOfRange), after_offsets c rest).
Proof.
  intros He E1 E2 Hw Hn target. unfold Seek.
  rewrite (proj2 (Z.leb_le 0 whence)), (proj2 (Z.leb_le whence 3)) by lia. cbn [andb negb].
  replace ((whence =? SeekAbsolute) && (offset =? c_offset c)) with false.
  2: { symmetry. apply andb_false_iff. destruct (Z.eqb_spec whence SeekAbsolute); [|by left].
       right. apply Z.eqb_neq. intros ->. by apply Hn. }
  erewrite cm_bind_done by (by eapply ReadOffsets_spec). cbv beta iota zeta.
  assert ((if whence =? SeekStart then _ else _) = target) as ->.
  { unfold target, seek_target. destruct (Z.eqb_spec whence SeekStart) as [->|]; [done|].
    destruct (Z.eqb_spec whence SeekEnd) as [->|]; done. }
  clearbody target. case_decide as Hr.
  - rewrite (proj2 (Z.ltb_ge _ _)), Z.gtb_ltb, (proj2 (Z.ltb_ge _ _)) by lia. done.
  - destruct ((target <? po_Offset p1) || (target >? po_Offset p2)) eqn:E; [done|].
    apply orb_false_iff in E as [?%Z.ltb_ge E]. rewrite Z.gtb_ltb in E. apply Z.ltb_ge in E. lia.
Qed.

(** ** Produce responses *)

Definition produce_bytes (topic : gostring) (p : produceResponsePartitionV2) : list byte :=
  writeArrayLen 1 ++ writeString topic ++ writeArrayLen 1 ++ writeTo p.

Definition produce_reader : rd produced_at :=
  ts ← readArrayWith (_ ← discardString; ps ← readArrayWith read_producePartition;
                      _ ← discardInt32; mret ps);
  mret (List.last (concat ts) {| pa_partition := 0; pa_offset := 0; pa_appendTime := Time.zeroTime |}).

Definition produced_of (p : produceResponsePartitionV2) : produced_at :=
  {| pa_partition := psp_Partition p; pa_offset := psp_Offset p;
     pa_appendTime := Time.Unix 0 (int64 (psp_Timestamp p * Time.Millisecond)) |}.

Lemma reads_discardInt32 z : reads discardInt32 (writeInt32 z) tt.
Proof.
  pose proof (reads_discard_cb (writeInt32 z)) as H. unfold discard_cb in H.
  rewrite len_writeInt32 in H. exact H.
Qed.

Lemma produce_reader_ok topic p throttle :
  wf_string topic → wf p → psp_ErrorCode p = 0 →
  reads produce_reader (produce_bytes topic p ++ writeInt32 throttle) (produced_of p).
Proof.
  intros Ht Hp He. unfold produce_reader, produce_bytes. rewrite <- !app_assoc.
  eapply reads_bind_nil; [|apply (reads_ret (List.last (concat [[produced_of p]]) _))].
  apply reads_array_1. eapply reads_bind; [by apply reads_discardString|].
  rewrite app_assoc. eapply reads_bind.
  - apply reads_array_1. unfold read_producePartition.
    eapply reads_bind_nil; [by apply codec_reads|].
    cbn [canon produceResponsePartitionV2_codec]. unfold produceResponsePartitionV2_canon.
    destruct p. cbn in He. subst. apply reads_ret.
  - eapply reads_bind_nil; [apply reads_discardInt32|]. apply reads_ret.
Qed.

Lemma produce_reader_error topic p :
  wf_string topic → wf p → psp_ErrorCode p ≠ 0 →
  fails produce_reader (produce_bytes topic p) (KafkaError (psp_ErrorCode p)).
Proof.
  intros Ht Hp He. unfold produce_reader, produce_bytes. apply fails_here, fails_array_1.
  eapply fails_after; [by apply reads_discardString|]. apply fails_here, fails_array_1.
  unfold read_producePartition. eapply fails_after_nil; [by apply codec_reads|].
  cbn [canon produceResponsePartitionV2_codec]. unfold produceResponsePartitionV2_canon.
  destruct p. cbn in *. rewrite (proj2 (Z.eqb_neq _ _)) by done. apply fails_throw.
Qed.
