(* ===== verification/Batch.v ===== *)
(** * Fetching batches of messages (batch.go, [Conn.ReadBatchWith])

    A [batch] reads from the buffer of its connection, which it holds locked:
    the reader of the bottom frame of [b_msgs] and [c_rbuf] are the same
    object, so that every operation stores the former in the latter
    ([share]).  [b_attached] is [batch.conn != nil].  [now] is what
    [time.Now] returns, [fuel] bounds the loops of the message set reader. *)

From S2P Require Import Prelude Errors Time Bufio Read Write VarInt Wire.
From S2P Require Import Protocol Messages DataRequests FetchResponse MessageSet Conn ConnOps.

Record batch : Type := {
  b_attached : bool;
  b_msgs : option messageSetReader;
  b_deadline : Z;
  b_throttle : Z;
  b_topic : gostring;
  b_partition : Z;
  b_offset : Z;
  b_highWaterMark : Z;
  b_err : option goerror;
}.

(** [&Batch{err: err}]. *)
Definition failedBatch (err : option goerror) : batch :=
  {| b_attached := false; b_msgs := None; b_deadline := Time.zeroTime; b_throttle := 0; b_topic := [];
     b_partition := 0; b_offset := 0; b_highWaterMark := 0; b_err := err |}.

Definition set_msgs (b : batch) (ms : messageSetReader) : batch :=
  {| b_attached := b_attached b; b_msgs := Some ms; b_deadline := b_deadline b;
     b_throttle := b_throttle b; b_topic := b_topic b; b_partition := b_partition b;
     b_offset := b_offset b; b_highWaterMark := b_highWaterMark b; b_err := b_err b |}.

Definition set_berr (b : batch) (err : goerror) : batch :=
  {| b_attached := b_attached b; b_msgs := b_msgs b; b_deadline := b_deadline b;
     b_throttle := b_throttle b; b_topic := b_topic b; b_partition := b_partition b;
     b_offset := b_offset b; b_highWaterMark := b_highWaterMark b; b_err := Some err |}.

Definition set_boffset (b : batch) (offset : Z) : batch :=
  {| b_attached := b_attached b; b_msgs := b_msgs b; b_deadline := b_deadline b;
     b_throttle := b_throttle b; b_topic := b_topic b; b_partition := b_partition b;
     b_offset := offset; b_highWaterMark := b_highWaterMark b; b_err := b_err b |}.

Definition detach (b : batch) : batch :=
  {| b_attached := false; b_msgs := b_msgs b; b_deadline := b_deadline b;
     b_throttle := b_throttle b; b_topic := b_topic b; b_partition := b_partition b;
     b_offset := b_offset b; b_highWaterMark := b_highWaterMark b; b_err := b_err b |}.

(** The reader of the connection, as the message set left it. *)
Definition bottom_reader (ms : messageSetReader) : option bufreader :=
  match ms with
  | EmptySet => None
  | SetV1 s => Some (fr_reader (rs_bottom s))
  | SetV2 m => Some (fr_reader (rs_bottom (v2_stack m)))
  end.

Definition share (ms : messageSetReader) (c : conn) : conn :=
  match bottom_reader ms with Some r => set_rbuf c r | None => c end.

Definition checkTimeoutErr (deadline now : Z) : goerror :=
  if negb (Time.IsZero deadline) && (now >? deadline) then KafkaError Code.RequestTimedOut else EOF.

Section batch.
Context (codecs : codec_registry).

(** ** [batch.readMessage] *)

Section read_message.
Context {K V : Type} (key : Z → rd K) (val : Z → rd V).

Definition batch_readMessage (fuel : nat) (now : Z) (b : batch) (c : conn) :
    outcome (msgResult K V) * batch * conn :=
  match b_err b with
  | Some err => (Failed err, b, c)
  | None =>
    match b_msgs b with
    | None => (Failed (GoPanic "nil message set reader"), b, c)
    | Some ms =>
      match readMessage codecs key val fuel (b_offset b) ms with
      | (Done res, ms) =>
        (Done res, set_boffset (set_msgs b ms) (int64 (mr_offset res + 1)), share ms c)
      | (Diverged, ms) => (Diverged, set_msgs b ms, share ms c)
      | (Failed err, ms) =>
        if decide (err = errShortRead) then
          match set_discard ms with
          | (Some err, ms) => (Failed err, set_berr (set_msgs b ms) err, share ms c)
          | (None, ms) =>
            (* the bytes that are left are always none here *)
            if set_remaining ms =? 0 then
              let err := checkTimeoutErr (b_deadline b) now in
              (Failed err, set_berr (set_msgs b ms) err, share ms c)
            else (Failed (GoPanic "unreachable"), set_msgs b ms, share ms c)
          end
        else (Failed err, set_berr (set_msgs b ms) err, share ms c)
      end
    end
  end.
End read_message.

(** ** [Batch.Read] *)

(** The callback that copies the value into a buffer of [cap] bytes; the rest
    of the value is skipped.  It returns the size of the value and the bytes
    copied.  The count of the bytes left does not bound [io.ReadFull]. *)
Definition read_into (cap n : Z) : rd (Z * list byte) := λ r size,
  if n <? 0 then (inr (0, []), (size, r))
  else
    let nbytes := if n >? cap then cap else n in
    let '(bs, err, r) := ReadFull nbytes r in
    match err with
    | Some e => (inl e, (size - len bs, r))
    | None => (_ ← discardN (n - nbytes); mret (n, bs)) r (size - nbytes)
    end.

(** The variable [n] of [Read] after a read that failed: the size with which
    the callback of the value was called, if it was.  The callback is replaced
    by one that hands its argument out. *)
Definition value_size (fuel : nat) (b : batch) : Z :=
  match b_err b, b_msgs b with
  | None, Some ms =>
    match (readMessage codecs discard_cb (λ n, throw (A := unit) (Errorf "size of the value" n)) fuel (b_offset b) ms).1 with
    | Failed (Errorf "size of the value" n) => Z.max 0 n
    | _ => 0
    end
  | _, _ => 0
  end.

(** The number that [Read] returns, the bytes, and the error.  With an error
    of the read the number is the size of the value, if it came that far; what
    is then in the buffer is left out. *)
Definition batch_Read (fuel : nat) (now cap : Z) (b : batch) (c : conn) :
    outcome (Z * list byte * option goerror) * batch * conn :=
  match batch_readMessage discard_cb (read_into cap) fuel now b c with
  | (Done res, b', c) =>
    let '(n, bs) := mr_value res in
    if n >? cap then
      (Done (cap, bs, Some ErrShortBuffer), set_boffset (set_berr b' ErrShortBuffer) (b_offset b), c)
    else (Done (n, bs, None), b', c)
  | (Failed err, b', c) => (Done (value_size fuel b, [], Some err), b', c)
  | (Diverged, b, c) => (Diverged, b, c)
  end.

(** ** [Batch.ReadMessage] *)

(** Messages before the offset of the connection are skipped. *)
Fixpoint batch_ReadMessage_loop (loops fuel : nat) (now : Z) (b : batch) (c : conn) :
    outcome (msgResult bytes bytes) * batch * conn :=
  match loops with
  | O => (Diverged, b, c)
  | S loops =>
    match batch_readMessage readNewBytes readNewBytes fuel now b c with
    | (Done res, b, c) =>
      if b_attached b && (mr_offset res <? c_offset c)
      then batch_ReadMessage_loop loops fuel now b c
      else (Done res, b, c)
    | (Failed err, b, c) => (Failed err, b, c)
    | (Diverged, b, c) => (Diverged, b, c)
    end
  end.

Definition batch_ReadMessage (loops fuel : nat) (now : Z) (b : batch) (c : conn) :
    outcome Message * batch * conn :=
  match batch_ReadMessage_loop loops fuel now b c with
  | (Done res, b, c) =>
    (Done {| msg_Topic := b_topic b; msg_Partition := b_partition b; msg_Offset := mr_offset res;
             msg_Key := mr_key res; msg_Value := mr_value res; msg_Headers := mr_headers res;
             msg_Time := Time.timestampToTime (mr_timestamp res) |}, b, c)
  | (Failed err, b, c) => (Failed err, b, c)
  | (Diverged, b, c) => (Diverged, b, c)
  end.

End batch.

(** ** [Batch.Close] *)

Definition batch_Close (b : batch) (c : conn) : option goerror * batch * conn :=
  let '(b, c) := match b_msgs b with
                 | None => (b, c)
                 | Some ms => let ms := (set_discard ms).2 in (set_msgs b ms, share ms c)
                 end in
  let err := if decide (b_err b = Some EOF) then None else b_err b in
  if b_attached b then
    let c := set_offset c (b_offset b) in
    let c := match err with
             | Some e => if negb (is_kafka_Error (Some e)) && bool_decide (e ≠ ErrShortBuffer)
                         then set_closed c else c
             | None => c
             end in
    (err, detach b, c)
  else (err, b, c).

(** ** [Conn.ReadBatchWith] *)

Record ReadBatchConfig : Type := { rb_MinBytes : Z; rb_MaxBytes : Z; rb_IsolationLevel : Z }.

Definition fetch_request (cfg : connCfg) (rb : ReadBatchConfig) (offset now deadline id : Z) : list byte :=
  let timeout := Time.deadlineToTimeout deadline now in
  let maxBytes := rb_MaxBytes rb + cfg_fetchMinSize cfg in
  if cfg_fetchVersion cfg =? Api.v5 then
    writeFetchRequestV5 id (cfg_clientID cfg) (cfg_topic cfg) (cfg_partition cfg) offset
      (rb_MinBytes rb) maxBytes timeout (rb_IsolationLevel rb)
  else
    writeFetchRequestV2 id (cfg_clientID cfg) (cfg_topic cfg) (cfg_partition cfg) offset
      (rb_MinBytes rb) maxBytes timeout.

Definition readFetchResponseHeader (cfg : connCfg) : rd (Z * Z) :=
  if cfg_fetchVersion cfg =? Api.v5 then readFetchResponseHeaderV5 else readFetchResponseHeaderV2.

(** A short read is a timeout or the end. *)
Definition shortRead_timeout (deadline now : Z) (err : goerror) : goerror :=
  if decide (err = errShortRead) then checkTimeoutErr deadline now else err.

(** The batch made of the response: its header, then the message set. *)
Definition openBatch (cfg : connCfg) (offset deadline now size : Z) (c : conn) : batch * conn :=
  let '(res, (remain, r)) := readFetchResponseHeader cfg (c_rbuf c) size in
  let c := set_rbuf c r in
  let mk throttle hw ms err :=
    {| b_attached := true; b_msgs := ms; b_deadline := deadline; b_throttle := Time.duration throttle;
       b_topic := cfg_topic cfg; b_partition := cfg_partition cfg; b_offset := offset;
       b_highWaterMark := hw; b_err := dontExpectEOF err |} in
  match res with
  | inl err => (mk 0 0 None (Some (shortRead_timeout deadline now err)), c)
  | inr (throttle, hw) =>
    if hw =? offset then (mk throttle hw (Some EmptySet) None, c)
    else
      match newMessageSetReader r remain with
      | inl err => (mk throttle hw None (Some (shortRead_timeout deadline now err)), c)
      | inr ms => (mk throttle hw (Some ms) None, c)
      end
  end.

Definition out_of_bounds : string := "kafka.(*Conn).ReadBatch: %d bytes out of bounds".

Definition ReadBatchWith (now : Z) (rb : ReadBatchConfig) : cm batch := λ c,
  let cfg := c_cfg c in
  let maxFetch := cfg_fetchMaxBytes cfg in
  if (rb_MinBytes rb <? 0) || (rb_MinBytes rb >? maxFetch) then
    (Done (failedBatch (Some (Errorf out_of_bounds (rb_MinBytes rb)))), c)
  else if (rb_MaxBytes rb <? 0) || (rb_MaxBytes rb >? maxFetch) then
    (Done (failedBatch (Some (Errorf out_of_bounds (rb_MaxBytes rb)))), c)
  else if rb_MinBytes rb >? rb_MaxBytes rb then
    (Done (failedBatch (Some (Errorf "kafka.(*Conn).ReadBatch: minBytes (%d) > maxBytes" (rb_MinBytes rb)))), c)
  else
    let '(o, whence) := Offset c in
    match Seek o whence c with
    | (Diverged, c) => (Diverged, c)
    | (Failed err, c) => (Done (failedBatch (dontExpectEOF (Some err))), c)
    | (Done offset, c) =>
      let deadline := Time.adjustDeadlineForRTT (c_rdeadline c) now Time.defaultRTT in
      match (id ← doRequest rdeadline (λ _ id, Done (fetch_request cfg rb offset now deadline id));
             waitResponse id) c with
      | (Diverged, c) => (Diverged, c)
      | (Failed err, c) => (Done (failedBatch (dontExpectEOF (Some err))), c)
      | (Done size, c) =>
        let '(b, c) := openBatch cfg offset deadline now size c in (Done b, c)
      end
    end.

Definition ReadBatch (now minBytes maxBytes : Z) : cm batch :=
  ReadBatchWith now {| rb_MinBytes := minBytes; rb_MaxBytes := maxBytes; rb_IsolationLevel := 0 |}.

(** [Conn.ReadMessage]: a batch of one message. *)
Definition Conn_ReadMessage (codecs : codec_registry) (loops fuel : nat) (now maxBytes : Z) :
    cm (outcome Message * option goerror) := λ c,
  match ReadBatch now 1 maxBytes c with
  | (Done b, c) =>
    let '(res, b, c) := batch_ReadMessage codecs loops fuel now b c in
    let '(cerr, b, c) := batch_Close b c in
    let err := match res with Failed e => Some e | _ => None end in
    (Done (res, coalesceErrors [silentEOF err; cerr]), c)
  | (Failed e, c) => (Failed e, c)
  | (Diverged, c) => (Diverged, c)
  end.

(** [Conn.Read]. *)
Definition Conn_Read (codecs : codec_registry) (fuel : nat) (now cap : Z) :
    cm (Z * list byte * option goerror) := λ c,
  match ReadBatch now 1 cap c with
  | (Done b, c) =>
    match batch_Read codecs fuel now cap b c with
    | (Done (n, bs, err), b, c) =>
      let '(cerr, b, c) := batch_Close b c in
      (Done (n, bs, coalesceErrors [silentEOF err; cerr]), c)
    | (Failed e, b, c) => (Failed e, c)
    | (Diverged, b, c) => (Diverged, c)
    end
  | (Failed e, c) => (Failed e, c)
  | (Diverged, c) => (Diverged, c)
  end.
