(* ===== verification/BatchSync.v ===== *)
(** * Batches leave their connection on the next response

    A program reads a batch with any sequence of [Read] and [ReadMessage]
    calls ([batch_step]) and closes it.  For message sets of format 1 the
    connection is then on the first byte after the response, whatever the
    response holds. *)

From stdpp Require Import relations.
From S2P Require Import Prelude Errors Time Bufio Read Write VarInt Wire.
From S2P Require Import Protocol Messages DataRequests FetchResponse MessageSet MessageSetAlign Conn ConnOps.
From S2P Require Import Batch.

(** ** The copying callback, behind the guard of [readBytesWith] *)

Lemma read_into_framed cap n r sz res sz' r' :
  0 ≤ cap → n ≤ sz → read_into cap n r sz = (res, (sz', r')) →
  (sz' = sz ∨ 0 ≤ sz' ≤ sz) ∧ sz - sz' ≤ len (rd_data r) ∧
  r' = with_data r (zdrop (sz - sz') (rd_data r)).
Proof.
  intros Hcap Hn E. unfold read_into in E. pose proof (len_nonneg (rd_data r)).
  destruct (Z.ltb_spec n 0) as [|Hn0]; [by apply (framed_ret (0, @nil byte)) in E|].
  set (k := if n >? cap then cap else n) in E.
  assert (0 ≤ k ≤ n) as Hk.
  { unfold k. destruct (Z.gtb_spec n cap); lia. }
  clearbody k. unfold ReadFull in E. destruct (Z.leb_spec k (len (rd_data r))).
  - apply framed_bind in E as (Hs & Hl & ->); [|apply _..].
    cbn [rd_data with_data] in *. rewrite len_zdrop in Hl by lia.
    split; [lia|]. split; [lia|]. rewrite zdrop_zdrop by lia. unfold with_data. cbn.
    do 2 f_equal. lia.
  - injection E as <- <- <-. split; [lia|]. split; [lia|].
    replace (sz - (sz - len (rd_data r))) with (len (rd_data r)) by lia. by rewrite zdrop_all.
Qed.

#[global] Instance framed_read_into cap : 0 ≤ cap → Framed (readBytesWith (read_into cap)).
Proof.
  intros Hcap. unfold readBytesWith. apply framed_bind; [apply _|]. intros n r sz res sz' r' E.
  unfold mbind, rd_bind, remaining in E. destruct (Z.gtb_spec n sz).
  - by apply framed_throw in E.
  - by eapply read_into_framed.
Qed.

(** ** The invariant of a batch *)

(** The set of format 1 is aligned with the response, and the connection has
    its reader. *)
Definition batch_aligned (r0 : bufreader) (sz0 : Z) (bc : batch * conn) : Prop :=
  ∃ s, b_msgs bc.1 = Some (SetV1 s) ∧ aligned r0 sz0 s ∧
       c_rbuf bc.2 = fr_reader (rs_bottom s).

Section steps.
Context (codecs : codec_registry).

(** One call of the program on the batch. *)
Inductive batch_step : batch * conn → batch * conn → Prop :=
| step_Read fuel now cap res b c b' c' :
    0 ≤ cap → batch_Read codecs fuel now cap b c = (res, b', c') → batch_step (b, c) (b', c')
| step_ReadMessage loops fuel now res b c b' c' :
    batch_ReadMessage codecs loops fuel now b c = (res, b', c') → batch_step (b, c) (b', c').

Context (r0 : bufreader) (sz0 : Z).

Lemma V1_discard_aligned s : aligned r0 sz0 s → aligned r0 sz0 (V1_discard s).2.
Proof.
  intros Ha. unfold V1_discard, is_nil. destruct (rs_popped s) eqn:Hp; [done|].
  assert (aligned r0 sz0 (Stack [] (rs_bottom s) (rs_popped s))) as Ha' by done.
  rewrite Hp in *.
  destruct (on_top _ _) as [res s1] eqn:E.
  apply (aligned_on_top r0 sz0) in E as [Ha1 _]; [|done|done]. by destruct res.
Qed.

Lemma batch_readMessage_aligned {K V} (key : Z → rd K) (val : Z → rd V)
    `{!Framed (readBytesWith key), !Framed (readBytesWith val)} fuel now b c res b' c' :
  batch_aligned r0 sz0 (b, c) → batch_readMessage codecs key val fuel now b c = (res, b', c') →
  batch_aligned r0 sz0 (b', c').
Proof.
  intros (s & Hms & Ha & Hr) E. cbn in Hms, Hr. unfold batch_readMessage in E.
  destruct (b_err b); [by injection E as <- <- <-; exists s|].
  rewrite Hms in E. cbn [readMessage] in E.
  destruct (V1_readMessage codecs key val fuel (b_offset b) s) as [res1 s1] eqn:E1.
  pose proof (V1_readMessage_aligned r0 sz0 codecs key val _ _ _ _ _ Ha E1) as Ha1.
  destruct res1 as [a|err|].
  - injection E as <- <- <-. by exists s1.
  - case_decide.
    + unfold set_discard in E. pose proof (V1_discard_aligned s1 Ha1) as Ha2.
      destruct (V1_discard s1) as [[e|] s2]; cbn in Ha2, E.
      * injection E as <- <- <-. by exists s2.
      * destruct (_ =? 0); injection E as <- <- <-; by exists s2.
    + injection E as <- <- <-. by exists s1.
  - injection E as <- <- <-. by exists s1.
Qed.

(** Only the reader and the messages matter. *)
Lemma batch_aligned_ext b b' c : b_msgs b' = b_msgs b → batch_aligned r0 sz0 (b, c) → batch_aligned r0 sz0 (b', c).
Proof. intros Hb (s & Hm & Ha & Hr). exists s. cbn in *. by rewrite Hb. Qed.

Lemma batch_step_aligned bc bc' :
  batch_step bc bc' → batch_aligned r0 sz0 bc → batch_aligned r0 sz0 bc'.
Proof.
  destruct 1 as [fuel now cap res b c b' c' Hcap E|loops fuel now res b c b' c' E]; intros Ha.
  - unfold batch_Read in E.
    destruct (batch_readMessage _ _ _ _ _ _ _) as [[res1 b1] c1] eqn:E1.
    apply batch_readMessage_aligned in E1; [|apply _|by apply framed_read_into|done].
    destruct res1 as [a|e|]; [|by injection E as <- <- <-|by injection E as <- <- <-].
    destruct (mr_value a) as [n bs]. destruct (n >? cap); injection E as <- <- <-; [|done].
    by eapply batch_aligned_ext; [|exact E1].
  - unfold batch_ReadMessage in E.
    destruct (batch_ReadMessage_loop _ _ _ _ _ _) as [[res1 b1] c1] eqn:E1.
    assert (batch_aligned r0 sz0 (b1, c1)) as Ha1.
    { clear E. revert b c Ha E1. induction loops as [|loops IH]; intros b c Ha E1.
      { by injection E1 as <- <- <-. }
      cbn [batch_ReadMessage_loop] in E1.
      destruct (batch_readMessage _ _ _ _ _ _ _) as [[res2 b2] c2] eqn:E2.
      apply batch_readMessage_aligned in E2; [|apply _..|done].
      destruct res2 as [a|e|]; [|by injection E1 as <- <- <-|by injection E1 as <- <- <-].
      destruct (_ && _); [by eapply IH|by injection E1 as <- <- <-]. }
    by destruct res1; injection E as <- <- <-.
Qed.

Lemma batch_steps_aligned bc bc' :
  rtc batch_step bc bc' → batch_aligned r0 sz0 bc → batch_aligned r0 sz0 bc'.
Proof. induction 1; [done|]. intros. eauto using batch_step_aligned. Qed.

Lemma batch_Close_end b c :
  0 ≤ sz0 ≤ len (rd_data r0) → batch_aligned r0 sz0 (b, c) →
  c_rbuf (batch_Close b c).2 = with_data r0 (zdrop sz0 (rd_data r0)).
Proof.
  intros Hsz (s & Hms & Ha & Hr). cbn in Hms, Hr. unfold batch_Close. rewrite Hms.
  pose proof (V1_discard_end r0 sz0 s Hsz Ha) as (_ & Hend & _).
  unfold set_discard. destruct (V1_discard s) as [e s1]. cbn in Hend. cbn [share bottom_reader snd].
  destruct (b_attached _); cbn; [|done].
  repeat case_match; done.
Qed.
End steps.

(** ** A response opened as a batch of format 1 *)

Lemma newMessageSetReader_aligned r sz s :
  newMessageSetReader r sz = inr (SetV1 s) → aligned r sz s.
Proof.
  unfold newMessageSetReader. destruct (_ >? sz); [done|].
  destruct (Peek _ _) as [b [e|]]; [done|]. destruct (_ || _); [|by destruct (_ =? 2)].
  intros [= <-]. split; [apply frame_aligned_init|done].
Qed.

(** The position in a response after a framed read of its header. *)
Lemma aligned_after_header r0 r size remain s :
  (remain = size ∨ 0 ≤ remain ≤ size) → size - remain ≤ len (rd_data r0) →
  r = with_data r0 (zdrop (size - remain) (rd_data r0)) → 0 ≤ remain →
  aligned r remain s → aligned r0 size s.
Proof.
  intros Hs Hl -> Hpos [(Hs1 & Hl1 & Hr1) Hp]. split; [|done].
  cbn [rd_data with_data] in *. rewrite len_zdrop in Hl1 by lia.
  split; [lia|]. split; [lia|]. rewrite Hr1. cbn [rd_data with_data].
  rewrite zdrop_zdrop by lia. unfold with_data. cbn. do 2 f_equal. lia.
Qed.

#[global] Instance framed_readFetchResponseHeader cfg : Framed (readFetchResponseHeader cfg).
Proof. unfold readFetchResponseHeader. apply _. Qed.

Lemma openBatch_aligned cfg offset deadline now size c b c' s :
  openBatch cfg offset deadline now size c = (b, c') → b_msgs b = Some (SetV1 s) → 0 ≤ size →
  batch_aligned (c_rbuf c) size (b, c').
Proof.
  intros E Hms Hsz. unfold openBatch in E.
  destruct (readFetchResponseHeader cfg (c_rbuf c) size) as [res [remain r]] eqn:Eh.
  apply framed_readFetchResponseHeader in Eh as (Hs & Hl & Hr).
  destruct res as [e|[throttle hw]]; [injection E as <- <-; discriminate Hms|].
  destruct (hw =? offset); [injection E as <- <-; discriminate Hms|].
  destruct (newMessageSetReader r remain) as [e|ms] eqn:En; [injection E as <- <-; discriminate Hms|].
  injection E as <- <-. cbn in Hms. injection Hms as ->.
  exists s. split; [done|]. pose proof (newMessageSetReader_aligned _ _ _ En) as Ha.
  split; [by eapply aligned_after_header; [..|exact Ha]; eauto; lia|].
  unfold newMessageSetReader in En. destruct (_ >? remain); [done|].
  destruct (Peek _ _) as [? [?|]]; [done|]. destruct (_ || _); [|by destruct (_ =? 2)].
  by injection En as <-.
Qed.
