(* ===== verification/BatchReturns.v ===== *)
(** * Reads of a batch return

    The loops over the messages of a set have a fuel.  Here it is shown that a
    result does not depend on the fuel once there is one, that the bytes of the
    set bound the fuel that is needed when no codec is registered (as none is
    before a program imports one), and that with codecs no bound exists. *)

From S2P Require Import Prelude Errors Time Bufio Read Messages DataRequests FetchResponse MessageSet ReadShort Conn ConnOps Batch BatchSync.

(** ** Reads that consume *)

(** A successful read takes at least one byte. *)
Class Consumes {A} (m : rd A) : Prop := consumes : ∀ r sz a sz' r',
  m r sz = (inr a, (sz', r')) → 0 ≤ sz' < sz.

#[global] Instance consumes_peekRead {A} n (f : list byte → A) : 0 < n → Consumes (peekRead n f).
Proof.
  intros Hn r sz a sz' r'. unfold peekRead. destruct (Z.gtb_spec n sz) as [|Hle]; [done|].
  destruct (Peek n r) as [b [e|]]; [done|]. unfold mbind, rd_bind, discardN.
  rewrite (proj2 (Z.leb_le n sz)) by lia.
  destruct (Discard n r) as [[k [e|]] r1] eqn:Ed; cbn; [done|]. intros [= _ <- _].
  unfold Discard in Ed. destruct (n <? 0); [done|]. destruct (n <=? len (rd_data r)); [|done]. injection Ed as <- _. lia.
Qed.

(** A sequence of reads that begins with one that consumes. *)
Lemma consumes_bind {A B} (m : rd A) (f : A → rd B) :
  Consumes m → (∀ a, Framed (f a)) → Consumes (m ≫= f).
Proof.
  intros Hm Hf r sz b sz' r'. unfold mbind, rd_bind. destruct (m r sz) as [[e|a] [sz1 r1]] eqn:E1; [done|].
  intros E2. apply Hm in E1. apply Hf in E2 as (Hs & _). lia.
Qed.

Lemma consumes_second {A B} (m : rd A) (f : A → rd B) :
  Framed m → (∀ a, Consumes (f a)) → Consumes (m ≫= f).
Proof.
  intros Hm Hf r sz b sz' r'. unfold mbind, rd_bind. destruct (m r sz) as [[e|a] [sz1 r1]] eqn:E1; [done|].
  intros E2. apply Hm in E1 as (Hs & _). apply Hf in E2. lia.
Qed.

#[local] Instance consumes_header : Consumes readMessageHeader.
Proof. unfold readMessageHeader. apply consumes_bind; [|apply _]. by apply consumes_peekRead. Qed.

(** What a read of the only frame of a stack does. *)
Definition flat (s : readerStack) : Prop := rs_inner s = [].

Definition bottom_bytes (s : readerStack) : Z := fr_remain (rs_bottom s).

Lemma flat_on_top {A} (m : rd A) s res s' :
  Framed m → flat s → on_top m s = (res, s') →
  flat s' ∧ (0 ≤ bottom_bytes s → 0 ≤ bottom_bytes s') ∧ bottom_bytes s' ≤ bottom_bytes s ∧
  (Consumes m → ∀ a, res = inr a → 0 ≤ bottom_bytes s' < bottom_bytes s).
Proof.
  unfold flat, on_top, top, set_top, bottom_bytes. intros Hm Hf. rewrite Hf. unfold on_frame.
  destruct (m _ _) as [res1 [sz1 r1]] eqn:E. intros [= <- <-]. cbn. pose proof E as E'. apply Hm in E' as (Hs & _).
  split; [done|]. split; [lia|]. split; [lia|]. intros Hc a ->. by apply Hc in E.
Qed.

(** ** Without codecs, the bytes of the set bound the loops *)

Section no_codecs.
Context {K V : Type} (key : Z → rd K) (val : Z → rd V).
Context `{!∀ n, Framed (key n), !∀ n, Framed (val n)}.

Lemma V1_returns fuel min s res s' :
  flat s → Z.max 0 (bottom_bytes s) + 2 ≤ Z.of_nat fuel →
  V1_readMessage ∅ key val fuel min s = (res, s') →
  res ≠ Diverged ∧ flat s' ∧ bottom_bytes s' ≤ bottom_bytes s ∧ (∀ a, res = Done a → 0 ≤ bottom_bytes s' < bottom_bytes s).
Proof.
  revert s. induction fuel as [|fuel IH]; intros s Hfl Hf; [lia|]. cbn [V1_readMessage].
  destruct (is_nil s) eqn:Hn; [intros [= <- <-]; by split_and!|].
  destruct (Z.eqb_spec (fr_remain (top s)) 0) as [Hz|Hz].
  { unfold top in Hz. rewrite Hfl in Hz. fold (bottom_bytes s) in Hz. destruct fuel as [|fuel]; [lia|].
    cbn [V1_readMessage]. unfold pop. rewrite Hfl. cbn. intros [= <- <-]. split_and!; try done. }
  destruct (on_top readMessageHeader s) as [[e|[[o a] t]] s1] eqn:E1;
    apply (flat_on_top _ _ _ _ _ Hfl) in E1 as (Hf1 & Hp1 & Hb1 & Hc1).
  { intros [= <- <-]. by split_and!. }
  specialize (Hc1 _ _ eq_refl). destruct (negb _).
  { unfold resolveCodec. rewrite lookup_empty. intros [= <- <-]. split_and!; try done. }
  destruct (_ <? min).
  - destruct (on_top _ s1) as [[e|[]] s2] eqn:E2; apply (flat_on_top _ _ _ _ _ Hf1) in E2 as (Hf2 & Hp2 & Hb2 & _).
    + intros [= <- <-]. split_and!; try done; lia.
    + intros E. apply IH in E as (Hd & Hf3 & Hb3 & Hc3); [|done|lia]. split_and!; try done; [lia|].
      intros a' Ha'. specialize (Hc3 a' Ha'). lia.
  - destruct (on_top _ s1) as [[e|[k v]] s2] eqn:E2;
      apply (flat_on_top _ _ _ _ _ Hf1) in E2 as (Hf2 & Hp2 & Hb2 & _);
      intros [= <- <-]; split_and!; done || lia || (intros _ _; lia).
Qed.

#[local] Instance consumes_record : Consumes (readRecord key val).
Proof.
  unfold readRecord. apply consumes_second; [apply _|]. intros _. apply consumes_bind; [by apply consumes_peekRead|].
  intros _. apply _.
Qed.

Lemma V2_returns m res m' :
  flat (v2_stack m) → V2_readMessage ∅ key val m = (res, m') →
  res ≠ Diverged ∧ flat (v2_stack m') ∧ bottom_bytes (v2_stack m') ≤ bottom_bytes (v2_stack m) ∧
  (∀ a, res = Done a → 0 ≤ bottom_bytes (v2_stack m') < bottom_bytes (v2_stack m)).
Proof.
  intros Hfl. unfold V2_readMessage.
  assert (∀ r1 m1, (if v2_messageCount m =? 0 then V2_nextBatch ∅ m else (inr tt, m)) = (r1, m1) →
    flat (v2_stack m1) ∧ bottom_bytes (v2_stack m1) ≤ bottom_bytes (v2_stack m)) as Hnext.
  { intros r1 m1. destruct (_ =? 0); [|by intros [= _ <-]]. unfold V2_nextBatch, has_parent. rewrite Hfl.
    set (s0 := if fr_remain (top (v2_stack m)) =? 0 then _ else _).
    assert (s0 = v2_stack m) as -> by (unfold s0; by destruct (_ =? 0)).
    destruct (on_top readHeader (v2_stack m)) as [[e|[h c]] s1] eqn:E1;
      apply (flat_on_top _ _ _ _ _ Hfl) in E1 as (Hf1 & _ & Hb1 & _); [by intros [= _ <-]|].
    destruct (negb _); [|by intros [= _ <-]]. unfold resolveCodec. rewrite lookup_empty. by intros [= _ <-]. }
  destruct (if v2_messageCount m =? 0 then _ else _) as [[e|[]] m1] eqn:E; destruct (Hnext _ _ eq_refl) as [Hf1 Hb1].
  { intros [= <- <-]. by split_and!. }
  destruct (on_top (readRecord key val) (v2_stack m1)) as [[e|[[[[o t] h] k] v]] s2] eqn:E2;
    apply (flat_on_top _ _ _ _ _ Hf1) in E2 as (Hf2 & _ & Hb2 & Hc2); intros [= <- <-]; cbn [v2_stack].
  - split_and!; try done. lia.
  - specialize (Hc2 _ _ eq_refl). split_and!; try done; [lia|]. intros _ _. lia.
Qed.
End no_codecs.

(** The frames of a message set and the bytes that are left of it. *)
Definition set_flat (ms : messageSetReader) : Prop :=
  match ms with EmptySet => True | SetV1 s => flat s | SetV2 m => flat (v2_stack m) end.

Definition set_bytes (ms : messageSetReader) : Z :=
  match ms with EmptySet => 0 | SetV1 s => bottom_bytes s | SetV2 m => bottom_bytes (v2_stack m) end.

(** A batch of at most [n] bytes. *)
Definition batch_within (n : Z) (b : batch) : Prop :=
  match b_msgs b with Some ms => set_flat ms ∧ set_bytes ms ≤ n | None => True end.

Lemma batch_readMessage_returns {K V} (key : Z → rd K) (val : Z → rd V)
    `{!∀ n, Framed (key n), !∀ n, Framed (val n)} fuel now n b c res b' c' :
  batch_within n b → 0 ≤ n → n + 2 ≤ Z.of_nat fuel →
  batch_readMessage ∅ key val fuel now b c = (res, b', c') →
  res ≠ Diverged ∧ ∀ a, res = Done a → 0 ≤ n - 1 ∧ batch_within (n - 1) b'.
Proof.
  unfold batch_within, batch_readMessage. intros Hb Hn Hf. destruct (b_err b); [by intros [= <- <- <-]|].
  destruct (b_msgs b) as [ms|] eqn:Em; [|by intros [= <- <- <-]]. destruct Hb as [Hfl Hbs].
  destruct (readMessage ∅ key val fuel (b_offset b) ms) as [r ms'] eqn:Er.
  assert (r ≠ Diverged ∧ set_flat ms' ∧ ∀ a, r = Done a → 0 ≤ set_bytes ms' < set_bytes ms) as (Hd & Hfl' & Hc).
  { unfold readMessage in Er. destruct ms as [|s|m]; cbn in *.
    - injection Er as <- <-. by split_and!.
    - destruct (V1_readMessage _ _ _ _ _ s) as [r1 s1] eqn:E1. injection Er as <- <-.
      apply V1_returns in E1 as (? & ? & ? & ?); try done. lia.
    - destruct (V2_readMessage _ _ _ m) as [r1 m1] eqn:E1. injection Er as <- <-.
      apply V2_returns in E1 as (? & ? & ? & ?); done. }
  destruct r as [a|e|]; [| |done].
  - intros [= <- <- <-]. split; [done|]. intros a' _. specialize (Hc a eq_refl). cbn. split; [lia|]. split; [done|lia].
  - case_decide; [|by intros [= <- <- <-]]. destruct (set_discard ms') as [[e'|] ms'']; [by intros [= <- <- <-]|].
    destruct (_ =? 0); by intros [= <- <- <-].
Qed.

Lemma batch_ReadMessage_returns loops fuel now n b c res b' c' :
  batch_within n b → 0 ≤ n → n + 2 ≤ Z.of_nat fuel → n + 1 ≤ Z.of_nat loops →
  batch_ReadMessage ∅ loops fuel now b c = (res, b', c') →
  res ≠ Diverged ∧ ∀ a, res = Done a → batch_within n b'.
Proof.
  intros Hb Hn Hf Hl. unfold batch_ReadMessage.
  assert (∀ res b' c', batch_ReadMessage_loop ∅ loops fuel now b c = (res, b', c') →
    res ≠ Diverged ∧ ∀ a, res = Done a → batch_within n b') as Hloop.
  { clear res b' c'. revert n b c Hb Hn Hf Hl. induction loops as [|loops IH]; intros n b c Hb Hn Hf Hl res b' c'; [lia|].
    cbn [batch_ReadMessage_loop]. destruct (batch_readMessage _ _ _ _ _ _ _) as [[r b1] c1] eqn:E.
    destruct (batch_readMessage_returns readNewBytes readNewBytes _ _ _ _ _ _ _ _ Hb Hn Hf E) as [Hd Hw].
    destruct r as [a|e|]; [|by intros [= <- <- <-]|done]. destruct (Hw a eq_refl) as [Hn1 Hb1].
    assert (∀ b, batch_within (n - 1) b → batch_within n b) as Hle.
    { intros b0. unfold batch_within. destruct (b_msgs b0); [|done]. intros [? ?]. split; [done|lia]. }
    destruct (_ && _).
    - intros E1. destruct (IH (n - 1) b1 c1 Hb1 ltac:(lia) ltac:(lia) ltac:(lia) _ _ _ E1) as [? Hw1].
      split; [done|]. intros a' Ha'. by eapply Hle, Hw1.
    - intros [= <- <- <-]. split; [done|]. intros _ _. by apply Hle. }
  destruct (batch_ReadMessage_loop _ _ _ _ _ _) as [[r b1] c1] eqn:E. destruct (Hloop _ _ _ eq_refl) as [Hd Hw].
  destruct r as [a|e|]; intros [= <- <- <-]; [|done|done]. split; [done|]. intros _ _. by eapply Hw.
Qed.

(** ** A result does not depend on the fuel *)

Section more_fuel.
Context (codecs : codec_registry) {K V : Type} (key : Z → rd K) (val : Z → rd V).

Lemma V1_more fuel fuel' min s res s' :
  V1_readMessage codecs key val fuel min s = (res, s') → res ≠ Diverged → (fuel ≤ fuel')%nat →
  V1_readMessage codecs key val fuel' min s = (res, s').
Proof.
  revert fuel' s. induction fuel as [|fuel IH]; intros fuel' s E Hd Hle; cbn [V1_readMessage] in E;
    [injection E as <- <-; done|].
  destruct fuel' as [|fuel']; [lia|]. cbn [V1_readMessage]. destruct (is_nil s); [done|].
  destruct (_ =? 0); [by apply IH; [|done|lia]|].
  destruct (on_top readMessageHeader s) as [[e|[[o a] t]] s1]; [done|]. destruct (negb _).
  - destruct (resolveCodec _ _); [done|]. destruct (on_top _ s1) as [[e|d] s2]; [done|].
    destruct (extractOffset o d); [done|]. by apply IH; [|done|lia].
  - destruct (_ <? min); [|done]. destruct (on_top _ s1) as [[e|[]] s2]; [done|]. by apply IH; [|done|lia].
Qed.

Lemma batch_readMessage_more fuel fuel' now b c res b' c' :
  batch_readMessage codecs key val fuel now b c = (res, b', c') → res ≠ Diverged → (fuel ≤ fuel')%nat →
  batch_readMessage codecs key val fuel' now b c = (res, b', c').
Proof.
  unfold batch_readMessage. destruct (b_err b); [done|]. destruct (b_msgs b) as [ms|]; [|done].
  destruct (readMessage codecs key val fuel (b_offset b) ms) as [r ms'] eqn:E. intros E' Hd Hle.
  assert (r ≠ Diverged) as Hr by (intros ->; by injection E' as <- _ _).
  assert (readMessage codecs key val fuel' (b_offset b) ms = (r, ms')) as ->; [|exact E'].
  unfold readMessage in *. destruct ms as [|s|m]; [done| |done].
  destruct (V1_readMessage _ _ _ fuel _ s) as [r1 s1] eqn:E1. injection E as <- <-.
  by rewrite (V1_more _ fuel' _ _ _ _ E1 Hr Hle).
Qed.
End more_fuel.

Lemma batch_ReadMessage_more codecs loops loops' fuel fuel' now b c res b' c' :
  batch_ReadMessage codecs loops fuel now b c = (res, b', c') → res ≠ Diverged →
  (loops ≤ loops')%nat → (fuel ≤ fuel')%nat →
  batch_ReadMessage codecs loops' fuel' now b c = (res, b', c').
Proof.
  unfold batch_ReadMessage.
  assert (∀ loops loops' b c r b' c', batch_ReadMessage_loop codecs loops fuel now b c = (r, b', c') → r ≠ Diverged →
    (loops ≤ loops')%nat → (fuel ≤ fuel')%nat → batch_ReadMessage_loop codecs loops' fuel' now b c = (r, b', c')) as Hloop.
  { clear. induction loops as [|loops IH]; intros loops' b c r b' c' E Hd Hl Hf; cbn [batch_ReadMessage_loop] in E;
      [injection E as <- _ _; done|]. destruct loops' as [|loops']; [lia|]. cbn [batch_ReadMessage_loop].
    destruct (batch_readMessage _ _ _ fuel _ _ _) as [[r1 b1] c1] eqn:E1.
    assert (r1 ≠ Diverged) as Hd1 by (intros ->; by injection E as <- _ _).
    rewrite (batch_readMessage_more _ _ _ _ fuel' _ _ _ _ _ _ E1 Hd1 Hf). destruct r1; [|done|done].
    destruct (_ && _); [|done]. by apply IH; [| |lia|]. }
  destruct (batch_ReadMessage_loop codecs loops fuel now b c) as [[r b1] c1] eqn:E. intros E' Hd Hl Hf.
  assert (r ≠ Diverged) as Hr by (intros ->; by injection E' as <- _ _).
  by rewrite (Hloop _ _ _ _ _ _ _ E Hr Hl Hf).
Qed.

(** ** With codecs there is no bound *)

(** A compressed message, and a codec whose output is that message again, as
    that of a compressed file which decompresses to itself is. *)
Definition nested_set : list byte := writeMessage 0 1 0 None (Some (map byte_of_Z [1])).

Definition nested_codec : CompressionCodec := {| Code := 1; Encode := inr; Decode := λ _, inr nested_set |}.

Lemma nested_read :
  ∃ sz r sz' r', readMessageHeader (NewReader nested_set) (len nested_set) = (inr (0, 1, 0), (sz, r)) ∧
    readCompressed nested_codec r sz = (inr nested_set, (sz', r')) ∧ extractOffset 0 nested_set = inr 0.
Proof. do 4 eexists. split; [vm_compute; reflexivity|]. split; by vm_compute. Qed.

(** Finding nested_forever: compressed messages inside compressed messages are opened to any
    depth: with a codec under which a message decompresses to itself, the reader
    of a message set of version 1 opens one after the other without end, and the
    call never returns. *)
Lemma nested_forever {K V} (key : Z → rd K) (val : Z → rd V) fuel min base s :
  (V1_readMessage {[1 := nested_codec]} key val fuel min
     (Stack (Frame (NewReader nested_set) (len nested_set) base :: s) (Frame (NewReader []) 0 0) false)).1 = Diverged.
Proof.
  revert base s. induction fuel as [|fuel IH]; intros base s; [done|].
  destruct nested_read as (sz & r & sz' & r' & E1 & E2 & E3). cbn [V1_readMessage].
  unfold on_top, on_frame. cbn [is_nil top rs_inner rs_bottom rs_popped fr_remain fr_reader fr_base].
  change (len nested_set =? 0) with false. cbn match. rewrite E1. cbn [set_top rs_inner rs_bottom rs_popped].
  change (negb (Z.land 1 compressionCodecMask =? 0)) with true.
  change (resolveCodec {[1 := nested_codec]} (Z.land 1 compressionCodecMask)) with (@inr goerror _ nested_codec).
  cbn match. cbn [top rs_inner fr_remain fr_reader fr_base]. rewrite E2, E3.
  cbn [push set_top rs_inner rs_bottom rs_popped]. apply IH.
Qed.
