(* ===== verification/Balancer.v ===== *)
(** * Balancers: routing messages to partitions (balancer.go)

    A balancer is a state and a transition: [Balance] returns the partition
    and the new state, or fails where Go panics (no partition). *)

From S2P Require Import Prelude Errors Read Messages.

(** The interface that writers use; [BalancerFunc] is a state-free one. *)
Class Balancer (T : Type) : Type := Balance : T → Message → list Z → outcome (Z * T).

Definition BalancerFunc : Type := Message → list Z → Z.
#[global] Instance BalancerFunc_balancer : Balancer BalancerFunc :=
  λ f msg partitions, Done (f msg partitions, f).

Definition noPartition : goerror := GoPanic "integer divide by zero".

(** ** [RoundRobin] *)

Record RoundRobin : Type := { rr_offset : Z }.

Definition RoundRobin_Balance (rr : RoundRobin) (msg : Message) (partitions : list Z) :
    outcome (Z * RoundRobin) :=
  let length := len partitions in
  let offset := rr_offset rr in
  if length =? 0 then Failed noPartition
  else Done (nth (Z.to_nat (offset mod length)) partitions 0, {| rr_offset := uint64 (offset + 1) |}).

#[global] Instance RoundRobin_balancer : Balancer RoundRobin := RoundRobin_Balance.

(** ** [LeastBytes] *)

Record leastBytesCounter : Type := { lb_partition : Z; lb_bytes : Z }.

Record LeastBytes : Type := { lb_counters : list leastBytesCounter }.

Definition zeroCounter : leastBytesCounter := {| lb_partition := 0; lb_bytes := 0 |}.

(** [sort.Search]: binary search for the least index in [[i, j)] at which [f]
    holds; the interval shrinks at every step, so that its length is fuel
    enough. *)
Fixpoint Search_loop (fuel : nat) (f : Z → bool) (i j : Z) : Z :=
  match fuel with
  | O => i
  | S fuel =>
    if i <? j then
      let h := (i + j) / 2 in
      if f h then Search_loop fuel f i h else Search_loop fuel f (h + 1) j
    else i
  end.

Definition Search (n : Z) (f : Z → bool) : Z := Search_loop (Z.to_nat n) f 0 n.

Definition counterOf (counters : list leastBytesCounter) (partition : Z) : option leastBytesCounter :=
  let i := Search (len counters)
             (λ i, lb_partition (nth (Z.to_nat i) counters zeroCounter) >=? partition) in
  if (i =? len counters) then None
  else
    let c := nth (Z.to_nat i) counters zeroCounter in
    if negb (lb_partition c =? partition) then None else Some c.

Definition counter_le (c1 c2 : leastBytesCounter) : Prop := lb_partition c1 ≤ lb_partition c2.

#[global] Instance counter_le_dec c1 c2 : Decision (counter_le c1 c2).
Proof. unfold counter_le. apply _. Defined.

(** [sort.Slice]: counters of one partition are equal, so that the order in
    which it leaves them does not matter. *)
Definition makeCounters (partitions : list Z) : list leastBytesCounter :=
  merge_sort counter_le (map (λ p, {| lb_partition := p; lb_bytes := 0 |}) partitions).

(** The loop over [counters[1:]]: the first counter with the fewest bytes. *)
Fixpoint minCounter (i minIndex minBytes : Z) (counters : list leastBytesCounter) : Z :=
  match counters with
  | [] => minIndex
  | c :: counters =>
    if lb_bytes c <? minBytes then minCounter (i + 1) i (lb_bytes c) counters
    else minCounter (i + 1) minIndex minBytes counters
  end.

Definition messageBytes (msg : Message) : Z := len (bdata (msg_Key msg)) + len (bdata (msg_Value msg)).

Definition LeastBytes_Balance (lb : LeastBytes) (msg : Message) (partitions : list Z) :
    outcome (Z * LeastBytes) :=
  let counters :=
    if existsb (λ p, match counterOf (lb_counters lb) p with None => true | _ => false end) partitions
    then makeCounters partitions else lb_counters lb in
  match counters with
  | [] => Failed (GoPanic "index out of range")
  | c0 :: rest =>
    let minIndex := minCounter 1 0 (lb_bytes c0) rest in
    let c := nth (Z.to_nat minIndex) counters zeroCounter in
    let c' := {| lb_partition := lb_partition c; lb_bytes := uint64 (lb_bytes c + messageBytes msg) |} in
    Done (lb_partition c, {| lb_counters := <[Z.to_nat minIndex := c']> counters |})
  end.

#[global] Instance LeastBytes_balancer : Balancer LeastBytes := LeastBytes_Balance.

(** ** [Hash] *)

(** The hash of package hash/fnv, [New32a]. *)
Definition fnv1a (key : list byte) : Z :=
  fold_left (λ h b, uint32 (Z.lxor h (Z_of_byte b) * 16777619)) key 2166136261.

(** [Hasher] is the sum that the hasher of the user computes, [None] is nil. *)
Record Hash : Type := { hs_rr : RoundRobin; hs_Hasher : option (list byte → Z) }.

Definition Hash_Balance (h : Hash) (msg : Message) (partitions : list Z) : outcome (Z * Hash) :=
  match msg_Key msg with
  | None =>
    '(p, rr) ← RoundRobin_Balance (hs_rr h) msg partitions;
    Done (p, {| hs_rr := rr; hs_Hasher := hs_Hasher h |})
  | Some key =>
    let sum := default fnv1a (hs_Hasher h) key in
    if len partitions =? 0 then Failed noPartition
    else
      let partition := Z.rem sum (len partitions) in
      let partition := if partition <? 0 then - partition else partition in
      Done (partition, h)
  end.

#[global] Instance Hash_balancer : Balancer Hash := Hash_Balance.

(** A sequence of messages through a balancer. *)
Fixpoint balanceAll `{Balancer T} (s : T) (msgs : list Message) (partitions : list Z) :
    outcome (list Z * T) :=
  match msgs with
  | [] => Done ([], s)
  | msg :: msgs =>
    '(p, s) ← Balance s msg partitions;
    '(ps, s) ← balanceAll s msgs partitions;
    Done (p :: ps, s)
  end.

(** ** Round robin is fair *)

(** The [k]-th message after offset [o] goes to the partition at [o + k]. *)
Lemma RoundRobin_run o msgs partitions :
  partitions ≠ [] → 0 ≤ o → o + len msgs < 2 ^ 64 →
  balanceAll {| rr_offset := o |} msgs partitions =
  Done (imap (λ k _, nth (Z.to_nat ((o + Z.of_nat k) mod len partitions)) partitions 0) msgs,
        {| rr_offset := o + len msgs |}).
Proof.
  intros Hp. revert o. induction msgs as [|msg msgs IH]; intros o Ho Hl.
  { simpl. by rewrite Z.add_0_r. }
  rewrite len_cons in Hl. pose proof (len_nonneg msgs).
  cbn [balanceAll]. change (Balance ?s ?m ?p) with (RoundRobin_Balance s m p).
  unfold RoundRobin_Balance. cbn [rr_offset].
  assert (len partitions ≠ 0) by (destruct partitions; [done|]; rewrite len_cons;
    pose proof (len_nonneg partitions); lia).
  rewrite (proj2 (Z.eqb_neq _ 0)) by done. rewrite outcome_bind_done.
  unfold wrapU. rewrite (Z.mod_small (o + 1)) by lia.
  cbn [fst snd]. rewrite IH by lia. rewrite outcome_bind_done. cbn [imap].
  rewrite Z.add_0_r, len_cons. do 2 f_equal; [|f_equal; lia]. f_equal.
  apply imap_ext. intros k x _. cbn. do 3 f_equal. lia.
Qed.

(** A full turn is a rotation of the partitions. *)
Lemma rotation_nth (l : list Z) o k :
  l ≠ [] → 0 ≤ o → (k < length l)%nat →
  (drop (Z.to_nat (o mod len l)) l ++ take (Z.to_nat (o mod len l)) l) !! k
  = Some (nth (Z.to_nat ((o + Z.of_nat k) mod len l)) l 0).
Proof.
  intros Hl Ho Hk. assert (0 < len l) by (unfold len; lia).
  pose proof (Z.mod_pos_bound o (len l)). set (m := o mod len l) in *.
  assert ((o + Z.of_nat k) mod len l = if decide (m + Z.of_nat k < len l) then m + Z.of_nat k
                                       else m + Z.of_nat k - len l) as ->.
  { rewrite <- Zplus_mod_idemp_l. fold m. unfold len in *. case_decide; [apply Z.mod_small; lia|].
    rewrite <- (Z.mod_small (m + Z.of_nat k - Z.of_nat (length l)) (Z.of_nat (length l))) by lia.
    rewrite <- (Z.mod_add (m + Z.of_nat k - Z.of_nat (length l)) 1) by lia. f_equal. lia. }
  unfold len in *. case_decide.
  - rewrite lookup_app_l by (rewrite length_drop; lia). rewrite lookup_drop.
    rewrite (list_lookup_lookup_total_lt l) by lia.
    rewrite nth_lookup. replace (Z.to_nat (m + Z.of_nat k)) with (Z.to_nat m + k)%nat by lia.
    by rewrite (list_lookup_lookup_total_lt l) by lia.
  - rewrite lookup_app_r by (rewrite length_drop; lia). rewrite length_drop.
    rewrite lookup_take_lt by lia. rewrite nth_lookup.
    replace (Z.to_nat (m + Z.of_nat k - Z.of_nat (length l)))
      with (k - (length l - Z.to_nat m))%nat by lia.
    by rewrite (list_lookup_lookup_total_lt l) by lia.
Qed.

Lemma imap_rotation {A} (xs : list A) (l : list Z) o :
  l ≠ [] → 0 ≤ o → length xs = length l →
  imap (λ k _, nth (Z.to_nat ((o + Z.of_nat k) mod len l)) l 0) xs
  = drop (Z.to_nat (o mod len l)) l ++ take (Z.to_nat (o mod len l)) l.
Proof.
  intros Hl Ho Hn. apply list_eq_same_length with (n := length l).
  - rewrite length_app, length_drop, length_take.
    assert (0 < len l) by (destruct l; [done|unfold len; simpl; lia]).
    pose proof (Z.mod_pos_bound o (len l)). unfold len in *. lia.
  - by rewrite length_imap.
  - intros k x y Hk Hx Hy. rewrite rotation_nth in Hy by done.
    rewrite list_lookup_imap in Hx. destruct (xs !! k); [|done]. cbn in Hx. congruence.
Qed.

(** ** Binary search *)

Lemma Search_loop_spec fuel f i j :
  0 ≤ i ≤ j → j - i ≤ Z.of_nat fuel →
  (∀ a b, i ≤ a → a ≤ b → b < j → f a = true → f b = true) →
  let k := Search_loop fuel f i j in
  i ≤ k ≤ j ∧ (∀ a, i ≤ a < k → f a = false) ∧ (∀ a, k ≤ a < j → f a = true).
Proof.
  revert i j. induction fuel as [|fuel IH]; intros i j Hij Hf Hm; cbn [Search_loop].
  { repeat split; lia. }
  destruct (Z.ltb_spec i j); [|repeat split; lia].
  set (h := (i + j) / 2). assert (i ≤ h < j) as Hh by (unfold h; dlia). clearbody h.
  destruct (f h) eqn:E.
  - destruct (IH i h) as (H1 & H2 & H3); [lia|lia|intros; eapply Hm; [| |lia|]; eauto; lia|].
    split; [lia|]. split; [done|]. intros a Ha.
    destruct (decide (a < h)); [apply H3; lia|]. apply (Hm h); [lia|lia|lia|done].
  - destruct (IH (h + 1) j) as (H1 & H2 & H3); [lia|lia|intros; eapply Hm; [| |lia|]; eauto; lia|].
    split; [lia|]. split; [|done]. intros a Ha.
    destruct (decide (a ≤ h)); [|apply H2; lia].
    destruct (f a) eqn:Ea; [|done]. rewrite (Hm a h) in E; [done|lia|lia|lia|done].
Qed.

(** Lists sorted by a key. *)
Definition sorted_by {A} (key : A → Z) (l : list A) : Prop :=
  StronglySorted (λ a b, key a ≤ key b) l.

Lemma sorted_by_nth {A} (key : A → Z) (d : A) l i j :
  sorted_by key l → (i ≤ j)%nat → (j < length l)%nat → key (nth i l d) ≤ key (nth j l d).
Proof.
  intros Hs. revert i j. induction Hs as [|c cs Hs IH Hall]; intros i j Hij Hj; [simpl in Hj; lia|].
  destruct i, j; simpl in *; [lia| |lia|apply IH; lia].
  rewrite Forall_forall in Hall. apply Hall. apply list_elem_of_In, nth_In. lia.
Qed.

(** The index that the search of [x] gives. *)
Definition search_key {A} (key : A → Z) (d : A) (l : list A) (x : Z) : Z :=
  Search (len l) (λ i, key (nth (Z.to_nat i) l d) >=? x).

(** The search in a sorted list misses [x] exactly when it is not there. *)
Lemma search_key_missing {A} (key : A → Z) (d : A) l x :
  sorted_by key l →
  let i := search_key key d l x in
  (i =? len l) || negb (key (nth (Z.to_nat i) l d) =? x) = true ↔ x ∉ map key l.
Proof.
  intros Hs. unfold search_key, Search. pose proof (len_nonneg l) as Hl.
  destruct (Search_loop_spec (Z.to_nat (len l))
    (λ i, key (nth (Z.to_nat i) l d) >=? x) 0 (len l)) as (H1 & H2 & H3); [lia|lia| |].
  { intros a b Ha Hab Hb Hf%Z.geb_le. apply Z.geb_le.
    pose proof (sorted_by_nth key d l (Z.to_nat a) (Z.to_nat b) Hs) as Hn. unfold len in Hb. lia. }
  set (k := Search_loop _ _ _ _) in *. clearbody k. cbn zeta.
  rewrite orb_true_iff, negb_true_iff, Z.eqb_eq, Z.eqb_neq. split.
  - intros Hm Hin. apply list_elem_of_fmap in Hin as (c & Hx & Hc).
    apply list_elem_of_In, (In_nth _ _ d) in Hc as (i & Hi & Hnth). subst c. unfold len in *.
    destruct (decide (Z.of_nat i < k)) as [Hlt|Hge].
    + specialize (H2 (Z.of_nat i) ltac:(lia)). cbn beta in H2. rewrite Nat2Z.id, <- Hx in H2.
      assert ((x >=? x) = true) by (apply Z.geb_le; lia). congruence.
    + specialize (H3 k ltac:(lia)). apply Z.geb_le in H3.
      pose proof (sorted_by_nth key d l (Z.to_nat k) i Hs ltac:(lia) ltac:(lia)). lia.
  - intros Hnin. destruct (decide (k = len l)) as [->|Hk]; [by left|right]. intros Hx. apply Hnin.
    rewrite <- Hx. apply list_elem_of_fmap. eexists. split; [done|].
    apply list_elem_of_In, nth_In. unfold len in *. lia.
Qed.

Definition counters_sorted (counters : list leastBytesCounter) : Prop := StronglySorted counter_le counters.

(** The binary search finds a counter exactly when there is one. *)
Lemma counterOf_None counters p :
  counters_sorted counters → counterOf counters p = None ↔ p ∉ map lb_partition counters.
Proof.
  intros Hs. rewrite <- (search_key_missing lb_partition zeroCounter counters p Hs).
  unfold counterOf. fold (search_key lb_partition zeroCounter counters p).
  destruct (_ =? len counters); cbn; [done|]. by destruct (negb _).
Qed.

(** ** The least loaded partition *)

Lemma minCounter_spec pre cs mi mb :
  0 ≤ mi < len pre → lb_bytes (nth (Z.to_nat mi) pre zeroCounter) = mb →
  (∀ c, c ∈ pre → mb ≤ lb_bytes c) →
  let r := minCounter (len pre) mi mb cs in
  0 ≤ r < len (pre ++ cs) ∧
  ∀ c, c ∈ pre ++ cs → lb_bytes (nth (Z.to_nat r) (pre ++ cs) zeroCounter) ≤ lb_bytes c.
Proof.
  revert pre mi mb. induction cs as [|c cs IH]; intros pre mi mb Hmi Hmb Hmin; cbn [minCounter].
  { rewrite app_nil_r. split; [done|]. intros c Hc. rewrite Hmb. by apply Hmin. }
  replace (pre ++ c :: cs) with ((pre ++ [c]) ++ cs) by (by rewrite <- app_assoc).
  replace (len pre + 1) with (len (pre ++ [c])) by (rewrite len_app; done).
  pose proof (len_nonneg pre).
  destruct (Z.ltb_spec (lb_bytes c) mb).
  - apply IH.
    + autorewrite with len. lia.
    + unfold len. by rewrite Nat2Z.id, nth_middle.
    + intros c' Hc'. apply elem_of_app in Hc' as [Hc'|Hc'%list_elem_of_singleton]; [|by subst].
      specialize (Hmin c' Hc'). lia.
  - apply IH.
    + autorewrite with len. lia.
    + rewrite app_nth1; [done|unfold len in *; lia].
    + intros c' Hc'. apply elem_of_app in Hc' as [Hc'|Hc'%list_elem_of_singleton]; [by apply Hmin|].
      by subst.
Qed.

(** The counters of a balancer for a set of partitions. *)
Definition counters_for (partitions : list Z) (counters : list leastBytesCounter) : Prop :=
  counters_sorted counters ∧ map lb_partition counters ≡ₚ partitions.

#[global] Instance counter_le_total : Total counter_le.
Proof. intros c1 c2. unfold counter_le. lia. Qed.
#[global] Instance counter_le_trans : Transitive counter_le.
Proof. intros c1 c2 c3. unfold counter_le. lia. Qed.

Lemma makeCounters_for partitions : counters_for partitions (makeCounters partitions).
Proof.
  split; [apply StronglySorted_merge_sort; apply _|].
  unfold makeCounters. rewrite merge_sort_Permutation, map_map. by rewrite map_id.
Qed.

(** No counter is missing when they are the counters of the partitions. *)
Lemma counters_for_complete partitions counters :
  counters_for partitions counters →
  existsb (λ p, match counterOf counters p with None => true | _ => false end) partitions = false.
Proof.
  intros [Hs Hp]. apply not_true_iff_false. rewrite existsb_exists.
  intros (p & Hin & Hc). destruct (counterOf counters p) eqn:E; [done|].
  apply counterOf_None in E; [|done]. apply E. rewrite Hp. by apply list_elem_of_In.
Qed.

Lemma sorted_insert counters i c :
  counters_sorted counters → (i < length counters)%nat →
  lb_partition c = lb_partition (nth i counters zeroCounter) →
  counters_sorted (<[i := c]> counters).
Proof.
  intros Hs. revert i. induction Hs as [|c0 cs Hs IH Hall]; intros i Hi Hc; [simpl in Hi; lia|].
  destruct i as [|i]; simpl in *.
  - constructor; [done|]. eapply Forall_impl; [exact Hall|]. intros x. unfold counter_le. by rewrite Hc.
  - constructor; [by apply IH; [lia|]|]. apply Forall_insert; [done|].
    unfold counter_le. rewrite Hc. rewrite Forall_forall in Hall. apply Hall.
    apply list_elem_of_In, nth_In. lia.
Qed.

Lemma partitions_insert counters i c :
  (i < length counters)%nat → lb_partition c = lb_partition (nth i counters zeroCounter) →
  map lb_partition (<[i := c]> counters) = map lb_partition counters.
Proof.
  intros Hi Hc. change (map lb_partition) with (fmap (M:=list) lb_partition).
  rewrite list_fmap_insert. apply list_insert_id. rewrite list_lookup_fmap.
  destruct (lookup_lt_is_Some_2 counters i Hi) as [c0 E]. rewrite E. cbn. f_equal.
  rewrite Hc. rewrite nth_lookup, E. done.
Qed.

(** The counter that a message is added to. *)
Definition addBytes (c : leastBytesCounter) (n : Z) : leastBytesCounter :=
  {| lb_partition := lb_partition c; lb_bytes := uint64 (lb_bytes c + n) |}.

Lemma LeastBytes_step lb msg partitions :
  partitions ≠ [] → counters_for partitions (lb_counters lb) →
  ∃ i c, lb_counters lb !! i = Some c ∧
    (∀ c', c' ∈ lb_counters lb → lb_bytes c ≤ lb_bytes c') ∧
    LeastBytes_Balance lb msg partitions =
      Done (lb_partition c, {| lb_counters := <[i := addBytes c (messageBytes msg)]> (lb_counters lb) |}) ∧
    counters_for partitions (<[i := addBytes c (messageBytes msg)]> (lb_counters lb)).
Proof.
  intros Hne Hfor. pose proof Hfor as [Hs Hp]. unfold LeastBytes_Balance.
  rewrite (counters_for_complete _ _ Hfor).
  destruct (lb_counters lb) as [|c0 rest] eqn:E.
  { exfalso. apply Hne. apply Permutation_nil. by rewrite <- Hp. }
  destruct (minCounter_spec [c0] rest 0 (lb_bytes c0)) as [Hr Hmin]; [done|done| |].
  { intros c Hc%list_elem_of_singleton. by subst. }
  change (len [c0]) with 1 in *. set (r := minCounter _ _ _ _) in *. clearbody r.
  change ([c0] ++ rest) with (c0 :: rest) in *. set (cs := c0 :: rest) in *.
  assert (Z.to_nat r < length cs)%nat as Hlt by (unfold len in Hr; lia).
  exists (Z.to_nat r), (nth (Z.to_nat r) cs zeroCounter).
  destruct (lookup_lt_is_Some_2 cs (Z.to_nat r) Hlt) as [c Hc].
  assert (nth (Z.to_nat r) cs zeroCounter = c) as Hn by (by rewrite nth_lookup, Hc).
  rewrite Hn in *. split; [done|]. split; [exact Hmin|]. split; [done|].
  split; [by apply sorted_insert; [..|rewrite Hn]|].
  by rewrite partitions_insert by (done || (by rewrite Hn)).
Qed.

(** [spread M cs]: no counter is more than [M] bytes ahead of another. *)
Definition spread (M : Z) (cs : list leastBytesCounter) : Prop :=
  ∀ c1 c2, c1 ∈ cs → c2 ∈ cs → lb_bytes c1 ≤ lb_bytes c2 + M.

Lemma spread_add M n cs i c :
  spread M cs → cs !! i = Some c → (∀ c', c' ∈ cs → lb_bytes c ≤ lb_bytes c') →
  0 ≤ n ≤ M → 0 ≤ lb_bytes c → lb_bytes c + n < 2 ^ 64 →
  spread M (<[i := addBytes c n]> cs).
Proof.
  intros Hsp Hc Hmin Hn Hb Hof c1 c2 H1 H2.
  assert (∀ x, x ∈ <[i := addBytes c n]> cs → x = addBytes c n ∨ x ∈ cs) as Hel.
  { intros x (k & Hk)%list_elem_of_lookup. destruct (decide (i = k)) as [<-|Hik].
    - rewrite list_lookup_insert_eq in Hk by (by eapply lookup_lt_Some). left. congruence.
    - rewrite list_lookup_insert_ne in Hk by done. right. by eapply list_elem_of_lookup_2. }
  assert (lb_bytes (addBytes c n) = lb_bytes c + n) as Ha
    by (cbn; unfold wrapU; apply Z.mod_small; lia).
  assert (c ∈ cs) as Hcin by (by eapply list_elem_of_lookup_2).
  destruct (Hel _ H1) as [->|H1'], (Hel _ H2) as [->|H2']; rewrite ?Ha; [lia| | |by apply Hsp].
  - specialize (Hmin c2 H2'). lia.
  - specialize (Hsp c1 c H1' Hcin). lia.
Qed.
