(* ===== verification/GroupBalancer.v ===== *)
(** * Assigning partitions to the members of a group (groupbalancer.go)

    Assignments are maps from members to maps from topics to partitions.  The
    code ranges over a map of topics, in an order that Go does not specify:
    [AssignGroups] takes that order as an argument. *)

From S2P Require Import Prelude Errors Read ConnOps.

(** ** Strings in Go's order *)

Fixpoint str_leb (a b : gostring) : bool :=
  match a, b with
  | [], _ => true
  | _ :: _, [] => false
  | x :: a, y :: b =>
    (Z_of_byte x <? Z_of_byte y) || ((Z_of_byte x =? Z_of_byte y) && str_leb a b)
  end.

Definition str_le (a b : gostring) : Prop := str_leb a b = true.

#[global] Instance str_le_dec a b : Decision (str_le a b).
Proof. unfold str_le. apply _. Defined.

(** ** Members *)

Record GroupMember : Type := { gmb_ID : gostring; gmb_Topics : list gostring; gmb_UserData : bytes }.

Abbreviation GroupMemberAssignments := (gmap gostring (gmap gostring (list Z))).

Definition member_le (m1 m2 : GroupMember) : Prop := str_le (gmb_ID m1) (gmb_ID m2).

#[global] Instance member_le_dec m1 m2 : Decision (member_le m1 m2).
Proof. unfold member_le. apply _. Defined.

(** [findPartitions]. *)
Definition findPartitions (topic : gostring) (partitions : list Partition) : list Z :=
  map pt_ID (filter (λ p, pt_Topic p = topic) partitions).

(** The entries of [membersByTopic] before the sort: a member is appended to
    the entry of each of its topics, in the order of the members. *)
Definition membersOf (topic : gostring) (members : list GroupMember) : list GroupMember :=
  concat (map (λ m, map (λ _, m) (filter (λ t, t = topic) (gmb_Topics m))) members).

Definition addMember (byTopic : gmap gostring (list GroupMember)) (m : GroupMember) :
    gmap gostring (list GroupMember) :=
  foldl (λ bt topic, <[topic := default [] (bt !! topic) ++ [m]]> bt) byTopic (gmb_Topics m).

(** [sort.Slice] by id: members of one id are interchangeable below. *)
Definition findMembersByTopic (members : list GroupMember) : gmap gostring (list GroupMember) :=
  merge_sort member_le <$> foldl addMember ∅ members.

(** ** The two balancers

    Both visit the members of each topic and give each the partitions that
    its index takes: [takes memberCount partitionCount memberIndex
    partitionIndex]. *)

Definition range_takes (mc pc i j : Z) : bool :=
  (i * pc / mc <=? j) && (j <? (i + 1) * pc / mc).

Definition roundrobin_takes (mc pc i j : Z) : bool := j mod mc =? i.

(** The partitions at the indexes that satisfy [f], numbered from [j]. *)
Fixpoint select (f : Z → bool) (j : Z) (ps : list Z) : list Z :=
  match ps with
  | [] => []
  | p :: ps => if f j then p :: select f (j + 1) ps else select f (j + 1) ps
  end.

(** [assignmentsByTopic[topic] = append(...)]: nothing is stored for no
    partition. *)
Definition appendTopic (topic : gostring) (ps : list Z) (byTopic : gmap gostring (list Z)) :
    gmap gostring (list Z) :=
  match ps with [] => byTopic | _ => <[topic := default [] (byTopic !! topic) ++ ps]> byTopic end.

Section assign.
Context (takes : Z → Z → Z → Z → bool).

(** The body of the loop over the members of a topic. *)
Definition assignMember (topic : gostring) (mc : Z) (ps : list Z) (i : Z) (m : GroupMember)
    (ga : GroupMemberAssignments) : GroupMemberAssignments :=
  let byTopic := default ∅ (ga !! gmb_ID m) in
  <[gmb_ID m := appendTopic topic (select (takes mc (len ps) i) 0 ps) byTopic]> ga.

Fixpoint assignMembers (topic : gostring) (mc : Z) (ps : list Z) (i : Z) (ms : list GroupMember)
    (ga : GroupMemberAssignments) : GroupMemberAssignments :=
  match ms with
  | [] => ga
  | m :: ms => assignMembers topic mc ps (i + 1) ms (assignMember topic mc ps i m ga)
  end.

Fixpoint assignTopics (byTopic : gmap gostring (list GroupMember)) (parts : list Partition)
    (order : list gostring) (ga : GroupMemberAssignments) : GroupMemberAssignments :=
  match order with
  | [] => ga
  | topic :: order =>
    let ms := default [] (byTopic !! topic) in
    assignTopics byTopic parts order
      (assignMembers topic (len ms) (findPartitions topic parts) 0 ms ga)
  end.

(** [order] is the order in which the topics of [findMembersByTopic] come. *)
Definition AssignGroups (order : list gostring) (members : list GroupMember) (parts : list Partition) :
    GroupMemberAssignments :=
  assignTopics (findMembersByTopic members) parts order ∅.
End assign.

Definition Range_AssignGroups := AssignGroups range_takes.
Definition RoundRobin_AssignGroups := AssignGroups roundrobin_takes.

(** ** [GroupBalancer] and the search by protocol name *)

Record GroupBalancer : Type := {
  gb_ProtocolName : gostring;
  gb_UserData : goerror + bytes;
  gb_AssignGroups : list GroupMember → list Partition → GroupMemberAssignments;
}.

Definition findGroupBalancer (protocolName : gostring) (balancers : list GroupBalancer) : option GroupBalancer :=
  snd <$> list_find (λ b, gb_ProtocolName b = protocolName) balancers.

(** ** The order of strings *)

Lemma str_leb_refl a : str_leb a a = true.
Proof. induction a as [|x a IH]; [done|]. cbn. by rewrite Z.ltb_irrefl, Z.eqb_refl, IH. Qed.

#[global] Instance str_le_total : Total str_le.
Proof.
  unfold str_le. intros a. induction a as [|x a IH]; intros b; [by left|].
  destruct b as [|y b]; [by right|]. cbn.
  destruct (Z.lt_total (Z_of_byte x) (Z_of_byte y)) as [H|[H|H]].
  - left. by rewrite (proj2 (Z.ltb_lt _ _)).
  - rewrite H, Z.ltb_irrefl, Z.eqb_refl. cbn. apply IH.
  - right. by rewrite (proj2 (Z.ltb_lt _ _)).
Qed.

#[global] Instance str_le_trans : Transitive str_le.
Proof.
  unfold str_le. intros a. induction a as [|x a IH]; intros [|y b] [|z c]; cbn; try done.
  rewrite !orb_true_iff, !andb_true_iff, !Z.ltb_lt, !Z.eqb_eq.
  intros [H1|[H1 H1']] [H2|[H2 H2']]; [left; lia..|]. right. split; [lia|]. by eapply IH.
Qed.

#[global] Instance member_le_total : Total member_le.
Proof. intros m1 m2. apply str_le_total. Qed.
#[global] Instance member_le_trans : Transitive member_le.
Proof. intros m1 m2 m3. apply str_le_trans. Qed.

(** ** What is assigned to a member for a topic *)

Definition assigned (ga : GroupMemberAssignments) (id topic : gostring) : list Z :=
  default [] (ga !! id ≫= λ bt, bt !! topic).

Lemma assigned_appendTopic id t topic ps ga :
  assigned (<[id := appendTopic topic ps (default ∅ (ga !! id))]> ga) id t
  = assigned ga id t ++ (if decide (t = topic) then ps else []).
Proof.
  unfold assigned. rewrite lookup_insert_eq. cbn.
  assert (∀ bt : gmap gostring (list Z), default [] (appendTopic topic ps bt !! t)
    = default [] (bt !! t) ++ (if decide (t = topic) then ps else [])) as H.
  { intros bt. unfold appendTopic. destruct ps as [|p ps].
    - by destruct (decide (t = topic)); rewrite app_nil_r.
    - destruct (decide (t = topic)) as [->|Hne].
      + by rewrite lookup_insert_eq.
      + rewrite lookup_insert_ne by done. by rewrite app_nil_r. }
  rewrite H. destruct (ga !! id); cbn; [done|]. by rewrite lookup_empty.
Qed.

Section assigned.
Context (takes : Z → Z → Z → Z → bool).

Lemma assigned_member topic mc ps i m ga id t :
  assigned (assignMember takes topic mc ps i m ga) id t
  = assigned ga id t ++
    (if decide (gmb_ID m = id ∧ t = topic) then select (takes mc (len ps) i) 0 ps else []).
Proof.
  unfold assignMember. cbn zeta. destruct (decide (gmb_ID m = id)) as [<-|Hne].
  - rewrite assigned_appendTopic. f_equal. repeat case_decide; naive_solver.
  - rewrite decide_False by naive_solver. rewrite app_nil_r.
    unfold assigned. by rewrite lookup_insert_ne.
Qed.

(** The indexes at which the member [id] comes in the list, from [i]. *)
Fixpoint indexes (id : gostring) (i : Z) (ms : list GroupMember) : list Z :=
  match ms with
  | [] => []
  | m :: ms => if decide (gmb_ID m = id) then i :: indexes id (i + 1) ms else indexes id (i + 1) ms
  end.

Lemma assigned_members topic mc ps i ms ga id t :
  assigned (assignMembers takes topic mc ps i ms ga) id t
  = assigned ga id t ++
    (if decide (t = topic)
     then concat (map (λ i, select (takes mc (len ps) i) 0 ps) (indexes id i ms)) else []).
Proof.
  revert i ga. induction ms as [|m ms IH]; intros i ga; cbn [assignMembers indexes].
  { cbn. by destruct (decide _); rewrite app_nil_r. }
  rewrite IH, assigned_member, <- app_assoc. f_equal.
  destruct (decide (t = topic)) as [->|Hne].
  - destruct (decide (gmb_ID m = id)) as [Heq|Hneq].
    + rewrite decide_True by done. done.
    + rewrite decide_False by naive_solver. done.
  - rewrite decide_False by naive_solver. done.
Qed.

Lemma assigned_topics byTopic parts order ga id t :
  NoDup order →
  assigned (assignTopics takes byTopic parts order ga) id t
  = assigned ga id t ++
    (if decide (t ∈ order)
     then let ms := default [] (byTopic !! t) in
          let ps := findPartitions t parts in
          concat (map (λ i, select (takes (len ms) (len ps) i) 0 ps) (indexes id 0 ms))
     else []).
Proof.
  intros Hn. revert ga. induction Hn as [|topic order Hnin Hn IH]; intros ga; cbn [assignTopics].
  { rewrite decide_False by (by apply not_elem_of_nil). by rewrite app_nil_r. }
  rewrite IH, assigned_members, <- app_assoc. f_equal.
  destruct (decide (t = topic)) as [->|Hne].
  - rewrite (decide_False (P:=topic ∈ order)) by done.
    rewrite decide_True by (by apply elem_of_cons; left). by rewrite app_nil_r.
  - cbn [app]. destruct (decide (t ∈ order)) as [Hin|Hnin'].
    + rewrite decide_True by (by apply elem_of_cons; right). done.
    + rewrite decide_False; [done|]. rewrite elem_of_cons. naive_solver.
Qed.
End assigned.

(** ** The members of a topic *)

Lemma addMember_lookup bt m t :
  default [] (addMember bt m !! t) =
  default [] (bt !! t) ++ map (λ _, m) (filter (λ t', t' = t) (gmb_Topics m)).
Proof.
  unfold addMember. revert bt. induction (gmb_Topics m) as [|t' ts IH]; intros bt; cbn [foldl].
  { by rewrite app_nil_r. }
  rewrite IH. rewrite filter_cons. destruct (decide (t' = t)) as [->|Hne].
  - rewrite lookup_insert_eq. cbn. by rewrite <- app_assoc.
  - by rewrite lookup_insert_ne.
Qed.

Lemma addMembers_lookup bt members t :
  default [] (foldl addMember bt members !! t) = default [] (bt !! t) ++ membersOf t members.
Proof.
  revert bt. induction members as [|m ms IH]; intros bt; cbn [foldl].
  { by rewrite app_nil_r. }
  rewrite IH, addMember_lookup, <- app_assoc. done.
Qed.

Lemma findMembersByTopic_lookup members t :
  default [] (findMembersByTopic members !! t) ≡ₚ membersOf t members.
Proof.
  unfold findMembersByTopic. rewrite lookup_fmap.
  pose proof (addMembers_lookup ∅ members t) as H. rewrite lookup_empty in H. cbn in H.
  rewrite <- H. destruct (_ !! t); cbn; [apply merge_sort_Permutation|done].
Qed.

(** ** Every partition goes to exactly one member *)

Definition count (f : Z → bool) (idx : list Z) : nat := length (List.filter f idx).

(** The indexes 0, 1, ..., n-1. *)
Definition upto (n : nat) : list Z := map Z.of_nat (seq 0 n).

Lemma upto_S n : upto (S n) = upto n ++ [Z.of_nat n].
Proof. unfold upto. by rewrite seq_S, map_app. Qed.

Lemma count_app f ix1 ix2 : count f (ix1 ++ ix2) = (count f ix1 + count f ix2)%nat.
Proof. unfold count. by rewrite List.filter_app, length_app. Qed.

Lemma concat_select_cons (f : Z → Z → bool) j p ps idx :
  concat (map (λ i, select (f i) j (p :: ps)) idx) ≡ₚ
  replicate (count (λ i, f i j) idx) p ++ concat (map (λ i, select (f i) (j + 1) ps) idx).
Proof.
  induction idx as [|i idx IH]; [done|]. cbn [map concat]. rewrite IH. unfold count. cbn [select List.filter].
  destruct (f i j); cbn; [apply perm_skip|]; by rewrite Permutation_app_swap_app.
Qed.

(** Indexes that share out the positions share out the list. *)
Lemma select_share (f : Z → Z → bool) idx ps j0 :
  (∀ j, j0 ≤ j < j0 + len ps → count (λ i, f i j) idx = 1%nat) →
  concat (map (λ i, select (f i) j0 ps) idx) ≡ₚ ps.
Proof.
  revert j0. induction ps as [|p ps IH]; intros j0 Hc.
  { clear Hc. induction idx; cbn in *; done. }
  rewrite len_cons in Hc. pose proof (len_nonneg ps).
  rewrite concat_select_cons, (Hc j0) by lia. cbn. apply perm_skip.
  apply IH. intros j Hj. apply Hc. lia.
Qed.

(** What the two balancers promise: every position has exactly one taker. *)
Class Shares (takes : Z → Z → Z → Z → bool) : Prop := shares : ∀ (mc : nat) pc j,
  (0 < mc)%nat → 0 ≤ j < pc → count (λ i, takes (Z.of_nat mc) pc i j) (upto mc) = 1%nat.

Lemma count_steps (F : Z → Z) j n :
  F 0 = 0 → (∀ i, 0 ≤ i → F i ≤ F (i + 1)) → 0 ≤ j →
  count (λ i, (F i <=? j) && (j <? F (i + 1))) (upto n) = (if j <? F (Z.of_nat n) then 1%nat else 0%nat).
Proof.
  intros H0 Hm Hj. induction n as [|n IH].
  { change (Z.of_nat 0) with 0. rewrite H0, (proj2 (Z.ltb_ge j 0)) by lia. done. }
  rewrite upto_S, count_app, IH. unfold count. cbn [List.filter].
  pose proof (Hm (Z.of_nat n) ltac:(lia)) as Hn.
  replace (Z.of_nat (S n)) with (Z.of_nat n + 1) by lia.
  destruct (Z.ltb_spec j (F (Z.of_nat n))), (Z.leb_spec (F (Z.of_nat n)) j),
    (Z.ltb_spec j (F (Z.of_nat n + 1))); cbn; lia.
Qed.

#[global] Instance range_shares : Shares range_takes.
Proof.
  intros mc pc j Hmc Hj. unfold range_takes.
  rewrite (count_steps (λ i, i * pc / Z.of_nat mc)).
  - rewrite (Z.mul_comm (Z.of_nat mc)), Z.div_mul by lia. by rewrite (proj2 (Z.ltb_lt j pc)) by lia.
  - by rewrite Z.mul_0_l.
  - intros i Hi. apply Z.div_le_mono; nia.
  - lia.
Qed.

#[global] Instance roundrobin_shares : Shares roundrobin_takes.
Proof.
  intros mc pc j Hmc Hj. unfold roundrobin_takes.
  pose proof (Z.mod_pos_bound j (Z.of_nat mc) ltac:(lia)) as Hb.
  set (k := j mod Z.of_nat mc) in *. clearbody k.
  assert (∀ n, count (λ i, k =? i) (upto n) = (if decide (k < Z.of_nat n) then 1%nat else 0%nat)) as Hn.
  { induction n as [|n IH]; [rewrite decide_False by lia; done|].
    rewrite upto_S, count_app, IH. unfold count. cbn [List.filter].
    destruct (Z.eqb_spec k (Z.of_nat n)); cbn; repeat case_decide; lia. }
  rewrite Hn, decide_True; [done|lia].
Qed.

(** Members of distinct ids are at one index each. *)
Lemma indexes_not_in id i ms : id ∉ map gmb_ID ms → indexes id i ms = [].
Proof.
  revert i. induction ms as [|m ms IH]; intros i Hn; [done|]. cbn in *.
  rewrite not_elem_of_cons in Hn. destruct Hn as [Hne Hn].
  rewrite decide_False by (intros <-; done). by apply IH.
Qed.

Lemma concat_indexes (g : Z → list Z) ms i :
  NoDup (map gmb_ID ms) →
  concat (map (λ m, concat (map g (indexes (gmb_ID m) i ms))) ms)
  = concat (map (λ k, g (i + k)) (upto (length ms))).
Proof.
  intros Hn. revert i. induction ms as [|m ms IH]; intros i; [done|].
  cbn [map] in Hn. rewrite NoDup_cons in Hn. destruct Hn as [Hnin Hn].
  cbn [map concat indexes length]. rewrite decide_True by done.
  rewrite indexes_not_in by done. cbn [map concat]. rewrite app_nil_r.
  unfold upto. cbn [seq map concat]. rewrite Z.add_0_r. f_equal.
  rewrite <- seq_shift, map_map, map_map.
  transitivity (concat (map (λ m0, concat (map g (indexes (gmb_ID m0) (i + 1) ms))) ms)).
  - f_equal. apply map_ext_in. intros m0 Hin%list_elem_of_In. rewrite decide_False; [done|].
    intros Heq. apply Hnin. rewrite Heq. apply list_elem_of_fmap. by exists m0.
  - rewrite IH by done. unfold upto. rewrite map_map. f_equal. apply map_ext. intros k. f_equal. lia.
Qed.

Lemma share_members (takes : Z → Z → Z → Z → bool) `{!Shares takes} ms ps :
  ms ≠ [] → NoDup (map gmb_ID ms) →
  concat (map (λ m, concat (map (λ i, select (takes (len ms) (len ps) i) 0 ps)
                              (indexes (gmb_ID m) 0 ms))) ms) ≡ₚ ps.
Proof.
  intros Hne Hn. rewrite (concat_indexes (λ i, select (takes (len ms) (len ps) i) 0 ps) ms 0 Hn).
  unfold len at 1. apply (select_share (λ k, takes (Z.of_nat (length ms)) (len ps) (0 + k))).
  intros j Hj. apply (shares (length ms) (len ps) j); [destruct ms; [done|simpl; lia]|lia].
Qed.

(** The members of a topic have distinct ids when the members do and none
    lists the topic twice. *)
Lemma membersOf_NoDup t members :
  NoDup (map gmb_ID members) → Forall (λ m, NoDup (gmb_Topics m)) members →
  NoDup (map gmb_ID (membersOf t members)).
Proof.
  unfold membersOf. induction members as [|m ms IH]; intros Hn Ht; cbn [map concat]; [constructor|].
  cbn [map] in Hn. rewrite NoDup_cons in Hn. destruct Hn as [Hnin Hn]. inversion_clear Ht as [|? ? Hm Hms].
  rewrite map_app, NoDup_app. split; [|split; [|by apply IH]].
  - rewrite map_map. assert (filter (λ t', t' = t) (gmb_Topics m) = [] ∨
      filter (λ t', t' = t) (gmb_Topics m) = [t]) as [->| ->]; [|constructor|by apply NoDup_singleton].
    induction Hm as [|t' ts Hnin' Hm IHm]; [by left|]. rewrite filter_cons. case_decide; [|apply IHm].
    right. subst. f_equal. destruct (filter (λ t', t' = t) ts) as [|x xs] eqn:E; [done|].
    assert (x ∈ filter (λ t', t' = t) ts) as Hx by (rewrite E; left).
    apply list_elem_of_filter in Hx as [-> Hx]. done.
  - intros id Hid Hid2. apply Hnin. apply list_elem_of_fmap in Hid as (m1 & -> & H1).
    apply list_elem_of_fmap in H1 as (? & -> & _).
    apply list_elem_of_fmap in Hid2 as (m2 & E2 & H2). apply list_elem_of_In in H2.
    apply in_concat in H2 as (l & Hl & Hin). apply in_map_iff in Hl as (m3 & <- & H3).
    apply in_map_iff in Hin as (? & <- & _). rewrite E2. apply list_elem_of_fmap. exists m3.
    split; [done|]. by apply list_elem_of_In.
Qed.

Lemma concat_map_perm {A} (g : A → list Z) l1 l2 :
  l1 ≡ₚ l2 → concat (map g l1) ≡ₚ concat (map g l2).
Proof. intros H. rewrite <- !flat_map_concat_map. by rewrite H. Qed.

(** The order in which Go ranges over the topics of the members. *)
Definition topic_order_of (members : list GroupMember) (order : list gostring) : Prop :=
  NoDup order ∧ ∀ t, t ∈ order ↔ is_Some (findMembersByTopic members !! t).

Lemma topic_order_elem members order t :
  topic_order_of members order → membersOf t members ≠ [] → t ∈ order.
Proof.
  intros [_ Ho] Hm. apply Ho. destruct (findMembersByTopic members !! t) eqn:E; [done|].
  exfalso. apply Hm. apply Permutation_nil. rewrite <- findMembersByTopic_lookup. by rewrite E.
Qed.

Section shares.
Context (takes : Z → Z → Z → Z → bool) `{!Shares takes}.
Context (members : list GroupMember) (order : list gostring) (parts : list Partition).
Context (Hids : NoDup (map gmb_ID members)) (Htopics : Forall (λ m, NoDup (gmb_Topics m)) members).
Context (Horder : topic_order_of members order).

Lemma assigned_AssignGroups t id :
  membersOf t members ≠ [] →
  let ms := default [] (findMembersByTopic members !! t) in
  let ps := findPartitions t parts in
  assigned (AssignGroups takes order members parts) id t
  = concat (map (λ i, select (takes (len ms) (len ps) i) 0 ps) (indexes id 0 ms)).
Proof.
  intros Hm. cbn zeta. unfold AssignGroups.
  rewrite assigned_topics by apply Horder.
  rewrite decide_True by (by eapply topic_order_elem). done.
Qed.

Lemma AssignGroups_shares t :
  membersOf t members ≠ [] →
  concat (map (λ m, assigned (AssignGroups takes order members parts) (gmb_ID m) t)
            (membersOf t members))
  ≡ₚ findPartitions t parts.
Proof.
  intros Hm. pose proof (findMembersByTopic_lookup members t) as Hp.
  rewrite <- (concat_map_perm _ _ _ Hp).
  erewrite map_ext by (intros; by apply assigned_AssignGroups).
  apply share_members; [done|..].
  - intros E. rewrite E in Hp. by apply Permutation_nil in Hp.
  - change (NoDup (gmb_ID <$> default [] (findMembersByTopic members !! t))). rewrite Hp.
    by apply membersOf_NoDup.
Qed.

Lemma AssignGroups_only t id :
  id ∉ map gmb_ID (membersOf t members) →
  assigned (AssignGroups takes order members parts) id t = [].
Proof.
  intros Hid. destruct (decide (membersOf t members = [])) as [Hn|Hn].
  - unfold AssignGroups. rewrite assigned_topics by apply Horder.
    pose proof (findMembersByTopic_lookup members t) as Hp. rewrite Hn in Hp.
    apply Permutation_nil_r in Hp. rewrite Hp. cbn. by case_decide.
  - rewrite assigned_AssignGroups by done. rewrite indexes_not_in; [done|].
    change (id ∉ gmb_ID <$> default [] (findMembersByTopic members !! t)).
    by rewrite findMembersByTopic_lookup.
Qed.
End shares.

(** ** The shares are even *)

Lemma len_select (f : Z → bool) j ps :
  len (select f j ps) = Z.of_nat (count f (map (λ k, j + k) (upto (length ps)))).
Proof.
  revert j. induction ps as [|p ps IH]; intros j; [done|]. cbn [select length].
  unfold upto. cbn [seq map]. rewrite <- seq_shift, !map_map. unfold count.
  assert (len (select f (j + 1) ps)
    = Z.of_nat (length (List.filter f (map (λ x, j + Z.of_nat (S x)) (seq 0 (length ps)))))) as H.
  { rewrite IH. unfold count, upto. rewrite map_map. do 2 f_equal. f_equal. apply map_ext. intros. lia. }
  cbn [List.filter map]. rewrite Z.add_0_r. destruct (f j); [rewrite len_cons, H; simpl; lia|exact H].
Qed.

Lemma upto_shift0 n : map (λ k, 0 + k) (upto n) = upto n.
Proof. rewrite <- (map_id (upto n)) at 2. by apply map_ext. Qed.

(** Positions in an interval. *)
Lemma count_interval a b n :
  0 ≤ a ≤ b → b ≤ Z.of_nat n →
  Z.of_nat (count (λ j, (a <=? j) && (j <? b)) (upto n)) = b - a.
Proof.
  intros Ha Hb. assert (∀ m, Z.of_nat (count (λ j, (a <=? j) && (j <? b)) (upto m))
    = Z.max 0 (Z.min b (Z.of_nat m) - a)) as H.
  { induction m as [|m IH]; [change (Z.of_nat 0) with 0; cbn; lia|].
    rewrite upto_S, count_app, Nat2Z.inj_add, IH. unfold count. cbn [List.filter].
    destruct (Z.leb_spec a (Z.of_nat m)), (Z.ltb_spec (Z.of_nat m) b); cbn -[Z.of_nat];
      try change (Z.of_nat 1) with 1; try change (Z.of_nat 0) with 0; lia. }
  rewrite H. lia.
Qed.

Lemma range_share mc ps i :
  0 ≤ i < mc → len (select (range_takes mc (len ps) i) 0 ps)
  = (i + 1) * len ps / mc - i * len ps / mc.
Proof.
  intros Hi. rewrite len_select, upto_shift0. unfold range_takes. pose proof (len_nonneg ps).
  apply count_interval.
  - split; [apply Z.div_pos; nia|apply Z.div_le_mono; nia].
  - apply Z.div_le_upper_bound; [lia|]. unfold len in *. nia.
Qed.

(** A share of a range is the quotient, or one more. *)
Lemma range_share_bounds mc pc i :
  0 ≤ i < mc → 0 ≤ pc →
  pc / mc ≤ (i + 1) * pc / mc - i * pc / mc ≤ pc / mc + 1.
Proof.
  intros Hi Hpc. pose proof (Z.div_mod pc mc ltac:(lia)) as E.
  pose proof (Z.mod_pos_bound pc mc ltac:(lia)) as Hr.
  set (q := pc / mc) in *. set (r := pc mod mc) in *. clearbody q r. subst pc.
  replace ((i + 1) * (mc * q + r)) with ((i + 1) * r + ((i + 1) * q) * mc) by lia.
  replace (i * (mc * q + r)) with (i * r + (i * q) * mc) by lia.
  rewrite !Z.div_add by lia.
  assert (i * r / mc ≤ (i + 1) * r / mc) by (apply Z.div_le_mono; nia).
  assert ((i + 1) * r / mc ≤ i * r / mc + 1).
  { replace (i * r / mc + 1) with ((i * r + 1 * mc) / mc) by (by rewrite Z.div_add by lia).
    apply Z.div_le_mono; nia. }
  nia.
Qed.

Lemma count_mod mc i n :
  0 ≤ i < mc →
  Z.of_nat (count (λ j, j mod mc =? i) (upto n))
  = Z.of_nat n / mc + (if decide (i < Z.of_nat n mod mc) then 1 else 0).
Proof.
  intros Hi. induction n as [|n IH].
  { change (Z.of_nat 0) with 0. rewrite Z.div_0_l, Z.mod_0_l by lia. rewrite decide_False by lia. done. }
  rewrite upto_S, count_app, Nat2Z.inj_add, IH. unfold count. cbn [List.filter].
  replace (Z.of_nat (S n)) with (Z.of_nat n + 1) by lia.
  pose proof (Z.div_mod (Z.of_nat n) mc ltac:(lia)) as E.
  pose proof (Z.mod_pos_bound (Z.of_nat n) mc ltac:(lia)) as Hr.
  set (q := Z.of_nat n / mc) in *. set (r := Z.of_nat n mod mc) in *.
  assert (∀ b : bool, Z.of_nat (length (if b then [Z.of_nat n] else [])) = if b then 1 else 0) as Hb by (by intros []).
  rewrite Hb. destruct (decide (r + 1 < mc)) as [Hlt|Hge].
  - assert ((Z.of_nat n + 1) / mc = q) as -> by (symmetry; apply (Z.div_unique_pos _ mc q (r + 1)); lia).
    assert ((Z.of_nat n + 1) mod mc = r + 1) as -> by (symmetry; apply (Z.mod_unique_pos _ mc q (r + 1)); lia).
    destruct (Z.eqb_spec r i); repeat case_decide; lia.
  - assert ((Z.of_nat n + 1) / mc = q + 1) as -> by (symmetry; apply (Z.div_unique_pos _ mc (q + 1) 0); lia).
    assert ((Z.of_nat n + 1) mod mc = 0) as -> by (symmetry; apply (Z.mod_unique_pos _ mc (q + 1) 0); lia).
    destruct (Z.eqb_spec r i); repeat case_decide; lia.
Qed.

Lemma roundrobin_share mc ps i :
  0 ≤ i < mc →
  len ps / mc ≤ len (select (roundrobin_takes mc (len ps) i) 0 ps) ≤ len ps / mc + 1.
Proof.
  intros Hi. rewrite len_select, upto_shift0. unfold roundrobin_takes. rewrite count_mod by done.
  unfold len. case_decide; lia.
Qed.

(** A member of the list is at one index. *)
Lemma indexes_one id i ms :
  NoDup (map gmb_ID ms) → id ∈ map gmb_ID ms →
  ∃ k, indexes id i ms = [k] ∧ i ≤ k < i + len ms.
Proof.
  revert i. induction ms as [|m ms IH]; intros i Hn Hin; [by apply elem_of_nil in Hin|].
  cbn [map] in *. apply NoDup_cons in Hn as [Hnin Hn]. rewrite len_cons. pose proof (len_nonneg ms).
  cbn [indexes]. case_decide as Hd.
  - exists i. subst id. rewrite indexes_not_in by done. split; [done|lia].
  - apply elem_of_cons in Hin as [->|Hin]; [done|].
    destruct (IH (i + 1) Hn Hin) as (k & -> & Hk). exists k. split; [done|lia].
Qed.

(** The share of a member, given the shares of the indexes. *)
Lemma assigned_even (takes : Z → Z → Z → Z → bool) members order parts t id (P : Z → Z → Z → Prop) :
  NoDup (map gmb_ID members) → Forall (λ m, NoDup (gmb_Topics m)) members → topic_order_of members order →
  id ∈ map gmb_ID (membersOf t members) →
  (∀ mc ps i, 0 ≤ i < mc → P mc (len ps) (len (select (takes mc (len ps) i) 0 ps))) →
  P (len (membersOf t members)) (len (findPartitions t parts))
    (len (assigned (AssignGroups takes order members parts) id t)).
Proof.
  intros Hids Htopics Horder Hid HP. pose proof (findMembersByTopic_lookup members t) as Hp.
  assert (membersOf t members ≠ []) as Hne by (by intros E; rewrite E in Hid; apply elem_of_nil in Hid).
  rewrite (assigned_AssignGroups takes members order parts Horder t id Hne).
  set (ms := default [] (findMembersByTopic members !! t)) in *.
  assert (len ms = len (membersOf t members)) as Hl by (unfold len; by rewrite Hp).
  destruct (indexes_one id 0 ms) as (k & -> & Hk).
  - change (NoDup (gmb_ID <$> ms)). rewrite Hp. by apply membersOf_NoDup.
  - change (id ∈ gmb_ID <$> ms). by rewrite Hp.
  - cbn [map concat]. rewrite app_nil_r, Hl. apply HP. lia.
Qed.
