(* ===== verification/PartitionWriter.v ===== *)
(** * Partition writers (the type [writer] of writer.go)

    A partition writer is a goroutine that gathers the messages of a channel
    into batches and writes them with retries.  [pw_step] is one iteration of
    the loop of [writer.run], driven by the event that its [select] takes;
    [writer_write] is [writer.write], driven by what dialing and writing
    return. *)

From S2P Require Import Prelude Errors Time Read Write Wire Messages Balancer.

(** ** Configuration *)

Record writerCfg : Type := {
  wc_batchSize : Z;
  wc_maxMessageBytes : Z;
  wc_retries : Z;
  wc_retryBackoffInterval : Z;
}.

(** A message and the channel on which its result is awaited. *)
Record writerMessage : Type := { wm_msg : Message; wm_res : Z }.

Definition zeroMsg : Message :=
  {| msg_Topic := []; msg_Partition := 0; msg_Offset := 0; msg_Key := None; msg_Value := None;
     msg_Headers := []; msg_Time := Time.zeroTime |}.

Definition zeroWriterMessage : writerMessage := {| wm_msg := zeroMsg; wm_res := 0 |}.

(** [int(msg.message().size())]. *)
Definition messageSize (msg : Message) : Z := message_size (Message_message msg).

(** ** The loop of [run] *)

Record pwriter : Type := {
  pw_batch : list writerMessage;
  pw_batchSizeBytes : Z;
  pw_lastMsg : writerMessage;
  pw_timerRunning : bool;
  pw_done : bool;
  pw_flushed : list (list writerMessage);  (* the batches given to [write], oldest first *)
}.

Definition pwriter_init : pwriter :=
  {| pw_batch := []; pw_batchSizeBytes := 0; pw_lastMsg := zeroWriterMessage;
     pw_timerRunning := false; pw_done := false; pw_flushed := [] |}.

(** What the [select] receives: a message, the end of the channel, or the
    batch timer, which fires only when it runs. *)
Inductive pw_event : Type := EvMsg (wm : writerMessage) | EvClosed | EvTimer.

(** The start of an iteration: a message put aside by the last one is added
    to the batch, if its value is not empty. *)
Definition pw_takeLast (s : pwriter) : pwriter :=
  if negb (len (bdata (msg_Value (wm_msg (pw_lastMsg s)))) =? 0) then
    {| pw_batch := pw_batch s ++ [pw_lastMsg s];
       pw_batchSizeBytes := pw_batchSizeBytes s + messageSize (wm_msg (pw_lastMsg s));
       pw_lastMsg := zeroWriterMessage; pw_timerRunning := true; pw_done := pw_done s;
       pw_flushed := pw_flushed s |}
  else s.

(** The [select]: the new state and [mustFlush]. *)
Definition pw_select (cfg : writerCfg) (s : pwriter) (ev : pw_event) : pwriter * bool :=
  match ev with
  | EvClosed =>
    ({| pw_batch := pw_batch s; pw_batchSizeBytes := pw_batchSizeBytes s; pw_lastMsg := pw_lastMsg s;
        pw_timerRunning := true; pw_done := true; pw_flushed := pw_flushed s |}, true)
  | EvMsg wm =>
    if messageSize (wm_msg wm) + pw_batchSizeBytes s >? wc_maxMessageBytes cfg then
      ({| pw_batch := pw_batch s; pw_batchSizeBytes := pw_batchSizeBytes s; pw_lastMsg := wm;
          pw_timerRunning := pw_timerRunning s; pw_done := pw_done s; pw_flushed := pw_flushed s |}, true)
    else
      let batch := pw_batch s ++ [wm] in
      let bytes := pw_batchSizeBytes s + messageSize (wm_msg wm) in
      ({| pw_batch := batch; pw_batchSizeBytes := bytes; pw_lastMsg := pw_lastMsg s;
          pw_timerRunning := true; pw_done := pw_done s; pw_flushed := pw_flushed s |},
       (len batch >=? wc_batchSize cfg) || (bytes >=? wc_maxMessageBytes cfg))
  | EvTimer =>
    ({| pw_batch := pw_batch s; pw_batchSizeBytes := pw_batchSizeBytes s; pw_lastMsg := pw_lastMsg s;
        pw_timerRunning := false; pw_done := pw_done s; pw_flushed := pw_flushed s |}, true)
  end.

(** The flush; an empty batch is not written and keeps its byte count. *)
Definition pw_flush (s : pwriter) : pwriter :=
  if decide (pw_batch s = []) then
    {| pw_batch := pw_batch s; pw_batchSizeBytes := pw_batchSizeBytes s; pw_lastMsg := pw_lastMsg s;
       pw_timerRunning := false; pw_done := pw_done s; pw_flushed := pw_flushed s |}
  else
    {| pw_batch := []; pw_batchSizeBytes := 0; pw_lastMsg := pw_lastMsg s;
       pw_timerRunning := false; pw_done := pw_done s; pw_flushed := pw_flushed s ++ [pw_batch s] |}.

Definition pw_step (cfg : writerCfg) (s : pwriter) (ev : pw_event) : pwriter :=
  let '(s, mustFlush) := pw_select cfg (pw_takeLast s) ev in
  if mustFlush then pw_flush s else s.

(** [for !done { ... }] over the events to come. *)
Fixpoint pw_run (cfg : writerCfg) (s : pwriter) (evs : list pw_event) : pwriter :=
  match evs with
  | [] => s
  | ev :: evs => if pw_done s then s else pw_run cfg (pw_step cfg s ev) evs
  end.

(** ** [writer.write]

    [dials] and [sends] are what the dials and the writes of this call return,
    in order; a missing entry is a success.  [wr_conn] tells whether a
    connection is open.  The message of a [writerError] is the one that was
    received: the time that a send set in the batch is in WriterConn.v. *)

Inductive wr_op : Type := OpDial | OpSend | OpClose.

Record wr_result : Type := {
  wr_conn : bool;
  wr_err : option goerror;
  wr_replies : list (Z * option (Message * goerror));  (* channel, [writerError] or nil *)
  wr_ops : list wr_op;
  wr_retries : list Z;   (* what [stats.retries] observes *)
}.

Definition reply_error (batch : list writerMessage) (err : goerror) : list (Z * option (Message * goerror)) :=
  map (λ wm, (wm_res wm, Some (wm_msg wm, err))) batch.

Definition reply_ok (batch : list writerMessage) : list (Z * option (Message * goerror)) :=
  map (λ wm, (wm_res wm, None)) batch.

Definition writing_error : string := "error writing messages".

(** The result of an iteration that retried, after [ops]. *)
Definition retried (attempts : Z) (ops : list wr_op) (r : wr_result) : wr_result :=
  {| wr_conn := wr_conn r; wr_err := wr_err r; wr_replies := wr_replies r;
     wr_ops := ops ++ wr_ops r; wr_retries := (attempts + 1) :: wr_retries r |}.

(** An iteration once there is a connection, after [pre]; [again] runs the
    next iteration. *)
Definition writer_send (again : bool → Z → list (option goerror) → list (option goerror) → option wr_result)
    (cfg : writerCfg) (attempts : Z) (pre : list wr_op) (dials sends : list (option goerror))
    (batch : list writerMessage) : option wr_result :=
  let finished (err : option goerror) :=
    Some {| wr_conn := true; wr_err := err;
            wr_replies := match err with None => reply_ok batch | Some e => reply_error batch e end;
            wr_ops := pre ++ [OpSend]; wr_retries := [] |} in
  match default None (head sends) with
  | None => finished None
  | Some err =>
    if decide (err = KafkaError Code.DuplicateSequenceNumber) then finished None
    else if shouldRetry (Some err) (wc_retries cfg) attempts then
      if needsReconnect (Some err)
      then retried attempts (pre ++ [OpSend; OpClose]) <$> again false (attempts + 1) dials (tail sends)
      else retried attempts (pre ++ [OpSend]) <$> again true (attempts + 1) dials (tail sends)
    else finished (Some (Errorf writing_error 0))
  end.

(** The loop: [fuel] is the number of retries that are left, and one more. *)
Fixpoint writer_loop (fuel : nat) (cfg : writerCfg) (batch : list writerMessage) (conn : bool)
    (attempts : Z) (dials sends : list (option goerror)) : option wr_result :=
  match fuel with
  | O => None
  | S fuel =>
    let again := writer_loop fuel cfg batch in
    if conn then writer_send again cfg attempts [] dials sends batch
    else
      match default None (head dials) with
      | None => writer_send again cfg attempts [OpDial] (tail dials) sends batch
      | Some err =>
        if shouldRetry (Some err) (wc_retries cfg) attempts then
          retried attempts [OpDial] <$> again false (attempts + 1) (tail dials) sends
        else
          Some {| wr_conn := false; wr_err := Some err; wr_replies := reply_error batch err;
                  wr_ops := [OpDial]; wr_retries := [] |}
      end
  end.

Definition writer_write (cfg : writerCfg) (conn : bool) (dials sends : list (option goerror))
    (batch : list writerMessage) : option wr_result :=
  writer_loop (S (Z.to_nat (wc_retries cfg))) cfg batch conn 0 dials sends.

(** The connection that [run] keeps after the write. *)
Definition conn_after (r : wr_result) : bool :=
  match wr_err r with Some _ => false | None => wr_conn r end.

(** ** Batches hold the received messages *)

Definition nonempty_value (wm : writerMessage) : Prop := bdata (msg_Value (wm_msg wm)) ≠ [].

#[global] Instance nonempty_value_dec wm : Decision (nonempty_value wm).
Proof. unfold nonempty_value. apply _. Defined.

Definition received (evs : list pw_event) : list writerMessage :=
  concat (map (λ ev, match ev with EvMsg wm => [wm] | _ => [] end) evs).

(** The message put aside, if there is one. *)
Definition pending (s : pwriter) : list writerMessage :=
  if decide (nonempty_value (pw_lastMsg s)) then [pw_lastMsg s] else [].

(** Everything the writer has taken, in order. *)
Definition contents (s : pwriter) : list writerMessage :=
  concat (pw_flushed s) ++ pw_batch s ++ pending s.

Definition sizes (wms : list writerMessage) : Z :=
  fold_right (λ wm n, messageSize (wm_msg wm) + n) 0 wms.

(** The invariant between iterations. *)
Record pw_inv (cfg : writerCfg) (s : pwriter) : Prop := {
  pi_bytes : pw_batchSizeBytes s = sizes (pw_batch s);
  pi_max : sizes (pw_batch s) ≤ wc_maxMessageBytes cfg;
  pi_len : len (pw_batch s) < wc_batchSize cfg;
  pi_last : nonempty_value (pw_lastMsg s) →
            pw_batch s = [] ∧ 2 ≤ wc_batchSize cfg ∧
            0 < messageSize (wm_msg (pw_lastMsg s)) ≤ wc_maxMessageBytes cfg;
  pi_flushed : Forall (λ b, b ≠ [] ∧ len b ≤ wc_batchSize cfg ∧ sizes b ≤ wc_maxMessageBytes cfg)
                 (pw_flushed s);
}.

(** A message the writer may be given: it has a value and fits a batch. *)
Definition fits (cfg : writerCfg) (wm : writerMessage) : Prop :=
  nonempty_value wm ∧ 0 < messageSize (wm_msg wm) ≤ wc_maxMessageBytes cfg.

#[global] Instance fits_dec cfg wm : Decision (fits cfg wm).
Proof. unfold fits. apply _. Defined.

#[local] Opaque messageSize.

Lemma sizes_app a b : sizes (a ++ b) = sizes a + sizes b.
Proof. induction a as [|x a IH]; simpl; [done|]. rewrite IH. lia. Qed.

Lemma takeLast_test wm :
  negb (len (bdata (msg_Value (wm_msg wm))) =? 0) = bool_decide (nonempty_value wm).
Proof.
  case_bool_decide as H; unfold nonempty_value in H.
  - destruct (bdata _) as [|b l]; [done|]. rewrite len_cons. pose proof (len_nonneg l).
    apply negb_true_iff, Z.eqb_neq. lia.
  - destruct (bdata _) as [|b l]; [done|]. exfalso. by apply H.
Qed.

Lemma pw_takeLast_contents s : contents (pw_takeLast s) = contents s.
Proof.
  unfold pw_takeLast. rewrite takeLast_test. case_bool_decide as H; [|done].
  unfold contents, pending. cbn [pw_flushed pw_batch pw_lastMsg].
  rewrite (decide_True (P:=nonempty_value (pw_lastMsg s))) by done.
  rewrite decide_False by (intros Hn; by apply Hn). by rewrite app_nil_r.
Qed.

Lemma pw_flush_contents s : contents (pw_flush s) = contents s.
Proof.
  unfold pw_flush. case_decide as H; [done|]. unfold contents, pending. cbn.
  rewrite concat_app. cbn. by rewrite app_nil_r, <- app_assoc.
Qed.

(** After the message put aside was taken, none is. *)
Lemma pw_takeLast_last s : ¬ nonempty_value (pw_lastMsg (pw_takeLast s)).
Proof.
  unfold pw_takeLast. rewrite takeLast_test. case_bool_decide as H; [|done]. by intros Hn.
Qed.

Lemma pw_step_contents cfg s ev :
  (∀ wm, ev = EvMsg wm → nonempty_value wm) →
  contents (pw_step cfg s ev) = contents s ++ received [ev].
Proof.
  intros Hev. unfold pw_step. pose proof (pw_takeLast_last s) as Hl.
  rewrite <- (pw_takeLast_contents s). set (s1 := pw_takeLast s) in *. clearbody s1. clear s.
  assert (pending s1 = []) as Hp by (unfold pending; by rewrite decide_False).
  assert (contents (pw_select cfg s1 ev).1 = contents s1 ++ received [ev]) as Hsel.
  { unfold received. cbn [map concat]. rewrite app_nil_r.
    destruct ev as [wm| |]; cbn [pw_select]; [|by rewrite app_nil_r..].
    destruct (_ >? _); unfold contents, pending in *; cbn in *; rewrite Hp.
    - rewrite decide_True by (by apply Hev). by rewrite app_nil_r, <- app_assoc.
    - by rewrite !app_nil_r, <- app_assoc. }
  destruct (pw_select cfg s1 ev) as [s2 f]. cbn in Hsel.
  destruct f; [rewrite pw_flush_contents|]; done.
Qed.

Lemma pw_takeLast_inv cfg s : pw_inv cfg s → pw_inv cfg (pw_takeLast s).
Proof.
  intros [Hb Hm Hl Hla Hf]. unfold pw_takeLast. rewrite takeLast_test. case_bool_decide as H; [|done].
  destruct (Hla H) as (E & H2 & Hs). rewrite E in *.
  constructor; cbn [pw_batch pw_batchSizeBytes pw_lastMsg pw_flushed]; cbn -[messageSize] in *;
    try done; [lia|lia|rewrite len_cons, len_nil; lia].
Qed.

Ltac pw_cbn := cbn [pw_batch pw_batchSizeBytes pw_lastMsg pw_flushed].

Lemma pw_step_inv cfg s ev :
  pw_inv cfg s → 1 ≤ wc_batchSize cfg → 0 ≤ wc_maxMessageBytes cfg →
  (∀ wm, ev = EvMsg wm → fits cfg wm) → pw_inv cfg (pw_step cfg s ev).
Proof.
  intros Hi Hbs Hmax Hev. unfold pw_step. pose proof (pw_takeLast_last s) as Hnl.
  apply pw_takeLast_inv in Hi. set (s1 := pw_takeLast s) in *. clearbody s1. clear s.
  destruct Hi as [Hb Hm Hl _ Hf].
  assert (∀ s2, pw_batchSizeBytes s2 = sizes (pw_batch s2) → sizes (pw_batch s2) ≤ wc_maxMessageBytes cfg →
    len (pw_batch s2) ≤ wc_batchSize cfg → pw_flushed s2 = pw_flushed s1 →
    (nonempty_value (pw_lastMsg s2) → 2 ≤ wc_batchSize cfg ∧
       0 < messageSize (wm_msg (pw_lastMsg s2)) ≤ wc_maxMessageBytes cfg) →
    pw_inv cfg (pw_flush s2)) as Hflush.
  { intros s2 E2 M2 L2 F2 P2. unfold pw_flush. case_decide as Hemp.
    - constructor; cbn; rewrite ?Hemp, ?F2 in *; try done; [rewrite len_nil; lia|].
      intros HP. destruct (P2 HP). auto.
    - constructor; cbn; try done; [rewrite len_nil; lia|intros HP; destruct (P2 HP); auto|].
      rewrite F2. apply Forall_app. split; [done|]. by repeat constructor. }
  destruct ev as [wm| |]; cbn [pw_select].
  - destruct (Hev wm eq_refl) as [Hne Hfit].
    destruct (Z.gtb_spec (messageSize (wm_msg wm) + pw_batchSizeBytes s1) (wc_maxMessageBytes cfg)) as [Hgt|Hle].
    + apply Hflush; pw_cbn; try done; [lia|]. intros _. split; [|done].
      destruct (pw_batch s1) as [|x xs]; [cbn -[messageSize] in *; lia|].
      rewrite len_cons in Hl. pose proof (len_nonneg xs). lia.
    + assert (sizes (pw_batch s1 ++ [wm]) = sizes (pw_batch s1) + messageSize (wm_msg wm)) as Hsz
        by (rewrite sizes_app; cbn -[messageSize]; lia).
      assert (len (pw_batch s1 ++ [wm]) = len (pw_batch s1) + 1) as Hln by (by autorewrite with len).
      destruct (_ || _) eqn:E.
      * apply Hflush; pw_cbn; try done; [lia|lia|lia].
      * apply orb_false_iff in E as [E _]. rewrite Z.geb_leb in E. apply Z.leb_gt in E.
        constructor; pw_cbn; try done; lia.
  - apply Hflush; pw_cbn; try done. lia.
  - apply Hflush; pw_cbn; try done. lia.
Qed.

(** ** Runs *)

Lemma pw_inv_init cfg : 1 ≤ wc_batchSize cfg → 0 ≤ wc_maxMessageBytes cfg → pw_inv cfg pwriter_init.
Proof.
  intros Hb Hm. constructor; cbn; try done. rewrite len_nil. lia.
Qed.

(** Messages only: the channel is still open. *)
Definition open_events (evs : list pw_event) : Prop := Forall (λ ev, ev ≠ EvClosed) evs.

Lemma pw_step_done cfg s ev : ev ≠ EvClosed → pw_done (pw_step cfg s ev) = pw_done s.
Proof.
  intros Hev. unfold pw_step, pw_takeLast, pw_select, pw_flush.
  destruct ev; [|done|]; repeat case_match; simplify_eq; done.
Qed.

Lemma pw_run_open cfg s evs :
  open_events evs → pw_done s = false →
  pw_run cfg s evs = foldl (pw_step cfg) s evs ∧ pw_done (foldl (pw_step cfg) s evs) = false.
Proof.
  intros Ho. revert s. induction Ho as [|ev evs Hev Ho IH]; intros s Hd; cbn [pw_run foldl]; [done|].
  rewrite Hd. apply IH. by rewrite pw_step_done.
Qed.

(** What [foldl (pw_step cfg)] keeps and collects. *)
Lemma pw_steps cfg s evs :
  pw_inv cfg s → 1 ≤ wc_batchSize cfg → 0 ≤ wc_maxMessageBytes cfg → Forall (fits cfg) (received evs) →
  pw_inv cfg (foldl (pw_step cfg) s evs) ∧
  contents (foldl (pw_step cfg) s evs) = contents s ++ received evs.
Proof.
  intros Hi Hb Hm. revert s Hi. induction evs as [|ev evs IH]; intros s Hi Hf.
  { cbn. by rewrite app_nil_r. }
  assert (received (ev :: evs) = received [ev] ++ received evs) as Hr
    by (unfold received; cbn; by rewrite app_nil_r).
  rewrite Hr in *. apply Forall_app in Hf as [Hf1 Hf2]. cbn [foldl].
  assert (∀ wm, ev = EvMsg wm → fits cfg wm) as Hev.
  { intros wm ->. unfold received in Hf1. cbn [map concat app] in Hf1.
    by apply Forall_cons_1 in Hf1 as [? _]. }
  destruct (IH (pw_step cfg s ev)) as [Hi' Hc]; [by apply pw_step_inv|done|].
  split; [done|]. rewrite Hc, pw_step_contents, <- app_assoc; [done|].
  intros wm Hwm. by apply Hev.
Qed.

(** Closing the channel flushes what is left. *)
Lemma pw_close cfg s :
  pw_done (pw_step cfg s EvClosed) = true ∧
  concat (pw_flushed (pw_step cfg s EvClosed)) = contents s.
Proof.
  rewrite <- (pw_takeLast_contents s). unfold pw_step. cbn [pw_select].
  pose proof (pw_takeLast_last s) as Hnl. set (s1 := pw_takeLast s) in *. clearbody s1.
  unfold pw_flush, contents, pending. pw_cbn. rewrite (decide_False (P:=nonempty_value _)) by done.
  rewrite app_nil_r. case_decide as He; cbn [pw_done pw_flushed].
  - split; [done|]. rewrite He. by rewrite app_nil_r.
  - split; [done|]. rewrite concat_app. cbn. by rewrite app_nil_r.
Qed.

(** A run until the channel is closed. *)
Lemma pw_run_closed cfg s evs rest :
  open_events evs → pw_done s = false →
  pw_run cfg s (evs ++ EvClosed :: rest) = pw_step cfg (foldl (pw_step cfg) s evs) EvClosed.
Proof.
  intros Ho. revert s. induction Ho as [|ev evs Hev Ho IH]; intros s Hd; cbn [app pw_run foldl]; rewrite Hd.
  - destruct rest; cbn [pw_run]; [done|]. by rewrite (proj1 (pw_close cfg s)).
  - apply IH. by rewrite pw_step_done.
Qed.

(** A message without a value that does not fit is put aside and forgotten. *)
Lemma pw_step_forgets cfg s m :
  ¬ nonempty_value m → wc_maxMessageBytes cfg < messageSize (wm_msg m) + pw_batchSizeBytes (pw_takeLast s) →
  contents (pw_step cfg s (EvMsg m)) = contents s.
Proof.
  intros Hm Hs. rewrite <- (pw_takeLast_contents s). unfold pw_step. pose proof (pw_takeLast_last s) as Hl.
  set (s1 := pw_takeLast s) in *. clearbody s1. cbn [pw_select].
  rewrite Z.gtb_ltb, (proj2 (Z.ltb_lt _ _) Hs), pw_flush_contents. unfold contents, pending.
  cbn [pw_batch pw_lastMsg pw_flushed]. by rewrite !decide_False.
Qed.

(** ** [write] ends, and answers every message once *)

Definition count_op (op : wr_op) (ops : list wr_op) : Z :=
  len (List.filter (λ o, match o, op with
                         | OpDial, OpDial | OpSend, OpSend | OpClose, OpClose => true
                         | _, _ => false end) ops).

Lemma count_op_app op a b : count_op op (a ++ b) = count_op op a + count_op op b.
Proof. unfold count_op. by rewrite List.filter_app, len_app. Qed.

(** Counts in the short lists of the code. *)
Ltac count_ops :=
  rewrite ?count_op_app;
  change (count_op OpSend [OpSend]) with 1; change (count_op OpDial [OpSend]) with 0;
  change (count_op OpSend [OpSend; OpClose]) with 1; change (count_op OpDial [OpSend; OpClose]) with 0;
  lia.

(** The [k]-th send failed, and not as a duplicate. *)
Definition send_failed (sends : list (option goerror)) (k : nat) : Prop :=
  ∃ err, sends !! k = Some (Some err) ∧ err ≠ KafkaError Code.DuplicateSequenceNumber.

(** What [write] promises.  The answer to the messages is that of the last
    send or of the last dial it made: success when the last send succeeded or
    was a duplicate, an error when the last send or the last dial failed; all
    the sends before the last one failed. *)
Record wr_good (budget : Z) (dials sends : list (option goerror)) (batch : list writerMessage)
    (r : wr_result) : Prop := {
  wg_replies : wr_replies r = match wr_err r with
                              | None => reply_ok batch | Some err => reply_error batch err end;
  wg_sends : count_op OpSend (wr_ops r) ≤ budget + 1;
  wg_dials : count_op OpDial (wr_ops r) ≤ budget + 1;
  wg_retries : len (wr_retries r) ≤ budget;
  wg_earlier : ∀ k, Z.of_nat k + 1 < count_op OpSend (wr_ops r) → send_failed sends k;
  wg_success : wr_err r = None →
    ∃ k, last (wr_ops r) = Some OpSend ∧ count_op OpSend (wr_ops r) = Z.of_nat k + 1 ∧
      default None (sends !! k) ∈ [None; Some (KafkaError Code.DuplicateSequenceNumber)];
  wg_failed : ∀ e, wr_err r = Some e →
    (∃ k, last (wr_ops r) = Some OpSend ∧ count_op OpSend (wr_ops r) = Z.of_nat k + 1 ∧
      send_failed sends k ∧ e = Errorf writing_error 0) ∨
    (∃ k, last (wr_ops r) = Some OpDial ∧ count_op OpDial (wr_ops r) = Z.of_nat k + 1 ∧
      dials !! k = Some (Some e));
}.

Lemma shouldRetry_budget err retries attempts :
  shouldRetry err retries attempts = true → attempts < retries.
Proof. unfold shouldRetry. rewrite Z.geb_leb. destruct (Z.leb_spec retries attempts); [done|lia]. Qed.

Lemma default_head {A} (d : A) l : default d (head l) = default d (l !! 0%nat).
Proof. by destruct l. Qed.

Lemma default_Some {A} (l : list (option A)) k x : default None (l !! k) = Some x → l !! k = Some (Some x).
Proof. destruct (l !! k) as [[y|]|]; cbn; congruence. Qed.

Lemma tail_drop {A} (l : list A) : tail l = drop 1 l.
Proof. by destruct l. Qed.

Lemma last_app_ne {A} (l l' : list A) x : last l' = Some x → last (l ++ l') = Some x.
Proof. intros E. rewrite last_app. by rewrite E. Qed.

(** One more retry, after [ns] sends and [nd] dials, in front of a good result. *)
Lemma wr_good_retried ns nd budget dials sends batch r ops attempts :
  wr_good (budget - 1) (drop nd dials) (drop ns sends) batch r →
  count_op OpSend ops = Z.of_nat ns → count_op OpDial ops = Z.of_nat nd → (ns ≤ 1)%nat → (nd ≤ 1)%nat →
  (ns = 1%nat → send_failed sends 0) →
  wr_good budget dials sends batch (retried attempts ops r).
Proof.
  intros [H1 H2 H3 H4 H5 H6 H7] Hs Hd Hs1 Hd1 H0.
  constructor; cbn [retried wr_conn wr_err wr_replies wr_ops wr_retries];
    try setoid_rewrite count_op_app; rewrite ?Hs, ?Hd, ?len_cons; try done; try lia.
  - intros k Hk. destruct (decide (k < ns)%nat) as [Hlt|Hge].
    + assert (k = 0%nat) as -> by lia. apply H0. lia.
    + destruct (H5 (k - ns)%nat) as (err & E & Hne); [lia|]. rewrite lookup_drop in E.
      exists err. split; [|done]. by replace k with (ns + (k - ns))%nat by lia.
  - intros He. destruct (H6 He) as (k & Hl & Hc & Hin). exists (ns + k)%nat. rewrite lookup_drop in Hin.
    split; [by apply last_app_ne|]. split; [lia|done].
  - intros e He. destruct (H7 e He) as [(k & Hl & Hc & (err & E & Hne) & Ee)|(k & Hl & Hc & E)];
      [left; exists (ns + k)%nat|right; exists (nd + k)%nat]; rewrite lookup_drop in E;
      (split; [by apply last_app_ne|]); (split; [lia|]); [|done]. split; [by exists err|done].
Qed.

(** An iteration that ends with the answer to its send, after [nd] dials. *)
Lemma wr_good_sent budget dials sends batch conn pre err :
  0 ≤ budget → count_op OpSend pre = 0 → count_op OpDial pre ≤ 1 →
  match err with
  | None => default None (sends !! 0%nat) ∈ [None; Some (KafkaError Code.DuplicateSequenceNumber)]
  | Some e => send_failed sends 0 ∧ e = Errorf writing_error 0
  end →
  wr_good budget dials sends batch
    {| wr_conn := conn; wr_err := err;
       wr_replies := match err with None => reply_ok batch | Some e => reply_error batch e end;
       wr_ops := pre ++ [OpSend]; wr_retries := [] |}.
Proof.
  intros Hb Hs Hd Herr.
  assert (count_op OpSend (pre ++ [OpSend]) = 1 ∧ count_op OpDial (pre ++ [OpSend]) ≤ 1) as [Hs1 Hd1]
    by (split; count_ops).
  constructor; cbn [wr_err wr_replies wr_ops wr_retries]; rewrite ?len_nil; try done; try lia.
  - intros ->. exists 0%nat. split; [apply last_snoc|]. by split; [lia|].
  - intros e ->. left. exists 0%nat. split; [apply last_snoc|]. by split; [lia|].
Qed.

Lemma writer_send_good again cfg attempts pre dials0 nd sends batch :
  (∀ conn dials sends, attempts < wc_retries cfg →
     ∃ r, again conn (attempts + 1) dials sends = Some r ∧
          wr_good (Z.max 0 (wc_retries cfg) - attempts - 1) dials sends batch r) →
  0 ≤ attempts ≤ Z.max 0 (wc_retries cfg) → count_op OpSend pre = 0 → count_op OpDial pre = Z.of_nat nd → (nd ≤ 1)%nat →
  ∃ r, writer_send again cfg attempts pre (drop nd dials0) sends batch = Some r ∧
       wr_good (Z.max 0 (wc_retries cfg) - attempts) dials0 sends batch r.
Proof.
  intros Hagain Ha Hp1 Hp2 Hnd. unfold writer_send. rewrite default_head, tail_drop.
  destruct (default None (sends !! 0%nat)) as [err|] eqn:E.
  2: { eexists; split; [done|]. apply (wr_good_sent _ _ sends _ _ _ None); [lia..|]. rewrite E. left. }
  case_decide as Hdup.
  { eexists; split; [done|]. apply (wr_good_sent _ _ sends _ _ _ None); [lia..|]. rewrite E, Hdup. right. left. }
  assert (send_failed sends 0) as Hf by (exists err; split; [by apply default_Some|done]).
  destruct (shouldRetry _ _ _) eqn:Hretry.
  2: { eexists; split; [done|]. by apply (wr_good_sent _ _ sends batch true pre (Some _)); [lia..|]. }
  apply shouldRetry_budget in Hretry.
  destruct (needsReconnect _).
  - destruct (Hagain false (drop nd dials0) (drop 1 sends) Hretry) as (r & -> & Hg). eexists. split; [done|].
    eapply (wr_good_retried 1 nd); [exact Hg|count_ops|count_ops|lia|lia|done].
  - destruct (Hagain true (drop nd dials0) (drop 1 sends) Hretry) as (r & -> & Hg). eexists. split; [done|].
    eapply (wr_good_retried 1 nd); [exact Hg|count_ops|count_ops|lia|lia|done].
Qed.

Lemma writer_loop_good fuel cfg batch conn attempts dials sends :
  0 ≤ attempts ≤ Z.max 0 (wc_retries cfg) → wc_retries cfg - attempts < Z.of_nat fuel → (0 < fuel)%nat →
  ∃ r, writer_loop fuel cfg batch conn attempts dials sends = Some r ∧
       wr_good (Z.max 0 (wc_retries cfg) - attempts) dials sends batch r.
Proof.
  revert conn attempts dials sends. induction fuel as [|fuel IH]; intros conn attempts dials sends Ha Hf H0.
  { lia. }
  assert (∀ conn dials sends, attempts < wc_retries cfg →
     ∃ r, writer_loop fuel cfg batch conn (attempts + 1) dials sends = Some r ∧
          wr_good (Z.max 0 (wc_retries cfg) - attempts - 1) dials sends batch r) as Hagain.
  { intros conn' dials' sends' Hlt.
    replace (Z.max 0 (wc_retries cfg) - attempts - 1)
      with (Z.max 0 (wc_retries cfg) - (attempts + 1)) by lia. apply IH; lia. }
  cbn [writer_loop]. destruct conn; [apply (writer_send_good _ _ _ [] dials 0); done || lia|].
  rewrite default_head, tail_drop. destruct (default None (dials !! 0%nat)) as [err|] eqn:E.
  2: { apply (writer_send_good _ _ _ [OpDial] dials 1); done || lia. }
  destruct (shouldRetry _ _ _) eqn:Hretry.
  - apply shouldRetry_budget in Hretry.
    destruct (Hagain false (drop 1 dials) sends Hretry) as (r & -> & Hg). eexists. split; [done|].
    eapply (wr_good_retried 0 1); [by rewrite drop_0|done|done|lia|lia|done].
  - eexists. split; [done|].
    constructor; cbn [wr_err wr_replies wr_ops wr_retries]; try done;
      change (count_op OpSend [OpDial]) with 0; change (count_op OpDial [OpDial]) with 1; rewrite ?len_nil; try lia.
    intros e [= <-]. right. exists 0%nat. split; [done|]. split; [done|]. by apply default_Some.
Qed.
