(* ===== verification/Writer.v ===== *)
(** * Writers (the type [Writer] of writer.go)

    [NewWriter], the loop of [Writer.run], which follows the partitions of the
    topic and routes messages to partition writers, and [WriteMessages].  What
    the environment does (the brokers, the balancer, the context, the answers
    of the partition writers) is an argument. *)

From S2P Require Import Prelude Errors Time Read Write Wire Messages Balancer.
From S2P Require Import PartitionWriter.

(** ** [NewWriter] *)

Record WriterConfig : Type := {
  wcf_Brokers : list gostring;
  wcf_Topic : gostring;
  wcf_MaxAttempts : Z;
  wcf_QueueCapacity : Z;
  wcf_BatchSize : Z;
  wcf_Retries : Z;
  wcf_RetryBackoffInterval : Z;
  wcf_BatchBytes : Z;
  wcf_BatchTimeout : Z;
  wcf_ReadTimeout : Z;
  wcf_WriteTimeout : Z;
  wcf_RebalanceInterval : Z;
  wcf_RequiredAcks : Z;
  wcf_Async : bool;
}.

Definition or_default (z d : Z) : Z := if z =? 0 then d else z.

Definition NewWriter_config (config : WriterConfig) : outcome WriterConfig :=
  if decide (wcf_Brokers config = []) then
    Failed (GoPanic "cannot create a kafka writer with an empty list of brokers")
  else if decide (wcf_Topic config = []) then
    Failed (GoPanic "cannot create a kafka writer with an empty topic")
  else
    Done {| wcf_Brokers := wcf_Brokers config; wcf_Topic := wcf_Topic config;
            wcf_MaxAttempts := or_default (wcf_MaxAttempts config) 10;
            wcf_QueueCapacity := or_default (wcf_QueueCapacity config) 100;
            wcf_BatchSize := or_default (wcf_BatchSize config) 100;
            wcf_Retries := wcf_Retries config;
            wcf_RetryBackoffInterval :=
              or_default (wcf_RetryBackoffInterval config) (100 * Time.Millisecond);
            wcf_BatchBytes := or_default (wcf_BatchBytes config) 1048576;
            wcf_BatchTimeout := or_default (wcf_BatchTimeout config) (1 * Time.Second);
            wcf_ReadTimeout := or_default (wcf_ReadTimeout config) (10 * Time.Second);
            wcf_WriteTimeout := or_default (wcf_WriteTimeout config) (10 * Time.Second);
            wcf_RebalanceInterval := or_default (wcf_RebalanceInterval config) (15 * Time.Second);
            wcf_RequiredAcks := wcf_RequiredAcks config;
            wcf_Async := wcf_Async config |}.

(** [newWriter]: the configuration of a partition writer. *)
Definition newWriter_config (config : WriterConfig) : writerCfg :=
  {| wc_batchSize := wcf_BatchSize config; wc_maxMessageBytes := wcf_BatchBytes config;
     wc_retries := wcf_Retries config; wc_retryBackoffInterval := wcf_RetryBackoffInterval config |}.

(** ** Partitions *)

(** [sort.SearchInts]. *)
Definition SearchInts (a : list Z) (x : Z) : Z :=
  Search (len a) (λ i, nth (Z.to_nat i) a 0 >=? x).

Fixpoint diffp (new old : list Z) : list Z :=
  match new with
  | [] => []
  | p :: new =>
    let i := SearchInts old p in
    if (i =? len old) || negb (nth (Z.to_nat i) old 0 =? p) then p :: diffp new old else diffp new old
  end.

(** [shuffledStrings]: [choices] are the results of [shuffler.Intn(i + 1)]. *)
Fixpoint shuffle_loop {A} (i : nat) (choices : list nat) (l : list A) : list A :=
  match choices with
  | [] => l
  | j :: choices =>
    let l := match l !! i, l !! j with
             | Some x, Some y => <[j := x]> (<[i := y]> l)
             | _, _ => l
             end in
    shuffle_loop (S i) choices l
  end.

Definition shuffledStrings (choices : list nat) (l : list gostring) : list gostring :=
  shuffle_loop 0 choices l.

(** [Writer.partitions]: the brokers are asked in turn until one answers; the
    error is that of the last one. *)
Fixpoint partitions_loop (ask : gostring → goerror + list Z) (brokers : list gostring)
    (err : option goerror) : option goerror * list Z :=
  match brokers with
  | [] => (err, [])
  | broker :: brokers =>
    match ask broker with
    | inl e => partitions_loop ask brokers (Some e)
    | inr ps => (None, ps)
    end
  end.

Definition Writer_partitions (ask : gostring → goerror + list Z) (brokers : list gostring) :
    goerror + list Z :=
  match partitions_loop ask brokers None with
  | (Some e, _) => inl e
  | (None, ps) => inr (merge_sort Z.le ps)
  end.

(** ** The loop of [Writer.run] *)

Section run.
Context {T : Type} `{Balancer T}.

Record writer_state : Type := {
  ws_partitions : list Z;
  ws_writers : gmap Z (list writerMessage);   (* what each open partition writer was sent *)
  ws_closed : list (Z * list writerMessage);  (* the partition writers that were closed *)
  ws_balancer : T;
  ws_err : option goerror;
  ws_replies : list (Z * (Message * goerror)); (* messages that were refused *)
}.

Definition writer_init (b : T) : writer_state :=
  {| ws_partitions := []; ws_writers := ∅; ws_closed := []; ws_balancer := b; ws_err := None;
     ws_replies := [] |}.

Definition closeWriters (ps : list Z) (s : writer_state) : writer_state :=
  {| ws_partitions := ws_partitions s;
     ws_writers := foldl (λ ws p, delete p ws) (ws_writers s) ps;
     ws_closed := ws_closed s ++ omap (λ p, (λ l, (p, l)) <$> ws_writers s !! p) ps;
     ws_balancer := ws_balancer s; ws_err := ws_err s; ws_replies := ws_replies s |}.

Definition openWriters (ps : list Z) (s : writer_state) : writer_state :=
  {| ws_partitions := ws_partitions s;
     ws_writers := foldl (λ ws p, <[p := []]> ws) (ws_writers s) ps;
     ws_closed := ws_closed s; ws_balancer := ws_balancer s; ws_err := ws_err s;
     ws_replies := ws_replies s |}.

(** The rebalance at the start of an iteration. *)
Definition rebalance (found : goerror + list Z) (s : writer_state) : writer_state :=
  match found with
  | inl err =>
    {| ws_partitions := ws_partitions s; ws_writers := ws_writers s; ws_closed := ws_closed s;
       ws_balancer := ws_balancer s; ws_err := Some err; ws_replies := ws_replies s |}
  | inr new =>
    let old := ws_partitions s in
    let s := openWriters (diffp new old) (closeWriters (diffp old new) s) in
    {| ws_partitions := new; ws_writers := ws_writers s; ws_closed := ws_closed s;
       ws_balancer := ws_balancer s; ws_err := None; ws_replies := ws_replies s |}
  end.

(** A message of the queue.  Sending to a partition without a writer is a call
    on a nil interface. *)
Definition route (wm : writerMessage) (s : writer_state) : outcome writer_state :=
  if decide (ws_partitions s = []) then
    let err := default (Errorf "failed to find any partitions" 0) (ws_err s) in
    Done {| ws_partitions := ws_partitions s; ws_writers := ws_writers s; ws_closed := ws_closed s;
            ws_balancer := ws_balancer s; ws_err := Some err;
            ws_replies := ws_replies s ++ [(wm_res wm, (wm_msg wm, err))] |}
  else
    '(p, b) ← Balance (ws_balancer s) (wm_msg wm) (ws_partitions s);
    match ws_writers s !! p with
    | None => Failed (GoPanic "nil pointer dereference")
    | Some sent =>
      Done {| ws_partitions := ws_partitions s; ws_writers := <[p := sent ++ [wm]]> (ws_writers s);
              ws_closed := ws_closed s; ws_balancer := b; ws_err := ws_err s;
              ws_replies := ws_replies s |}
    end.

(** What the loop takes: a message, the ticker, after which the partitions
    found are [found] (the first iteration starts as after a tick), or the end
    of the queue, which closes every writer and ends the loop. *)
Inductive writer_event : Type := WMsg (wm : writerMessage) | WTick (found : goerror + list Z) | WClosed.

Definition closeAll (s : writer_state) : writer_state :=
  closeWriters (map fst (map_to_list (ws_writers s))) s.

Definition writer_step (ev : writer_event) (s : writer_state) : outcome writer_state :=
  match ev with
  | WMsg wm => route wm s
  | WTick found => Done (rebalance found s)
  | WClosed => Done (closeAll s)
  end.

Fixpoint writer_run (evs : list writer_event) (s : writer_state) : outcome writer_state :=
  match evs with
  | [] => Done s
  | WClosed :: _ => writer_step WClosed s
  | ev :: evs => s ← writer_step ev s; writer_run evs s
  end.
End run.

Arguments writer_state T : clear implicits.

(** ** [WriteMessages] *)

Inductive wait_event : Type := WaitTimer | WaitCtx (e : goerror) | WaitDone.

(** What happens to an attempt: the writer is closed, the context ends while
    messages are sent or answers awaited, or every message sent is answered,
    in any order (the pairs give the message with its answer: the code sees
    nil, or a [writerError] that carries the message). *)
Record attempt_env : Type := {
  ae_closed : bool;
  ae_interrupt : option goerror;
  ae_answers : list (Message * option goerror);
  ae_wait : wait_event;
}.

Record write_result : Type := {
  wres_err : option goerror;
  wres_acked : list Message;
  wres_skipped : list Message;
}.

Section write_messages.
Context (config : WriterConfig) (env : Z → list Message → attempt_env).

Definition oversize (msg : Message) : bool := messageSize msg >? wcf_BatchBytes config.

(** The last error among the answers, or [err]. *)
Definition last_error (err : option goerror) (answers : list (Message * option goerror)) : option goerror :=
  fold_left (λ err a, match a.2 with Some e => Some e | None => err end) answers err.

Definition acked (answers : list (Message * option goerror)) : list Message :=
  omap (λ a, match a.2 with None => Some a.1 | Some _ => None end) answers.

Definition to_retry (answers : list (Message * option goerror)) : list Message :=
  omap (λ a, match a.2 with Some _ => Some a.1 | None => None end) answers.

Fixpoint WriteMessages_loop (n : nat) (attempt : Z) (msgs : list Message) (err : option goerror)
    (done skipped : list Message) : write_result :=
  match n with
  | O => {| wres_err := err; wres_acked := done; wres_skipped := skipped |}
  | S n =>
    let sent := List.filter (λ msg, negb (oversize msg)) msgs in
    let skipped := skipped ++ List.filter oversize msgs in
    let ret e := {| wres_err := e; wres_acked := done; wres_skipped := skipped |} in
    let ae := env attempt sent in
    if ae_closed ae then ret (Some ErrClosedPipe)
    else
      match ae_interrupt ae with
      | Some e => ret (Some e)
      | None =>
        if wcf_Async config then ret err
        else
          let answers := ae_answers ae in
          let err := last_error err answers in
          let done := done ++ acked answers in
          let retry := to_retry answers in
          let ret e := {| wres_err := e; wres_acked := done; wres_skipped := skipped |} in
          if decide (retry = []) then ret err
          else
            let err := match ae_wait ae with
                       | WaitTimer => if attempt <? wcf_MaxAttempts config - 1 then None else err
                       | WaitCtx e => Some e
                       | WaitDone => Some ErrClosedPipe
                       end in
            match err with
            | Some e => ret (Some e)
            | None => WriteMessages_loop n (attempt + 1) retry None done skipped
            end
      end
  end.

Definition Writer_WriteMessages (msgs : list Message) : write_result :=
  if decide (msgs = []) then {| wres_err := None; wres_acked := []; wres_skipped := [] |}
  else WriteMessages_loop (Z.to_nat (wcf_MaxAttempts config)) 0 msgs None [] [].

(** ** A nil error acknowledges every message that fits *)

(** Every message sent is answered once. *)
Definition answers_all : Prop := ∀ attempt sent,
  map fst (ae_answers (env attempt sent)) ≡ₚ sent.

Lemma filter_split {A} (f : A → bool) l :
  List.filter f l ++ List.filter (λ x, negb (f x)) l ≡ₚ l.
Proof.
  induction l as [|x l IH]; [done|]. cbn. destruct (f x); cbn.
  - by apply perm_skip.
  - rewrite <- Permutation_middle. by apply perm_skip.
Qed.

Lemma answers_split answers : acked answers ++ to_retry answers ≡ₚ map fst answers.
Proof.
  induction answers as [|[m [e|]] l IH]; [done|..]; cbn.
  - rewrite <- Permutation_middle. by apply perm_skip.
  - by apply perm_skip.
Qed.

Lemma last_error_some err answers : err ≠ None → last_error err answers ≠ None.
Proof.
  unfold last_error. revert err.
  induction answers as [|[m [e|]] l IH]; intros err He; cbn; [done|by apply IH|by apply IH].
Qed.

Lemma last_error_retry err answers : to_retry answers ≠ [] → last_error err answers ≠ None.
Proof.
  revert err. induction answers as [|[m [e|]] l IH]; intros err Hr; [done|..]; cbn.
  - by apply last_error_some.
  - by apply IH.
Qed.

Lemma last_error_none answers : to_retry answers = [] → last_error None answers = None.
Proof. induction answers as [|[m [e|]] l IH]; intros Hr; [done|done|]. by apply IH. Qed.

Lemma WriteMessages_loop_nil n attempt msgs done skipped :
  answers_all → wcf_Async config = false → attempt + Z.of_nat n = wcf_MaxAttempts config →
  (0 < n)%nat → Forall (λ msg, oversize msg = true) skipped →
  wres_err (WriteMessages_loop n attempt msgs None done skipped) = None →
  wres_acked (WriteMessages_loop n attempt msgs None done skipped) ++
  wres_skipped (WriteMessages_loop n attempt msgs None done skipped) ≡ₚ done ++ skipped ++ msgs ∧
  Forall (λ msg, oversize msg = true)
    (wres_skipped (WriteMessages_loop n attempt msgs None done skipped)).
Proof.
  intros Hall Hasync. revert attempt msgs done skipped.
  induction n as [|n IH]; intros attempt msgs done skipped Hn H0 Hsk; [lia|]. cbn [WriteMessages_loop].
  set (sent := List.filter (λ msg, negb (oversize msg)) msgs).
  set (skip := List.filter oversize msgs).
  assert (skip ++ sent ≡ₚ msgs) as Hmsgs by apply filter_split.
  assert (Forall (λ msg, oversize msg = true) skip) as Hskip.
  { apply Forall_forall. intros x Hx%list_elem_of_In. by apply filter_In in Hx as [_ ?]. }
  assert (Forall (λ msg, oversize msg = true) (skipped ++ skip)) as Hsk' by (by apply Forall_app).
  destruct (ae_closed _); [done|]. destruct (ae_interrupt _); [done|]. rewrite Hasync.
  set (answers := ae_answers (env attempt sent)).
  assert (acked answers ++ to_retry answers ≡ₚ sent) as Hans.
  { rewrite answers_split. apply Hall. }
  case_decide as Hr.
  { cbn [wres_err wres_acked wres_skipped]. intros _. rewrite Hr, app_nil_r in Hans.
    split; [|done]. rewrite <- Hmsgs, <- Hans, <- !app_assoc.
    apply Permutation_app_head. rewrite (Permutation_app_comm (acked answers)), <- !app_assoc. done. }
  pose proof (last_error_retry None answers Hr) as Hle.
  destruct (match ae_wait _ with WaitTimer => _ | WaitCtx _ => _ | WaitDone => _ end) eqn:Ew; [done|].
  assert (attempt < wcf_MaxAttempts config - 1) as Hlt.
  { destruct (ae_wait _); [|done|done]. destruct (Z.ltb_spec attempt (wcf_MaxAttempts config - 1)); done. }
  intros He. destruct (IH (attempt + 1) (to_retry answers) (done ++ acked answers) (skipped ++ skip))
    as [Hp Hf]; [lia|lia|done|done|]. split; [|done].
  rewrite Hp, <- Hmsgs, <- Hans, <- !app_assoc. apply Permutation_app_head.
  rewrite (Permutation_app_comm (acked answers)), <- !app_assoc. do 2 apply Permutation_app_head.
  apply Permutation_app_comm.
Qed.
End write_messages.

(** ** Following the partitions *)

(** [diffp] is the difference of sorted lists. *)
Lemma diffp_elem new old p :
  sorted_by id old → p ∈ diffp new old ↔ p ∈ new ∧ p ∉ old.
Proof.
  intros Hs. induction new as [|q new IH]; cbn [diffp]; [set_solver|].
  pose proof (search_key_missing id 0 old q Hs) as Hm. cbn zeta in Hm.
  change (map id old) with (map (λ x, x) old) in Hm. rewrite map_id in Hm. unfold SearchInts.
  change (Search (len old) _) with (search_key id 0 old q).
  destruct (_ || _) eqn:E.
  - assert (q ∉ old) by (by apply Hm). set_solver.
  - assert (q ∈ old).
    { destruct (decide (q ∈ old)) as [|Hn]; [done|]. by apply Hm in Hn. }
    set_solver.
Qed.

Section invariant.
Context {T : Type} `{Balancer T}.

(** The open writers are those of the partitions, which are sorted. *)
Definition writer_inv (s : writer_state T) : Prop :=
  dom (ws_writers s) = list_to_set (ws_partitions s) ∧ sorted_by id (ws_partitions s).

Lemma dom_delete_all {A} (ws : gmap Z A) ps :
  dom (foldl (λ ws p, delete p ws) ws ps) = dom ws ∖ list_to_set ps.
Proof.
  revert ws. induction ps as [|p ps IH]; intros ws; cbn [foldl list_to_set]; [set_solver|].
  rewrite IH, dom_delete_L. set_solver.
Qed.

Lemma dom_insert_all (ws : gmap Z (list writerMessage)) ps :
  dom (foldl (λ ws p, <[p := []]> ws) ws ps) = dom ws ∪ list_to_set ps.
Proof.
  revert ws. induction ps as [|p ps IH]; intros ws; cbn [foldl list_to_set]; [set_solver|].
  rewrite IH, dom_insert_L. set_solver.
Qed.

Lemma rebalance_inv found s :
  writer_inv s → (∀ new, found = inr new → sorted_by id new) → writer_inv (rebalance found s).
Proof.
  intros [Hd Hs] Hf. destruct found as [err|new]; [done|]. specialize (Hf new eq_refl).
  split; [|done]. cbn [rebalance ws_writers ws_partitions openWriters closeWriters].
  rewrite dom_insert_all, dom_delete_all, Hd. apply set_eq. intros p.
  rewrite elem_of_union, elem_of_difference, !elem_of_list_to_set.
  rewrite !diffp_elem by done. destruct (decide (p ∈ new)), (decide (p ∈ ws_partitions s)); naive_solver.
Qed.

(** A balancer that chooses among the partitions keeps the writer going. *)
Lemma route_inv wm s :
  writer_inv s →
  (∃ p b, Balance (ws_balancer s) (wm_msg wm) (ws_partitions s) = Done (p, b) ∧ p ∈ ws_partitions s)
  ∨ ws_partitions s = [] →
  ∃ s', route wm s = Done s' ∧ writer_inv s'.
Proof.
  intros [Hd Hs] Hb. unfold route. case_decide as Hp; [by eexists|].
  destruct Hb as [(p & b & Hbal & Hin)|]; [|done]. rewrite Hbal, outcome_bind_done. cbv beta iota.
  assert (is_Some (ws_writers s !! p)) as [sent E].
  { apply elem_of_dom. rewrite Hd. by apply elem_of_list_to_set. }
  rewrite E. eexists. split; [done|]. split; [|done]. cbn [ws_writers ws_partitions].
  rewrite dom_insert_L. rewrite <- Hd. apply set_eq. intros q.
  rewrite elem_of_union, elem_of_singleton. split; [|by right].
  intros [->|]; [|done]. by apply elem_of_dom.
Qed.

(** ** No message is lost *)

Definition logs (ws : gmap Z (list writerMessage)) : list writerMessage :=
  concat (map snd (map_to_list ws)).

(** The messages that were sent to partition writers, open or closed. *)
Definition routed (s : writer_state T) : list writerMessage :=
  logs (ws_writers s) ++ concat (map snd (ws_closed s)).

Lemma concat_perm {A} (l1 l2 : list (list A)) : l1 ≡ₚ l2 → concat l1 ≡ₚ concat l2.
Proof.
  induction 1; cbn; [done| | |by etransitivity].
  - by apply Permutation_app_head.
  - by rewrite !app_assoc, (Permutation_app_comm y).
Qed.

Lemma logs_delete ws p l : ws !! p = Some l → logs ws ≡ₚ l ++ logs (delete p ws).
Proof.
  intros Hp. unfold logs. change l with (snd (p, l)) at 1. change (?x ++ concat ?y) with (concat (x :: y)).
  change (snd (p, l) :: map snd (map_to_list (delete p ws)))
    with (map snd ((p, l) :: map_to_list (delete p ws))).
  apply concat_perm. apply Permutation_map. symmetry. by apply map_to_list_delete.
Qed.

Lemma logs_insert ws p l : ws !! p = None → logs (<[p := l]> ws) ≡ₚ l ++ logs ws.
Proof.
  intros Hp. unfold logs. transitivity (concat (map snd ((p, l) :: map_to_list ws))); [|done].
  apply concat_perm, Permutation_map. by apply map_to_list_insert.
Qed.

Lemma route_routed wm s s' :
  route wm s = Done s' →
  routed s' ++ map (λ r, {| wm_msg := r.2.1; wm_res := r.1 |}) (ws_replies s') ≡ₚ
  wm :: routed s ++ map (λ r, {| wm_msg := r.2.1; wm_res := r.1 |}) (ws_replies s).
Proof.
  unfold route. case_decide as Hp.
  - intros [= <-]. unfold routed. cbn. rewrite map_app. cbn. destruct wm as [m r]. cbn.
    rewrite app_assoc. rewrite Permutation_app_comm. done.
  - destruct (Balance _ _ _) as [[p b]|e|]; [|done|done]. rewrite outcome_bind_done. cbv beta iota.
    destruct (ws_writers s !! p) as [sent|] eqn:E; [|done]. intros [= <-]. unfold routed. cbn.
    rewrite <- insert_delete_eq, logs_insert by apply lookup_delete_eq.
    rewrite (logs_delete _ _ _ E). rewrite <- !app_assoc.
    rewrite (Permutation_app_swap_app sent [wm]). done.
Qed.

Lemma closeWriters_routed ps s :
  NoDup ps → routed (closeWriters ps s) ≡ₚ routed s.
Proof.
  intros Hn. unfold routed, closeWriters. cbn [ws_writers ws_closed]. rewrite map_app, concat_app.
  assert (∀ ws : gmap Z (list writerMessage),
    logs (foldl (λ ws p, delete p ws) ws ps) ++ concat (map snd (omap (λ p, (λ l, (p, l)) <$> ws !! p) ps))
    ≡ₚ logs ws) as Hlogs.
  { induction Hn as [|p ps Hnin Hn IH]; intros ws; cbn [foldl omap list_omap]; [by rewrite app_nil_r|].
    assert (omap (λ q, (λ l, (q, l)) <$> ws !! q) ps
            = omap (λ q, (λ l, (q, l)) <$> delete p ws !! q) ps) as ->.
    { clear IH Hn. induction ps as [|q ps IHp]; [done|]. cbn [omap list_omap].
      rewrite not_elem_of_cons in Hnin. destruct Hnin as [Hne Hnin].
      rewrite lookup_delete_ne by done. rewrite IHp by done. done. }
    destruct (ws !! p) as [l|] eqn:E; cbn.
    - rewrite (logs_delete _ _ _ E). rewrite <- (IH (delete p ws)).
      by rewrite Permutation_app_swap_app.
    - rewrite (IH (delete p ws)). by rewrite delete_id. }
  rewrite Permutation_app_swap_app, Hlogs. apply Permutation_app_comm.
Qed.

Lemma openWriters_routed ps s :
  NoDup ps → (∀ p, p ∈ ps → ws_writers s !! p = None) → routed (openWriters ps s) ≡ₚ routed s.
Proof.
  intros Hn Hnone. unfold routed, openWriters. cbn [ws_writers ws_closed]. apply Permutation_app_tail.
  revert Hnone. generalize (ws_writers s) as ws. induction Hn as [|p ps Hnin Hn IH]; intros ws Hnone; [done|].
  cbn [foldl]. rewrite IH.
  - rewrite logs_insert by (apply Hnone; left). done.
  - intros q Hq. rewrite lookup_insert_ne by (intros ->; done). apply Hnone. by right.
Qed.
End invariant.

Lemma diffp_sublist new old : diffp new old `sublist_of` new.
Proof.
  induction new as [|p new IH]; cbn [diffp]; [done|].
  destruct (_ || _); [by apply sublist_skip|by apply sublist_cons].
Qed.

Lemma diffp_NoDup new old : NoDup new → NoDup (diffp new old).
Proof. intros Hn. eapply sublist_NoDup; [done|apply diffp_sublist]. Qed.

Section rebalancing.
Context {T : Type} `{Balancer T}.

Lemma rebalance_routed found (s : writer_state T) :
  writer_inv s → NoDup (ws_partitions s) → (∀ new, found = inr new → NoDup new) →
  routed (rebalance found s) ≡ₚ routed s.
Proof.
  intros [Hd Hs] Hold Hnew. destruct found as [err|new]; [done|]. specialize (Hnew new eq_refl).
  change (routed (rebalance (inr new) s))
    with (routed (openWriters (diffp new (ws_partitions s)) (closeWriters (diffp (ws_partitions s) new) s))).
  rewrite openWriters_routed.
  - apply closeWriters_routed. by apply diffp_NoDup.
  - by apply diffp_NoDup.
  - intros p [_ Hp]%diffp_elem; [|done]. cbn [closeWriters ws_writers].
    apply not_elem_of_dom. rewrite dom_delete_all, Hd, elem_of_difference, elem_of_list_to_set. tauto.
Qed.
End rebalancing.

(** ** Runs of the loop *)

Section runs.
Context {T : Type} `{Balancer T}.

(** The messages that were refused. *)
Definition refused (s : writer_state T) : list writerMessage :=
  map (λ r, {| wm_msg := r.2.1; wm_res := r.1 |}) (ws_replies s).

Definition arrived (evs : list writer_event) : list writerMessage :=
  concat (map (λ ev, match ev with WMsg wm => [wm] | _ => [] end) evs).

(** The partitions that are found are sorted and distinct. *)
Definition tick_ok (ev : writer_event) : Prop :=
  match ev with WTick (inr new) => sorted_by id new ∧ NoDup new | _ => True end.

(** A balancer that, while [P] holds of it, chooses one of the partitions. *)
Definition chooses (P : T → Prop) : Prop := ∀ b msg ps, P b → ps ≠ [] → sorted_by id ps →
  ∃ p b', Balance b msg ps = Done (p, b') ∧ p ∈ ps ∧ P b'.

Lemma closeAll_closed (s : writer_state T) :
  ws_writers (closeAll s) = ∅ ∧ routed (closeAll s) ≡ₚ routed s.
Proof.
  split.
  - apply dom_empty_inv_L. cbn [closeAll closeWriters ws_writers]. rewrite dom_delete_all.
    apply set_eq. intros p. rewrite elem_of_difference, elem_of_list_to_set. split; [|set_solver].
    intros [Hd Hn]. destruct Hn. apply elem_of_dom in Hd as [l Hl].
    apply list_elem_of_fmap. exists (p, l). split; [done|]. by apply elem_of_map_to_list.
  - apply closeWriters_routed. apply NoDup_fst_map_to_list.
Qed.

(** A step keeps the invariant and accounts for the message it takes. *)
Lemma writer_step_inv P ev (s : writer_state T) :
  chooses P → P (ws_balancer s) → writer_inv s → NoDup (ws_partitions s) → tick_ok ev → ev ≠ WClosed →
  ∃ s', writer_step ev s = Done s' ∧ P (ws_balancer s') ∧ writer_inv s' ∧ NoDup (ws_partitions s') ∧
    routed s' ++ refused s' ≡ₚ arrived [ev] ++ routed s ++ refused s.
Proof.
  intros Hch HP Hi Hn Ht Hev. destruct ev as [wm|found|]; [|clear Hev|done]; cbn [writer_step].
  - assert (ws_partitions s = [] ∨ ∃ p b, Balance (ws_balancer s) (wm_msg wm) (ws_partitions s) = Done (p, b) ∧
      p ∈ ws_partitions s ∧ P b) as Hb.
    { destruct (decide (ws_partitions s = [])) as [|Hp]; [by left|right]. apply Hch; try done. apply Hi. }
    destruct (route_inv wm s Hi) as (s' & E & Hi'); [naive_solver|]. exists s'. split; [done|].
    pose proof (route_routed wm s s' E) as Hr.
    assert (P (ws_balancer s') ∧ ws_partitions s' = ws_partitions s) as [HP' Hps].
    { unfold route in E. case_decide; [by injection E as <-|].
      destruct Hb as [|(p & b & Hb & _ & HPb)]; [done|]. rewrite Hb, outcome_bind_done in E. cbv beta iota in E.
      destruct (_ !! p); [|done]. by injection E as <-. }
    by rewrite Hps.
  - exists (rebalance found s). split; [done|].
    assert (∀ new, found = inr new → sorted_by id new ∧ NoDup new) as Hf by (by intros new ->).
    split; [by destruct found|]. split; [apply rebalance_inv; naive_solver|].
    split; [destruct found as [|new]; [done|by apply (Hf new)]|].
    rewrite rebalance_routed by naive_solver. by destruct found.
Qed.

Lemma writer_run_inv P evs (s : writer_state T) :
  chooses P → P (ws_balancer s) → writer_inv s → NoDup (ws_partitions s) → Forall tick_ok evs →
  Forall (λ ev, ev ≠ WClosed) evs →
  ∃ s', writer_run evs s = Done s' ∧ writer_run (evs ++ [WClosed]) s = Done (closeAll s') ∧
    writer_inv s' ∧ routed s' ++ refused s' ≡ₚ arrived evs ++ routed s ++ refused s.
Proof.
  intros Hch HP Hi Hn Ht Ho. revert s HP Hi Hn.
  induction Ho as [|ev evs Hev Ho IH]; intros s HP Hi Hn; [by exists s|].
  apply Forall_cons_1 in Ht as [Ht1 Ht2].
  destruct (writer_step_inv P ev s Hch HP Hi Hn Ht1 Hev) as (s1 & E1 & HP1 & Hi1 & Hn1 & Hr1).
  destruct (IH Ht2 s1 HP1 Hi1 Hn1) as (s' & E & Ec & Hi' & Hr). exists s'.
  assert (∀ rest, writer_run (ev :: rest) s = s ← writer_step ev s; writer_run rest s) as Hrun
    by (intros rest; by destruct ev).
  cbn [app]. rewrite !Hrun, E1, !outcome_bind_done. split; [done|]. split; [done|]. split; [done|].
  rewrite Hr, Hr1. unfold arrived. cbn [map concat]. rewrite app_nil_r.
  rewrite <- (app_assoc _ (concat _)). by rewrite Permutation_app_swap_app.
Qed.
End runs.

(** ** [Writer_partitions] and [shuffledStrings] *)

Lemma StronglySorted_merge_sort_Z l : sorted_by id (merge_sort Z.le l).
Proof. apply (StronglySorted_merge_sort Z.le). Qed.

(** [shuffledStrings] returns the strings in some order. *)
Lemma shuffle_loop_permutation {A} i choices (l : list A) : shuffle_loop i choices l ≡ₚ l.
Proof.
  revert i l. induction choices as [|j choices IH]; intros i l; cbn [shuffle_loop]; [done|].
  rewrite IH. destruct (l !! i) as [x|] eqn:Hi, (l !! j) as [y|] eqn:Hj; try done.
  by apply Permutation_insert_swap.
Qed.
