(* ===== verification/WriterSystem.v ===== *)
(** * The goroutines of a writer (writer.go)

    A [Writer] as one machine: any number of goroutines in [WriteMessages] and
    in [Close], the goroutine of [Writer.run], one goroutine of [writer.run] per
    partition that was ever open, and the goroutines that [Writer.close] starts.
    They share the channel [msgs] of the writer, one channel per partition
    writer, one channel [res] per call, the mutex, [done] and the wait group.
    What one goroutine does between two points where it may wait is a function
    of PartitionWriter.v or Writer.v; waits are guards of the events. *)

From S2P Require Import Prelude Errors Time Messages Balancer PartitionWriter Writer.

(** ** The state *)

(** What is sent on the channel [res] of a call: nil, or a [writerError].  The
    message in front is the one it answers. *)
Definition answer : Type := writerMessage * option (Message * goerror).

(** The goroutine that [Writer.close] starts: not yet, started, after
    [close(w.msgs)], after [join.Wait]. *)
Inductive pcloser : Type := POpen | PClosing | PClosed | PJoined.

(** A partition writer: its channel, its loop, the batch in [write], the
    answers that [write] has still to send, and the messages of the batches that
    the broker took. *)
Record proc : Type := {
  pr_chan : list writerMessage;
  pr_pw : pwriter;
  pr_conn : bool;
  pr_writing : list writerMessage;
  pr_out : list (writerMessage * (Z * option (Message * goerror)));
  pr_written : list writerMessage;
  pr_exited : bool;
  pr_close : pcloser;
}.

Definition proc_init : proc :=
  {| pr_chan := []; pr_pw := pwriter_init; pr_conn := false; pr_writing := []; pr_out := [];
     pr_written := []; pr_exited := false; pr_close := POpen |}.

(** [Writer.run]: about to ask for the partitions, in its [select], sending to
    a partition writer, refusing a message, returned. *)
Inductive run_pc : Type :=
| RRebalance | RSelect | RSend (k : nat) (wm : writerMessage) | RRefuse (wm : writerMessage) (err : goerror)
| RReturned.

(** A call of [WriteMessages]: before the lock, sending with the lock held,
    waiting for [n] answers, waiting to retry, returned.  An attempt starts
    with [err] nil. *)
Inductive call_pc : Type :=
| CLock (attempt : Z) (msgs : list Message)
| CSend (attempt : Z) (todo : list Message)
| CWait (attempt : Z) (n : nat)
| CBackoff (attempt : Z) (retry : list Message) (err : option goerror)
| CReturned (err : option goerror).

(** [ca_got] are the answers received in this attempt; [ca_acked] and
    [ca_skipped] are the messages acknowledged and left out so far. *)
Record caller : Type := {
  ca_args : list Message;
  ca_pc : call_pc;
  ca_sent : list Message;
  ca_res : list answer;
  ca_got : list (Message * option goerror);
  ca_acked : list Message;
  ca_skipped : list Message;
}.

(** A goroutine in [Close]: before it, after it asked for the lock, in
    [join.Wait], returned. *)
Inductive wcloser : Type := WStart | WAnnounced | WJoin | WReturned.

Record main (T : Type) : Type := {
  mn_queue : list writerMessage;
  mn_closed : bool;              (* w.closed; msgs and done are closed *)
  mn_pc : run_pc;
  mn_ws : writer_state T;
  mn_ids : gmap Z nat;           (* writers of run *)
}.
Arguments mn_queue {T}. Arguments mn_closed {T}. Arguments mn_pc {T}. Arguments mn_ws {T}. Arguments mn_ids {T}.

Record system (T : Type) : Type := {
  sy_main : main T;
  sy_procs : list proc;
  sy_callers : list caller;
  sy_closers : list wcloser;
  sy_panicked : bool;
}.
Arguments sy_main {T}. Arguments sy_procs {T}. Arguments sy_callers {T}. Arguments sy_closers {T}.
Arguments sy_panicked {T}.

(** ** Partition writers *)

Inductive proc_event : Type :=
| PMsg                              (* the select receives a message *)
| PEnd                              (* the select finds the channel closed *)
| PTimer                            (* the batch timer fires *)
| PWrite (dials sends : list (option goerror))  (* write, up to its answers *)
| PExit                             (* run returns *)
| PClose                            (* close(w.msgs) of the goroutine of Writer.close *)
| PJoin.                            (* its join.Wait *)

(** The goroutine is at its [select]. *)
Definition selecting (p : proc) : bool :=
  bool_decide (pr_writing p = []) && bool_decide (pr_out p = []) && negb (pw_done (pr_pw p)).

Definition chan_closed (p : proc) : bool :=
  match pr_close p with POpen | PClosing => false | PClosed | PJoined => true end.

(** An iteration of the loop, up to the call of [write] if there is one. *)
Definition proc_iterate (cfg : writerCfg) (chan : list writerMessage) (ev : pw_event) (p : proc) : proc :=
  let pw := pw_step cfg (pr_pw p) ev in
  {| pr_chan := chan; pr_pw := pw; pr_conn := pr_conn p;
     pr_writing := concat (drop (length (pw_flushed (pr_pw p))) (pw_flushed pw));
     pr_out := []; pr_written := pr_written p; pr_exited := pr_exited p; pr_close := pr_close p |}.

Definition with_close (c : pcloser) (p : proc) : proc :=
  {| pr_chan := pr_chan p; pr_pw := pr_pw p; pr_conn := pr_conn p; pr_writing := pr_writing p;
     pr_out := pr_out p; pr_written := pr_written p; pr_exited := pr_exited p; pr_close := c |}.

Definition with_chan (chan : list writerMessage) (p : proc) : proc :=
  {| pr_chan := chan; pr_pw := pr_pw p; pr_conn := pr_conn p; pr_writing := pr_writing p;
     pr_out := pr_out p; pr_written := pr_written p; pr_exited := pr_exited p; pr_close := pr_close p |}.

Definition with_out (out : list (writerMessage * (Z * option (Message * goerror)))) (p : proc) : proc :=
  {| pr_chan := pr_chan p; pr_pw := pr_pw p; pr_conn := pr_conn p; pr_writing := pr_writing p;
     pr_out := out; pr_written := pr_written p; pr_exited := pr_exited p; pr_close := pr_close p |}.

Definition proc_step (cfg : writerCfg) (ev : proc_event) (p : proc) : option proc :=
  match ev with
  | PMsg =>
    match pr_chan p with
    | wm :: chan => if selecting p then Some (proc_iterate cfg chan (EvMsg wm) p) else None
    | [] => None
    end
  | PEnd =>
    match pr_chan p with
    | [] => if selecting p && chan_closed p then Some (proc_iterate cfg [] EvClosed p) else None
    | _ => None
    end
  | PTimer =>
    if selecting p && pw_timerRunning (pw_takeLast (pr_pw p))
    then Some (proc_iterate cfg (pr_chan p) EvTimer p) else None
  | PWrite dials sends =>
    match pr_writing p with
    | [] => None
    | batch =>
      r ← writer_write cfg (pr_conn p) dials sends batch;
      Some {| pr_chan := pr_chan p; pr_pw := pr_pw p; pr_conn := conn_after r; pr_writing := [];
              pr_out := zip batch (wr_replies r);
              pr_written := pr_written p ++ match wr_err r with None => batch | Some _ => [] end; pr_exited := pr_exited p; pr_close := pr_close p |}
    end
  | PExit =>
    match pr_writing p, pr_out p with
    | [], [] =>
      if pw_done (pr_pw p) && negb (pr_exited p) then
        Some {| pr_chan := pr_chan p; pr_pw := pr_pw p; pr_conn := false; pr_writing := []; pr_out := [];
                pr_written := pr_written p; pr_exited := true; pr_close := pr_close p |}
      else None
    | _, _ => None
    end
  | PClose => match pr_close p with PClosing => Some (with_close PClosed p) | _ => None end
  | PJoin => match pr_close p with PClosed => if pr_exited p then Some (with_close PJoined p) else None | _ => None end
  end.

(** ** Calls *)

(** A send on the channel [res] of call [c], which has room for one answer per
    message of the call. *)
Definition deliver (wm : writerMessage) (c : Z) (a : option (Message * goerror)) (cs : list caller) :
    option (list caller) :=
  ca ← cs !! Z.to_nat c;
  if (length (ca_res ca) <? length (ca_args ca))%nat then
    Some (<[Z.to_nat c :=
             {| ca_args := ca_args ca; ca_pc := ca_pc ca; ca_sent := ca_sent ca; ca_res := ca_res ca ++ [(wm, a)];
                ca_got := ca_got ca; ca_acked := ca_acked ca; ca_skipped := ca_skipped ca |}]> cs)
  else None.

(** What the call takes from an answer. *)
Definition got_of (x : answer) : Message * option goerror :=
  match x.2 with None => (wm_msg x.1, None) | Some (m, e) => (m, Some e) end.

Definition at_pc (pc : call_pc) (ca : caller) : caller :=
  {| ca_args := ca_args ca; ca_pc := pc; ca_sent := ca_sent ca; ca_res := ca_res ca; ca_got := ca_got ca;
     ca_acked := ca_acked ca; ca_skipped := ca_skipped ca |}.

Inductive call_event : Type :=
| CGo                  (* the next section *)
| CCtx (e : goerror)   (* a select takes ctx.Done *)
| CClosed.             (* the select of a retry takes w.done *)

Section machine.
Context {T : Type} `{Balancer T} (config : WriterConfig).

Definition pcfg : writerCfg := newWriter_config config.

(** The test of the loop over attempts. *)
Definition next_attempt (attempt : Z) (msgs : list Message) : call_pc :=
  if attempt <? wcf_MaxAttempts config then CLock attempt msgs else CReturned None.

Definition caller_init (args : list Message) : caller :=
  {| ca_args := args; ca_pc := if decide (args = []) then CReturned None else next_attempt 0 args;
     ca_sent := []; ca_res := []; ca_got := []; ca_acked := []; ca_skipped := [] |}.

(** The sections of a call that touch neither the queue nor the mutex. *)
Definition call_local (closed : bool) (ev : call_event) (ca : caller) : option caller :=
  match ca_pc ca, ev with
  | CSend _ (_ :: _), CCtx e | CWait _ (S _), CCtx e | CBackoff _ _ _, CCtx e => Some (at_pc (CReturned (Some e)) ca)
  | CSend attempt [], CGo =>
    Some (at_pc (if wcf_Async config then CReturned None else CWait attempt (length (ca_sent ca))) ca)
  | CWait attempt (S n), CGo =>
    match ca_res ca with
    | x :: res =>
      Some {| ca_args := ca_args ca; ca_pc := CWait attempt n; ca_sent := ca_sent ca; ca_res := res;
              ca_got := ca_got ca ++ [got_of x]; ca_acked := ca_acked ca; ca_skipped := ca_skipped ca |}
    | [] => None
    end
  | CWait attempt O, CGo =>
    let err := last_error None (ca_got ca) in
    let retry := to_retry (ca_got ca) in
    Some {| ca_args := ca_args ca;
            ca_pc := if decide (retry = []) then CReturned err else CBackoff attempt retry err;
            ca_sent := []; ca_res := ca_res ca; ca_got := [];
            ca_acked := ca_acked ca ++ acked (ca_got ca); ca_skipped := ca_skipped ca |}
  | CBackoff attempt retry err, CGo =>
    Some (at_pc (if attempt <? wcf_MaxAttempts config - 1 then next_attempt (attempt + 1) retry
                 else CReturned err) ca)
  | CBackoff _ _ _, CClosed => if closed then Some (at_pc (CReturned (Some ErrClosedPipe)) ca) else None
  | _, _ => None
  end.

Definition announced (cl : wcloser) : bool := match cl with WAnnounced => true | _ => false end.

Definition reading (ca : caller) : bool := match ca_pc ca with CSend _ _ => true | _ => false end.

(** [RLock], after which the messages that do not fit a batch are left out. *)
Definition call_lock (attempt : Z) (msgs : list Message) (closed : bool) (ca : caller) : caller :=
  if closed then at_pc (CReturned (Some ErrClosedPipe)) ca
  else
    {| ca_args := ca_args ca; ca_pc := CSend attempt (List.filter (λ msg, negb (oversize config msg)) msgs);
       ca_sent := []; ca_res := ca_res ca; ca_got := []; ca_acked := ca_acked ca;
       ca_skipped := ca_skipped ca ++ List.filter (oversize config) msgs |}.

Definition set_caller (i : nat) (ca : caller) (s : system T) : system T :=
  {| sy_main := sy_main s; sy_procs := sy_procs s; sy_callers := <[i := ca]> (sy_callers s);
     sy_closers := sy_closers s; sy_panicked := sy_panicked s |}.

Definition with_queue (q : list writerMessage) (m : main T) : main T :=
  {| mn_queue := q; mn_closed := mn_closed m; mn_pc := mn_pc m; mn_ws := mn_ws m; mn_ids := mn_ids m |}.

Definition set_main (m : main T) (s : system T) : system T :=
  {| sy_main := m; sy_procs := sy_procs s; sy_callers := sy_callers s; sy_closers := sy_closers s;
     sy_panicked := sy_panicked s |}.

Definition panic (s : system T) : system T :=
  {| sy_main := sy_main s; sy_procs := sy_procs s; sy_callers := sy_callers s; sy_closers := sy_closers s;
     sy_panicked := true |}.

Definition call_step (i : nat) (ev : call_event) (s : system T) : option (system T) :=
  ca ← sy_callers s !! i;
  match ca_pc ca, ev with
  | CLock attempt msgs, CGo =>
    if existsb announced (sy_closers s) then None
    else Some (set_caller i (call_lock attempt msgs (mn_closed (sy_main s)) ca) s)
  | CSend attempt (msg :: todo), CGo =>
    if mn_closed (sy_main s) then Some (panic s)
    else if len (mn_queue (sy_main s)) <? wcf_QueueCapacity config then
      let wm := {| wm_msg := msg; wm_res := Z.of_nat i |} in
      Some (set_caller i
        {| ca_args := ca_args ca; ca_pc := CSend attempt todo; ca_sent := ca_sent ca ++ [msg];
           ca_res := ca_res ca; ca_got := ca_got ca; ca_acked := ca_acked ca; ca_skipped := ca_skipped ca |}
        (set_main (with_queue (mn_queue (sy_main s) ++ [wm]) (sy_main s)) s))
    else None
  | _, _ => ca ← call_local (mn_closed (sy_main s)) ev ca; Some (set_caller i ca s)
  end.

(** ** [Writer.run] *)

Inductive run_event : Type :=
| RFound (found : goerror + list Z)  (* the rebalance *)
| RTick                              (* the select receives the tick *)
| RGo.                               (* the select receives from msgs, or the send of its branch *)

Definition at_run (pc : run_pc) (m : main T) : main T :=
  {| mn_queue := mn_queue m; mn_closed := mn_closed m; mn_pc := pc; mn_ws := mn_ws m; mn_ids := mn_ids m |}.

(** [w.close(writer)]: a second goroutine for the same writer would close its
    channel twice. *)
Definition close_proc (k : nat) (procs : list proc) : option (list proc) :=
  p ← procs !! k;
  match pr_close p with POpen => Some (<[k := with_close PClosing p]> procs) | _ => None end.

Fixpoint close_procs (ks : list nat) (procs : list proc) : option (list proc) :=
  match ks with
  | [] => Some procs
  | k :: ks => procs ← close_proc k procs; close_procs ks procs
  end.

(** [w.open] for each partition, with the next process. *)
Fixpoint open_procs (ps : list Z) (ids : gmap Z nat) (procs : list proc) : gmap Z nat * list proc :=
  match ps with
  | [] => (ids, procs)
  | p :: ps => open_procs ps (<[p := length procs]> ids) (procs ++ [proc_init])
  end.

(** The rebalance; [None] is a panic. *)
Definition run_found (found : goerror + list Z) (m : main T) (procs : list proc) :
    option (main T * list proc) :=
  let old := ws_partitions (mn_ws m) in
  '(ids, procs) ← match found with
                  | inl _ => Some (mn_ids m, procs)
                  | inr new =>
                    ks ← mapM (λ p, mn_ids m !! p) (diffp old new);
                    procs ← close_procs ks procs;
                    let ids := foldl (λ ids p, delete p ids) (mn_ids m) (diffp old new) in
                    Some (open_procs (diffp new old) ids procs)
                  end;
  Some ({| mn_queue := mn_queue m; mn_closed := mn_closed m; mn_pc := RSelect;
           mn_ws := rebalance found (mn_ws m); mn_ids := ids |}, procs).

(** A message: the partition that the balancer chooses, or a refusal. *)
Definition run_take (wm : writerMessage) (q : list writerMessage) (m : main T) : option (main T) :=
  match route wm (mn_ws m) with
  | Done ws =>
    pc ← (if decide (ws_partitions (mn_ws m) = []) then
            err ← ws_err ws; Some (RRefuse wm err)
          else
            match Balance (ws_balancer (mn_ws m)) (wm_msg wm) (ws_partitions (mn_ws m)) with
            | Done (p, _) => k ← mn_ids m !! p; Some (RSend k wm)
            | _ => None
            end);
    Some {| mn_queue := q; mn_closed := mn_closed m; mn_pc := pc; mn_ws := ws; mn_ids := mn_ids m |}
  | _ => None
  end.

(** The end of the queue: every writer is closed. *)
Definition run_end (m : main T) (procs : list proc) : option (main T * list proc) :=
  procs ← close_procs (map snd (map_to_list (mn_ids m))) procs;
  Some ({| mn_queue := []; mn_closed := mn_closed m; mn_pc := RReturned; mn_ws := closeAll (mn_ws m);
           mn_ids := ∅ |}, procs).

Definition set_run (m : main T) (procs : list proc) (s : system T) : system T :=
  {| sy_main := m; sy_procs := procs; sy_callers := sy_callers s; sy_closers := sy_closers s;
     sy_panicked := sy_panicked s |}.

Definition set_callers (cs : list caller) (s : system T) : system T :=
  {| sy_main := sy_main s; sy_procs := sy_procs s; sy_callers := cs; sy_closers := sy_closers s;
     sy_panicked := sy_panicked s |}.

Definition run_step (ev : run_event) (s : system T) : option (system T) :=
  let m := sy_main s in
  match mn_pc m, ev with
  | RRebalance, RFound found =>
    Some (match run_found found m (sy_procs s) with
          | Some (m, procs) => set_run m procs s
          | None => panic s
          end)
  | RSelect, RTick => Some (set_main (at_run RRebalance m) s)
  | RSelect, RGo =>
    match mn_queue m with
    | wm :: q => Some (match run_take wm q m with Some m => set_main m s | None => panic s end)
    | [] =>
      if mn_closed m then
        Some (match run_end m (sy_procs s) with Some (m, procs) => set_run m procs s | None => panic s end)
      else None
    end
  | RSend k wm, RGo =>
    match sy_procs s !! k with
    | None => Some (panic s)
    | Some p =>
      if chan_closed p then Some (panic s)
      else if len (pr_chan p) <? wcf_QueueCapacity config then
        Some (set_run (at_run RSelect m) (<[k := with_chan (pr_chan p ++ [wm]) p]> (sy_procs s)) s)
      else None
    end
  | RRefuse wm err, RGo =>
    cs ← deliver wm (wm_res wm) (Some (wm_msg wm, err)) (sy_callers s);
    Some (set_callers cs (set_main (at_run RSelect m) s))
  | _, _ => None
  end.

(** ** [Close] *)

Definition set_closers (cls : list wcloser) (closed : bool) (s : system T) : system T :=
  let m := sy_main s in
  {| sy_main := {| mn_queue := mn_queue m; mn_closed := closed; mn_pc := mn_pc m; mn_ws := mn_ws m;
                   mn_ids := mn_ids m |};
     sy_procs := sy_procs s; sy_callers := sy_callers s; sy_closers := cls; sy_panicked := sy_panicked s |}.

(** The count of [w.join] is zero. *)
Definition joined (s : system T) : bool :=
  match mn_pc (sy_main s) with RReturned => true | _ => false end &&
  forallb (λ p, match pr_close p with POpen | PJoined => true | _ => false end) (sy_procs s).

Definition close_step (i : nat) (s : system T) : option (system T) :=
  let closed := mn_closed (sy_main s) in
  let cls := sy_closers s in
  cl ← cls !! i;
  match cl with
  | WStart => if existsb announced cls then None else Some (set_closers (<[i := WAnnounced]> cls) closed s)
  | WAnnounced =>
    if existsb reading (sy_callers s) then None else Some (set_closers (<[i := WJoin]> cls) true s)
  | WJoin => if joined s then Some (set_closers (<[i := WReturned]> cls) closed s) else None
  | WReturned => None
  end.

(** ** The machine *)

Inductive sys_event : Type :=
| ECall (i : nat) (ev : call_event)
| EClose (i : nat)
| ERun (ev : run_event)
| EProc (k : nat) (ev : proc_event)
| EReply (k : nat).                  (* a partition writer sends its next answer *)

Definition sys_step (ev : sys_event) (s : system T) : option (system T) :=
  match ev with
  | ECall i ev => call_step i ev s
  | EClose i => close_step i s
  | ERun ev => run_step ev s
  | EProc k ev =>
    p ← sy_procs s !! k;
    p ← proc_step pcfg ev p;
    Some (set_run (sy_main s) (<[k := p]> (sy_procs s)) s)
  | EReply k =>
    p ← sy_procs s !! k;
    match pr_out p with
    | (wm, (c, a)) :: out =>
      cs ← deliver wm c a (sy_callers s);
      Some (set_callers cs (set_run (sy_main s) (<[k := with_out out p]> (sy_procs s)) s))
    | [] => None
    end
  end.

Fixpoint sys_run (evs : list sys_event) (s : system T) : option (system T) :=
  match evs with
  | [] => Some s
  | ev :: evs => s ← sys_step ev s; sys_run evs s
  end.

(** [NewWriter], with the calls that will be made. *)
Definition sys_init (b : T) (calls : list (list Message)) (closers : nat) : system T :=
  {| sy_main := {| mn_queue := []; mn_closed := false; mn_pc := RRebalance; mn_ws := writer_init b;
                   mn_ids := ∅ |};
     sy_procs := []; sy_callers := map caller_init calls; sy_closers := replicate closers WStart;
     sy_panicked := false |}.
End machine.
