(* ===== verification/WriterSystemInv.v ===== *)
(** * The invariant of the goroutines of a writer

    Every message that a call sent is in one place of the system (the queue,
    the hands of [Writer.run], a partition writer, or the channel of its call),
    so that each call is owed exactly the answers it waits for.  The invariant
    of WriterSystem.v, and that every event preserves it. *)

From S2P Require Import Prelude Errors Time Read Messages Balancer PartitionWriter Writer WriterSystem.

(** ** Partition writers *)

(** The messages that a partition writer has not answered. *)
Definition proc_load (p : proc) : list writerMessage :=
  pr_chan p ++ (pw_batch (pr_pw p) ++ pending (pr_pw p)) ++ pr_writing p ++ map fst (pr_out p).

(** An answer goes to the call of its message and carries that message. *)
Definition true_reply (x : writerMessage * (Z * option (Message * goerror))) : Prop :=
  x.2.1 = wm_res x.1 ∧ ∀ m e, x.2.2 = Some (m, e) → m = wm_msg x.1.

Record proc_ok (p : proc) : Prop := {
  po_timer : pw_batch (pr_pw p) ≠ [] → pw_timerRunning (pr_pw p) = true;
  po_done : pw_done (pr_pw p) = true →
            pr_chan p = [] ∧ chan_closed p = true ∧ pw_batch (pr_pw p) = [] ∧ pending (pr_pw p) = [];
  po_exited : pr_exited p = true → pw_done (pr_pw p) = true ∧ pr_writing p = [] ∧ pr_out p = [];
  po_joined : pr_close p = PJoined → pr_exited p = true;
  po_out : Forall true_reply (pr_out p);
  po_writing : pr_writing p ≠ [] → pr_out p = [];
}.

Lemma proc_init_ok : proc_ok proc_init.
Proof. by constructor. Qed.

Lemma pw_step_flushed cfg s ev :
  ∃ x, pw_flushed (pw_step cfg s ev) = pw_flushed s ++ x ∧ (x = [] ∨ ∃ b, x = [b] ∧ b ≠ []).
Proof.
  unfold pw_step.
  assert (pw_flushed (pw_takeLast s) = pw_flushed s) as <- by (unfold pw_takeLast; by destruct (negb _)).
  set (s1 := pw_takeLast s). clearbody s1.
  assert (pw_flushed (pw_select cfg s1 ev).1 = pw_flushed s1) as Hf.
  { destruct ev; cbn; try done. by destruct (_ >? _). }
  destruct (pw_select cfg s1 ev) as [s2 []]; cbn in Hf; [|exists []; rewrite app_nil_r; auto].
  unfold pw_flush. case_decide as Hb; cbn; rewrite Hf.
  - exists []. rewrite app_nil_r. auto.
  - exists [pw_batch s2]. eauto.
Qed.

Lemma pw_step_timer cfg s ev :
  (pw_batch s ≠ [] → pw_timerRunning s = true) →
  pw_batch (pw_step cfg s ev) ≠ [] → pw_timerRunning (pw_step cfg s ev) = true.
Proof.
  intros Ht. unfold pw_step.
  assert (pw_batch (pw_takeLast s) ≠ [] → pw_timerRunning (pw_takeLast s) = true) as Ht1.
  { unfold pw_takeLast. by destruct (negb _). }
  generalize dependent (pw_takeLast s). clear s Ht. intros s Ht.
  assert ((pw_select cfg s ev).2 = false → pw_batch (pw_select cfg s ev).1 ≠ [] →
          pw_timerRunning (pw_select cfg s ev).1 = true) as Hs.
  { destruct ev; [|done..]. unfold pw_select. by destruct (_ >? _). }
  destruct (pw_select cfg s ev) as [s2 []]; [|by apply Hs]. unfold pw_flush. by case_decide.
Qed.

(** The end of the channel leaves nothing behind. *)
Lemma pw_step_closed cfg s :
  pw_batch (pw_step cfg s EvClosed) = [] ∧ pending (pw_step cfg s EvClosed) = [].
Proof.
  unfold pw_step. cbn [pw_select]. pose proof (pw_takeLast_last s) as Hl. unfold pw_flush, pending.
  case_decide; cbn [pw_batch pw_lastMsg] in *; by rewrite decide_False.
Qed.

(** An iteration keeps the messages. *)
Lemma proc_iterate_load cfg chan ev p :
  (∀ wm, ev = EvMsg wm → nonempty_value wm) → pr_writing p = [] → pr_out p = [] →
  proc_load (proc_iterate cfg chan ev p) ≡ₚ chan ++ received [ev] ++ pw_batch (pr_pw p) ++ pending (pr_pw p).
Proof.
  intros Hev Hw Ho. unfold proc_load. cbn [proc_iterate pr_chan pr_pw pr_writing pr_out map].
  rewrite app_nil_r. apply Permutation_app_head.
  pose proof (pw_step_contents cfg (pr_pw p) ev Hev) as Hc.
  destruct (pw_step_flushed cfg (pr_pw p) ev) as (x & Hx & _). unfold contents in Hc. rewrite Hx in *.
  rewrite drop_app_length, concat_app, <- !app_assoc in *. apply app_inv_head in Hc.
  rewrite app_assoc, (Permutation_app_comm (_ ++ _) (concat x)), Hc, (Permutation_app_comm (received [ev])).
  by rewrite <- app_assoc.
Qed.

Lemma proc_iterate_ok cfg chan ev p :
  selecting p = true → proc_ok p → (ev = EvClosed → chan = [] ∧ chan_closed p = true) →
  proc_ok (proc_iterate cfg chan ev p).
Proof.
  intros Hs [Ht Hd He Hj _ _] Hev. unfold selecting in Hs.
  apply andb_prop in Hs as [_ Hd0%negb_true_iff].
  constructor; cbn [proc_iterate pr_chan pr_pw pr_writing pr_out pr_exited pr_close]; try done.
  - by apply pw_step_timer.
  - intros Hdone. destruct ev; [by rewrite pw_step_done, Hd0 in Hdone| |by rewrite pw_step_done, Hd0 in Hdone].
    destruct (Hev eq_refl) as [-> Hc]. split; [done|]. split; [exact Hc|]. apply pw_step_closed.
  - intros H. destruct (He H) as [H1 _]. congruence.
Qed.

Lemma selecting_true p :
  selecting p = true ↔ pr_writing p = [] ∧ pr_out p = [] ∧ pw_done (pr_pw p) = false.
Proof. unfold selecting. rewrite !andb_true_iff, !bool_decide_eq_true, negb_true_iff. tauto. Qed.

Lemma writer_write_good cfg conn dials sends batch :
  ∃ r, writer_write cfg conn dials sends batch = Some r ∧
    wr_replies r = match wr_err r with None => reply_ok batch | Some err => reply_error batch err end.
Proof.
  destruct (writer_loop_good (S (Z.to_nat (wc_retries cfg))) cfg batch conn 0 dials sends)
    as (r & E & Hg); [lia..|]. exists r. split; [exact E|]. by apply wg_replies in Hg.
Qed.

Lemma zip_map {A B} (f : A → B) l : zip l (map f l) = map (λ x, (x, f x)) l.
Proof. induction l as [|x l IH]; [done|]. cbn. by f_equal. Qed.

(** The answers of [write], with their messages. *)
Lemma write_replies cfg conn dials sends batch r :
  writer_write cfg conn dials sends batch = Some r →
  map fst (zip batch (wr_replies r)) = batch ∧ Forall true_reply (zip batch (wr_replies r)).
Proof.
  intros E. destruct (writer_write_good cfg conn dials sends batch) as (r' & E' & Hr). simplify_eq. rewrite Hr.
  assert (∀ f, (∀ wm, true_reply (wm, f wm)) →
    map fst (zip batch (map f batch)) = batch ∧ Forall true_reply (zip batch (map f batch))) as Hf.
  { intros f Hf. rewrite zip_map, map_map. split; [apply map_id|]. apply Forall_forall. intros x Hx.
    apply list_elem_of_In, in_map_iff in Hx as (wm & <- & _). apply Hf. }
  destruct (wr_err r); apply Hf; intros wm; split; cbn; try done. by intros ? ? [= <- _].
Qed.

(** A step of a partition writer keeps its messages and its invariant. *)
Lemma proc_step_ok cfg ev p p' :
  proc_step cfg ev p = Some p' → proc_ok p → Forall nonempty_value (pr_chan p) →
  proc_ok p' ∧ proc_load p' ≡ₚ proc_load p ∧
  (pr_close p' = POpen ↔ pr_close p = POpen).
Proof.
  intros E Hok Hne. pose proof Hok as [Ht Hd He Hj Ho Hwo].
  destruct ev as [| | |dials sends| | |]; cbn [proc_step] in E.
  - destruct (pr_chan p) as [|wm chan] eqn:Ec; [done|]. destruct (selecting p) eqn:Es; [|done].
    injection E as <-. split; [by apply proc_iterate_ok|]. split; [|done].
    apply selecting_true in Es as (Hw & Hou & _). inversion Hne; subst.
    rewrite proc_iterate_load by (try done; by intros ? [= <-]).
    unfold proc_load. rewrite Ec, Hw, Hou. unfold received. cbn. rewrite app_nil_r. by rewrite <- Permutation_middle.
  - destruct (pr_chan p) eqn:Ec; [|done]. destruct (selecting p) eqn:Es; [|done]. destruct (chan_closed p) eqn:Ecl; [|done].
    injection E as <-. split; [by apply proc_iterate_ok|]. split; [|done].
    apply selecting_true in Es as (Hw & Hou & _). rewrite proc_iterate_load by done.
    unfold proc_load. rewrite Ec, Hw, Hou. cbn. by rewrite app_nil_r.
  - destruct (selecting p) eqn:Es; [|done]. destruct (pw_timerRunning _); [|done].
    injection E as <-. split; [by apply proc_iterate_ok|]. split; [|done].
    apply selecting_true in Es as (Hw & Hou & _). rewrite proc_iterate_load by done.
    unfold proc_load. rewrite Hw, Hou. cbn. by rewrite app_nil_r.
  - destruct (pr_writing p) as [|wm b] eqn:Ew; [done|].
    remember (wm :: b) as batch eqn:Eb. apply bind_Some in E as (r & Er & [= <-]).
    destruct (write_replies _ _ _ _ _ _ Er) as [Hm Htr]. split; [|split; [|done]].
    + constructor; cbn [pr_chan pr_pw pr_writing pr_out pr_exited pr_close]; try done.
      intros Hx. destruct (He Hx) as (_ & ? & _). by subst.
    + unfold proc_load. cbn [pr_chan pr_pw pr_writing pr_out app].
      rewrite Hm, Ew, Hwo by (by subst). by rewrite app_nil_r.
  - destruct (pr_writing p) eqn:Ew; [|done]. destruct (pr_out p) eqn:Eo; [|done].
    destruct (pw_done (pr_pw p)) eqn:Ed; [|done]. destruct (negb _); [|done]. injection E as <-.
    split; [by constructor; cbn; eauto|]. split; [|done]. unfold proc_load. cbn. by rewrite Ew, Eo.
  - destruct (pr_close p) eqn:Ec; [done| |done..]. injection E as <-. split; [|split; [done|by split]].
    constructor; cbn; try done. intros H. destruct (Hd H) as (? & Hc & _). unfold chan_closed in Hc. by rewrite Ec in Hc.
  - destruct (pr_close p) eqn:Ec; [done|done| |done]. destruct (pr_exited p) eqn:Ex; [|done]. injection E as <-.
    split; [|split; [done|by split]]. constructor; cbn; try done; [|by intros _; apply He].
    intros H. by destruct (Hd H) as (? & _ & ?).
Qed.

(** ** Calls *)

(** The messages of call [i] in a list. *)
Definition mine (i : nat) (tr : list writerMessage) : list Message :=
  map wm_msg (filter (λ wm, wm_res wm = Z.of_nat i) tr).

(** The messages of a call that it has no answer for: on their way, or
    answered on its channel. *)
Definition owed (i : nat) (tr : list writerMessage) (ca : caller) : list Message :=
  mine i tr ++ map (λ x : answer, wm_msg x.1) (ca_res ca).

Definition true_answer (x : answer) : Prop := ∀ m e, x.2 = Some (m, e) → m = wm_msg x.1.

Section calls.
Context (config : WriterConfig).

Definition pc_ok (tr : list Message) (closed : bool) (ca : caller) : Prop :=
  match ca_pc ca with
  | CLock attempt msgs =>
    0 ≤ attempt < wcf_MaxAttempts config ∧ tr ≡ₚ [] ∧ ca_acked ca ++ ca_skipped ca ++ msgs ≡ₚ ca_args ca
  | CSend attempt todo =>
    closed = false ∧ 0 ≤ attempt < wcf_MaxAttempts config ∧ ca_got ca = [] ∧ tr ≡ₚ ca_sent ca ∧
    ca_acked ca ++ ca_skipped ca ++ ca_sent ca ++ todo ≡ₚ ca_args ca
  | CWait attempt n =>
    0 ≤ attempt < wcf_MaxAttempts config ∧ n = length tr ∧ tr ++ map fst (ca_got ca) ≡ₚ ca_sent ca ∧
    ca_acked ca ++ ca_skipped ca ++ ca_sent ca ≡ₚ ca_args ca
  | CBackoff attempt retry err =>
    0 ≤ attempt < wcf_MaxAttempts config ∧ err ≠ None ∧ tr ≡ₚ [] ∧
    ca_acked ca ++ ca_skipped ca ++ retry ≡ₚ ca_args ca
  | CReturned None =>
    wcf_Async config = false → tr ≡ₚ [] ∧ ca_acked ca ++ ca_skipped ca ≡ₚ ca_args ca
  | CReturned (Some _) => True
  end.

Record call_ok (i : nat) (tr : list writerMessage) (closed : bool) (ca : caller) : Prop := {
  co_pc : pc_ok (owed i tr ca) closed ca;
  co_room : (length (owed i tr ca) ≤ length (ca_args ca))%nat;
  co_true : Forall true_answer (ca_res ca);
  co_skipped : Forall (λ msg, oversize config msg = true) (ca_skipped ca);
  co_values : Forall (λ msg, bdata (msg_Value msg) ≠ []) (ca_args ca);
}.

#[export] Instance mine_perm i : Proper ((≡ₚ) ==> (≡ₚ)) (mine i).
Proof. intros tr tr' Hp. unfold mine. by rewrite Hp. Qed.

#[export] Instance owed_perm i : Proper ((≡ₚ) ==> (=) ==> (≡ₚ)) (owed i).
Proof. intros tr tr' Hp ca ? <-. unfold owed. by rewrite Hp. Qed.

Lemma pc_ok_perm tr tr' closed ca : tr ≡ₚ tr' → pc_ok tr closed ca → pc_ok tr' closed ca.
Proof.
  intros Hp. unfold pc_ok. destruct (ca_pc ca) as [| | | |[]]; solve [done | by rewrite <- Hp].
Qed.

Lemma call_ok_owed i j tr tr' closed ca :
  owed i tr ca ≡ₚ owed j tr' ca → call_ok i tr closed ca → call_ok j tr' closed ca.
Proof.
  intros Hp [Hpc Hr Ht Hs Hv]. constructor; try done; [by eapply pc_ok_perm|]. by rewrite <- Hp.
Qed.

Lemma mine_cons_ne i wm tr : wm_res wm ≠ Z.of_nat i → mine i (wm :: tr) = mine i tr.
Proof. intros Hne. unfold mine. by rewrite filter_cons_False. Qed.

Lemma mine_cons_eq i wm tr : wm_res wm = Z.of_nat i → mine i (wm :: tr) = wm_msg wm :: mine i tr.
Proof. intros He. unfold mine. by rewrite filter_cons_True. Qed.

Lemma got_of_fst x : true_answer x → (got_of x).1 = wm_msg x.1.
Proof. destruct x as [wm [[m e]|]]; [|done]. intros Ht. cbn. by eapply Ht. Qed.

(** The sections of a call that only touch its own state. *)
Lemma call_local_ok i tr closed ev ca ca' :
  call_local config closed ev ca = Some ca' → call_ok i tr closed ca → call_ok i tr closed ca'.
Proof.
  intros E [Hpc Hr Ht Hs Hv]. unfold call_local, pc_ok in *.
  destruct (ca_pc ca) as [a m|a [|msg todo]|a [|n]|a retry err|err]; destruct ev as [|e|]; try done.
  - destruct Hpc as (_ & Ha & Hg & Hp & Hargs). injection E as <-. constructor; try done.
    unfold pc_ok. cbn. destruct (wcf_Async config) eqn:Ha'; [done|].
    rewrite Hg, app_nil_r. change (owed i tr (at_pc _ ca)) with (owed i tr ca). rewrite Hp.
    rewrite app_nil_r in Hargs. done.
  - injection E as <-. by constructor.
  - destruct Hpc as (Ha & Hn & Hp & Hargs). injection E as <-.
    symmetry in Hn. apply nil_length_inv in Hn. rewrite Hn in Hp. cbn in Hp.
    rewrite <- Hp, <- answers_split in Hargs. constructor; try done.
    unfold pc_ok. cbn. change (owed i tr _) with (owed i tr ca). rewrite Hn.
    destruct (decide (to_retry (ca_got ca) = [])) as [Hz|Hz].
    + rewrite last_error_none by done. intros _. split; [done|]. rewrite Hz, app_nil_r in Hargs.
      rewrite <- Hargs, <- app_assoc. apply Permutation_app_head, Permutation_app_comm.
    + split; [done|]. split; [by apply last_error_retry|]. split; [done|].
      rewrite <- Hargs, <- app_assoc. apply Permutation_app_head, Permutation_app_swap_app.
  - destruct Hpc as (Ha & Hn & Hp & Hargs). destruct (ca_res ca) as [|x res] eqn:Er; [done|]. injection E as <-.
    apply Forall_cons_1 in Ht as [Hx Ht].
    assert (owed i tr ca ≡ₚ wm_msg x.1 :: mine i tr ++ map (λ x : answer, wm_msg x.1) res) as Ho.
    { unfold owed. rewrite Er. cbn. by rewrite Permutation_middle. }
    rewrite Ho in Hn, Hp, Hr. constructor; try done; [|unfold owed; cbn in *; lia].
    unfold pc_ok, owed. cbn in *. split; [done|]. split; [lia|]. split; [|done].
    rewrite <- Hp, map_app. cbn. rewrite got_of_fst by done. rewrite app_assoc. symmetry. apply Permutation_cons_append.
  - injection E as <-. by constructor.
  - destruct Hpc as (Ha & Herr & Ho & Hargs). injection E as <-. constructor; try done.
    unfold pc_ok, next_attempt. cbn. destruct (Z.ltb_spec a (wcf_MaxAttempts config - 1)).
    + rewrite (proj2 (Z.ltb_lt (a + 1) _)) by lia. split; [lia|]. done.
    + by destruct err.
  - injection E as <-. by constructor.
  - destruct closed; [|done]. injection E as <-. by constructor.
Qed.

(** [RLock]. *)
Lemma call_lock_ok i tr closed attempt msgs ca :
  ca_pc ca = CLock attempt msgs → call_ok i tr closed ca → call_ok i tr closed (call_lock config attempt msgs closed ca).
Proof.
  intros E [Hpc Hr Ht Hs Hv]. unfold pc_ok in Hpc. rewrite E in Hpc. destruct Hpc as (Ha & Ho & Hargs).
  unfold call_lock. destruct closed; [by constructor|]. constructor; try done.
  - unfold pc_ok. cbn. split; [done|]. split; [done|]. split; [done|]. split; [done|].
    rewrite <- Hargs, <- app_assoc. apply Permutation_app_head, Permutation_app_head.
    apply (filter_split (oversize config) msgs).
  - cbn. apply Forall_app. split; [done|]. apply Forall_forall. intros x Hx%list_elem_of_In.
    by apply filter_In in Hx as [_ ?].
Qed.

Definition callers_ok (tr : list writerMessage) (closed : bool) (cs : list caller) : Prop :=
  ∀ i ca, cs !! i = Some ca → call_ok i tr closed ca.

Lemma callers_ok_perm tr tr' closed cs : tr ≡ₚ tr' → callers_ok tr closed cs → callers_ok tr' closed cs.
Proof. intros Hp Hok i ca E. eapply call_ok_owed; [|by apply Hok]. by rewrite Hp. Qed.

Lemma callers_ok_insert i tr tr' closed ca cs :
  callers_ok tr closed cs → (∀ j, j ≠ i → mine j tr' = mine j tr) → call_ok i tr' closed ca →
  callers_ok tr' closed (<[i := ca]> cs).
Proof.
  intros Hok Hm Hc j ca' E. apply list_lookup_insert_Some in E as [(-> & -> & _)|[Hne E]]; [done|].
  eapply call_ok_owed; [|by apply Hok]. unfold owed. by rewrite Hm.
Qed.

(** A send on the channel of a call never waits. *)
Lemma deliver_ok wm a i tr closed cs ca :
  callers_ok (wm :: tr) closed cs → wm_res wm = Z.of_nat i → cs !! i = Some ca → true_answer (wm, a) →
  ∃ ca', deliver wm (wm_res wm) a cs = Some (<[i := ca']> cs) ∧ callers_ok tr closed (<[i := ca']> cs) ∧
    ca_pc ca' = ca_pc ca ∧ ca_args ca' = ca_args ca ∧ length (ca_res ca') = S (length (ca_res ca)).
Proof.
  intros Hok Hi Hca Ha. destruct (Hok _ _ Hca) as [Hpc Hr Ht Hs Hv].
  unfold deliver. rewrite Hi, Nat2Z.id, Hca. cbn [mbind option_bind].
  rewrite (proj2 (Nat.ltb_lt _ _)).
  2: { unfold owed in Hr. rewrite mine_cons_eq in Hr by done. cbn in Hr. rewrite length_app, length_map in Hr. lia. }
  eexists. split; [done|]. split; [|split; [done|split; [done|]]]; [|cbn; rewrite length_app; cbn; lia].
  eapply callers_ok_insert; [done|intros j Hj; symmetry; apply mine_cons_ne; lia|].
  assert (owed i (wm :: tr) ca ≡ₚ mine i tr ++ map (λ x : answer, wm_msg x.1) (ca_res ca ++ [(wm, a)])) as Ho.
  { unfold owed. rewrite mine_cons_eq, map_app, app_assoc by done. cbn. apply Permutation_cons_append. }
  constructor; cbn; try done.
  - eapply pc_ok_perm; [exact Ho|]. done.
  - unfold owed in *. cbn. by rewrite <- Ho.
  - apply Forall_app. split; [done|]. by constructor.
Qed.

(** A message is sent to the queue. *)
Lemma call_enqueue_ok i tr ca attempt msg todo :
  ca_pc ca = CSend attempt (msg :: todo) → call_ok i tr false ca →
  call_ok i ({| wm_msg := msg; wm_res := Z.of_nat i |} :: tr) false
    {| ca_args := ca_args ca; ca_pc := CSend attempt todo; ca_sent := ca_sent ca ++ [msg];
       ca_res := ca_res ca; ca_got := ca_got ca; ca_acked := ca_acked ca; ca_skipped := ca_skipped ca |}.
Proof.
  intros E [Hpc Hr Ht Hs Hv]. unfold pc_ok in Hpc. rewrite E in Hpc. destruct Hpc as (_ & Ha & Hg & Ho & Hargs).
  set (ca' := {| ca_args := ca_args ca |}).
  assert (owed i ({| wm_msg := msg; wm_res := Z.of_nat i |} :: tr) ca' ≡ₚ ca_sent ca ++ [msg]) as Ho'.
  { change (owed i ?l ca') with (owed i l ca). unfold owed in *. rewrite mine_cons_eq by done. cbn. rewrite Ho.
    apply Permutation_cons_append. }
  constructor; try done.
  - unfold pc_ok. cbn. by rewrite <- app_assoc.
  - apply Permutation_length in Hargs. rewrite Ho'. cbn. rewrite !length_app in *. cbn in *. lia.
Qed.
End calls.

(** ** Open partition writers *)

(** [ids] gives each partition its partition writer, and has all that are
    open. *)
Record paired (ids : gmap Z nat) (procs : list proc) : Prop := {
  pa_open : ∀ q k, ids !! q = Some k → ∃ p, procs !! k = Some p ∧ pr_close p = POpen;
  pa_all : ∀ k p, procs !! k = Some p → pr_close p = POpen → ∃ q, ids !! q = Some k;
  pa_inj : ∀ q q' k, ids !! q = Some k → ids !! q' = Some k → q = q';
}.

(** Changes of a partition writer that do not open or close it. *)
Lemma paired_insert ids procs k p p' :
  paired ids procs → procs !! k = Some p → (pr_close p' = POpen ↔ pr_close p = POpen) →
  paired ids (<[k := p']> procs).
Proof.
  intros [Ho Ha Hi] E Hc. constructor; [|..|done].
  - intros q j Hq. destruct (Ho q j Hq) as (pj & Ej & Hj). destruct (decide (j = k)) as [->|Hne].
    + exists p'. rewrite list_lookup_insert_eq by (by eapply lookup_lt_Some). simplify_eq. tauto.
    + exists pj. by rewrite list_lookup_insert_ne.
  - intros j pj Ej Hj. apply list_lookup_insert_Some in Ej as [(-> & -> & _)|[Hne Ej]]; [|by eauto].
    apply (Ha _ p E). tauto.
Qed.

Lemma paired_close q k ids procs :
  paired ids procs → ids !! q = Some k →
  ∃ p, procs !! k = Some p ∧ close_proc k procs = Some (<[k := with_close PClosing p]> procs) ∧
    paired (delete q ids) (<[k := with_close PClosing p]> procs).
Proof.
  intros [Ho Ha Hi] Hq. destruct (Ho q k Hq) as (p & E & Hc). exists p. split; [done|]. split.
  { unfold close_proc. rewrite E. cbn. by rewrite Hc. }
  constructor.
  - intros q' j Hq'. apply lookup_delete_Some in Hq' as [Hne Hq']. destruct (Ho q' j Hq') as (pj & Ej & Hj).
    exists pj. rewrite list_lookup_insert_ne; [done|]. intros ->. by apply Hne, (Hi _ _ j).
  - intros j pj Ej Hj. apply list_lookup_insert_Some in Ej as [(-> & <- & _)|[Hne Ej]]; [done|].
    destruct (Ha j pj Ej Hj) as [q' Hq']. exists q'. rewrite lookup_delete_ne; [done|]. intros <-. by simplify_eq.
  - intros q1 q2 j [_ H1]%lookup_delete_Some [_ H2]%lookup_delete_Some. by eapply Hi.
Qed.

Lemma paired_open q ids procs :
  paired ids procs → ids !! q = None → paired (<[q := length procs]> ids) (procs ++ [proc_init]).
Proof.
  intros [Ho Ha Hi] Hq. constructor.
  - intros q' j Hq'. apply lookup_insert_Some in Hq' as [[-> <-]|[Hne Hq']].
    + exists proc_init. split; [|done]. by rewrite list_lookup_middle.
    + destruct (Ho q' j Hq') as (pj & Ej & Hj). exists pj. split; [|done]. by apply lookup_app_l_Some.
  - intros j pj Ej Hj. apply lookup_app_Some in Ej as [Ej|[Hle Ej]].
    + destruct (Ha j pj Ej Hj) as [q' Hq']. exists q'. rewrite lookup_insert_ne; [done|]. intros <-. congruence.
    + exists q. rewrite lookup_insert_eq. f_equal. apply list_lookup_singleton_Some in Ej as [? _]. lia.
  - assert (∀ q' j, ids !! q' = Some j → (j < length procs)%nat) as Hlt.
    { intros q' j Hj. destruct (Ho q' j Hj) as (pj & Ej & _). by eapply lookup_lt_Some. }
    intros q1 q2 j H1 H2. apply lookup_insert_Some in H1 as [[-> <-]|[? H1]];
      apply lookup_insert_Some in H2 as [[-> E2]|[? H2]]; subst; try done.
    + apply Hlt in H2. lia.
    + apply Hlt in H1. lia.
    + by eapply Hi.
Qed.

(** The sum of a count over the partition writers. *)
Definition total (f : proc → nat) (procs : list proc) : nat := sum_list (map f procs).

Lemma total_app f a b : total f (a ++ b) = (total f a + total f b)%nat.
Proof. unfold total. induction a as [|p a IH]; cbn; lia. Qed.

Lemma procs_total_insert f k p p' procs :
  procs !! k = Some p → (total f (<[k := p']> procs) + f p = total f procs + f p')%nat.
Proof.
  unfold total. revert k. induction procs as [|p0 procs IH]; intros [|k] E; simplify_eq/=; [lia|].
  specialize (IH k E). lia.
Qed.

(** What closing partition writers and opening [n] of them keeps. *)
Definition same_load (n : nat) (procs procs' : list proc) : Prop :=
  (∀ g : proc → list writerMessage, (∀ p, g (with_close PClosing p) = g p) → g proc_init = [] →
     concat (map g procs') = concat (map g procs)) ∧
  (∀ Q : proc → Prop, (∀ p, pr_close p = POpen → Q p → Q (with_close PClosing p)) → Q proc_init →
     Forall Q procs → Forall Q procs') ∧
  ∀ f, (∀ p, pr_close p = POpen → f (with_close PClosing p) ≤ f p)%nat →
    (total f procs' ≤ total f procs + n * f proc_init)%nat.

Lemma same_load_trans n1 n2 a b c : same_load n1 a b → same_load n2 b c → same_load (n1 + n2) a c.
Proof.
  intros (H1 & H2 & H3) (H4 & H5 & H6). split; [intros; by rewrite H4, H1|]. split; [eauto|].
  intros f Hf. specialize (H3 f Hf). specialize (H6 f Hf). lia.
Qed.

Lemma map_insert_same {A B} (f : A → B) k x y l : l !! k = Some x → f y = f x → map f (<[k := y]> l) = map f l.
Proof.
  intros E Hf. change (map f) with (fmap (M:=list) f). rewrite list_fmap_insert, Hf. apply list_insert_id.
  by rewrite list_lookup_fmap, E.
Qed.

Lemma with_close_ok p : pr_close p = POpen → proc_ok p → proc_ok (with_close PClosing p).
Proof.
  intros Hc [Ht Hd He Hj Ho Hw]. constructor; cbn; try done. intros H. destruct (Hd H) as (_ & Hcl & _).
  unfold chan_closed in Hcl. by rewrite Hc in Hcl.
Qed.

Lemma close_all ps ids procs :
  paired ids procs → NoDup ps → (∀ q, q ∈ ps → is_Some (ids !! q)) →
  ∃ ks procs', mapM (λ q, ids !! q) ps = Some ks ∧ close_procs ks procs = Some procs' ∧
    paired (foldl (λ ids q, delete q ids) ids ps) procs' ∧ same_load 0 procs procs'.
Proof.
  intros Hp Hn. revert ids procs Hp. induction Hn as [|q ps Hq Hn IH]; intros ids procs Hp Hs.
  { exists [], procs. do 3 (split; [done|]). split; [done|]. split; [done|]. intros. lia. }
  destruct (Hs q) as [k Hk]; [left|]. destruct (paired_close q k ids procs Hp Hk) as (p & E & Ec & Hp').
  destruct (IH _ _ Hp') as (ks & procs' & Em & Ecs & Hp'' & Hl).
  { intros q' Hq'. rewrite lookup_delete_ne by (intros <-; done). apply Hs. by right. }
  exists (k :: ks), procs'. cbn [mapM foldl close_procs]. rewrite Hk. cbn [mbind option_bind].
  assert (mapM (λ q', ids !! q') ps = Some ks) as ->.
  { apply mapM_Some. apply mapM_Some in Em. eapply Forall2_impl; [done|]. intros ? ? ?%lookup_delete_Some. tauto. }
  rewrite Ec. cbn. split; [done|]. split; [done|]. split; [done|].
  eapply (same_load_trans 0 0); [|done]. pose proof (pa_open _ _ Hp q k Hk) as (p0 & E0 & Hc0).
  simplify_eq. split; [intros g Hg _; by rewrite (map_insert_same _ _ p)|]. split.
  - intros Q Hcl _ Hf. apply Forall_insert; [done|]. apply Hcl; [done|]. by eapply Forall_lookup_1.
  - intros f Hf. pose proof (procs_total_insert f k p (with_close PClosing p) procs E). specialize (Hf p Hc0). lia.
Qed.

Lemma open_all ps ids procs :
  paired ids procs → NoDup ps → (∀ q, q ∈ ps → ids !! q = None) →
  ∃ ids', open_procs ps ids procs = (ids', procs ++ replicate (length ps) proc_init) ∧
    paired ids' (procs ++ replicate (length ps) proc_init) ∧ dom ids' = dom ids ∪ list_to_set ps.
Proof.
  intros Hp Hn. revert ids procs Hp. induction Hn as [|q ps Hq Hn IH]; intros ids procs Hp Hs.
  { exists ids. cbn. rewrite app_nil_r. split; [done|]. split; [done|]. set_solver. }
  destruct (IH (<[q := length procs]> ids) (procs ++ [proc_init])) as (ids' & E & Hp' & Hd).
  { apply paired_open; [done|]. apply Hs. left. }
  { intros q' Hq'. rewrite lookup_insert_ne by (intros ->; done). apply Hs. by right. }
  exists ids'. cbn [open_procs length replicate list_to_set]. rewrite E, <- app_assoc. cbn in *.
  rewrite <- app_assoc in Hp'. split; [done|]. split; [done|]. rewrite Hd, dom_insert_L. set_solver.
Qed.

Lemma open_load n procs : same_load n procs (procs ++ replicate n proc_init).
Proof.
  split; [|split].
  - intros g _ Hg. rewrite map_app, concat_app. replace (concat (map g (replicate n proc_init))) with (@nil writerMessage).
    + apply app_nil_r.
    + induction n as [|n IH]; [done|]. cbn. by rewrite Hg.
  - intros Q _ Hin Hf. apply Forall_app. split; [done|]. by apply Forall_replicate.
  - intros f _. rewrite total_app. enough (total f (replicate n proc_init) = n * f proc_init)%nat by lia.
    induction n as [|n IH]; [done|]. unfold total in *. cbn. lia.
Qed.

(** ** The whole system *)

Section system.
Context {T : Type} `{Balancer T} (config : WriterConfig) (P : T → Prop).

Definition hand (pc : run_pc) : list writerMessage :=
  match pc with RSend _ wm | RRefuse wm _ => [wm] | _ => [] end.

(** The messages on their way. *)
Definition transit (s : system T) : list writerMessage :=
  mn_queue (sy_main s) ++ hand (mn_pc (sy_main s)) ++ concat (map proc_load (sy_procs s)).

Record running_ok (m : main T) (procs : list proc) : Prop := {
  ro_writer : writer_inv (mn_ws m);
  ro_nodup : NoDup (ws_partitions (mn_ws m));
  ro_balancer : P (ws_balancer (mn_ws m));
  ro_ids : dom (mn_ids m) = list_to_set (ws_partitions (mn_ws m));
  ro_paired : paired (mn_ids m) procs;
  ro_send : ∀ k wm, mn_pc m = RSend k wm → ∃ q, mn_ids m !! q = Some k;
}.

Definition run_ok (m : main T) (procs : list proc) : Prop :=
  match mn_pc m with
  | RReturned => mn_closed m = true ∧ mn_queue m = [] ∧ Forall (λ p, pr_close p ≠ POpen) procs
  | _ => running_ok m procs
  end.

Lemma run_ok_ext m m' procs :
  run_ok m procs → mn_pc m' = mn_pc m → mn_ws m' = mn_ws m → mn_ids m' = mn_ids m →
  (mn_closed m = true → mn_queue m = [] → mn_closed m' = true ∧ mn_queue m' = []) → run_ok m' procs.
Proof.
  unfold run_ok. intros Hr Epc Ews Eids Hret. rewrite Epc.
  assert (running_ok m procs → running_ok m' procs) as Hrun.
  { intros []. constructor; rewrite ?Epc, ?Ews, ?Eids; done. }
  destruct (mn_pc m); [by apply Hrun..|]. destruct Hr as (Hc & Hq & ?). by destruct (Hret Hc Hq).
Qed.

(** A message of a call that was made, with a value. *)
Definition wm_ok (n : nat) (wm : writerMessage) : Prop :=
  nonempty_value wm ∧ ∃ i, wm_res wm = Z.of_nat i ∧ (i < n)%nat.

Record sys_inv (s : system T) : Prop := {
  sv_panicked : sy_panicked s = false;
  sv_transit : Forall (wm_ok (length (sy_callers s))) (transit s);
  sv_calls : callers_ok config (transit s) (mn_closed (sy_main s)) (sy_callers s);
  sv_procs : Forall proc_ok (sy_procs s);
  sv_run : run_ok (sy_main s) (sy_procs s);
  sv_closers : Forall (λ cl, cl = WJoin ∨ cl = WReturned → mn_closed (sy_main s) = true) (sy_closers s);
}.

Lemma sys_init_inv b calls n :
  P b → 0 < wcf_MaxAttempts config → Forall (Forall (λ msg, bdata (msg_Value msg) ≠ [])) calls →
  sys_inv (sys_init config b calls n).
Proof.
  intros HP Hm Hv. constructor; try done; cbn.
  - intros i ca E. change (map (caller_init config) calls) with (caller_init config <$> calls) in E.
    apply list_lookup_fmap_Some in E as (args & -> & E). constructor; try done; [|cbn; lia|].
    + unfold pc_ok, caller_init, next_attempt. cbn. rewrite (proj2 (Z.ltb_lt _ _)) by done.
      destruct (decide (args = [])) as [->|]; [done|]. split; [lia|]. done.
    + cbn. by eapply Forall_lookup_1 in E.
  - constructor; cbn; try done.
    + split; [done|]. apply SSorted_nil.
    + constructor.
  - apply Forall_replicate. by intros [|].
Qed.

(** ** Calls *)

Lemma sys_inv_caller i ca s :
  sys_inv s → call_ok config i (transit s) (mn_closed (sy_main s)) ca → sys_inv (set_caller i ca s).
Proof.
  intros [Hp Ht Hc Hpr Hr Hcl] Hca. constructor; try done; cbn [set_caller sy_callers sy_main].
  - by rewrite length_insert.
  - by eapply callers_ok_insert.
Qed.

Lemma call_step_inv i ev s s' : sys_inv s → call_step config i ev s = Some s' → sys_inv s'.
Proof.
  intros Hi E. unfold call_step in E. apply bind_Some in E as (ca & Eca & E).
  pose proof (sv_calls s Hi _ _ Eca) as Hca.
  assert (∀ ev, (x ← call_local config (mn_closed (sy_main s)) ev ca; Some (set_caller i x s)) = Some s' → sys_inv s')
    as Hloc.
  { intros ev' E'. apply bind_Some in E' as (ca' & El & [= <-]). apply sys_inv_caller; [done|].
    by eapply call_local_ok. }
  destruct (ca_pc ca) as [attempt msgs|attempt [|msg todo]|attempt n|attempt retry err|err] eqn:Epc;
    destruct ev as [|e|]; try (by eapply Hloc, E).
  - destruct (existsb _ _); [done|]. injection E as <-. apply sys_inv_caller; [done|]. by apply call_lock_ok.
  - pose proof (co_pc _ _ _ _ _ Hca) as Hpc. unfold pc_ok in Hpc. rewrite Epc in Hpc.
    destruct Hpc as (Hcl & _ & _ & _ & Hargs). rewrite Hcl in *. destruct (_ <? _); [|done]. injection E as <-.
    set (wm := {| wm_msg := msg; wm_res := Z.of_nat i |}). destruct Hi as [Hp Ht Hc Hpr Hr Hcls].
    assert (∀ m : main T, mn_queue m = mn_queue (sy_main s) ++ [wm] → mn_pc m = mn_pc (sy_main s) →
            mn_queue m ++ hand (mn_pc m) ++ concat (map proc_load (sy_procs s)) ≡ₚ wm :: transit s) as Htr.
    { intros m -> ->. rewrite <- app_assoc. cbn. by rewrite <- Permutation_middle. }
    constructor; try done; unfold transit; cbn [set_caller set_main sy_main sy_procs sy_callers].
    + rewrite Htr by done. rewrite length_insert. constructor; [|done]. split.
      * unfold nonempty_value. pose proof (co_values _ _ _ _ _ Hca) as Hv. rewrite <- Hargs in Hv.
        rewrite !Forall_app, Forall_cons in Hv. cbn. tauto.
      * exists i. split; [done|]. by eapply lookup_lt_Some.
    + cbn [with_queue mn_closed mn_queue mn_pc]. rewrite Hcl in *. eapply callers_ok_perm; [symmetry; by apply (Htr (with_queue _ (sy_main s)))|].
      eapply callers_ok_insert; [done| |by eapply call_enqueue_ok].
      intros j Hj. apply mine_cons_ne. cbn. lia.
    + eapply run_ok_ext; try done. cbn. congruence.
Qed.

(** ** Partition writers *)

Lemma procs_load_insert k p procs :
  procs !! k = Some p →
  ∃ rest, concat (map proc_load procs) ≡ₚ proc_load p ++ rest ∧
    ∀ p', concat (map proc_load (<[k := p']> procs)) ≡ₚ proc_load p' ++ rest.
Proof.
  revert k. induction procs as [|p0 procs IH]; intros [|k] E; simplify_eq/=; [by eexists|].
  destruct (IH k E) as (rest & H1 & H2). exists (proc_load p0 ++ rest). split.
  - rewrite H1. apply Permutation_app_swap_app.
  - intros p'. rewrite (H2 p'). apply Permutation_app_swap_app.
Qed.

(** Messages move, but none comes or goes. *)
Lemma sys_inv_moved m procs s :
  sys_inv s → mn_closed m = mn_closed (sy_main s) →
  mn_queue m ++ hand (mn_pc m) ++ concat (map proc_load procs) ≡ₚ transit s →
  Forall proc_ok procs → run_ok m procs → sys_inv (set_run m procs s).
Proof.
  intros [Hp Ht Hc Hpr Hr Hcl] Hclosed Htr Hpr' Hr'.
  constructor; try done; unfold transit; cbn [set_run sy_main sy_procs sy_callers sy_closers].
  - by rewrite Htr.
  - rewrite Hclosed. eapply callers_ok_perm; [|done]. by rewrite Htr.
  - by rewrite Hclosed.
Qed.

(** A change of one partition writer. *)
Lemma run_ok_insert m procs k p p' :
  run_ok m procs → procs !! k = Some p → (pr_close p' = POpen ↔ pr_close p = POpen) →
  run_ok m (<[k := p']> procs).
Proof.
  intros Hr E Hc.
  assert (running_ok m procs → running_ok m (<[k := p']> procs)) as Hrun
    by (intros []; constructor; try done; by eapply paired_insert).
  unfold run_ok in *. destruct (mn_pc m); try by apply Hrun. destruct Hr as (? & ? & Hf).
  split; [done|]. split; [done|]. apply Forall_insert; [done|].
  eapply Forall_lookup_1 in E; [|done]. cbn in E. tauto.
Qed.

Lemma chan_values k p s : sys_inv s → sy_procs s !! k = Some p → Forall nonempty_value (pr_chan p).
Proof.
  intros Hi Ep. destruct (procs_load_insert k p _ Ep) as (rest & Hl & _).
  pose proof (sv_transit s Hi) as Ht. unfold transit in Ht. rewrite Hl in Ht. unfold proc_load in Ht.
  rewrite !Forall_app in Ht. eapply Forall_impl; [apply Ht|]. by intros ? [].
Qed.

Lemma proc_event_inv k ev s s' : sys_inv s → sys_step config (EProc k ev) s = Some s' → sys_inv s'.
Proof.
  intros Hi E. cbn [sys_step] in E. apply bind_Some in E as (p & Ep & E). apply bind_Some in E as (p' & Ep' & [= <-]).
  destruct (procs_load_insert k p _ Ep) as (rest & Hl & Hl').
  pose proof (sv_procs s Hi) as Hpr. pose proof (Forall_lookup_1 _ _ _ _ Hpr Ep) as Hok.
  pose proof (chan_values k p s Hi Ep) as Hne.
  destruct (proc_step_ok _ _ _ _ Ep' Hok Hne) as (Hok' & Hload & Hc).
  apply sys_inv_moved; [done|done| |by apply Forall_insert|].
  - unfold transit. by rewrite Hl', Hload, Hl.
  - eapply run_ok_insert; [apply Hi|done|done].
Qed.

Lemma with_out_ok wm c a out p : pr_out p = (wm, (c, a)) :: out → proc_ok p → proc_ok (with_out out p).
Proof.
  intros Ho [Ht Hd He Hj Htr Hw]. rewrite Ho in *. constructor; cbn; try done.
  - intros Hx. by destruct (He Hx) as (_ & _ & ?).
  - by apply Forall_cons_1 in Htr as [_ ?].
  - intros Hx. by apply Hw in Hx.
Qed.

Lemma with_out_load wm c a out p :
  pr_out p = (wm, (c, a)) :: out → proc_load p ≡ₚ wm :: proc_load (with_out out p).
Proof. intros Ho. unfold proc_load. cbn [with_out pr_chan pr_pw pr_writing pr_out]. rewrite Ho. cbn. by rewrite <- !Permutation_middle. Qed.

(** A message leaves with an answer to its call. *)
Lemma sys_inv_answered wm a m procs s :
  sys_inv s → mn_closed m = mn_closed (sy_main s) → true_answer (wm, a) →
  wm :: mn_queue m ++ hand (mn_pc m) ++ concat (map proc_load procs) ≡ₚ transit s →
  Forall proc_ok procs → run_ok m procs →
  ∃ i ca ca', deliver wm (wm_res wm) a (sy_callers s) = Some (<[i := ca']> (sy_callers s)) ∧
    sy_callers s !! i = Some ca ∧ ca_pc ca' = ca_pc ca ∧ ca_args ca' = ca_args ca ∧
    length (ca_res ca') = S (length (ca_res ca)) ∧
    sys_inv (set_callers (<[i := ca']> (sy_callers s)) (set_run m procs s)).
Proof.
  intros [Hp Ht Hc Hpr Hr Hcl] Hclosed Ha Htr Hpr' Hr'. rewrite <- Htr in Ht.
  apply Forall_cons_1 in Ht as [(_ & i & Hi & Hlt) Ht]. apply lookup_lt_is_Some in Hlt as [ca Hca].
  apply (callers_ok_perm _ _ _ _ _ (symmetry Htr)) in Hc.
  destruct (deliver_ok config wm a i _ _ _ ca Hc Hi Hca Ha) as (ca' & Hd & Hc' & Hpc & Hargs & Hres).
  exists i, ca, ca'. repeat (split; [done|]).
  constructor; try done; unfold transit; cbn [set_run set_callers sy_main sy_procs sy_callers sy_closers].
  - by rewrite length_insert.
  - by rewrite Hclosed.
  - by rewrite Hclosed.
Qed.

(** A partition writer that has answers to send can. *)
Lemma reply_enabled k p s :
  sys_inv s → sy_procs s !! k = Some p → pr_out p ≠ [] → ∃ s', sys_step config (EReply k) s = Some s' ∧ sys_inv s'.
Proof.
  intros Hi Ep Ho. destruct (pr_out p) as [|[wm [c a]] out] eqn:Eo; [done|].
  pose proof (Forall_lookup_1 _ _ _ _ (sv_procs s Hi) Ep) as Hok.
  pose proof (po_out p Hok) as Htr. rewrite Eo in Htr. apply Forall_cons_1 in Htr as [[Hc Ha] _]. cbn in Hc, Ha. subst c.
  destruct (procs_load_insert k p _ Ep) as (rest & Hl & Hl').
  destruct (sys_inv_answered wm a (sy_main s) (<[k := with_out out p]> (sy_procs s)) s)
    as (i & ca & ca' & Hd & _ & _ & _ & _ & Hi'); try done.
  - unfold transit. rewrite Hl', Hl, (with_out_load _ _ _ _ _ Eo). cbn. by rewrite <- !Permutation_middle.
  - apply Forall_insert; [apply Hi|]. by eapply with_out_ok.
  - eapply run_ok_insert; [apply Hi|done|done].
  - eexists. split; [|exact Hi']. cbn [sys_step]. rewrite Ep. cbn [mbind option_bind]. by rewrite Eo, Hd.
Qed.

Lemma reply_inv k s s' : sys_inv s → sys_step config (EReply k) s = Some s' → sys_inv s'.
Proof.
  intros Hi E. pose proof E as E0. cbn [sys_step] in E0. apply bind_Some in E0 as (p & Ep & E0).
  destruct (reply_enabled k p s Hi Ep) as (s1 & E1 & Hi1); [by destruct (pr_out p)|]. by simplify_eq.
Qed.

(** ** [Writer.run] *)

Hypothesis Hchooses : chooses P.

Definition found_ok (found : goerror + list Z) : Prop := ∀ new, found = inr new → sorted_by id new ∧ NoDup new.

Lemma run_found_ok found m procs :
  running_ok m procs → found_ok found →
  ∃ m' procs' n, run_found found m procs = Some (m', procs') ∧
    mn_queue m' = mn_queue m ∧ mn_closed m' = mn_closed m ∧ mn_pc m' = RSelect ∧
    (n ≤ match found with inr new => length new | inl _ => 0 end)%nat ∧
    same_load n procs procs' ∧ running_ok m' procs'.
Proof.
  intros [Hw Hn HP Hd Hpa Hs] Hf. unfold run_found.
  destruct (writer_step_inv P (WTick found) (mn_ws m)) as (ws & E & HP' & Hw' & Hn' & _); try done.
  { destruct found as [|new]; [done|]. by apply Hf. }
  cbn in E. injection E as <-. destruct found as [err|new].
  { eexists _, _, 0%nat. cbn. do 5 (split; [done|]). split; [split; [done|split; [done|intros; lia]]|by constructor]. }
  destruct (Hf new eq_refl) as [Hsn Hnn]. set (old := ws_partitions (mn_ws m)) in *. pose proof (proj2 Hw) as Hso.
  fold old in Hso.
  destruct (close_all (diffp old new) (mn_ids m) procs Hpa) as (ks & procs1 & Em & Ec & Hpa1 & Hl1).
  { by apply diffp_NoDup. }
  { intros q [Hq _]%diffp_elem; [|done]. apply elem_of_dom. rewrite Hd. by apply elem_of_list_to_set. }
  rewrite Em. cbn [mbind option_bind]. rewrite Ec. cbn [mbind option_bind].
  destruct (open_all (diffp new old) (foldl (λ ids q, delete q ids) (mn_ids m) (diffp old new)) procs1 Hpa1)
    as (ids' & Eo & Hpa2 & Hd2).
  { by apply diffp_NoDup. }
  { intros q [_ Hq]%diffp_elem; [|done]. apply not_elem_of_dom. rewrite dom_delete_all, Hd. set_solver. }
  rewrite Eo. eexists _, _, (length (diffp new old)). split; [done|]. cbn [mn_queue mn_closed mn_pc].
  split; [done|]. split; [done|]. split; [done|]. split; [by apply sublist_length, diffp_sublist|].
  split; [by eapply (same_load_trans 0); [|apply open_load]|]. constructor; try done; cbn.
  rewrite Hd2, dom_delete_all, Hd. apply set_eq. intros q.
  rewrite elem_of_union, elem_of_difference, !elem_of_list_to_set, !diffp_elem by done.
  destruct (decide (q ∈ old)), (decide (q ∈ new)); tauto.
Qed.

Lemma run_take_ok wm q m procs :
  running_ok m procs →
  ∃ m', run_take wm q m = Some m' ∧ mn_queue m' = q ∧ mn_closed m' = mn_closed m ∧ hand (mn_pc m') = [wm] ∧
    run_ok m' procs.
Proof.
  intros [Hw Hn HP Hd Hpa Hs]. unfold run_take.
  destruct (writer_step_inv P (WMsg wm) (mn_ws m)) as (ws & E & HP' & Hw' & Hn' & _); try done. cbn in E.
  rewrite E.
  assert (ws_partitions ws = ws_partitions (mn_ws m)) as Hps.
  { unfold route in E. case_decide; [by injection E as <-|]. destruct (Balance _ _ _) as [[]| |]; [|done|done].
    rewrite outcome_bind_done in E. cbv beta iota in E. destruct (_ !! _); [|done]. by injection E as <-. }
  destruct (decide (ws_partitions (mn_ws m) = [])) as [Hnil|Hne].
  - unfold route in E. rewrite decide_True in E by done. injection E as <-. eexists. split; [done|].
    repeat (split; [done|]). constructor; cbn; try done.
  - destruct (Hchooses (ws_balancer (mn_ws m)) (wm_msg wm) _ HP Hne (proj2 Hw)) as (q' & b & Eb & Hin & _).
    rewrite Eb. assert (is_Some (mn_ids m !! q')) as [k Hk].
    { apply elem_of_dom. rewrite Hd. by apply elem_of_list_to_set. }
    rewrite Hk. eexists. split; [done|]. repeat (split; [done|]). constructor; cbn; try done.
    + by rewrite Hps.
    + intros ? ? [= <- _]. by exists q'.
Qed.

Lemma run_end_ok m procs :
  running_ok m procs → mn_closed m = true →
  ∃ m' procs', run_end m procs = Some (m', procs') ∧ mn_queue m' = [] ∧ mn_closed m' = mn_closed m ∧
    mn_pc m' = RReturned ∧ same_load 0 procs procs' ∧ run_ok m' procs'.
Proof.
  intros [Hw Hn HP Hd Hpa Hs] Hc. unfold run_end. set (l := map_to_list (mn_ids m)).
  destruct (close_all (map fst l) (mn_ids m) procs Hpa) as (ks & procs' & Em & Ec & Hpa' & Hl).
  { apply NoDup_fst_map_to_list. }
  { intros q Hq. apply list_elem_of_fmap in Hq as ((q', k) & -> & Hin). exists k. by apply elem_of_map_to_list. }
  assert (ks = map snd l) as ->.
  { apply mapM_Some in Em. assert (∀ x, x ∈ l → mn_ids m !! x.1 = Some x.2) as Hx.
    { intros [q k]. apply elem_of_map_to_list. }
    clearbody l. clear -Em Hx. revert ks Em. induction l as [|x l IH]; intros ks Em; inversion Em; [done|]; subst.
    cbn. f_equal; [|apply IH; [|done]; set_solver]. rewrite Hx in H1 by left. congruence. }
  rewrite Ec. do 2 eexists. do 5 (split; [done|]). split; [done|]. split; [done|].
  apply Forall_lookup. intros k p Ep Ho. destruct (pa_all _ _ Hpa' k p Ep Ho) as [q Hq].
  apply elem_of_dom_2 in Hq. rewrite dom_delete_all in Hq. apply elem_of_difference in Hq as [Hq Hnot].
  apply Hnot, elem_of_list_to_set. apply elem_of_dom in Hq as [k' Hk'].
  apply list_elem_of_fmap. exists (q, k'). split; [done|]. by apply elem_of_map_to_list.
Qed.

Lemma running_pc m procs pc :
  running_ok m procs → (∀ k wm, pc ≠ RSend k wm) → running_ok (at_run pc m) procs.
Proof. intros [] Hpc. constructor; cbn; try done. intros k wm Hk. by destruct (Hpc k wm). Qed.

Lemma with_chan_ok chan p : pr_close p = POpen → proc_ok p → proc_ok (with_chan chan p).
Proof.
  intros Hc [Ht Hd He Hj Ho Hw]. constructor; cbn; try done. intros H'. destruct (Hd H') as (_ & Hcl & _).
  unfold chan_closed in Hcl. by rewrite Hc in Hcl.
Qed.

Lemma run_step_inv ev s s' :
  sys_inv s → (∀ found, ev = RFound found → found_ok found) → run_step config ev s = Some s' → sys_inv s'.
Proof.
  intros Hi Hev E. pose proof (sv_run s Hi) as Hr. pose proof (sv_procs s Hi) as Hpr.
  unfold run_step in E. unfold run_ok in Hr. destruct (mn_pc (sy_main s)) as [| |k wm|wm err|] eqn:Epc, ev as [found| |];
    try done.
  - destruct (run_found_ok found _ _ Hr (Hev _ eq_refl)) as (m & procs & n & Ef & Hq & Hc & Hpc & _ & (Hl & Hok & _) & Hr').
    rewrite Ef in E. injection E as <-. apply sys_inv_moved; try done; [| |by unfold run_ok; rewrite Hpc].
    + unfold transit. by rewrite Hq, Hpc, Epc, Hl.
    + apply Hok; [apply with_close_ok|apply proc_init_ok|done].
  - injection E as <-. apply (sys_inv_moved (at_run RRebalance (sy_main s)) (sy_procs s)); try done.
    + unfold transit. by rewrite Epc.
    + cbn. by apply running_pc.
  - destruct (mn_queue (sy_main s)) as [|wm q] eqn:Eq.
    + destruct (mn_closed (sy_main s)) eqn:Ecl; [|done].
      destruct (run_end_ok _ _ Hr Ecl) as (m & procs & Ef & Hq & Hc & Hpc & (Hl & Hok & _) & Hr').
      rewrite Ef in E. injection E as <-. apply sys_inv_moved; try done.
      * unfold transit. by rewrite Hq, Hpc, Epc, Eq, Hl.
      * apply Hok; [apply with_close_ok|apply proc_init_ok|done].
    + destruct (run_take_ok wm q _ _ Hr) as (m & Ef & Hq & Hc & Hh & Hr').
      rewrite Ef in E. injection E as <-. apply (sys_inv_moved m (sy_procs s)); try done.
      unfold transit. rewrite Hq, Hh, Epc, Eq. cbn. by rewrite <- Permutation_middle.
  - destruct (ro_send _ _ Hr k wm Epc) as [q Hq]. destruct (pa_open _ _ (ro_paired _ _ Hr) q k Hq) as (p & Ep & Hp).
    rewrite Ep in E. unfold chan_closed in E. rewrite Hp in E. destruct (_ <? _); [|done]. injection E as <-.
    destruct (procs_load_insert k p _ Ep) as (rest & Hl & Hl').
    apply sys_inv_moved; try done.
    + unfold transit. rewrite Hl', Hl, Epc. unfold proc_load. cbn. rewrite <- !app_assoc. cbn.
      by rewrite <- !Permutation_middle.
    + apply Forall_insert; [done|]. apply with_chan_ok; [done|]. by eapply Forall_lookup_1.
    + eapply run_ok_insert; [|done|done]. by apply running_pc.
  - destruct (sys_inv_answered wm (Some (wm_msg wm, err)) (at_run RSelect (sy_main s)) (sy_procs s) s)
      as (i & ca & ca' & Hd & _ & _ & _ & _ & Hi'); try done.
    + by intros ? ? [= <- _].
    + unfold transit. rewrite Epc. cbn. by rewrite <- Permutation_middle.
    + cbn. by apply running_pc.
    + rewrite Hd in E. by injection E as <-.
Qed.

(** ** [Close] *)

Lemma close_step_inv i s s' : sys_inv s → close_step i s = Some s' → sys_inv s'.
Proof.
  intros Hi E. unfold close_step in E. apply bind_Some in E as (cl & Ecl & E).
  assert (∀ cl', (cl' = WJoin ∨ cl' = WReturned → mn_closed (sy_main s) = true) →
    sys_inv (set_closers (<[i := cl']> (sy_closers s)) (mn_closed (sy_main s)) s)) as Hkeep.
  { intros cl' Hcl. destruct Hi as [Hp Ht Hc Hpr Hr Hcls]. constructor; try done.
    - by eapply run_ok_ext.
    - by apply Forall_insert. }
  pose proof (Forall_lookup_1 _ _ _ _ (sv_closers s Hi) Ecl) as Hcl. cbn in Hcl.
  destruct cl.
  - destruct (existsb _ _); [done|]. injection E as <-. apply Hkeep. by intros [|].
  - destruct (existsb reading (sy_callers s)) eqn:Er; [done|]. injection E as <-.
    destruct Hi as [Hp Ht Hc Hpr Hr Hcls]. constructor; try done; cbn.
    + intros j ca Ej. destruct (Hc j ca Ej) as [Hpc Hro Htr Hsk Hv]. constructor; try done.
      assert (reading ca = false) as Hre.
      { destruct (reading ca) eqn:Hre; [|done]. rewrite <- Er. symmetry. apply existsb_exists. exists ca.
        split; [|done]. apply list_elem_of_In. by eapply list_elem_of_lookup_2. }
      unfold pc_ok, reading in *. by destruct (ca_pc ca) as [| | | |[]].
    + by eapply run_ok_ext.
    + apply Forall_insert; [|done]. eapply Forall_impl; [done|]. done.
  - destruct (joined s); [|done]. injection E as <-. apply Hkeep. intros _. apply Hcl. by left.
  - done.
Qed.

(** ** Every event *)

Definition event_ok (ev : sys_event) : Prop :=
  match ev with ERun (RFound found) => found_ok found | _ => True end.

Lemma sys_step_inv ev s s' : sys_inv s → event_ok ev → sys_step config ev s = Some s' → sys_inv s'.
Proof.
  intros Hi Hev E. destruct ev as [i ev|i|ev|k ev|k].
  - by eapply call_step_inv.
  - by eapply close_step_inv.
  - eapply run_step_inv; [done| |done]. by intros found ->.
  - by eapply proc_event_inv.
  - by eapply reply_inv.
Qed.

Lemma sys_run_inv evs s s' : sys_inv s → Forall event_ok evs → sys_run config evs s = Some s' → sys_inv s'.
Proof.
  intros Hi Hev. revert s Hi. induction Hev as [|ev evs Hev _ IH]; intros s Hi E; cbn in E; [by injection E as <-|].
  apply bind_Some in E as (s1 & E1 & E). eapply IH, E. by eapply sys_step_inv.
Qed.
End system.
