(* ===== verification/WriterProgress.v ===== *)
(** * The goroutines of a writer finish

    A measure of the work left in the machine of WriterSystem.v, which every
    event but the ticker decreases (a rebalance by what it does not open), and
    that the machine only stops when every call has returned. *)

From S2P Require Import Prelude Errors Time Read Messages Balancer PartitionWriter Writer WriterSystem WriterSystemInv.

(** ** Partition writers *)

Definition flag (b : bool) : nat := if b then 1 else 0.

Definition pcloser_work (c : pcloser) : nat :=
  match c with POpen | PClosing => 2 | PClosed => 1 | PJoined => 0 end.

(** A message weighs less at each place of its way. *)
Definition proc_work (p : proc) : nat :=
  6 * length (pr_chan p) + 4 * length (pw_batch (pr_pw p) ++ pending (pr_pw p)) +
  flag (pw_timerRunning (pw_takeLast (pr_pw p))) + 3 * length (pr_writing p) + 2 * length (pr_out p) +
  flag (negb (pw_done (pr_pw p))) + flag (negb (pr_exited p)) + pcloser_work (pr_close p).

Lemma proc_work_init : proc_work proc_init = 4%nat.
Proof. reflexivity. Qed.

Lemma flag_le b : (flag b ≤ 1)%nat.
Proof. destruct b; cbn; lia. Qed.

(** The timer does not run after a flush that put nothing aside. *)
Lemma pw_step_stops cfg s ev :
  (∀ wm, ev ≠ EvMsg wm) → pw_timerRunning (pw_takeLast (pw_step cfg s ev)) = false.
Proof.
  intros Hev. unfold pw_step. pose proof (pw_takeLast_last s) as Hl. generalize dependent (pw_takeLast s).
  clear s. intros s Hl.
  assert (∀ s2, pw_lastMsg s2 = pw_lastMsg s → pw_timerRunning (pw_takeLast (pw_flush s2)) = false) as Hf.
  { intros s2 E. unfold pw_takeLast. rewrite takeLast_test. rewrite bool_decide_eq_false_2.
    - unfold pw_flush. by case_decide.
    - replace (pw_lastMsg (pw_flush s2)) with (pw_lastMsg s); [done|]. unfold pw_flush. by case_decide. }
  destruct ev as [wm| |]; [by destruct (Hev wm)|by apply Hf..].
Qed.

(** An iteration that took [ev]. *)
Lemma proc_iterate_work cfg chan ev p :
  (∀ wm, ev = EvMsg wm → nonempty_value wm) → pr_writing p = [] → pr_out p = [] →
  (proc_work (proc_iterate cfg chan ev p) ≤
   6 * length chan + 4 * length (pw_batch (pr_pw p) ++ pending (pr_pw p)) + 4 * length (received [ev]) +
   flag (pw_timerRunning (pw_takeLast (pw_step cfg (pr_pw p) ev))) +
   flag (negb (pw_done (pw_step cfg (pr_pw p) ev))) + flag (negb (pr_exited p)) + pcloser_work (pr_close p))%nat.
Proof.
  intros Hev Hw Ho. pose proof (Permutation_length (proc_iterate_load cfg chan ev p Hev Hw Ho)) as Hl.
  unfold proc_load in Hl. unfold proc_work. cbn [proc_iterate pr_chan pr_pw pr_writing pr_out pr_exited pr_close] in *.
  rewrite !length_app in *. cbn [map length] in *. lia.
Qed.

Lemma proc_step_work cfg ev p p' :
  proc_step cfg ev p = Some p' → proc_ok p → Forall nonempty_value (pr_chan p) → (S (proc_work p') ≤ proc_work p)%nat.
Proof.
  intros E Hok Hne. destruct ev as [| | |dials sends| | |]; cbn [proc_step] in E.
  - destruct (pr_chan p) as [|wm chan] eqn:Ec; [done|]. destruct (selecting p) eqn:Es; [|done]. injection E as <-.
    apply selecting_true in Es as (Hw & Ho & Hd). inversion Hne; subst.
    etrans; [apply le_n_S, proc_iterate_work; [by intros ? [= <-]|done|done]|].
    unfold proc_work. rewrite Ec, Hw, Ho, pw_step_done by done. change (length (received [EvMsg wm])) with 1%nat.
    rewrite length_app. cbn [length].
    pose proof (flag_le (pw_timerRunning (pw_takeLast (pw_step cfg (pr_pw p) (EvMsg wm))))). lia.
  - destruct (pr_chan p) eqn:Ec; [|done]. destruct (selecting p) eqn:Es; [|done]. destruct (chan_closed p); [|done].
    injection E as <-. apply selecting_true in Es as (Hw & Ho & Hd).
    etrans; [apply le_n_S, proc_iterate_work; done|].
    rewrite pw_step_stops, (proj1 (pw_close cfg (pr_pw p))) by done.
    unfold proc_work. rewrite Ec, Hw, Ho, Hd. cbn. lia.
  - destruct (selecting p) eqn:Es; [|done]. destruct (pw_timerRunning _) eqn:Et; [|done].
    injection E as <-. apply selecting_true in Es as (Hw & Ho & Hd).
    etrans; [apply le_n_S, proc_iterate_work; done|].
    rewrite pw_step_stops, pw_step_done by done. unfold proc_work. rewrite Hw, Ho, Hd, Et. cbn. lia.
  - destruct (pr_writing p) as [|wm b] eqn:Ew; [done|].
    remember (wm :: b) as batch eqn:Eb. apply bind_Some in E as (r & Er & [= <-]).
    destruct (write_replies _ _ _ _ _ _ Er) as [Hm _]. apply (f_equal length) in Hm. rewrite length_map in Hm.
    unfold proc_work. cbn [pr_chan pr_pw pr_writing pr_out pr_exited pr_close]. rewrite Hm, Ew, Eb. cbn [length]. lia.
  - destruct (pr_writing p) eqn:Ew; [|done]. destruct (pr_out p) eqn:Eo; [|done].
    destruct (pw_done (pr_pw p)) eqn:Ed; [|done]. destruct (pr_exited p) eqn:Ex; [done|]. injection E as <-.
    unfold proc_work. cbn [pr_chan pr_pw pr_writing pr_out pr_exited pr_close]. rewrite Ew, Eo, Ed, Ex. cbn. lia.
  - destruct (pr_close p) eqn:Ec; [done| |done..]. injection E as <-.
    unfold proc_work. cbn [with_close pr_chan pr_pw pr_writing pr_out pr_exited pr_close]. rewrite Ec. cbn. lia.
  - destruct (pr_close p) eqn:Ec; [done|done| |done]. destruct (pr_exited p) eqn:Ex; [|done]. injection E as <-.
    unfold proc_work. cbn [with_close pr_chan pr_pw pr_writing pr_out pr_exited pr_close]. rewrite Ec. cbn. lia.
Qed.

(** ** Calls *)

Section calls.
Context (config : WriterConfig).

Definition attempts_left (attempt : Z) : nat := Z.to_nat (wcf_MaxAttempts config - attempt).

Definition caller_work (ca : caller) : nat :=
  let attempt_work := (9 * length (ca_args ca) + 4)%nat in
  (length (ca_res ca) +
  match ca_pc ca with
  | CLock attempt _ => attempts_left attempt * attempt_work
  | CSend attempt todo => attempts_left (attempt + 1)%Z * attempt_work + 9 * length todo + 3
  | CWait attempt _ => attempts_left (attempt + 1)%Z * attempt_work + 2
  | CBackoff attempt _ _ => attempts_left (attempt + 1)%Z * attempt_work + 1
  | CReturned _ => 0
  end)%nat.

Lemma call_local_work i tr closed ev ca ca' :
  call_local config closed ev ca = Some ca' → call_ok config i tr closed ca → (S (caller_work ca') ≤ caller_work ca)%nat.
Proof.
  intros E [Hpc _ _ _ _]. unfold call_local, pc_ok in *. unfold caller_work.
  destruct (ca_pc ca) as [a m|a [|msg todo]|a [|n]|a retry err|err] eqn:Epc; destruct ev as [|e|]; try done.
  - injection E as <-. cbn. destruct (wcf_Async config); lia.
  - injection E as <-. cbn. lia.
  - injection E as <-. cbn. destruct (decide _); lia.
  - destruct (ca_res ca); [done|]. injection E as <-. cbn. lia.
  - injection E as <-. cbn. lia.
  - injection E as <-. cbn. destruct (Z.ltb_spec a (wcf_MaxAttempts config - 1)); [|lia].
    unfold next_attempt. rewrite (proj2 (Z.ltb_lt (a + 1) _)) by lia. lia.
  - injection E as <-. cbn. lia.
  - destruct closed; [|done]. injection E as <-. cbn. lia.
Qed.

Lemma call_lock_work i tr closed attempt msgs ca :
  ca_pc ca = CLock attempt msgs → call_ok config i tr closed ca →
  (S (caller_work (call_lock config attempt msgs closed ca)) ≤ caller_work ca)%nat.
Proof.
  intros E [Hpc _ _ _ _]. unfold pc_ok in Hpc. rewrite E in Hpc. destruct Hpc as (Ha & _ & Hargs).
  apply Permutation_length in Hargs. rewrite !length_app in Hargs. unfold caller_work, call_lock. rewrite E.
  assert (attempts_left attempt = S (attempts_left (attempt + 1))) as -> by (unfold attempts_left; lia).
  destruct closed; [cbn; lia|]. cbn [ca_args ca_pc ca_res].
  pose proof (filter_length_le (λ msg, negb (oversize config msg)) msgs). lia.
Qed.
End calls.

(** ** The system *)

Definition closer_work (cl : wcloser) : nat :=
  match cl with WStart => 3 | WAnnounced => 2 | WJoin => 1 | WReturned => 0 end.

Definition run_work (pc : run_pc) : nat :=
  match pc with RRebalance => 2 | RSelect => 1 | RSend _ _ | RRefuse _ _ => 8 | RReturned => 0 end.

Section progress.
Context {T : Type} `{Balancer T} (config : WriterConfig) (P : T → Prop).
Hypothesis Hchooses : chooses P.

Definition sys_work (s : system T) : nat :=
  8 * length (mn_queue (sy_main s)) + run_work (mn_pc (sy_main s)) + total proc_work (sy_procs s) +
  sum_list (map (caller_work config) (sy_callers s)) + sum_list (map closer_work (sy_closers s)).

(** What an event may add: the partition writers that a rebalance opens. *)
Definition credit (ev : sys_event) : nat :=
  match ev with ERun (RFound (inr new)) => 4 * length new | _ => 0 end.

(** Every event but the ticker. *)
Definition quiet_event (ev : sys_event) : Prop := match ev with ERun RTick => False | _ => True end.

Lemma caller_step_work i ca ca' (s : system T) :
  sy_callers s !! i = Some ca → (S (caller_work config ca') ≤ caller_work config ca)%nat →
  (S (sys_work (set_caller i ca' s)) ≤ sys_work s)%nat.
Proof.
  intros E Hw. unfold sys_work. cbn [set_caller sy_main sy_procs sy_callers sy_closers].
  pose proof (sum_insert (caller_work config) i ca ca' _ E). lia.
Qed.

Lemma call_step_work i ev s s' :
  sys_inv config P s → call_step config i ev s = Some s' → (S (sys_work s') ≤ sys_work s)%nat.
Proof.
  intros Hi E. unfold call_step in E. apply bind_Some in E as (ca & Eca & E).
  pose proof (sv_calls _ _ s Hi _ _ Eca) as Hca.
  assert (∀ ev, (x ← call_local config (mn_closed (sy_main s)) ev ca; Some (set_caller i x s)) = Some s' →
                (S (sys_work s') ≤ sys_work s)%nat) as Hloc.
  { intros ev' E'. apply bind_Some in E' as (ca' & El & [= <-]). eapply caller_step_work; [done|].
    by eapply call_local_work. }
  destruct (ca_pc ca) as [attempt msgs|attempt [|msg todo]|attempt n|attempt retry err|err] eqn:Epc;
    destruct ev as [|e|]; try (by eapply Hloc, E).
  - destruct (existsb _ _); [done|]. injection E as <-. eapply caller_step_work; [done|]. by eapply call_lock_work.
  - pose proof (co_pc _ _ _ _ _ Hca) as Hpc. unfold pc_ok in Hpc. rewrite Epc in Hpc.
    destruct Hpc as (Hcl & _). rewrite Hcl in E. destruct (_ <? _); [|done]. injection E as <-.
    match goal with |- context [set_caller i ?ca' _] => pose proof (sum_insert (caller_work config) i ca ca' _ Eca) as Hs end.
    unfold sys_work. cbn [set_caller set_main with_queue sy_main sy_procs sy_callers sy_closers mn_queue mn_pc].
    rewrite length_app. cbn [length]. unfold caller_work in Hs at 2 4. rewrite Epc in Hs.
    cbn [ca_args ca_pc ca_res length] in Hs. lia.
Qed.

Lemma proc_event_work k ev s s' :
  sys_inv config P s → sys_step config (EProc k ev) s = Some s' → (S (sys_work s') ≤ sys_work s)%nat.
Proof.
  intros Hi E. cbn [sys_step] in E. apply bind_Some in E as (p & Ep & E). apply bind_Some in E as (p' & Ep' & [= <-]).
  assert (S (proc_work p') ≤ proc_work p)%nat as Hw.
  { eapply proc_step_work; [done|eapply Forall_lookup_1; [apply Hi|done]|]. by eapply chan_values. }
  pose proof (procs_total_insert proc_work k p p' _ Ep). unfold sys_work.
  cbn [set_run sy_main sy_procs sy_callers sy_closers]. lia.
Qed.

Lemma deliver_work wm c a cs cs' :
  deliver wm c a cs = Some cs' →
  sum_list (map (caller_work config) cs') = S (sum_list (map (caller_work config) cs)).
Proof.
  unfold deliver. intros E. apply bind_Some in E as (ca & Eca & E). destruct (_ <? _)%nat; [|done]. injection E as <-.
  match goal with |- context [<[_ := ?ca']> _] => pose proof (sum_insert (caller_work config) _ ca ca' _ Eca) as Hs end.
  unfold caller_work in Hs at 2 4. cbn [ca_args ca_pc ca_res] in Hs. rewrite length_app in Hs. cbn [length] in Hs. lia.
Qed.

Ltac work_cbn :=
  unfold sys_work;
  cbn [set_run set_main set_callers set_closers at_run sy_main sy_procs sy_callers sy_closers mn_queue mn_pc run_work].

Lemma reply_work k (s s' : system T) :
  sys_step config (EReply k) s = Some s' → (S (sys_work s') ≤ sys_work s)%nat.
Proof.
  intros E. cbn [sys_step] in E. apply bind_Some in E as (p & Ep & E). destruct (pr_out p) as [|[wm [c a]] out] eqn:Eo; [done|].
  apply bind_Some in E as (cs & Ed & [= <-]). apply deliver_work in Ed.
  pose proof (procs_total_insert proc_work k p (with_out out p) _ Ep) as Ht.
  assert (proc_work p = S (S (proc_work (with_out out p)))) as Hp.
  { unfold proc_work. cbn [with_out pr_chan pr_pw pr_writing pr_out pr_exited pr_close]. rewrite Eo. cbn [length]. lia. }
  work_cbn. lia.
Qed.

Lemma with_close_work p : pr_close p = POpen → (proc_work (with_close PClosing p) ≤ proc_work p)%nat.
Proof. intros E. unfold proc_work. cbn [with_close pr_chan pr_pw pr_writing pr_out pr_exited pr_close]. by rewrite E. Qed.

Lemma run_step_work ev s s' :
  sys_inv config P s → event_ok (ERun ev) → ev ≠ RTick → run_step config ev s = Some s' →
  (S (sys_work s') ≤ sys_work s + credit (ERun ev))%nat.
Proof.
  intros Hi Hev Htick E. pose proof (sv_run _ _ s Hi) as Hr.
  unfold run_step in E. unfold run_ok in Hr. destruct (mn_pc (sy_main s)) as [| |k wm|wm err|] eqn:Epc, ev as [found| |];
    try done.
  - destruct (run_found_ok P Hchooses found _ _ Hr Hev) as (m & procs & n & Ef & Hq & _ & Hpc & Hn & (_ & _ & Ht) & _).
    rewrite Ef in E. injection E as <-. specialize (Ht proc_work with_close_work).
    rewrite proc_work_init in Ht. work_cbn. rewrite Hq, Hpc, Epc. cbn [run_work credit]. destruct found; lia.
  - destruct (mn_queue (sy_main s)) as [|wm q] eqn:Eq.
    + destruct (mn_closed (sy_main s)) eqn:Ecl; [|done].
      destruct (run_end_ok P _ _ Hr Ecl) as (m & procs & Ef & Hq & _ & Hpc & (_ & _ & Ht) & _).
      rewrite Ef in E. injection E as <-. specialize (Ht proc_work with_close_work).
      work_cbn. rewrite Hq, Hpc, Epc, Eq. cbn [run_work length]. lia.
    + destruct (run_take_ok P Hchooses wm q _ _ Hr) as (m & Ef & Hq & _ & Hh & _).
      rewrite Ef in E. injection E as <-. work_cbn. rewrite Hq, Epc, Eq. cbn [run_work length].
      assert (run_work (mn_pc m) ≤ 8)%nat by (destruct (mn_pc m); cbn; lia). lia.
  - destruct (sy_procs s !! k) as [p|] eqn:Ep.
    2: { destruct (ro_send _ _ _ Hr k wm Epc) as [q Hq]. destruct (pa_open _ _ (ro_paired _ _ _ Hr) q k Hq) as (p & Ep' & _).
         congruence. }
    destruct (chan_closed p) eqn:Ec.
    { destruct (ro_send _ _ _ Hr k wm Epc) as [q Hq]. destruct (pa_open _ _ (ro_paired _ _ _ Hr) q k Hq) as (p' & Ep' & Ho).
      simplify_eq. unfold chan_closed in Ec. by rewrite Ho in Ec. }
    destruct (_ <? _); [|done]. injection E as <-.
    pose proof (procs_total_insert proc_work k p (with_chan (pr_chan p ++ [wm]) p) _ Ep) as Ht.
    assert (proc_work (with_chan (pr_chan p ++ [wm]) p) = proc_work p + 6)%nat as Hp.
    { unfold proc_work. cbn [with_chan pr_chan pr_pw pr_writing pr_out pr_exited pr_close]. rewrite length_app. cbn [length]. lia. }
    work_cbn. rewrite Epc. cbn [run_work]. lia.
  - apply bind_Some in E as (cs & Ed & [= <-]). apply deliver_work in Ed. work_cbn. rewrite Epc. cbn [run_work]. lia.
Qed.

Lemma close_step_work i (s s' : system T) : close_step i s = Some s' → (S (sys_work s') ≤ sys_work s)%nat.
Proof.
  intros E. unfold close_step in E. apply bind_Some in E as (cl & Ecl & E).
  assert (∀ cl' closed, (S (closer_work cl') ≤ closer_work cl)%nat →
    (S (sys_work (set_closers (<[i := cl']> (sy_closers s)) closed s)) ≤ sys_work s)%nat) as Hw.
  { intros cl' closed Hle. pose proof (sum_insert closer_work i cl cl' _ Ecl). work_cbn. lia. }
  destruct cl; try done; case_match; try done; injection E as <-; apply Hw; cbn; lia.
Qed.

(** Every event but the ticker decreases the work, up to its credit. *)
Lemma sys_step_work ev s s' :
  sys_inv config P s → event_ok ev → quiet_event ev → sys_step config ev s = Some s' →
  (S (sys_work s') ≤ sys_work s + credit ev)%nat.
Proof.
  intros Hi Hev Hq E. destruct ev as [i ev|i|ev|k ev|k].
  - cbn [credit]. rewrite Nat.add_0_r. by eapply call_step_work.
  - cbn [credit]. rewrite Nat.add_0_r. by eapply close_step_work.
  - eapply run_step_work; try done. by intros ->.
  - cbn [credit]. rewrite Nat.add_0_r. by eapply proc_event_work.
  - cbn [credit]. rewrite Nat.add_0_r. by eapply reply_work.
Qed.

Lemma sys_run_work evs s s' :
  sys_inv config P s → Forall event_ok evs → Forall quiet_event evs → sys_run config evs s = Some s' →
  (length evs + sys_work s' ≤ sys_work s + sum_list (map credit evs))%nat.
Proof.
  intros Hi Hev Hq. revert s Hi. induction evs as [|ev evs IH]; intros s Hi E; cbn in E; [injection E as <-; cbn; lia|].
  apply Forall_cons_1 in Hev as [Hev1 Hev2]. apply Forall_cons_1 in Hq as [Hq1 Hq2].
  apply bind_Some in E as (s1 & E1 & E). pose proof (sys_step_work ev s s1 Hi Hev1 Hq1 E1).
  specialize (IH Hev2 Hq2 s1 (sys_step_inv config P Hchooses _ _ _ Hi Hev1 E1) E). cbn [length].
  change (sum_list (map credit (ev :: evs))) with (credit ev + sum_list (map credit evs))%nat. lia.
Qed.

(** ** Progress *)

(** The events of the goroutines themselves: not the contexts of the callers
    and not the ticker. *)
Definition internal_event (ev : sys_event) : Prop :=
  match ev with ECall _ (CCtx _) | ERun RTick => False | _ => True end.

Definition enabled (s : system T) : Prop :=
  ∃ ev s', internal_event ev ∧ event_ok ev ∧ sys_step config ev s = Some s'.

Definition proc_idle (p : proc) : Prop :=
  proc_load p = [] ∧ (pr_close p = POpen ∨ (pr_close p = PJoined ∧ pr_exited p = true)).

Definition call_returned (ca : caller) : Prop := ∃ err, ca_pc ca = CReturned err.

Lemma or_forall {A} (Q : Prop) (R : A → Prop) l : (∀ i x, l !! i = Some x → Q ∨ R x) → Q ∨ Forall R l.
Proof.
  induction l as [|x l IH]; intros Hl; [by right|]. destruct (Hl 0%nat x eq_refl) as [|Hx]; [by left|].
  destruct IH as [|Hf]; [|by left|by right; constructor]. intros i y Hy. by apply (Hl (S i)).
Qed.

(** Without a timer there is nothing to flush. *)
Lemma timer_off pw :
  (pw_batch pw ≠ [] → pw_timerRunning pw = true) → pw_timerRunning (pw_takeLast pw) = false →
  pw_batch pw = [] ∧ pending pw = [].
Proof.
  intros Ht. unfold pw_takeLast, pending. rewrite takeLast_test. case_bool_decide as Hl; [done|].
  intros Hf. rewrite decide_False by done. split; [|done]. destruct (pw_batch pw); [done|]. rewrite Ht in Hf; done.
Qed.

(** A partition writer can step unless it waits for a message. *)
Lemma proc_progress cfg p :
  proc_ok p → pr_out p ≠ [] ∨ (∃ ev p', proc_step cfg ev p = Some p') ∨ proc_idle p.
Proof.
  intros [Ht Hd He Hj Ho Hw]. destruct (pr_out p) as [|x out] eqn:Eo; [right|by left].
  destruct (pr_writing p) as [|wm b] eqn:Ew.
  2: { left. destruct (writer_write_good cfg (pr_conn p) [] [] (wm :: b)) as (r & Er & _). exists (PWrite [] []).
       eexists. cbn [proc_step]. rewrite Ew, Er. done. }
  destruct (pw_done (pr_pw p)) eqn:Edone.
  - destruct (Hd eq_refl) as (Hch & Hcl & Hb & Hpe). destruct (pr_exited p) eqn:Ex.
    + destruct (pr_close p) eqn:Ec; unfold chan_closed in Hcl; rewrite Ec in Hcl; try done.
      * left. exists PJoin. eexists. cbn. by rewrite Ec, Ex.
      * right. split; [|by right]. unfold proc_load. by rewrite Hch, Hb, Hpe, Ew, Eo.
    + left. exists PExit. eexists. cbn. by rewrite Ew, Eo, Edone, Ex.
  - assert (selecting p = true) as Hs by (by apply selecting_true).
    destruct (pr_chan p) as [|wm chan] eqn:Ech; [|left; exists PMsg; eexists; cbn; by rewrite Ech, Hs].
    destruct (pw_timerRunning (pw_takeLast (pr_pw p))) eqn:Etm; [left; exists PTimer; eexists; cbn; by rewrite Hs, Etm|].
    destruct (timer_off _ Ht Etm) as [Hb Hpe]. destruct (pr_close p) eqn:Ec.
    + right. split; [|by left]. unfold proc_load. by rewrite Ech, Hb, Hpe, Ew, Eo.
    + left. exists PClose. eexists. cbn. by rewrite Ec.
    + left. exists PEnd. eexists. cbn. unfold chan_closed. by rewrite Ech, Hs, Ec.
    + destruct (He (Hj eq_refl)) as [? _]. done.
Qed.

Lemma procs_progress s : sys_inv config P s → enabled s ∨ Forall proc_idle (sy_procs s).
Proof.
  intros Hi. apply or_forall. intros k p Ep. pose proof (Forall_lookup_1 _ _ _ _ (sv_procs _ _ s Hi) Ep) as Hok.
  destruct (proc_progress (pcfg config) p Hok) as [Ho|[(ev & p' & E)|Hidle]]; [left|left|by right].
  - destruct (reply_enabled config P k p s Hi Ep Ho) as (s' & E & _). by exists (EReply k), s'.
  - exists (EProc k ev). eexists. split; [done|]. split; [done|]. cbn [sys_step]. rewrite Ep. cbn [mbind option_bind].
    rewrite E. done.
Qed.

Hypothesis Hcapacity : 1 ≤ wcf_QueueCapacity config.

Lemma len_0_lt {A} : (len (@nil A) <? wcf_QueueCapacity config) = true.
Proof. apply Z.ltb_lt. rewrite len_nil. lia. Qed.

Lemma idle_chan p : proc_idle p → pr_chan p = [].
Proof. intros [Hl _]. unfold proc_load in Hl. by apply app_nil in Hl as [? _]. Qed.

Lemma idle_loads procs : Forall proc_idle procs → concat (map proc_load procs) = [].
Proof. induction 1 as [|p procs [Hl _] _ IH]; [done|]. cbn. by rewrite Hl, IH. Qed.

(** [Writer.run] can step unless the queue is empty. *)
Lemma run_progress s :
  sys_inv config P s → Forall proc_idle (sy_procs s) →
  enabled s ∨ (transit s = [] ∧ mn_queue (sy_main s) = [] ∧
               (mn_closed (sy_main s) = true → mn_pc (sy_main s) = RReturned)).
Proof.
  intros Hi Hidle. pose proof (sv_run _ _ s Hi) as Hr. unfold run_ok in Hr.
  assert (∀ ev s', ev ≠ RTick → event_ok (ERun ev) → run_step config ev s = Some s' → enabled s) as Hen.
  { intros ev s' Hne Hok E. exists (ERun ev), s'. by destruct ev. }
  destruct (mn_pc (sy_main s)) as [| |k wm|wm err|] eqn:Epc.
  - left. eapply (Hen (RFound (inl EOF))); [done|by intros ?|]. unfold run_step. by rewrite Epc.
  - destruct (mn_queue (sy_main s)) as [|wm q] eqn:Eq.
    + destruct (mn_closed (sy_main s)) eqn:Ecl.
      * left. eapply (Hen RGo); [done|done|]. unfold run_step. by rewrite Epc, Eq, Ecl.
      * right. split; [|done]. unfold transit. by rewrite Eq, Epc, idle_loads.
    + left. eapply (Hen RGo); [done|done|]. unfold run_step. by rewrite Epc, Eq.
  - left. destruct (ro_send _ _ _ Hr k wm Epc) as [q Hq]. destruct (pa_open _ _ (ro_paired _ _ _ Hr) q k Hq) as (p & Ep & Ho).
    eapply (Hen RGo); [done|done|]. unfold run_step, chan_closed. rewrite Epc, Ep, Ho.
    rewrite idle_chan by (by eapply Forall_lookup_1). by rewrite len_0_lt.
  - left. destruct (sys_inv_answered config P wm (Some (wm_msg wm, err)) (at_run RSelect (sy_main s)) (sy_procs s) s)
      as (i & ca & ca' & Hd & _); try done.
    + by intros ? ? [= <- _].
    + unfold transit. rewrite Epc. cbn. by rewrite <- Permutation_middle.
    + apply Hi.
    + cbn. by apply running_pc.
    + eapply (Hen RGo); [done|done|]. unfold run_step. by rewrite Epc, Hd.
  - right. destruct Hr as (_ & Hq & _). split; [|done]. unfold transit. by rewrite Hq, Epc, idle_loads.
Qed.

(** A call can step unless it waits for the lock. *)
Lemma calls_progress s :
  sys_inv config P s → transit s = [] → mn_queue (sy_main s) = [] →
  enabled s ∨ Forall (λ ca, call_returned ca ∨ (reading ca = false ∧ existsb announced (sy_closers s) = true))
                (sy_callers s).
Proof.
  intros Hi Htr Hq. apply or_forall. intros i ca Eca. pose proof (sv_calls _ _ s Hi _ _ Eca) as Hca.
  pose proof (co_pc _ _ _ _ _ Hca) as Hpc. unfold pc_ok in Hpc.
  assert (∀ s', call_step config i CGo s = Some s' → enabled s) as Hen.
  { intros s' E. by exists (ECall i CGo), s'. }
  unfold call_step in Hen. rewrite Eca in Hen. cbn [mbind option_bind] in Hen. unfold call_returned, reading.
  destruct (ca_pc ca) as [attempt msgs|attempt [|msg todo]|attempt [|n]|attempt retry err|err] eqn:Epc.
  - destruct (existsb announced (sy_closers s)); [right; by right|left; by eapply Hen].
  - left. eapply Hen. unfold call_local. by rewrite Epc.
  - left. destruct Hpc as (Hcl & _). rewrite Hcl, Hq, len_0_lt in Hen. by eapply Hen.
  - left. eapply Hen. unfold call_local. by rewrite Epc.
  - left. destruct Hpc as (_ & Hn & _). unfold owed, mine in Hn. rewrite Htr in Hn. cbn in Hn. rewrite length_map in Hn.
    destruct (ca_res ca) as [|x res] eqn:Er; [done|]. eapply Hen. unfold call_local. by rewrite Epc, Er.
  - left. eapply Hen. unfold call_local. by rewrite Epc.
  - right. left. by eexists.
Qed.

(** When nothing can step, every call has returned. *)
Lemma sys_progress s :
  sys_inv config P s →
  enabled s ∨ (Forall call_returned (sy_callers s) ∧ Forall (eq WReturned) (sy_closers s) ∧ transit s = [] ∧
               (mn_closed (sy_main s) = true →
                mn_pc (sy_main s) = RReturned ∧ Forall (λ p, pr_exited p = true) (sy_procs s))).
Proof.
  intros Hi. destruct (procs_progress s Hi) as [|Hidle]; [by left|].
  destruct (run_progress s Hi Hidle) as [|(Htr & Hq & Hrun)]; [by left|].
  destruct (calls_progress s Hi Htr Hq) as [|Hcalls]; [by left|].
  assert (mn_closed (sy_main s) = true →
    mn_pc (sy_main s) = RReturned ∧ Forall (λ p, pr_close p = PJoined ∧ pr_exited p = true) (sy_procs s)) as Hend.
  { intros Hc. split; [by apply Hrun|]. pose proof (sv_run _ _ s Hi) as Hr. unfold run_ok in Hr. rewrite Hrun in Hr by done.
    destruct Hr as (_ & _ & Hf). apply Forall_lookup. intros k p Ep.
    eapply Forall_lookup_1 in Hf; [|done]. eapply Forall_lookup_1 in Hidle as [_ Hp]; [|done]. tauto. }
  assert (∀ i s', close_step i s = Some s' → enabled s) as Hen by (intros i s' E; by exists (EClose i), s').
  destruct (or_forall (enabled s) (λ cl, cl = WReturned ∨ cl = WStart ∧ existsb announced (sy_closers s) = true) (sy_closers s))
    as [|Hcls]; [|by left|].
  { intros i cl Ecl. unfold close_step in Hen. specialize (Hen i). rewrite Ecl in Hen. cbn [mbind option_bind] in Hen.
    destruct cl; [| | |right; by left].
    - destruct (existsb announced (sy_closers s)); [right; by right|]. left. by eapply Hen.
    - left. eapply Hen. replace (existsb reading (sy_callers s)) with false; [done|]. symmetry. apply not_true_iff_false.
      intros (ca & Hin & Hre)%existsb_exists. apply list_elem_of_In in Hin.
      rewrite Forall_forall in Hcalls. destruct (Hcalls ca Hin) as [[err E]|[Hre' _]]; [|congruence].
      unfold reading in Hre. by rewrite E in Hre.
    - left. eapply Hen. replace (joined s) with true; [done|]. symmetry.
      pose proof (Forall_lookup_1 _ _ _ _ (sv_closers _ _ s Hi) Ecl (or_introl eq_refl)) as Hc.
      destruct (Hend Hc) as [Hret Hall]. unfold joined. rewrite Hret. cbn. apply forallb_forall. intros p Hp.
      apply list_elem_of_In in Hp. rewrite Forall_forall in Hall. by destruct (Hall p Hp) as [-> _]. }
  assert (existsb announced (sy_closers s) = false) as Hann.
  { apply not_true_iff_false. intros (cl & Hin & Ha)%existsb_exists. apply list_elem_of_In in Hin.
    rewrite Forall_forall in Hcls. destruct (Hcls cl Hin) as [->|[-> _]]; done. }
  right. rewrite Hann in *. split; [|split; [|split; [done|]]].
  - eapply Forall_impl; [done|]. intros ca [|[_ ?]]; done.
  - eapply Forall_impl; [done|]. intros cl [|[_ ?]]; done.
  - intros Hc. destruct (Hend Hc) as [? Hall]. split; [done|]. eapply Forall_impl; [done|]. tauto.
Qed.
End progress.
