(* ===== verification/ReaderConfig.v ===== *)
(** * The configuration of a reader ([ReaderConfig] and [NewReader], reader.go)

    A [panic] of the constructor is a [Failed (GoPanic _)].  The dialer and
    the loggers of the configuration are not part of the model. *)

From S2P Require Import Prelude Errors Time Read ConnOps GroupBalancer Writer.

Record ReaderConfig : Type := {
  rc_Brokers : list gostring;
  rc_GroupID : gostring;
  rc_Topic : gostring;
  rc_Partition : Z;
  rc_QueueCapacity : Z;
  rc_MinBytes : Z;
  rc_MaxBytes : Z;
  rc_MaxWait : Z;
  rc_ReadLagInterval : Z;
  rc_GroupBalancers : list GroupBalancer;
  rc_HeartbeatInterval : Z;
  rc_CommitInterval : Z;
  rc_PartitionWatchInterval : Z;
  rc_WatchPartitionChanges : bool;
  rc_SessionTimeout : Z;
  rc_RebalanceTimeout : Z;
  rc_RetentionTime : Z;
  rc_AutoOffsetReset : Z;
}.

Definition useConsumerGroup (config : ReaderConfig) : bool := bool_decide (rc_GroupID config ≠ []).
Definition useSyncCommits (config : ReaderConfig) : bool := rc_CommitInterval config =? 0.

Definition defaultCommitRetries : nat := 3.
Definition defaultHeartbeatInterval : Z := 3 * Time.Second.
Definition defaultSessionTimeout : Z := 30 * Time.Second.
Definition defaultRebalanceTimeout : Z := 30 * Time.Second.
Definition defaultRetentionTime : Z := 3600 * 24 * Time.Second.
Definition defaultPartitionWatchTime : Z := 5 * Time.Second.

(** [if guard { panic(what) }]. *)
Definition panic_if (guard : bool) (what : string) : outcome unit :=
  if guard then Failed (GoPanic what) else Done tt.

(** A duration that does not fit an int32 of milliseconds. *)
Definition out_of_range (d : Z) : bool :=
  (d <? 0) || (Z.quot d Time.Millisecond >=? 2 ^ 31 - 1).

Section new_reader.
(** [RangeGroupBalancer{}] and [RoundRobinGroupBalancer{}]. *)
Context (defaultBalancers : list GroupBalancer).

(** The checks made only for a consumer group, and its default balancers. *)
Definition NewReader_group (config : ReaderConfig) : outcome (list GroupBalancer) :=
  if useConsumerGroup config then
    let balancers := match rc_GroupBalancers config with [] => defaultBalancers | bs => bs end in
    _ ← panic_if (out_of_range (rc_HeartbeatInterval config)) "HeartbeatInterval out of bounds";
    _ ← panic_if (out_of_range (rc_SessionTimeout config)) "SessionTimeout out of bounds";
    _ ← panic_if (out_of_range (rc_RebalanceTimeout config)) "RebalanceTimeout out of bounds";
    _ ← panic_if (rc_RetentionTime config <? 0) "RetentionTime out of bounds";
    _ ← panic_if (out_of_range (rc_CommitInterval config)) "CommitInterval out of bounds";
    _ ← panic_if (out_of_range (rc_PartitionWatchInterval config)) "PartitionWachInterval out of bounds";
    Done balancers
  else Done (rc_GroupBalancers config).

Definition NewReader_config (config : ReaderConfig) : outcome ReaderConfig :=
  _ ← panic_if (bool_decide (rc_Brokers config = []))
        "cannot create a new kafka reader with an empty list of broker addresses";
  _ ← panic_if (bool_decide (rc_Topic config = [])) "cannot create a new kafka reader with an empty topic";
  _ ← panic_if ((rc_Partition config <? 0) || (rc_Partition config >=? 2 ^ 31 - 1))
        "partition number out of bounds";
  _ ← panic_if (rc_MinBytes config <? 0) "invalid negative minimum batch size";
  _ ← panic_if (rc_MaxBytes config <? 0) "invalid negative maximum batch size";
  _ ← panic_if (useConsumerGroup config && negb (rc_Partition config =? 0))
        "either Partition or GroupID may be specified, but not both";
  balancers ← NewReader_group config;
  let maxBytes := or_default (rc_MaxBytes config) 1000000 in
  let minBytes := or_default (rc_MinBytes config) maxBytes in
  _ ← panic_if (minBytes >? maxBytes) "minimum batch size greater than the maximum";
  Done {|
    rc_Brokers := rc_Brokers config;
    rc_GroupID := rc_GroupID config;
    rc_Topic := rc_Topic config;
    rc_Partition := rc_Partition config;
    rc_QueueCapacity := or_default (rc_QueueCapacity config) 100;
    rc_MinBytes := minBytes;
    rc_MaxBytes := maxBytes;
    rc_MaxWait := or_default (rc_MaxWait config) (10 * Time.Second);
    rc_ReadLagInterval := or_default (rc_ReadLagInterval config) (60 * Time.Second);
    rc_GroupBalancers := balancers;
    rc_HeartbeatInterval := or_default (rc_HeartbeatInterval config) defaultHeartbeatInterval;
    rc_CommitInterval := rc_CommitInterval config;
    rc_PartitionWatchInterval := or_default (rc_PartitionWatchInterval config) defaultPartitionWatchTime;
    rc_WatchPartitionChanges := rc_WatchPartitionChanges config;
    rc_SessionTimeout := or_default (rc_SessionTimeout config) defaultSessionTimeout;
    rc_RebalanceTimeout := or_default (rc_RebalanceTimeout config) defaultRebalanceTimeout;
    rc_RetentionTime := or_default (rc_RetentionTime config) defaultRetentionTime;
    rc_AutoOffsetReset := if rc_AutoOffsetReset config =? LastOffset then LastOffset else FirstOffset;
  |}.
End new_reader.

(** ** What the constructor guarantees *)

(** The milliseconds of a duration fit an int32 that is positive. *)
Definition millis_fit (d : Z) : Prop := 0 < d ∧ int32 (Z.quot d Time.Millisecond) = Z.quot d Time.Millisecond.

Record reader_config_ok (config : ReaderConfig) : Prop := {
  rok_brokers : rc_Brokers config ≠ [];
  rok_topic : rc_Topic config ≠ [];
  rok_partition : is_int32 (rc_Partition config) ∧ 0 ≤ rc_Partition config;
  rok_bytes : 0 < rc_MinBytes config ≤ rc_MaxBytes config;
  rok_group : useConsumerGroup config = true → rc_Partition config = 0;
  rok_timeouts : useConsumerGroup config = true →
    millis_fit (rc_HeartbeatInterval config) ∧ millis_fit (rc_SessionTimeout config) ∧
    millis_fit (rc_RebalanceTimeout config) ∧ millis_fit (rc_PartitionWatchInterval config) ∧
    0 < rc_RetentionTime config ∧ 0 ≤ rc_CommitInterval config;
  rok_reset : rc_AutoOffsetReset config = FirstOffset ∨ rc_AutoOffsetReset config = LastOffset;
}.

Lemma panic_if_Done {A} guard what (f : unit → outcome A) a :
  (panic_if guard what ≫= f) = Done a → guard = false ∧ f tt = Done a.
Proof. by destruct guard. Qed.

Lemma out_of_range_fit d default :
  out_of_range d = false → millis_fit default → millis_fit (or_default d default).
Proof.
  unfold out_of_range, or_default, millis_fit. intros [Hd Hq]%orb_false_iff Hdef.
  destruct (Z.eqb_spec d 0); [done|]. split; [lia|]. apply wrapS_id; [lia|].
  unfold inS, Time.Millisecond in *. dlia.
Qed.

Ltac panics := repeat match goal with
  | H : (panic_if _ _ ≫= _) = Done _ |- _ => apply panic_if_Done in H as [? H]
  end.

Lemma out_of_range_nonneg d : out_of_range d = false → 0 ≤ d.
Proof. unfold out_of_range. intros [? _]%orb_false_iff. lia. Qed.

Lemma NewReader_group_valid defaults config bs :
  NewReader_group defaults config = Done bs → useConsumerGroup config = true →
  out_of_range (rc_HeartbeatInterval config) = false ∧ out_of_range (rc_SessionTimeout config) = false ∧
  out_of_range (rc_RebalanceTimeout config) = false ∧
  out_of_range (rc_PartitionWatchInterval config) = false ∧
  0 ≤ rc_RetentionTime config ∧ 0 ≤ rc_CommitInterval config.
Proof.
  unfold NewReader_group. intros H Hg. rewrite Hg in H. cbn zeta in H. panics.
  repeat (split; [done || lia|]). by apply out_of_range_nonneg.
Qed.

Lemma NewReader_config_valid defaults config config' :
  NewReader_config defaults config = Done config' → reader_config_ok config'.
Proof.
  unfold NewReader_config. intros H.
  apply panic_if_Done in H as [Hb H]. apply panic_if_Done in H as [Ht H].
  apply panic_if_Done in H as [[Hp1 Hp2]%orb_false_iff H].
  apply panic_if_Done in H as [Hmin H]. apply panic_if_Done in H as [Hmax H].
  apply panic_if_Done in H as [Hgp H].
  destruct (NewReader_group defaults config) as [bs| |] eqn:Hg; [|done|done].
  rewrite outcome_bind_done in H. cbn zeta in H. apply panic_if_Done in H as [Hle H].
  apply Done_inj in H as <-. rewrite bool_decide_eq_false in Hb, Ht.
  split; cbn; try done.
  - unfold inS. lia.
  - unfold or_default in *. repeat case_match; lia.
  - intros E. change (useConsumerGroup config = true) in E. rewrite E in Hgp. cbn in Hgp. lia.
  - intros E. destruct (NewReader_group_valid _ _ _ Hg E) as (? & ? & ? & ? & ? & ?).
    repeat (split; [apply out_of_range_fit; [done|split; vm_compute; reflexivity]|]).
    split; [|done]. unfold or_default.
    destruct (Z.eqb_spec (rc_RetentionTime config) 0); [vm_compute; reflexivity|lia].
  - case_match; auto.
Qed.
