(* ===== verification/Commits.v ===== *)
(** * Committing offsets (commit.go and the commit loops of reader.go)

    A [offsetStash] is a map of maps.  Go ranges over maps in an unspecified
    order: the functions that do take the order as an argument.  The clock,
    the closing of the reader and the order of each attempt come from a
    [commit_env]. *)

From S2P Require Import Prelude Errors Time Read Messages OffsetMessages Conn ConnOps.
From S2P Require Import Writer ReaderConfig.

(** ** commit.go *)

Record commit : Type := { co_topic : gostring; co_partition : Z; co_offset : Z }.

Definition makeCommit (msg : Message) : commit :=
  {| co_topic := msg_Topic msg; co_partition := msg_Partition msg;
     co_offset := int64 (msg_Offset msg + 1) |}.

Definition makeCommits (msgs : list Message) : list commit := map makeCommit msgs.

(** ** [offsetStash] *)

Abbreviation offsetStash := (gmap gostring (gmap Z Z)).

Definition stash_get (o : offsetStash) (topic : gostring) (partition : Z) : option Z :=
  o !! topic ≫= (.!! partition).

(** The body of the loop of [merge]. *)
Definition merge_one (o : offsetStash) (c : commit) : offsetStash :=
  let offsetsByPartition := default ∅ (o !! co_topic c) in
  let offsetsByPartition :=
    match offsetsByPartition !! co_partition c with
    | Some offset =>
      if co_offset c >? offset then <[co_partition c := co_offset c]> offsetsByPartition
      else offsetsByPartition
    | None => <[co_partition c := co_offset c]> offsetsByPartition
    end in
  <[co_topic c := offsetsByPartition]> o.

Definition stash_merge (o : offsetStash) (commits : list commit) : offsetStash :=
  foldl merge_one o commits.

(** [reset] deletes every key. *)
Definition stash_reset (o : offsetStash) : offsetStash :=
  foldl (λ o key, delete key o) o (map_to_list o).*1.

(** ** [commitOffsets] *)

(** What [membership] returns, and the two fields of the configuration. *)
Record member : Type := {
  mb_GroupID : gostring;
  mb_generationID : Z;
  mb_memberID : gostring;
  mb_RetentionTime : Z;
}.

Abbreviation stash_order := (list (gostring * list (Z * Z))).

(** One of the orders in which Go may range over the two levels. *)
Definition ranges_stash (order : stash_order) (o : offsetStash) : Prop :=
  ∃ l, l ≡ₚ map_to_list o ∧
    Forall2 (λ e e' : gostring * _, e.1 = e'.1 ∧ e.2 ≡ₚ map_to_list e'.2) order l.

Definition commitRequestOf (m : member) (order : stash_order) : offsetCommitRequestV2 :=
  {| ocr_GroupID := mb_GroupID m;
     ocr_GenerationID := mb_generationID m;
     ocr_MemberID := mb_memberID m;
     ocr_RetentionTime := Z.quot (mb_RetentionTime m) Time.Millisecond;
     ocr_Topics := map (λ e, {| ocrt_Topic := e.1;
       ocrt_Partitions := map (λ po, {| ocrp_Partition := int32 po.1; ocrp_Offset := po.2;
                                        ocrp_Metadata := [] |}) e.2 |}) order |}.

(** The interface [offsetCommitter], which a connection implements. *)
Class OffsetCommitter (T : Type) : Type :=
  committer_offsetCommit : offsetCommitRequestV2 → T → outcome offsetCommitResponseV2 * T.

#[global] Instance conn_offsetCommitter : OffsetCommitter conn := offsetCommit.

(** What the world does during a commit: whether the pause before an attempt
    ends before the reader is closed, and the order of the maps. *)
Record commit_env : Type := {
  ce_sleep : nat → bool;
  ce_order : nat → offsetStash → stash_order;
}.

(** The environments that Go allows. *)
Definition commit_env_ok (env : commit_env) : Prop :=
  ∀ attempt o, ranges_stash (ce_order env attempt o) o.

Section commit.
Context `{OffsetCommitter T}.

Definition commitOffsets (m : member) (order : stash_order) (o : offsetStash) (conn : T) : outcome unit * T :=
  if decide (o = ∅) then (Done tt, conn)
  else
    match committer_offsetCommit (commitRequestOf m order) conn with
    | (Done _, conn) => (Done tt, conn)
    | (Failed err, conn) => (Failed (Errorf "unable to commit offsets for group" 0), conn)
    | (Diverged, conn) => (Diverged, conn)
    end.

(** The loop, with the number of attempts left and the last error. *)
Fixpoint commit_loop (env : commit_env) (m : member) (o : offsetStash) (tries attempt : nat)
    (err : option goerror) (conn : T) : outcome (option goerror) * T :=
  match tries with
  | 0%nat => (Done err, conn)
  | S tries =>
    if negb (attempt =? 0)%nat && negb (ce_sleep env attempt) then (Done err, conn)
    else
      match commitOffsets m (ce_order env attempt o) o conn with
      | (Done _, conn) => (Done None, conn)
      | (Failed err, conn) => commit_loop env m o tries (S attempt) (Some err) conn
      | (Diverged, conn) => (Diverged, conn)
      end
  end.

Definition commitOffsetsWithRetry (env : commit_env) (m : member) (o : offsetStash) (retries : nat)
    (conn : T) : outcome (option goerror) * T :=
  commit_loop env m o retries 0 None conn.

(** ** The two commit loops *)

(** What the [select] of a loop takes.  A request carries the identity of
    its [errch]; [member] is the membership during the commit. *)
Inductive commit_event : Type :=
| CRequest (commits : list commit) (errch : Z) (env : commit_env) (m : member)
| CTick (env : commit_env) (m : member)
| CStop (env : commit_env) (m : member).

(** The state of a loop.  [cl_answers] is what was sent on the error
    channels and [cl_committed] every stash whose commit succeeded. *)
Record commit_state : Type := {
  cl_stash : offsetStash;
  cl_conn : T;
  cl_stopped : bool;
  cl_answers : list (Z * option goerror);
  cl_committed : list offsetStash;
}.

Definition commit_init (stash : offsetStash) (conn : T) : commit_state :=
  {| cl_stash := stash; cl_conn := conn; cl_stopped := false; cl_answers := []; cl_committed := [] |}.

Definition committed_if (err : option goerror) (o : offsetStash) (l : list offsetStash) : list offsetStash :=
  match err with None => l ++ [o] | Some _ => l end.

(** [commitLoopImmediate]: one iteration. *)
Definition immediate_step (s : commit_state) (ev : commit_event) : outcome commit_state :=
  match ev with
  | CStop _ _ =>
    Done {| cl_stash := cl_stash s; cl_conn := cl_conn s; cl_stopped := true;
            cl_answers := cl_answers s; cl_committed := cl_committed s |}
  | CTick _ _ => Done s
  | CRequest commits errch env m =>
    let o := stash_merge (cl_stash s) commits in
    match commitOffsetsWithRetry env m o defaultCommitRetries (cl_conn s) with
    | (Done err, conn) =>
      Done {| cl_stash := stash_reset o; cl_conn := conn; cl_stopped := false;
              cl_answers := cl_answers s ++ [(errch, err)];
              cl_committed := committed_if err o (cl_committed s) |}
    | (Failed e, _) => Failed e
    | (Diverged, _) => Diverged
    end
  end.

(** The closure [commit] of [commitLoopInterval]. *)
Definition interval_commit (stop : bool) (env : commit_env) (m : member) (s : commit_state) :
    outcome commit_state :=
  match commitOffsetsWithRetry env m (cl_stash s) defaultCommitRetries (cl_conn s) with
  | (Done err, conn) =>
    Done {| cl_stash := match err with Some _ => cl_stash s | None => stash_reset (cl_stash s) end;
            cl_conn := conn; cl_stopped := stop; cl_answers := cl_answers s;
            cl_committed := committed_if err (cl_stash s) (cl_committed s) |}
  | (Failed e, _) => Failed e
  | (Diverged, _) => Diverged
  end.

(** [commitLoopInterval]: one iteration. *)
Definition interval_step (s : commit_state) (ev : commit_event) : outcome commit_state :=
  match ev with
  | CStop env m => interval_commit true env m s
  | CTick env m => interval_commit false env m s
  | CRequest commits _ _ _ =>
    Done {| cl_stash := stash_merge (cl_stash s) commits; cl_conn := cl_conn s; cl_stopped := false;
            cl_answers := cl_answers s; cl_committed := cl_committed s |}
  end.

Fixpoint commit_run (step : commit_state → commit_event → outcome commit_state)
    (s : commit_state) (evs : list commit_event) : outcome commit_state :=
  match evs with
  | [] => Done s
  | ev :: evs => if cl_stopped s then Done s else s ← step s ev; commit_run step s evs
  end.

(** [commitLoop]. *)
Definition commitLoop (config : ReaderConfig) (stash : offsetStash) (conn : T) (evs : list commit_event) :
    outcome commit_state :=
  if rc_CommitInterval config =? 0 then commit_run immediate_step (commit_init ∅ conn) evs
  else commit_run interval_step (commit_init stash conn) evs.
End commit.
Arguments commit_state T : clear implicits.

(** ** Lemmas on the stash *)

(** The newest of an offset and the ones that follow. *)
Definition newest (x : option Z) (y : Z) : option Z :=
  Some (match x with Some x => Z.max x y | None => y end).

Lemma merge_one_alter o c :
  merge_one o c = partial_alter (λ m, Some (partial_alter (λ x, newest x (co_offset c)) (co_partition c)
                                             (default ∅ m))) (co_topic c) o.
Proof.
  unfold merge_one. apply map_eq. intros t. destruct (decide (t = co_topic c)) as [->|Hne].
  - rewrite lookup_insert_eq, lookup_partial_alter_eq. f_equal.
    set (m := default ∅ (o !! co_topic c)). apply map_eq. intros p.
    destruct (decide (p = co_partition c)) as [->|Hp].
    + rewrite lookup_partial_alter_eq. unfold newest. destruct (m !! co_partition c) as [x|] eqn:E.
      * destruct (Z.gtb_spec (co_offset c) x) as [H|H].
        -- rewrite lookup_insert_eq. f_equal. lia.
        -- rewrite E. f_equal. lia.
      * by rewrite lookup_insert_eq.
    + rewrite lookup_partial_alter_ne by done.
      destruct (m !! co_partition c); [destruct (_ >? _)|]; by rewrite ?lookup_insert_ne by done.
  - by rewrite lookup_insert_ne, lookup_partial_alter_ne by done.
Qed.

Lemma merge_one_comm o c1 c2 : merge_one (merge_one o c1) c2 = merge_one (merge_one o c2) c1.
Proof.
  rewrite !merge_one_alter. destruct (decide (co_topic c1 = co_topic c2)) as [E|Hne].
  - rewrite E, !partial_alter_partial_alter_eq. apply partial_alter_ext. intros m _. cbn. f_equal.
    destruct (decide (co_partition c1 = co_partition c2)) as [Ep|Hp].
    + rewrite Ep, !partial_alter_partial_alter_eq. apply partial_alter_ext. intros x _. cbn.
      unfold newest. f_equal. destruct x; lia.
    + by apply partial_alter_partial_alter_ne.
  - by apply partial_alter_partial_alter_ne.
Qed.

Lemma stash_merge_perm o cs cs' : cs ≡ₚ cs' → stash_merge o cs = stash_merge o cs'.
Proof.
  intros Hp. revert o. unfold stash_merge.
  induction Hp as [|c cs cs' _ IH|c1 c2 cs|cs1 cs2 cs3 _ IH1 _ IH2]; intros o; cbn.
  - done.
  - by rewrite IH.
  - by rewrite merge_one_comm.
  - by rewrite IH1, IH2.
Qed.

Lemma stash_get_merge_one o c t p :
  stash_get (merge_one o c) t p =
    if decide (t = co_topic c ∧ p = co_partition c) then newest (stash_get o t p) (co_offset c)
    else stash_get o t p.
Proof.
  rewrite merge_one_alter. unfold stash_get. destruct (decide (t = co_topic c)) as [->|Ht].
  - rewrite lookup_partial_alter_eq. cbn [mbind option_bind].
    destruct (decide (p = co_partition c)) as [->|Hp].
    + rewrite lookup_partial_alter_eq, decide_True by done. by destruct (o !! co_topic c).
    + rewrite lookup_partial_alter_ne by done. rewrite decide_False by naive_solver.
      by destruct (o !! co_topic c).
  - rewrite lookup_partial_alter_ne by done. by rewrite decide_False by naive_solver.
Qed.

(** The offsets that the commits give to a partition. *)
Definition offsets_for (t : gostring) (p : Z) (cs : list commit) : list Z :=
  map co_offset (filter (λ c, t = co_topic c ∧ p = co_partition c) cs).

Lemma stash_get_merge o cs t p :
  stash_get (stash_merge o cs) t p = foldl newest (stash_get o t p) (offsets_for t p cs).
Proof.
  revert o. induction cs as [|c cs IH]; intros o; [done|]. cbn [stash_merge foldl].
  fold (stash_merge (merge_one o c) cs). rewrite IH, stash_get_merge_one.
  unfold offsets_for. rewrite filter_cons. by case_decide.
Qed.

Lemma stash_reset_empty o : stash_reset o = ∅.
Proof.
  unfold stash_reset. apply map_eq. intros k. rewrite lookup_empty.
  assert (∀ ks (m : offsetStash), m !! k = None ∨ k ∈ ks →
    foldl (λ m key, delete key m) m ks !! k = None) as H.
  { induction ks as [|k' ks IH]; intros m [Hm|Hin]; cbn; [done|by apply elem_of_nil in Hin| |].
    - apply IH. left. rewrite lookup_delete_None. by right.
    - apply IH. apply elem_of_cons in Hin as [->|Hin]; [left; apply lookup_delete_eq|by right]. }
  apply H. destruct (o !! k) as [v|] eqn:E; [right|by left].
  apply list_elem_of_fmap. exists (k, v). split; [done|]. by apply elem_of_map_to_list.
Qed.

(** *** A stash covers a commit *)

Definition covers (o : offsetStash) (c : commit) : Prop :=
  ∃ x, stash_get o (co_topic c) (co_partition c) = Some x ∧ co_offset c ≤ x.

Lemma covers_merge_old o cs c : covers o c → covers (stash_merge o cs) c.
Proof.
  revert o. induction cs as [|c' cs IH]; intros o Hc; [done|]. apply IH. destruct Hc as (x & Hx & Hle).
  unfold covers. rewrite stash_get_merge_one, Hx. case_decide; unfold newest; eexists; (split; [done|lia]).
Qed.

Lemma covers_merge_new o cs c : c ∈ cs → covers (stash_merge o cs) c.
Proof.
  revert o. induction cs as [|c' cs IH]; intros o Hc; [by apply elem_of_nil in Hc|].
  apply elem_of_cons in Hc as [<-|Hc]; [|by apply IH].
  apply (covers_merge_old (merge_one o c)). unfold covers. rewrite stash_get_merge_one.
  rewrite decide_True by done. unfold newest. eexists; split; [done|]. case_match; lia.
Qed.

(** Every offset of a stash is the offset of one of the commits. *)
Definition only_from (o : offsetStash) (cs : list commit) : Prop :=
  ∀ t p x, stash_get o t p = Some x → ∃ c, c ∈ cs ∧ co_topic c = t ∧ co_partition c = p ∧ co_offset c = x.

Lemma only_from_empty cs : only_from ∅ cs.
Proof. intros t p x. unfold stash_get. by rewrite lookup_empty. Qed.

Lemma only_from_weaken o cs cs' : only_from o cs → cs ⊆ cs' → only_from o cs'.
Proof. intros Ho Hs t p x (c & Hc & ?)%Ho. exists c. split; [by apply Hs|done]. Qed.

Lemma only_from_merge o cs cs' : only_from o cs → only_from (stash_merge o cs') (cs ++ cs').
Proof.
  revert o cs. induction cs' as [|c cs' IH]; intros o cs Ho; [by rewrite app_nil_r|].
  replace (cs ++ c :: cs') with ((cs ++ [c]) ++ cs') by (by rewrite <- app_assoc).
  apply (IH (merge_one o c)). intros t p x. rewrite stash_get_merge_one.
  assert (∀ y, stash_get o t p = Some y →
    ∃ c', c' ∈ cs ++ [c] ∧ co_topic c' = t ∧ co_partition c' = p ∧ co_offset c' = y) as Hold.
  { intros y (c' & Hc' & ?)%Ho. exists c'. split; [|done]. apply elem_of_app. by left. }
  case_decide as Hd; [|apply Hold]. destruct Hd as [-> ->]. unfold newest. intros [= <-].
  destruct (stash_get o _ _) as [y|] eqn:E.
  - destruct (Z.max_spec y (co_offset c)) as [[_ ->]|[_ ->]]; [|by apply Hold].
    exists c. split; [apply elem_of_app; right; by apply list_elem_of_singleton|done].
  - exists c. split; [apply elem_of_app; right; by apply list_elem_of_singleton|done].
Qed.

(** ** Lemmas on the request *)

(** What a request asks the broker to store. *)
Definition request_entries (req : offsetCommitRequestV2) : list (gostring * Z * Z) :=
  concat (map (λ t, map (λ p, (ocrt_Topic t, ocrp_Partition p, ocrp_Offset p)) (ocrt_Partitions t))
            (ocr_Topics req)).

Lemma request_entries_elem m order o t p x :
  ranges_stash order o →
  (t, p, x) ∈ request_entries (commitRequestOf m order) ↔ ∃ p', stash_get o t p' = Some x ∧ p = int32 p'.
Proof.
  intros (l & Hl & H2). unfold request_entries, commitRequestOf. cbn [ocr_Topics]. rewrite map_map. cbn.
  assert ((t, p, x) ∈ concat (map (λ e : gostring * list (Z * Z),
            map (λ po, (e.1, int32 po.1, po.2)) e.2) order)
          ↔ ∃ ps p', (t, ps) ∈ l ∧ ps !! p' = Some x ∧ p = int32 p') as Hel.
  { clear Hl. induction H2 as [|e e' order l [He1 He2] _ IH]; cbn.
    { split; [by intros ?%elem_of_nil|]. by intros (? & ? & ?%elem_of_nil & _). }
    rewrite elem_of_app, IH. setoid_rewrite elem_of_cons. split.
    - intros [Hin|(ps & p' & Hin & ?)].
      + apply list_elem_of_In, in_map_iff in Hin as ([p' y] & [= <- <- <-] & Hin).
        apply list_elem_of_In in Hin. rewrite He2 in Hin. apply elem_of_map_to_list in Hin.
        exists e'.2, p'. split; [left|done]. destruct e'; cbn in *. by rewrite He1.
      + exists ps, p'. split; [by right|done].
    - intros (ps & p' & [Heq|Hin] & Hx & ->); [left|right; eauto].
      subst e'. cbn in *. apply list_elem_of_In, in_map_iff. exists (p', x). rewrite He1.
      split; [done|]. apply list_elem_of_In. rewrite He2. by apply elem_of_map_to_list. }
  etransitivity; [|etransitivity; [exact Hel|]].
  { erewrite map_ext; [done|]. intros e. by rewrite map_map. }
  unfold stash_get. split.
  - intros (ps & p' & Hin & Hx & ->). rewrite Hl in Hin. apply elem_of_map_to_list in Hin.
    exists p'. by rewrite Hin.
  - intros (p' & Hx & ->). destruct (o !! t) as [ps|] eqn:E; [|done]. exists ps, p'.
    split; [|done]. rewrite Hl. by apply elem_of_map_to_list.
Qed.

(** ** Lemmas on the attempts *)

Section attempts.
Context `{OffsetCommitter T}.

(** The broker accepted a request that carries the stash. *)
Definition accepted (m : member) (o : offsetStash) : Prop :=
  ∃ order conn resp conn', ranges_stash order o ∧
    committer_offsetCommit (commitRequestOf m order) conn = (Done resp, conn').

Lemma commit_loop_ok env m o tries attempt err conn conn' :
  commit_env_ok env → (err ≠ None ∨ (0 < tries)%nat ∧ attempt = 0%nat) →
  commit_loop env m o tries attempt err conn = (Done None, conn') → o = ∅ ∨ accepted m o.
Proof.
  intros Henv. revert attempt err conn. induction tries as [|tries IH]; intros attempt err conn Ht E; cbn in E.
  { destruct err; [done|]. destruct Ht as [?|[? _]]; [done|lia]. }
  destruct (negb _ && _) eqn:Hg.
  { destruct err; [done|]. destruct Ht as [?|[_ ->]]; [done|]. cbn in Hg. done. }
  unfold commitOffsets in E. destruct (decide (o = ∅)) as [->|Hne]; [by left|].
  destruct (committer_offsetCommit _ conn) as [[resp|e|] conn1] eqn:Ec; [| |done].
  - right. exists (ce_order env attempt o), conn, resp, conn1. split; [apply Henv|done].
  - eapply IH; [|exact E]. by left.
Qed.

Lemma commitOffsetsWithRetry_ok env m o conn conn' :
  commit_env_ok env →
  commitOffsetsWithRetry env m o defaultCommitRetries conn = (Done None, conn') → o = ∅ ∨ accepted m o.
Proof. intros Henv. apply commit_loop_ok; [done|]. right. split; [apply le_n_S, Nat.le_0_l|done]. Qed.

(** ** The loops go on *)

(** The broker always answers, or the call fails. *)
Definition responsive : Prop := ∀ req conn, (committer_offsetCommit req conn).1 ≠ Diverged.

Lemma commit_loop_done env m o tries attempt err conn :
  responsive → ∃ err' conn', commit_loop env m o tries attempt err conn = (Done err', conn').
Proof.
  intros Hr. revert attempt err conn. induction tries as [|tries IH]; intros attempt err conn; cbn; [eauto|].
  destruct (negb _ && _); [eauto|]. unfold commitOffsets. case_decide; [eauto|].
  destruct (committer_offsetCommit _ _) as [[resp|e|] c1] eqn:Ec; [eauto|by apply IH|].
  destruct (Hr (commitRequestOf m (ce_order env attempt o)) conn). by rewrite Ec.
Qed.

Lemma interval_step_done s ev : responsive → ∃ s', interval_step s ev = Done s'.
Proof.
  intros Hr. destruct ev as [commits errch env m|env m|env m]; cbn [interval_step]; [eauto|..];
    unfold interval_commit, commitOffsetsWithRetry;
    destruct (commit_loop_done env m (cl_stash s) defaultCommitRetries 0 None (cl_conn s) Hr) as (e & c & ->); eauto.
Qed.

Lemma immediate_step_done s ev : responsive → ∃ s', immediate_step s ev = Done s'.
Proof.
  intros Hr. destruct ev as [commits errch env m|env m|env m]; cbn [immediate_step]; [|eauto..].
  unfold commitOffsetsWithRetry.
  destruct (commit_loop_done env m (stash_merge (cl_stash s) commits) defaultCommitRetries 0 None
    (cl_conn s) Hr) as (e & c & ->). eauto.
Qed.

Lemma commit_run_done (step : commit_state T → commit_event → outcome (commit_state T)) s evs :
  (∀ s ev, ∃ s', step s ev = Done s') → ∃ s', commit_run step s evs = Done s'.
Proof.
  intros Hs. revert s. induction evs as [|ev evs IH]; intros s; cbn [commit_run]; [eauto|].
  destruct (cl_stopped s); [eauto|]. destruct (Hs s ev) as [s1 ->]. rewrite outcome_bind_done. apply IH.
Qed.

(** ** The invariant of the interval loop *)

Definition event_commits (ev : commit_event) : list commit :=
  match ev with CRequest commits _ _ _ => commits | _ => [] end.

Definition submitted (evs : list commit_event) : list commit := concat (map event_commits evs).

Definition event_ok (ev : commit_event) : Prop :=
  match ev with CRequest _ _ env _ | CTick env _ | CStop env _ => commit_env_ok env end.

(** The commits taken so far are [cs]: each is in the stash or was committed,
    and nothing else is; what was committed, the broker accepted. *)
Record interval_inv (cs : list commit) (s : commit_state T) : Prop := {
  ii_covered : ∀ c, c ∈ cs → covers (cl_stash s) c ∨ ∃ o, o ∈ cl_committed s ∧ covers o c;
  ii_only : only_from (cl_stash s) cs;
  ii_committed : ∀ o, o ∈ cl_committed s → only_from o cs ∧ (o = ∅ ∨ ∃ m, accepted m o);
}.

Lemma interval_commit_inv stop env m cs s s' :
  commit_env_ok env → interval_inv cs s → interval_commit stop env m s = Done s' → interval_inv cs s'.
Proof.
  intros Henv [Hc Ho Hd]. unfold interval_commit.
  destruct (commitOffsetsWithRetry _ _ _ _ _) as [[err|e|] conn] eqn:E; [|done|done].
  intros <-%Done_inj. destruct err as [e|]; split; cbn; try done.
  - intros c [Hcov|(o & Hin & Hcov)]%Hc; right.
    + exists (cl_stash s). split; [|done]. apply elem_of_app. right. by apply list_elem_of_singleton.
    + exists o. split; [|done]. apply elem_of_app. by left.
  - rewrite stash_reset_empty. apply only_from_empty.
  - intros o [Hin| ->%list_elem_of_singleton]%elem_of_app; [by apply Hd|]. split; [done|].
    destruct (commitOffsetsWithRetry_ok _ _ _ _ _ Henv E); [by left|right; by exists m].
Qed.

Lemma interval_step_inv cs s ev s' :
  event_ok ev → interval_inv cs s → interval_step s ev = Done s' → interval_inv (cs ++ event_commits ev) s'.
Proof.
  intros Hev Hinv. destruct ev as [commits errch env m|env m|env m]; cbn [interval_step event_commits].
  - intros <-%Done_inj. destruct Hinv as [Hc Ho Hd]. split; cbn.
    + intros c [[Hcov|?]%Hc|Hin]%elem_of_app; [left; by apply covers_merge_old|by right|].
      left. by apply covers_merge_new.
    + by apply only_from_merge.
    + intros o [Hof ?]%Hd. split; [|done]. eapply only_from_weaken; [done|]. set_solver.
  - rewrite app_nil_r. by apply interval_commit_inv.
  - rewrite app_nil_r. by apply interval_commit_inv.
Qed.

(** The events that a loop takes before it stops. *)
Fixpoint taken (step : commit_state T → commit_event → outcome (commit_state T)) (s : commit_state T)
    (evs : list commit_event) : list commit_event :=
  match evs with
  | [] => []
  | ev :: evs => if cl_stopped s then []
                 else ev :: match step s ev with Done s => taken step s evs | _ => [] end
  end.

Lemma interval_run_inv cs s evs s' :
  Forall event_ok evs → interval_inv cs s → commit_run interval_step s evs = Done s' →
  interval_inv (cs ++ submitted (taken interval_step s evs)) s'.
Proof.
  intros Hok. revert cs s. induction Hok as [|ev evs Hev _ IH]; intros cs s Hinv E; cbn in E.
  { apply Done_inj in E as <-. cbn. by rewrite app_nil_r. }
  cbn [taken]. destruct (cl_stopped s); [apply Done_inj in E as <-; cbn; by rewrite app_nil_r|].
  destruct (interval_step s ev) as [s1|e|] eqn:Es; [|done|done]. cbn in E.
  unfold submitted. cbn [map concat]. rewrite app_assoc. eapply IH; [|exact E].
  by eapply interval_step_inv.
Qed.

(** ** The immediate loop *)

(** The requests among the events. *)
Definition requests (evs : list commit_event) : list (list commit * Z * member) :=
  omap (λ ev, match ev with CRequest commits errch _ m => Some (commits, errch, m) | _ => None end) evs.

(** The answer to a request: nil only when the broker accepted the offsets of
    this very request. *)
Definition answers_request (req : list commit * Z * member) (ans : Z * option goerror) : Prop :=
  let '(commits, errch, m) := req in
  ans.1 = errch ∧ (ans.2 = None → commits = [] ∨ accepted m (stash_merge ∅ commits)).

Lemma stash_merge_empty o cs : stash_merge o cs = ∅ → cs = [].
Proof.
  destruct cs as [|c cs]; [done|]. intros E.
  destruct (covers_merge_new o (c :: cs) c ltac:(apply elem_of_cons; by left)) as (x & Hx & _).
  rewrite E in Hx. unfold stash_get in Hx. by rewrite lookup_empty in Hx.
Qed.

Lemma immediate_step_spec s ev s' :
  event_ok ev → cl_stash s = ∅ → immediate_step s ev = Done s' →
  cl_stash s' = ∅ ∧
  ∃ answers, cl_answers s' = cl_answers s ++ answers ∧ Forall2 answers_request (requests [ev]) answers.
Proof.
  intros Hev Hs. destruct ev as [commits errch env m|env m|env m]; cbn [immediate_step].
  - destruct (commitOffsetsWithRetry _ _ _ _ _) as [[err|e|] conn] eqn:E; [|done|done].
    intros <-%Done_inj. split; [apply stash_reset_empty|]. exists [(errch, err)]. split; [done|].
    constructor; [|constructor]. split; [done|]. cbn. intros ->. rewrite Hs in E.
    apply commitOffsetsWithRetry_ok in E as [E|E]; [left; by eapply stash_merge_empty|by right|done].
  - intros <-%Done_inj. split; [done|]. exists []. by rewrite app_nil_r.
  - intros <-%Done_inj. split; [done|]. exists []. cbn. by rewrite app_nil_r.
Qed.

Lemma immediate_run_spec s evs s' :
  Forall event_ok evs → cl_stash s = ∅ → commit_run immediate_step s evs = Done s' →
  cl_stash s' = ∅ ∧
  ∃ answers, cl_answers s' = cl_answers s ++ answers ∧
    Forall2 answers_request (requests (taken immediate_step s evs)) answers.
Proof.
  intros Hok. revert s. induction Hok as [|ev evs Hev _ IH]; intros s Hs E; cbn [commit_run taken] in *.
  { apply Done_inj in E as <-. split; [done|]. exists []. by rewrite app_nil_r. }
  destruct (cl_stopped s).
  { apply Done_inj in E as <-. split; [done|]. exists []. by rewrite app_nil_r. }
  destruct (immediate_step s ev) as [s1|e|] eqn:Es; [|done|done].
  apply immediate_step_spec in Es as (Hs1 & a1 & Ha1 & Hf1); [|done|done].
  destruct (IH s1 Hs1 E) as (Hs' & a2 & Ha2 & Hf2). split; [done|]. exists (a1 ++ a2).
  split; [by rewrite Ha2, Ha1, app_assoc|].
  replace (requests (ev :: _)) with (requests [ev] ++ requests (taken immediate_step s1 evs)).
  - by apply Forall2_app.
  - by destruct ev.
Qed.
End attempts.
