(* ===== verification/ReaderGroup.v ===== *)
(** * Joining a consumer group (reader.go)

    The operations of a [Reader] that talk to the coordinator of its group.
    They are values of [gm A]: transformers of the membership of the reader
    and of the connection to the coordinator.  Error values made with
    [fmt.Errorf] keep their text without its arguments; logging is left out. *)

From S2P Require Import Prelude Errors Time Bufio Read Write VarInt Wire.
From S2P Require Import OffsetMessages TopicMessages GroupMessages Conn ConnOps GroupBalancer ReaderConfig.

(** The fields [generationID] and [memberID] of the reader. *)
Record groupState : Type := { gs_generationID : Z; gs_memberID : gostring }.

Definition clearMember (g : groupState) : groupState :=
  {| gs_generationID := gs_generationID g; gs_memberID := [] |}.

(** ** The monad *)

Definition gm (A : Type) : Type := groupState * conn → outcome A * (groupState * conn).

#[global] Instance gm_ret : MRet gm := λ A a s, (Done a, s).

#[global] Instance gm_bind : MBind gm := λ A B f m s,
  match m s with
  | (Done a, s) => f a s
  | (Failed e, s) => (Failed e, s)
  | (Diverged, s) => (Diverged, s)
  end.

Definition gfail {A} (e : goerror) : gm A := λ s, (Failed e, s).
Definition membership : gm groupState := λ s, (Done s.1, s).
Definition set_membership (g : groupState) : gm unit := λ s, (Done tt, (g, s.2)).

(** An operation of the connection, with its error as a value. *)
Definition on_conn {A} (m : cm A) : gm (goerror + A) := λ '(g, c),
  match m c with
  | (Done a, c) => (Done (inr a), (g, c))
  | (Failed e, c) => (Done (inl e), (g, c))
  | (Diverged, c) => (Diverged, (g, c))
  end.

(** [_ = f()]. *)
Definition ignore_error (m : gm unit) : gm unit := λ s,
  match m s with (Failed _, s) => (Done tt, s) | r => r end.

(** [if v, err := m(); err != nil { handler } else { k }]. *)
Definition try_with {A B} (m : gm A) (k : A → gm B) (handler : goerror → gm B) : gm B := λ s,
  match m s with
  | (Done a, s) => k a s
  | (Failed e, s) => handler e s
  | (Diverged, s) => (Diverged, s)
  end.

Definition lift_outcome {A} (o : outcome A) : gm A := λ s, (o, s).

(** ** Messages that the reader builds and takes apart *)

Definition defaultProtocolType : gostring :=
  map byte_of_Z [99; 111; 110; 115; 117; 109; 101; 114].   (* "consumer" *)

Fixpoint groupProtocols (topic : gostring) (balancers : list GroupBalancer) :
    outcome (list joinGroupRequestGroupProtocolV1) :=
  match balancers with
  | [] => Done []
  | balancer :: balancers =>
    match gb_UserData balancer with
    | inl _ => Failed (Errorf "unable to construct protocol metadata for member" 0)
    | inr userData =>
      let p := {| jgrp_ProtocolName := gb_ProtocolName balancer;
                  jgrp_ProtocolMetadata := groupMetadata_bytes
                    {| gm_Version := 1; gm_Topics := [topic]; gm_UserData := userData |} |} in
      ps ← groupProtocols topic balancers; Done (p :: ps)
    end
  end.

Definition makejoinGroupRequestV1 (config : ReaderConfig) (g : groupState) : outcome joinGroupRequestV1 :=
  ps ← groupProtocols (rc_Topic config) (rc_GroupBalancers config);
  Done {| jgr_GroupID := rc_GroupID config;
          jgr_SessionTimeout := int32 (Z.quot (rc_SessionTimeout config) Time.Millisecond);
          jgr_RebalanceTimeout := int32 (Z.quot (rc_RebalanceTimeout config) Time.Millisecond);
          jgr_MemberID := gs_memberID g;
          jgr_ProtocolType := defaultProtocolType;
          jgr_GroupProtocols := ps |}.

(** A decoder run on the bytes of a field. *)
Definition decode_all {A} (m : rd A) (b : bytes) : (goerror + A) * Z :=
  let '(res, (remain, _)) := m (NewReader (bdata b)) (len (bdata b)) in (res, remain).

Definition memberOf (item : joinGroupResponseMemberV1) : outcome GroupMember :=
  match decode_all groupMetadata_readFrom (jgsm_MemberMetadata item) with
  | (inr metadata, 0) =>
    Done {| gmb_ID := jgsm_MemberID item; gmb_Topics := gm_Topics metadata;
            gmb_UserData := gm_UserData metadata |}
  | _ => Failed (Errorf "unable to read metadata for member" 0)
  end.

Fixpoint makeMemberProtocolMetadata (ms : list joinGroupResponseMemberV1) : outcome (list GroupMember) :=
  match ms with
  | [] => Done []
  | item :: ms => m ← memberOf item; members ← makeMemberProtocolMetadata ms; Done (m :: members)
  end.

(** [extractTopics]: the topics in the order of their first occurrence, with
    the set of those visited, then sorted. *)
Fixpoint visit (visited : gset gostring) (topics : list gostring) : list gostring :=
  match topics with
  | [] => []
  | topic :: topics =>
    if decide (topic ∈ visited) then visit visited topics
    else topic :: visit ({[topic]} ∪ visited) topics
  end.

Definition extractTopics (members : list GroupMember) : list gostring :=
  merge_sort str_le (visit ∅ (concat (map gmb_Topics members))).

(** The conversion of the partitions of a member to int32. *)
Definition topics32 (topics : gmap gostring (list Z)) : gmap gostring (list Z) := map int32 <$> topics.

(** The order of the members, and of the topics of each. *)
Abbreviation member_order := (list (gostring * topic_order)).

Definition ranges_members (order : member_order) (assignments : GroupMemberAssignments) : Prop :=
  NoDup order.*1 ∧ (∀ id, id ∈ order.*1 ↔ is_Some (assignments !! id)) ∧
  ∀ id o, (id, o) ∈ order → ranges_over o (topics32 (default ∅ (assignments !! id))).

Definition memberAssignment (assignments : GroupMemberAssignments) (e : gostring * topic_order) :
    syncGroupRequestGroupAssignmentV0 :=
  {| sgra_MemberID := e.1;
     sgra_MemberAssignments := groupAssignment_bytes e.2
       {| ga_Version := 1; ga_Topics := topics32 (default ∅ (assignments !! e.1)); ga_UserData := None |} |}.

Definition makeSyncGroupRequestV0 (config : ReaderConfig) (g : groupState) (order : member_order)
    (assignments : option GroupMemberAssignments) : syncGroupRequestV0 :=
  {| sgr_GroupID := rc_GroupID config;
     sgr_GenerationID := gs_generationID g;
     sgr_MemberID := gs_memberID g;
     sgr_GroupAssignments := match assignments with
                             | None => []
                             | Some a => map (memberAssignment a) order
                             end |}.

(** ** The operations *)

Section group.
Context (config : ReaderConfig).

Definition Reader_leaveGroup : gm unit :=
  g ← membership;
  res ← on_conn (leaveGroup {| lgr_GroupID := rc_GroupID config; lgr_MemberID := gs_memberID g |});
  match res with
  | inl _ => gfail (Errorf "leave group failed for group" 0)
  | inr _ => mret tt
  end.

Definition assignTopicPartitions (group : joinGroupResponseV1) : gm GroupMemberAssignments :=
  match findGroupBalancer (jgs_GroupProtocol group) (rc_GroupBalancers config) with
  | None => gfail (Errorf "unable to find selected balancer" 0)
  | Some balancer =>
    match makeMemberProtocolMetadata (jgs_Members group) with
    | Failed _ => gfail (Errorf "unable to construct MemberProtocolMetadata" 0)
    | Diverged => lift_outcome Diverged
    | Done members =>
      res ← on_conn (ReadPartitions (extractTopics members));
      match res with
      | inl _ => gfail (Errorf "unable to read partitions" 0)
      | inr partitions => mret (gb_AssignGroups balancer members partitions)
      end
    end
  end.

(** The assignments when this reader is the leader, [None] otherwise. *)
Definition Reader_joinGroup : gm (option GroupMemberAssignments) :=
  g ← membership;
  request ← lift_outcome (makejoinGroupRequestV1 config g);
  res ← on_conn (joinGroup request);
  match res with
  | inl err =>
    _ ← (if decide (err = KafkaError Code.UnknownMemberId) then set_membership (clearMember g) else mret tt);
    gfail (Errorf "joinGroup failed" 0)
  | inr response =>
    _ ← set_membership {| gs_generationID := jgs_GenerationID response;
                          gs_memberID := jgs_MemberID response |};
    if decide (jgs_MemberID response = jgs_LeaderID response) then
      try_with (assignTopicPartitions response)
        (λ v, mret (Some v))
        (λ err, _ ← ignore_error Reader_leaveGroup; gfail err)
    else mret None
  end.

(** The subscriptions of this reader. *)
Definition Reader_syncGroup (order : member_order) (assignments : option GroupMemberAssignments) :
    gm (gmap gostring (list Z)) :=
  g ← membership;
  res ← on_conn (syncGroups (makeSyncGroupRequestV0 config g order assignments));
  match res with
  | inl err =>
    _ ← (if decide (err = KafkaError Code.RebalanceInProgress) then mret tt
         else if decide (err = KafkaError Code.UnknownMemberId) then
           _ ← set_membership (clearMember g); ignore_error Reader_leaveGroup
         else ignore_error Reader_leaveGroup);
    gfail (Errorf "syncGroup failed" 0)
  | inr response =>
    match decode_all groupAssignment_readFrom (sgs_MemberAssignments response) with
    | (inl _, _) =>
      _ ← ignore_error Reader_leaveGroup; gfail (Errorf "unable to read SyncGroup response for group" 0)
    | (inr a, _) => mret (ga_Topics a)
    end
  end.

(** [order] gives the order of the maps of any assignments. *)
Definition Reader_rebalance (order : GroupMemberAssignments → member_order) : gm (gmap gostring (list Z)) :=
  members ← Reader_joinGroup;
  Reader_syncGroup (default [] (order <$> members)) members.

Definition resolveOffset (offset : Z) : Z := if offset <? 0 then rc_AutoOffsetReset config else offset.

(** The loops of [fetchOffsets] over the responses and the partitions. *)
Definition collectOffsets (partitions : list Z) (prs : list offsetFetchResponseV1PartitionResponse) :
    gmap Z Z :=
  foldl (λ m pr, foldl (λ m p, if p =? ofsp_Partition pr then <[p := resolveOffset (ofsp_Offset pr)]> m else m)
                   m partitions) ∅ prs.

Definition fetchOffsets (subs : gmap gostring (list Z)) : gm (gmap Z Z) :=
  let partitions := default [] (subs !! rc_Topic config) in
  res ← on_conn (offsetFetch {| ofr_GroupID := rc_GroupID config;
                                ofr_Topics := [{| ofrt_Topic := rc_Topic config;
                                                  ofrt_Partitions := partitions |}] |});
  match res with
  | inl err => gfail err
  | inr offsets =>
    match ofs_Responses offsets with
    | [] => gfail (GoPanic "index out of range")
    | r :: _ => mret (collectOffsets partitions (ofst_PartitionResponses r))
    end
  end.

(** The offsets with which [start] is called, if it is. *)
Definition subscribe (subs : gmap gostring (list Z)) : gm (option (gmap Z Z)) :=
  if decide (default [] (subs !! rc_Topic config) = []) then mret None
  else offsets ← fetchOffsets subs; mret (Some offsets).

Definition Reader_heartbeat : gm unit :=
  g ← membership;
  if decide (gs_generationID g = 0 ∧ gs_memberID g = []) then mret tt
  else
    res ← on_conn (heartbeat {| hbr_GroupID := rc_GroupID config;
                                hbr_GenerationID := gs_generationID g;
                                hbr_MemberID := gs_memberID g |});
    match res with
    | inl _ => gfail (Errorf "heartbeat failed" 0)
    | inr _ => mret tt
    end.

(** What the [select] of the loops below takes. *)
Inductive loop_event : Type := LTick | LStop.

(** The loops return [true] when they ended, [false] when they wait for more. *)
Fixpoint heartbeatLoop (evs : list loop_event) : gm bool :=
  match evs with
  | [] => mret false
  | LStop :: _ => mret true
  | LTick :: evs => try_with Reader_heartbeat (λ _, heartbeatLoop evs) (λ _, mret true)
  end.

Fixpoint partitionWatcher_loop (oParts : Z) (evs : list loop_event) : gm bool :=
  match evs with
  | [] => mret false
  | LStop :: _ => mret true
  | LTick :: evs =>
    res ← on_conn (ReadPartitions [rc_Topic config]);
    match res with
    | inl _ => mret true
    | inr ops => if len ops =? oParts then partitionWatcher_loop oParts evs else mret true
    end
  end.

Definition partitionWatcher (evs : list loop_event) : gm bool :=
  res ← on_conn (ReadPartitions [rc_Topic config]);
  match res with
  | inl _ => mret true
  | inr ops => partitionWatcher_loop (len ops) evs
  end.

(** [lookupCoordinator]: the host and port of the coordinator, over a
    connection to any broker, which is closed. *)
Fixpoint connect (dial : gostring → goerror + conn) (brokers : list gostring) (err : goerror) : goerror + conn :=
  match brokers with
  | [] => inl err
  | broker :: brokers =>
    match dial broker with
    | inr c => inr c
    | inl err => connect dial brokers err
    end
  end.

Definition lookupCoordinator (dial : gostring → goerror + conn) : outcome (gostring * Z) :=
  match connect dial (rc_Brokers config) (GoPanic "nil pointer dereference") with
  | inl (GoPanic what) => Failed (GoPanic what)
  | inl _ => Failed (Errorf "unable to coordinator to any connect for group" 0)
  | inr c =>
    match (findCoordinator {| fcr_CoordinatorKey := rc_GroupID config |} c).1 with
    | Done out => Done (fcc_Host (fcs_Coordinator out), fcc_Port (fcs_Coordinator out))
    | Failed _ => Failed (Errorf "unable to find coordinator for group" 0)
    | Diverged => Diverged
    end
  end.

(** [coordinator]: a connection to the address that [refreshCoordinator]
    found. *)
Definition coordinator (dial : gostring → goerror + conn) (address : gostring) : goerror + conn :=
  match dial address with
  | inl _ => inl (Errorf "unable to connect to coordinator, %v" 0)
  | inr c => inr c
  end.

(** [waitThrottleTime]: how long it waits, unless the reader is closed first. *)
Definition waitThrottleTime (throttleTimeMS : Z) : option Z :=
  if throttleTimeMS =? 0 then None else Some (int64 (throttleTimeMS * Time.Millisecond)).

(** [refreshCoordinator]: attempts until one finds the coordinator; the pause
    before an attempt is cut short when the reader is closed.  [None] is an
    attempt beyond the ones that [dials] describes. *)
Fixpoint refreshCoordinator (first : bool) (dials : list (bool * (gostring → goerror + conn))) :
    option (outcome (gostring * Z)) :=
  match dials with
  | [] => None
  | (awake, dial) :: dials =>
    if negb first && negb awake then Some (Failed ContextCanceled)
    else
      match lookupCoordinator dial with
      | Done address => Some (Done address)
      | Failed (GoPanic what) => Some (Failed (GoPanic what))
      | Failed _ => refreshCoordinator false dials
      | Diverged => Some Diverged
      end
  end.
End group.

(** ** Lemmas: decoding what was encoded *)

Lemma decode_all_reads {A} (m : rd A) bs a : reads m bs a → decode_all m (Some bs) = (inr a, 0).
Proof.
  intros Hm. unfold decode_all. change (bdata (Some bs)) with bs.
  pose proof (Hm (NewReader bs) (len bs) [] ltac:(lia) ltac:(by vm_compute)) as E.
  rewrite app_nil_r in E. change (NewReader bs) with (with_data (NewReader bs) bs).
  by rewrite E, Z.sub_diag.
Qed.

(** The metadata with which a member joins. *)
Definition metadata_of (m : GroupMember) : groupMetadata :=
  {| gm_Version := 1; gm_Topics := gmb_Topics m; gm_UserData := gmb_UserData m |}.

Definition joinMember (m : GroupMember) : joinGroupResponseMemberV1 :=
  {| jgsm_MemberID := gmb_ID m; jgsm_MemberMetadata := groupMetadata_bytes (metadata_of m) |}.

Definition canonMember (m : GroupMember) : GroupMember :=
  {| gmb_ID := gmb_ID m; gmb_Topics := gmb_Topics m; gmb_UserData := bnorm (gmb_UserData m) |}.

Definition member_wf (m : GroupMember) : Prop := groupMetadata_wf (metadata_of m).

Lemma memberOf_joinMember m : member_wf m → memberOf (joinMember m) = Done (canonMember m).
Proof.
  intros Hm. unfold memberOf, joinMember. cbn [jgsm_MemberMetadata jgsm_MemberID].
  pose proof (decode_all_reads _ _ _ (groupMetadata_reads _ Hm)) as E.
  change (decode_all groupMetadata_readFrom (groupMetadata_bytes (metadata_of m))
          = (inr (groupMetadata_canon (metadata_of m)), 0)) in E.
  by rewrite E.
Qed.

Lemma makeMemberProtocolMetadata_joined ms :
  Forall member_wf ms → makeMemberProtocolMetadata (map joinMember ms) = Done (map canonMember ms).
Proof.
  induction 1 as [|m ms Hm _ IH]; [done|]. cbn [map makeMemberProtocolMetadata].
  rewrite memberOf_joinMember by done. rewrite outcome_bind_done, IH. done.
Qed.

(** What [joinGroup] sends for each of its protocols is the metadata of a
    member subscribed to the topic of the reader. *)
Lemma groupProtocols_metadata topic balancers ps :
  groupProtocols topic balancers = Done ps →
  Forall2 (λ b p, jgrp_ProtocolName p = gb_ProtocolName b ∧
    ∃ ud, gb_UserData b = inr ud ∧
      jgrp_ProtocolMetadata p
      = groupMetadata_bytes {| gm_Version := 1; gm_Topics := [topic]; gm_UserData := ud |}) balancers ps.
Proof.
  revert ps. induction balancers as [|b bs IH]; intros ps; cbn [groupProtocols]; [by intros <-%Done_inj|].
  destruct (gb_UserData b) as [e|ud] eqn:Eu; [done|]. cbn zeta.
  destruct (groupProtocols topic bs) as [ps'| |] eqn:E; [|done|done]. rewrite outcome_bind_done.
  intros <-%Done_inj. constructor; [|by apply IH]. split; [done|]. by exists ud.
Qed.

(** *** The assignments of the leader reach each member *)

Definition topics_fit (topics : gmap gostring (list Z)) : Prop :=
  len (map_to_list topics) < 2 ^ 31 ∧
  map_Forall (λ t ps, wf_string t ∧ len ps < 2 ^ 31) topics.

Lemma topics32_wf topics :
  topics_fit topics →
  len (map_to_list (topics32 topics)) < 2 ^ 31 ∧
  map_Forall (λ k v, wf_string k ∧ wf_list is_int32 v) (topics32 topics).
Proof.
  intros [Hl Hf]. split.
  - unfold topics32. rewrite map_to_list_fmap. unfold len in *. by rewrite length_fmap.
  - intros t ps. unfold topics32. rewrite lookup_fmap. intros (ps' & E & ->)%fmap_Some_1.
    apply Hf in E as [Ht Hn]. split; [done|]. split; [unfold len in *; by rewrite length_map|].
    apply Forall_forall. intros z (z' & -> & _)%list_elem_of_fmap. apply wrapS_range. lia.
Qed.

Lemma groupAssignment_reads order t :
  ranges_over order (ga_Topics t) → groupAssignment_wf t →
  decode_all groupAssignment_readFrom (groupAssignment_bytes order t) = (inr (groupAssignment_canon t), 0).
Proof.
  intros Ho (Hv & Hl & Hm & Hu). unfold decode_all, groupAssignment_bytes.
  set (bs := groupAssignment_writeTo order t). change (bdata (Some bs)) with bs.
  assert (0 < len bs).
  { unfold bs, groupAssignment_writeTo. rewrite len_app, len_writeInt16.
    pose proof (len_nonneg (writeInt32 (int32 (len order)) ++ concat (map write_topic order) ++
      writeBytes (ga_UserData t))). lia. }
  assert (reads (version ← readInt16; topics ← readMapStringInt32; userData ← readBytes;
    mret {| ga_Version := version; ga_Topics := topics; ga_UserData := userData |}) bs
    (groupAssignment_canon t)) as Hr.
  { unfold bs, groupAssignment_writeTo. eapply reads_bind; [by apply reads_readInt16|].
    rewrite app_assoc. eapply reads_bind; [by apply reads_readMapStringInt32|].
    eapply reads_bind_nil; [by apply reads_readBytes|]. apply reads_ret. }
  unfold groupAssignment_readFrom, mbind at 1, rd_bind at 1, remaining.
  rewrite (proj2 (Z.eqb_neq (len bs) 0)) by lia.
  pose proof (Hr (NewReader bs) (len bs) [] ltac:(lia) ltac:(by vm_compute)) as E.
  rewrite app_nil_r in E. change (NewReader bs) with (with_data (NewReader bs) bs).
  by rewrite E, Z.sub_diag.
Qed.

Lemma memberAssignment_decodes assignments order id o :
  ranges_members order assignments → (id, o) ∈ order → topics_fit (default ∅ (assignments !! id)) →
  decode_all groupAssignment_readFrom (sgra_MemberAssignments (memberAssignment assignments (id, o)))
  = (inr {| ga_Version := 1; ga_Topics := topics32 (default ∅ (assignments !! id)); ga_UserData := None |}, 0).
Proof.
  intros (_ & _ & Ho) Hin Hf. destruct (topics32_wf _ Hf) as [Hl Hm].
  unfold memberAssignment. cbn [sgra_MemberAssignments fst snd].
  rewrite groupAssignment_reads; cbn [ga_Topics]; [done|by apply Ho|].
  split; [by vm_compute|]. split; [done|]. split; [done|]. by vm_compute.
Qed.

(** ** Lemmas: topics and offsets *)

Lemma visit_elem visited topics t : t ∈ visit visited topics ↔ t ∈ topics ∧ t ∉ visited.
Proof.
  revert visited. induction topics as [|t' ts IH]; intros visited; cbn [visit]; [set_solver|].
  case_decide as Hd; [|rewrite elem_of_cons]; rewrite IH; [set_solver|].
  destruct (decide (t = t')) as [->|]; set_solver.
Qed.

Lemma visit_NoDup visited topics : NoDup (visit visited topics).
Proof.
  revert visited. induction topics as [|t ts IH]; intros visited; cbn [visit]; [constructor|].
  case_decide; [done|]. constructor; [|done]. rewrite visit_elem. set_solver.
Qed.

Lemma extractTopics_spec members :
  StronglySorted str_le (extractTopics members) ∧ NoDup (extractTopics members) ∧
  ∀ t, t ∈ extractTopics members ↔ ∃ m, m ∈ members ∧ t ∈ gmb_Topics m.
Proof.
  unfold extractTopics. pose proof (merge_sort_Permutation str_le
    (visit ∅ (concat (map gmb_Topics members)))) as Hp.
  split; [apply StronglySorted_merge_sort; apply _|].
  split; [rewrite Hp; apply visit_NoDup|]. intros t. rewrite Hp, visit_elem.
  rewrite list_elem_of_In, in_concat. setoid_rewrite in_map_iff. split.
  - intros [(ts & (m & <- & Hm) & Ht) _]. exists m. by rewrite !list_elem_of_In.
  - intros (m & Hm & Ht). rewrite !list_elem_of_In in *. split; [eauto|]. set_solver.
Qed.

Lemma assign_partitions (m : gmap Z Z) partitions q x p :
  foldl (λ m p, if p =? q then <[p := x]> m else m) m partitions !! p
  = if decide (p = q ∧ q ∈ partitions) then Some x else m !! p.
Proof.
  revert m. induction partitions as [|p' ps IH]; intros m; cbn [foldl].
  { rewrite decide_False; [done|]. set_solver. }
  rewrite IH. destruct (Z.eqb_spec p' q) as [->|Hne].
  - destruct (decide (p = q)) as [->|Hp].
    + rewrite lookup_insert_eq, (decide_True (P := q = q ∧ q ∈ q :: ps)) by set_solver. by case_decide.
    + rewrite lookup_insert_ne by done. rewrite !decide_False by naive_solver. done.
  - destruct (decide (p = q ∧ q ∈ ps)); [rewrite decide_True|rewrite decide_False]; set_solver.
Qed.

(** The last response for each partition of the assignment is kept. *)
Lemma collectOffsets_lookup config partitions prs p :
  NoDup (map ofsp_Partition prs) →
  collectOffsets config partitions prs !! p =
    if decide (p ∈ partitions)
    then (λ pr, resolveOffset config (ofsp_Offset pr.2)) <$> list_find (λ pr, ofsp_Partition pr = p) prs
    else None.
Proof.
  unfold collectOffsets. intros Hn.
  assert (∀ m : gmap Z Z, foldl (λ m pr, foldl (λ m p, if p =? ofsp_Partition pr
      then <[p := resolveOffset config (ofsp_Offset pr)]> m else m) m partitions) m prs !! p
    = if decide (p ∈ partitions)
      then match list_find (λ pr, ofsp_Partition pr = p) prs with
           | Some pr => Some (resolveOffset config (ofsp_Offset pr.2))
           | None => m !! p
           end
      else m !! p) as H.
  { induction prs as [|pr prs IH]; intros m; cbn [foldl]; [by case_decide|].
    cbn [map] in Hn. apply NoDup_cons in Hn as [Hnin Hn]. rewrite (IH Hn), assign_partitions.
    cbn [list_find]. case_decide as Hp.
    - destruct (decide (ofsp_Partition pr = p)) as [<-|Hne].
      + replace (list_find (λ pr', ofsp_Partition pr' = ofsp_Partition pr) prs)
          with (@None (nat * offsetFetchResponseV1PartitionResponse)).
        { cbn. by rewrite decide_True. }
        symmetry. apply list_find_None. apply Forall_forall. intros pr' Hin E.
        apply Hnin. rewrite <- E. apply list_elem_of_fmap. eauto.
      + destruct (list_find _ prs) as [[i pr']|]; cbn; [done|]. rewrite decide_False by naive_solver. done.
    - rewrite decide_False by naive_solver. done. }
  rewrite H, lookup_empty. case_decide; [|done]. by destruct (list_find _ prs).
Qed.

(** ** Lemmas: the membership *)

(** Whatever happens to a [leaveGroup] whose error is ignored, the
    membership stays. *)
Lemma Reader_leaveGroup_membership config s : (Reader_leaveGroup config s).2.1 = s.1.
Proof.
  destruct s as [g c]. unfold Reader_leaveGroup, mbind, gm_bind, membership, on_conn. cbn [fst snd].
  destruct (leaveGroup _ c) as [[a|e|] c']; done.
Qed.

Lemma ignore_leave_fail {A} config err s :
  let r := (_ ← ignore_error (Reader_leaveGroup config); gfail (A:=A) err) s in
  r.2.1 = s.1 ∧ (r.1 = Failed err ∨ r.1 = Diverged).
Proof.
  pose proof (Reader_leaveGroup_membership config s) as H. cbn zeta.
  unfold mbind, gm_bind, ignore_error.
  destruct (Reader_leaveGroup config s) as [[a|e|] s'] eqn:E; cbn in *; auto.
Qed.

Lemma assignTopicPartitions_membership config group s :
  (assignTopicPartitions config group s).2.1 = s.1.
Proof.
  destruct s as [g c]. unfold assignTopicPartitions.
  destruct (findGroupBalancer _ _); [|done]. destruct (makeMemberProtocolMetadata _); [|done|done].
  unfold mbind, gm_bind, on_conn. destruct (ReadPartitions _ c) as [[ps|e|] c']; done.
Qed.

(** The membership after [joinGroup]. *)
Definition joined (res : outcome joinGroupResponseV1) (g : groupState) : groupState :=
  match res with
  | Done response => {| gs_generationID := jgs_GenerationID response; gs_memberID := jgs_MemberID response |}
  | Failed err => if decide (err = KafkaError Code.UnknownMemberId) then clearMember g else g
  | Diverged => g
  end.

Lemma Reader_joinGroup_membership config g c request :
  makejoinGroupRequestV1 config g = Done request →
  (Reader_joinGroup config (g, c)).2.1 = joined (joinGroup request c).1 g.
Proof.
  intros Hr. unfold Reader_joinGroup. unfold mbind at 1, gm_bind at 1, membership. cbn [fst].
  unfold mbind at 1, gm_bind at 1, lift_outcome. rewrite Hr.
  unfold mbind at 1, gm_bind at 1, on_conn. destruct (joinGroup request c) as [[response|err|] c1]; cbn [fst joined].
  - unfold mbind at 1, gm_bind at 1, set_membership. cbn [snd].
    case_decide; [|done]. unfold try_with.
    pose proof (assignTopicPartitions_membership config response (joined (Done response) g, c1)) as Ha.
    cbn [joined fst] in Ha. destruct (assignTopicPartitions _ _ _) as [[v|err|] s'] eqn:Ea; cbn in Ha.
    + done.
    + destruct (ignore_leave_fail (A:=option GroupMemberAssignments) config err s') as [-> _]. done.
    + done.
  - unfold mbind, gm_bind. case_decide; done.
  - done.
Qed.
