(* ===== verification/SubReader.v ===== *)
(** * The reader of one partition ([reader] of reader.go)

    [initialize], [read] and the loop [run] of the goroutine that fetches one
    partition and sends its messages to the parent.  What the world does in
    an iteration is an [iteration]: whether the pause before it ends before
    the context, what dialing a leader gives, how many messages the parent
    takes before the context ends, and the clock.  Statistics and logging are
    left out. *)

From S2P Require Import Prelude Errors Time Bufio Read Messages MessageSet Conn.
From S2P Require Import FetchResponse ConnOps Batch BatchSync BatchReturns.

Record subConfig : Type := {
  sr_brokers : list gostring;
  sr_minBytes : Z;
  sr_maxBytes : Z;
  sr_maxWait : Z;
  sr_version : Z;
  sr_autoOffsetReset : Z;
}.

(** What goes to the parent: a message with the high water mark, or an error. *)
Record readerMessage : Type := {
  rm_version : Z;
  rm_message : Message;
  rm_watermark : Z;
  rm_error : option goerror;
}.

Definition zeroMessage : Message :=
  {| msg_Topic := []; msg_Partition := 0; msg_Offset := 0; msg_Key := None; msg_Value := None;
     msg_Headers := []; msg_Time := Time.zeroTime |}.

Record iteration : Type := {
  it_awake : bool;
  it_dial : gostring → goerror + conn;
  it_takes : nat;         (* messages taken by the parent before the context ends *)
  it_now : Z;
  it_loops : nat;         (* bounds of the loops of the batch *)
  it_fuel : nat;
}.

Section reader.
Context (codecs : codec_registry) (cfg : subConfig).

(** ** [initialize] *)

(** The switch on the offset asked for. *)
Definition clampOffset (offset first last : Z) : Z :=
  if offset =? FirstOffset then first
  else if offset =? LastOffset then last
  else if offset <? first then first else offset.

Definition readOffsets (now : Z) : cm (Z * Z) :=
  _ ← SetDeadline (Time.Add now (10 * Time.Second)); ReadOffsets.

(** One broker that could be dialed: an error ends the loop. *)
Definition initialize_conn (now offset : Z) : cm Z :=
  '(first, last) ← readOffsets now;
  start ← Seek (clampOffset offset first last) SeekAbsolute;
  _ ← SetDeadline Time.zeroTime;
  mret start.

Fixpoint initialize (dial : gostring → goerror + conn) (now offset : Z) (brokers : list gostring)
    (err : goerror) : outcome (conn * Z) :=
  match brokers with
  | [] => Failed err
  | broker :: brokers =>
    match dial broker with
    | inl err => initialize dial now offset brokers err
    | inr c =>
      match initialize_conn now offset c with
      | (Done start, c) => Done (c, start)
      | (Failed err, _) => Failed err
      | (Diverged, _) => Diverged
      end
    end
  end.

(** ** [read] *)

(** The offset to go on from, the messages sent, and how the call ended: with
    the error it returns, with a panic, or not within the bounds of the loops. *)
Record read_result : Type := {
  rr_offset : Z;
  rr_sent : list readerMessage;
  rr_end : outcome (option goerror);
}.

Definition sendMessage (msg : Message) (watermark : Z) : readerMessage :=
  {| rm_version := sr_version cfg; rm_message := msg; rm_watermark := watermark; rm_error := None |}.

Definition sendError (err : goerror) : readerMessage :=
  {| rm_version := sr_version cfg; rm_message := zeroMessage; rm_watermark := 0; rm_error := Some err |}.

(** The loop over the messages of the batch: [takes] is the number of
    messages that the parent takes; it bounds the iterations. *)
Fixpoint read_loop (n takes loops fuel : nat) (now : Z) (b : batch) (c : conn) (offset : Z)
    (sent : list readerMessage) : read_result * conn :=
  let ended e := {| rr_offset := offset; rr_sent := sent; rr_end := e |} in
  match n with
  | 0%nat => (ended Diverged, c)
  | S n =>
    match batch_ReadMessage codecs loops fuel now b c with
    | (Diverged, _, c) => (ended Diverged, c)
    | (Failed (GoPanic what), _, c) => (ended (Failed (GoPanic what)), c)
    | (Failed _, b, c) => let '(err, _, c) := batch_Close b c in (ended (Done err), c)
    | (Done msg, b, c) =>
      match takes with
      | 0%nat => let '(err, _, c) := batch_Close b c in (ended (Done err), c)
      | S takes =>
        read_loop n takes loops fuel now b c (int64 (msg_Offset msg + 1))
          (sent ++ [sendMessage msg (b_highWaterMark b)])
      end
    end
  end.

Definition read (it : iteration) (offset : Z) (c : conn) : read_result * conn :=
  let ended e := {| rr_offset := offset; rr_sent := []; rr_end := e |} in
  let c := (SetReadDeadline (Time.Add (it_now it) (sr_maxWait cfg)) c).2 in
  match ReadBatch (it_now it) (sr_minBytes cfg) (sr_maxBytes cfg) c with
  | (Done b, c) =>
    let c := (SetReadDeadline (Time.Add (it_now it) (10 * Time.Second)) c).2 in
    let '(r, c) := read_loop (S (it_takes it)) (it_takes it) (it_loops it) (it_fuel it) (it_now it) b c offset [] in
    (r, match rr_end r with Done _ => (SetReadDeadline Time.zeroTime c).2 | _ => c end)
  | (Failed e, c) => (ended (Failed e), c)
  | (Diverged, c) => (ended Diverged, c)
  end.

(** ** [run] *)

(** Where the loop is: about to initialize, about to read, or done. *)
Inductive phase : Type :=
| Initializing (attempt : Z)
| Reading (c : conn) (errcount : Z)
| Ended.

Record run_state : Type := {
  rn_phase : phase;
  rn_offset : Z;
  rn_sent : list readerMessage;
}.

Definition run_init (offset : Z) : run_state :=
  {| rn_phase := Initializing 0; rn_offset := offset; rn_sent := [] |}.

Definition backoffDelayMin : Z := 100 * Time.Millisecond.
Definition backoffDelayMax : Z := 1 * Time.Second.

(** The pause before the iteration: an attempt that is not the first, or a
    read. *)
Definition pause (s : run_state) : Z :=
  match rn_phase s with
  | Initializing attempt => if attempt =? 0 then 0 else Time.backoff attempt backoffDelayMin backoffDelayMax
  | Reading _ errcount => Time.backoff errcount backoffDelayMin backoffDelayMax
  | Ended => 0
  end.

(** Sends nothing when the context ends first. *)
Definition trySendError (it : iteration) (err : goerror) : list readerMessage :=
  match it_takes it with 0%nat => [] | _ => [sendError err] end.

Definition init_iteration (it : iteration) (attempt : Z) (s : run_state) : outcome run_state :=
  match initialize (it_dial it) (it_now it) (rn_offset s) (sr_brokers cfg)
          (GoPanic "nil pointer dereference") with
  | Done (c, start) =>
    Done {| rn_phase := Reading c 0; rn_offset := start; rn_sent := rn_sent s |}
  | Diverged => Diverged
  | Failed (GoPanic what) => Failed (GoPanic what)
  | Failed err =>
    let sent := if decide (err = KafkaError Code.OffsetOutOfRange) then []
                else if attempt >=? 3 then trySendError it err else [] in
    Done {| rn_phase := Initializing (attempt + 1); rn_offset := rn_offset s;
            rn_sent := rn_sent s ++ sent |}
  end.

(** The switch on the error of [read].  [errcount++] follows the switch, also
    after [case nil: errcount = 0].  [Seek] returns 0 with an error.  After [break readLoop] the outer loop
    increments an attempt counter that is zero. *)
Definition after_read (it : iteration) (c : conn) (errcount : Z) (r : read_result) (err : option goerror)
    (s : run_state) : outcome run_state :=
  let sent := rn_sent s ++ rr_sent r in
  let continue c errcount := Done {| rn_phase := Reading c errcount; rn_offset := rr_offset r; rn_sent := sent |} in
  let restart offset := Done {| rn_phase := Initializing 1; rn_offset := offset; rn_sent := sent |} in
  match err with
  | None => continue c (0 + 1)
  | Some err =>
    if decide (err = KafkaError Code.UnknownTopicOrPartition) then restart (rr_offset r)
    else if decide (err = KafkaError Code.NotLeaderForPartition) then restart (rr_offset r)
    else if decide (err = KafkaError Code.RequestTimedOut) then continue c 0
    else if decide (err = KafkaError Code.OffsetOutOfRange) then
      match Seek 0 (if sr_autoOffsetReset cfg =? FirstOffset then SeekStart else SeekEnd) c with
      | (Done offset, c) => Done {| rn_phase := Reading c 0; rn_offset := offset; rn_sent := sent |}
      | (Failed _, _) => restart 0
      | (Diverged, _) => Diverged
      end
    else if decide (err = ContextCanceled) then
      Done {| rn_phase := Ended; rn_offset := rr_offset r; rn_sent := sent |}
    else if is_kafka_Error (Some err) then
      Done {| rn_phase := Reading c (errcount + 1); rn_offset := rr_offset r;
              rn_sent := sent ++ trySendError it err |}
    else restart (rr_offset r)
  end.

Definition run_step (it : iteration) (s : run_state) : outcome run_state :=
  let ended := Done {| rn_phase := Ended; rn_offset := rn_offset s; rn_sent := rn_sent s |} in
  match rn_phase s with
  | Ended => Done s
  | Initializing attempt =>
    if negb (attempt =? 0) && negb (it_awake it) then ended else init_iteration it attempt s
  | Reading c errcount =>
    if negb (it_awake it) then ended
    else
      let '(r, c) := read it (rn_offset s) c in
      match rr_end r with
      | Done err => after_read it c errcount r err s
      | Failed e => Failed e
      | Diverged => Diverged
      end
  end.

Fixpoint run (its : list iteration) (s : run_state) : outcome run_state :=
  match its with
  | [] => Done s
  | it :: its => s ← run_step it s; run its s
  end.
End reader.

(** ** Lemmas *)

Section lemmas.
Context (codecs : codec_registry) (cfg : subConfig).

(** A read of the batch keeps what the batch and the connection are. *)
Definition same_batch (b b' : batch) (c c' : conn) : Prop :=
  b_attached b' = b_attached b ∧ b_highWaterMark b' = b_highWaterMark b ∧
  b_topic b' = b_topic b ∧ b_partition b' = b_partition b ∧ c_offset c' = c_offset c.

Lemma share_offset ms c : c_offset (share ms c) = c_offset c.
Proof. unfold share. by destruct (bottom_reader ms). Qed.

Lemma batch_readMessage_same {K V} (key : Z → rd K) (val : Z → rd V) fuel now b c res b' c' :
  batch_readMessage codecs key val fuel now b c = (res, b', c') → same_batch b b' c c'.
Proof.
  unfold batch_readMessage, same_batch. destruct (b_err b); [by intros [= <- <- <-]|].
  destruct (b_msgs b) as [ms|]; [|by intros [= <- <- <-]].
  destruct (readMessage _ _ _ _ _ _) as [[r|e|] ms'].
  - intros [= <- <- <-]. by rewrite share_offset.
  - case_decide.
    + destruct (set_discard ms') as [[e'|] ms''].
      * intros [= <- <- <-]. by rewrite share_offset.
      * destruct (_ =? 0); intros [= <- <- <-]; by rewrite share_offset.
    + intros [= <- <- <-]. by rewrite share_offset.
  - intros [= <- <- <-]. by rewrite share_offset.
Qed.

Lemma same_batch_trans b1 b2 b3 c1 c2 c3 :
  same_batch b1 b2 c1 c2 → same_batch b2 b3 c2 c3 → same_batch b1 b3 c1 c3.
Proof. unfold same_batch. intros (?&?&?&?&?) (?&?&?&?&?). repeat split; congruence. Qed.

Lemma batch_ReadMessage_loop_same loops fuel now b c res b' c' :
  batch_ReadMessage_loop codecs loops fuel now b c = (res, b', c') →
  same_batch b b' c c' ∧
  match res with Done r => b_attached b = true → c_offset c ≤ mr_offset r | _ => True end.
Proof.
  revert b c. induction loops as [|loops IH]; intros b c; cbn [batch_ReadMessage_loop].
  { intros [= <- <- <-]. repeat split; done. }
  destruct (batch_readMessage _ _ _ _ _ _ _) as [[r b1] c1] eqn:E.
  apply batch_readMessage_same in E. destruct r as [r|e|].
  - destruct (b_attached b1 && (mr_offset r <? c_offset c1)) eqn:Hc.
    + intros [Hs Hr]%IH. split; [by eapply same_batch_trans|]. destruct res; [|done|done].
      destruct E as (Ea & _ & _ & _ & Eo). rewrite Ea, Eo in Hr. done.
    + intros [= <- <- <-]. split; [done|]. intros Ha. destruct E as (Ea & _ & _ & _ & Eo).
      rewrite Ea, Ha, Eo in Hc. cbn in Hc. lia.
  - by intros [= <- <- <-].
  - by intros [= <- <- <-].
Qed.

Lemma batch_ReadMessage_same loops fuel now b c res b' c' :
  batch_ReadMessage codecs loops fuel now b c = (res, b', c') →
  same_batch b b' c c' ∧
  match res with
  | Done msg => (b_attached b = true → c_offset c ≤ msg_Offset msg) ∧
                msg_Topic msg = b_topic b ∧ msg_Partition msg = b_partition b
  | _ => True
  end.
Proof.
  unfold batch_ReadMessage. destruct (batch_ReadMessage_loop _ _ _ _ _ _) as [[r b1] c1] eqn:E.
  apply batch_ReadMessage_loop_same in E as [Hs Hr]. pose proof Hs as (_ & _ & Ht & Hp & _).
  destruct r as [r|e|]; intros [= <- <- <-]; done.
Qed.

(** The offset after the messages [sent], starting from [offset]. *)
Definition next_offset (offset : Z) (sent : list readerMessage) : Z :=
  match last sent with Some m => int64 (msg_Offset (rm_message m) + 1) | None => offset end.

(** A message of the batch that was sent. *)
Definition sent_ok (attached : bool) (from hw : Z) (m : readerMessage) : Prop :=
  rm_version m = sr_version cfg ∧ rm_error m = None ∧ rm_watermark m = hw ∧
  (attached = true → from ≤ msg_Offset (rm_message m)).

Lemma read_loop_spec n takes loops fuel now b c offset sent r c' :
  read_loop codecs cfg n takes loops fuel now b c (next_offset offset sent) sent = (r, c') →
  ∃ more, rr_sent r = sent ++ more ∧ rr_offset r = next_offset offset (rr_sent r) ∧
    Forall (sent_ok (b_attached b) (c_offset c) (b_highWaterMark b)) more ∧ (length more ≤ takes)%nat.
Proof.
  revert takes b c sent. induction n as [|n IH]; intros takes b c sent; cbn [read_loop].
  all: assert (∀ e c2, ({| rr_offset := next_offset offset sent; rr_sent := sent; rr_end := e |}, c2) = (r, c') →
    ∃ more, rr_sent r = sent ++ more ∧ rr_offset r = next_offset offset (rr_sent r) ∧
      Forall (sent_ok (b_attached b) (c_offset c) (b_highWaterMark b)) more ∧ (length more ≤ takes)%nat) as Hend
    by (intros e c2 [= <- <-]; exists []; rewrite app_nil_r; repeat split; [constructor|apply Nat.le_0_l]).
  { apply Hend. }
  destruct (batch_ReadMessage _ _ _ _ _ _) as [[res b1] c1] eqn:E.
  apply batch_ReadMessage_same in E as [(Ha & Hw & _ & _ & Ho) Hm]. destruct res as [msg|e|]; [| |apply Hend].
  - destruct takes as [|takes]; [destruct (batch_Close b1 c1) as [[err b2] c2]; apply Hend|]. intros H.
    assert (int64 (msg_Offset msg + 1)
      = next_offset offset (sent ++ [sendMessage cfg msg (b_highWaterMark b1)])) as Hn.
    { unfold next_offset. by rewrite last_snoc. }
    rewrite Hn in H. apply IH in H as (more & Hs & Hoff & Hf & Hl). clear Hn.
    eexists. rewrite <- app_assoc in Hs. split; [exact Hs|]. split; [done|]. split; [|cbn; lia].
    rewrite Ha, Ho, Hw in Hf. constructor; [|done]. split; [done|]. split; [done|].
    split; [done|]. apply Hm.
  - destruct (batch_Close b1 c1) as [[err b2] c2]. destruct e; apply Hend.
Qed.

(** *** The offset of the connection *)

Lemma doRequest_offset d write c res c' : doRequest d write c = (res, c') → c_offset c' = c_offset c.
Proof.
  unfold doRequest. cbn zeta. destruct (write _ _) as [bs|e|]; [|by intros [= <- <-]..].
  unfold flush. destruct (if c_closed _ then _ else _); by intros [= <- <-].
Qed.

Lemma waitResponse_offset id c res c' : waitResponse id c = (res, c') → c_offset c' = c_offset c.
Proof.
  unfold waitResponse. destruct (peekResponseSizeAndID _) as [e|[rsz rid]]; [by intros [= <- <-]|].
  destruct (id =? rid); by intros [= <- <-].
Qed.

Lemma openBatch_offset conf offset deadline now size c b c' :
  openBatch conf offset deadline now size c = (b, c') → c_offset c' = c_offset c ∧ b_attached b = true.
Proof.
  unfold openBatch. destruct (readFetchResponseHeader _ _ _) as [res [remain r]].
  destruct res as [e|[throttle hw]]; [by intros [= <- <-]|].
  destruct (hw =? offset); [by intros [= <- <-]|].
  destruct (newMessageSetReader _ _); by intros [= <- <-].
Qed.

Lemma failedBatch_err e : b_err (failedBatch (dontExpectEOF (Some e))) ≠ None.
Proof. unfold dontExpectEOF. cbn. by case_decide. Qed.

(** A connection on an absolute offset stays on it; the batch is attached to
    it or carries an error. *)
Lemma ReadBatch_offset now minBytes maxBytes c b c' :
  0 ≤ c_offset c → ReadBatch now minBytes maxBytes c = (Done b, c') →
  c_offset c' = c_offset c ∧ (b_attached b = true ∨ b_err b ≠ None).
Proof.
  intros Hc. unfold ReadBatch, ReadBatchWith.
  destruct (_ || _); [intros [= <- <-]; auto|]. destruct (_ || _); [intros [= <- <-]; auto|].
  destruct (_ >? _); [intros [= <- <-]; auto|].
  assert (Offset c = (c_offset c, SeekAbsolute)) as ->.
  { unfold Offset, FirstOffset, LastOffset. repeat case_match; try lia; done. }
  unfold Seek. cbn [Z.leb andb negb]. change (SeekAbsolute =? SeekAbsolute) with true.
  rewrite Z.eqb_refl. cbn [andb]. cbn zeta.
  replace (negb ((0 <=? SeekAbsolute) && (SeekAbsolute <=? 3))) with false by done.
  unfold mbind, cm_bind. destruct (doRequest _ _ c) as [r1 c1] eqn:E1.
  apply doRequest_offset in E1 as <-. destruct r1 as [id|e|]; [|intros [= <- <-]; pose proof (failedBatch_err e); auto|done].
  destruct (waitResponse id c1) as [r2 c2] eqn:E2. apply waitResponse_offset in E2 as <-.
  destruct r2 as [size|e|]; [|intros [= <- <-]; pose proof (failedBatch_err e); auto|done].
  destruct (openBatch _ _ _ _ _ _) as [b' c3] eqn:E3. intros E. injection E as <- <-.
  apply openBatch_offset in E3 as [-> ?]. auto.
Qed.

Lemma read_loop_err_sent n takes loops fuel now b c offset sent r c' :
  b_err b ≠ None →
  read_loop codecs cfg n takes loops fuel now b c offset sent = (r, c') → rr_sent r = sent.
Proof.
  intros He. destruct n as [|n]; cbn [read_loop]; [by intros [= <- <-]|]. unfold batch_ReadMessage.
  destruct loops as [|loops]; cbn [batch_ReadMessage_loop]; [by intros [= <- <-]|]. unfold batch_readMessage.
  destruct (b_err b) as [e|]; [|done]. destruct (batch_Close b c) as [[err b2] c2]. destruct e; by intros [= <- <-].
Qed.

(** What one [read] sends, whether or not it returns: messages of this version
    at or after the offset of the connection, and the offset that follows the
    last one. *)
Lemma read_spec it offset c :
  0 ≤ c_offset c →
  let r := (read codecs cfg it offset c).1 in
  rr_offset r = next_offset offset (rr_sent r) ∧ (length (rr_sent r) ≤ it_takes it)%nat ∧
  ∃ hw, Forall (sent_ok true (c_offset c) hw) (rr_sent r).
Proof.
  intros Hc. cbn zeta. unfold read. set (c1 := (SetReadDeadline _ c).2).
  destruct (ReadBatch _ _ _ c1) as [[b|e|] c2] eqn:Eb; cbn [fst];
    [|split; [done|]; split; [cbn; lia|]; by exists 0..].
  apply ReadBatch_offset in Eb as [Eb Ha]; [|done]. set (c3 := (SetReadDeadline _ c2).2).
  destruct (read_loop _ _ _ _ _ _ _ _ _ _ _) as [r c4] eqn:El. cbn [fst]. pose proof El as El'.
  apply (read_loop_spec _ _ _ _ _ _ _ offset []) in El as (more & Hs & Ho & Hf & Hl).
  rewrite Hs in *. split; [done|]. split; [done|]. exists (b_highWaterMark b).
  replace (c_offset c) with (c_offset c3) by (unfold c3; cbn; by rewrite Eb).
  destruct Ha as [<-|He]; [done|]. cbn [app] in Hs.
  apply (read_loop_err_sent _ _ _ _ _ _ _ _ _ _ _ He) in El'. by rewrite <- Hs, El'.
Qed.

(** *** [read] returns *)

Lemma read_loop_more n takes loops loops' fuel fuel' now b c offset sent r c' :
  read_loop codecs cfg n takes loops fuel now b c offset sent = (r, c') → rr_end r ≠ Diverged →
  (loops ≤ loops')%nat → (fuel ≤ fuel')%nat →
  read_loop codecs cfg n takes loops' fuel' now b c offset sent = (r, c').
Proof.
  intros E Hd Hl Hf. revert takes b c offset sent E. induction n as [|n IH]; intros takes b c offset sent E; cbn [read_loop] in *;
    [done|]. destruct (batch_ReadMessage codecs loops fuel now b c) as [[res b1] c1] eqn:E1.
  assert (res ≠ Diverged) as Hr by (intros ->; injection E as <- <-; by destruct Hd).
  rewrite (batch_ReadMessage_more _ _ loops' _ fuel' _ _ _ _ _ _ E1 Hr Hl Hf).
  destruct res as [msg|e|]; [|done|done]. destruct takes; [done|]. by apply IH.
Qed.

(** The iteration with other bounds for the loops of the batch. *)
Definition with_bounds (it : iteration) (loops fuel : nat) : iteration :=
  {| it_awake := it_awake it; it_dial := it_dial it; it_takes := it_takes it; it_now := it_now it;
     it_loops := loops; it_fuel := fuel |}.

Lemma read_more it loops fuel offset c :
  rr_end (read codecs cfg it offset c).1 ≠ Diverged → (it_loops it ≤ loops)%nat → (it_fuel it ≤ fuel)%nat →
  read codecs cfg (with_bounds it loops fuel) offset c = read codecs cfg it offset c.
Proof.
  unfold read. cbn [with_bounds it_now it_takes it_loops it_fuel]. cbn zeta.
  destruct (ReadBatch _ _ _ _) as [[b|e|] c2]; [|done|done].
  destruct (read_loop _ _ _ _ (it_loops it) _ _ _ _ _ _) as [r c4] eqn:El. cbn [fst]. intros Hd Hl Hf.
  by rewrite (read_loop_more _ _ _ loops _ fuel _ _ _ _ _ _ _ El Hd Hl Hf).
Qed.

(** The bytes of the response in front of the connection. *)
Definition response_bytes (c : conn) : Z :=
  match peekResponseSizeAndID (c_rbuf c) with inr (rsz, _) => Z.max 0 (int32 (rsz - 4)) | inl _ => 0 end.

Lemma openBatch_within conf offset deadline now size c b c' :
  openBatch conf offset deadline now size c = (b, c') → batch_within (Z.max 0 size) b.
Proof.
  unfold openBatch. destruct (readFetchResponseHeader conf (c_rbuf c) size) as [res [remain r]] eqn:E.
  apply (framed_readFetchResponseHeader conf) in E as (Hs & _). unfold batch_within.
  destruct res as [e|[throttle hw]]; [by intros [= <- <-]|].
  destruct (hw =? offset); [intros [= <- <-]; cbn; split; [done|lia]|].
  destruct (newMessageSetReader r remain) as [e|ms] eqn:En; [by intros [= <- <-]|]. intros [= <- <-]. cbn [b_msgs].
  unfold newMessageSetReader in En. destruct (_ >? _); [done|]. destruct (Peek _ r) as [b [e|]]; [done|].
  destruct (_ || _); [injection En as <-; split; [done|cbn; lia]|].
  destruct (_ =? 2); [injection En as <-; split; [done|cbn; lia]|done].
Qed.

Lemma ReadBatch_within now minBytes maxBytes c b c' :
  0 ≤ c_offset c → ReadBatch now minBytes maxBytes c = (Done b, c') → batch_within (response_bytes c) b.
Proof.
  intros Hc. assert (∀ err, batch_within (response_bytes c) (failedBatch err)) as Hfail by done.
  unfold ReadBatch, ReadBatchWith.
  destruct (_ || _); [by intros [= <- <-]|]. destruct (_ || _); [by intros [= <- <-]|].
  destruct (_ >? _); [by intros [= <- <-]|].
  assert (Offset c = (c_offset c, SeekAbsolute)) as ->.
  { unfold Offset, FirstOffset, LastOffset. repeat case_match; try lia; done. }
  unfold Seek. cbn [Z.leb andb negb]. change (SeekAbsolute =? SeekAbsolute) with true.
  rewrite Z.eqb_refl. cbn [andb]. cbn zeta.
  replace (negb ((0 <=? SeekAbsolute) && (SeekAbsolute <=? 3))) with false by done.
  unfold mbind, cm_bind, doRequest, flush.
  destruct (if c_closed _ then _ else _); [by intros [= <- <-]|]. unfold waitResponse, response_bytes.
  change (c_rbuf (set_out ?x ?y)) with (c_rbuf c). destruct (peekResponseSizeAndID (c_rbuf c)) as [e|[rsz rid]];
    [by intros [= <- <-]|]. destruct (_ =? rid); [|done].
  unfold mbind, cm_bind, skipResponseSizeAndID, mret, cm_ret.
  destruct (openBatch _ _ _ _ _ _) as [b' c3] eqn:E3. intros E. injection E as <- <-. by eapply openBatch_within.
Qed.
End lemmas.

Lemma read_loop_returns cfg n takes loops fuel now m b c offset sent :
  (takes < n)%nat → batch_within m b → 0 ≤ m → m + 2 ≤ Z.of_nat fuel → m + 1 ≤ Z.of_nat loops →
  rr_end (read_loop ∅ cfg n takes loops fuel now b c offset sent).1 ≠ Diverged.
Proof.
  intros Hn Hb Hm Hf Hl. revert takes Hn b Hb c offset sent. induction n as [|n IH]; intros takes Hn b Hb c offset sent; [lia|].
  cbn [read_loop]. destruct (batch_ReadMessage ∅ loops fuel now b c) as [[res b1] c1] eqn:E.
  destruct (batch_ReadMessage_returns _ _ _ _ _ _ _ _ _ Hb Hm Hf Hl E) as [Hd Hw].
  destruct res as [msg|e|]; [|by destruct (batch_Close b1 c1) as [[? ?] ?], e|done].
  destruct takes as [|takes]; [by destruct (batch_Close b1 c1) as [[? ?] ?]|]. apply IH; [lia|by eapply Hw].
Qed.

(** Without codecs, [read] returns when its bounds exceed the bytes of the
    response, unless it waits for the response. *)
Lemma read_returns cfg it offset c :
  0 ≤ c_offset c → response_bytes c + 2 ≤ Z.of_nat (it_fuel it) → response_bytes c + 1 ≤ Z.of_nat (it_loops it) →
  (∃ c', ReadBatch (it_now it) (sr_minBytes cfg) (sr_maxBytes cfg)
           (SetReadDeadline (Time.Add (it_now it) (sr_maxWait cfg)) c).2 = (Diverged, c')) ∨
  rr_end (read ∅ cfg it offset c).1 ≠ Diverged.
Proof.
  intros Hc Hf Hl. unfold read. cbn zeta. set (c1 := (SetReadDeadline _ c).2).
  destruct (ReadBatch _ _ _ c1) as [[b|e|] c2] eqn:Eb; [right|by right|left; by eexists].
  apply ReadBatch_within in Eb; [|done]. change (response_bytes c1) with (response_bytes c) in Eb.
  pose proof (read_loop_returns cfg (S (it_takes it)) (it_takes it) (it_loops it) (it_fuel it) (it_now it)
    (response_bytes c) b (SetReadDeadline (Time.Add (it_now it) (10 * Time.Second)) c2).2 offset [] ltac:(lia) Eb) as H.
  destruct (read_loop _ _ _ _ _ _ _ _ _ _ _) as [r c4]. cbn [fst] in *. apply H; [|done|done].
  unfold response_bytes. destruct (peekResponseSizeAndID _) as [|[? ?]]; lia.
Qed.
