(* ===== verification/Reader.v ===== *)
(** * The parent reader ([Reader] of reader.go)

    The mutable fields of a [Reader], the channel between it and its readers
    of partitions, and its methods as atomic steps: the sections under the
    mutex and the operations on the channel.  Several goroutines may be
    inside [FetchMessage]: each holds the version it saw under the mutex, and
    then the message it took from the channel.

    The goroutines that [start] spawns are part of the state.  Each reads
    [r.version] when it is scheduled, outside of the mutex, so that it may
    carry the version of a later [start] than the one that spawned it; what
    it keeps of its own [start] is the context, which the next [start]
    cancels.  A goroutine sends messages only on a connection that it dialed,
    and a dial fails when the context is done before it begins (documented
    behaviour of [net.Dialer.DialContext]); errors it may send without one.
    Version numbers are not wrapped: 2^63 restarts do not happen. *)

From S2P Require Import Prelude Errors Time Read Messages Conn ConnOps SubReader.
From S2P Require Import ReaderConfig Commits.

(** Where the goroutine is: before it reads [r.version], inside [run] with the
    version it read and whether it ever dialed under a live context, or gone. *)
Inductive part_pc : Type := PSpawned | PRunning (version : Z) (dialed : bool) | PReturned.

(** A goroutine of [start]: the version that its [start] set, the arguments,
    whether its context is cancelled. *)
Record partReader : Type := {
  pr_start : Z;
  pr_partition : Z;
  pr_offset : Z;
  pr_cancelled : bool;
  pr_pc : part_pc;
}.

#[global] Instance part_pc_eq_dec : EqDecision part_pc.
Proof. solve_decision. Defined.

Definition pr_cancel (g : partReader) : partReader :=
  {| pr_start := pr_start g; pr_partition := pr_partition g; pr_offset := pr_offset g;
     pr_cancelled := true; pr_pc := pr_pc g |}.

Definition pr_set_pc (pc : part_pc) (g : partReader) : partReader :=
  {| pr_start := pr_start g; pr_partition := pr_partition g; pr_offset := pr_offset g;
     pr_cancelled := pr_cancelled g; pr_pc := pc |}.

Record readerState : Type := {
  r_config : ReaderConfig;
  r_closed : bool;
  r_chanClosed : bool;                    (* close(r.msgs) *)
  r_version : Z;
  r_offset : Z;
  r_lag : Z;
  r_msgs : list (nat * readerMessage);    (* the channel, with the goroutine that sent *)
  r_readers : list partReader;            (* the goroutines of [start], in the order spawned *)
  r_fetching : gmap nat Z;                (* goroutines in the select of FetchMessage *)
  r_taken : gmap nat (Z * (nat * readerMessage)); (* goroutines that took a message *)
}.

Definition NewReader_state (config : ReaderConfig) : readerState :=
  {| r_config := config; r_closed := false; r_chanClosed := false;
     r_version := if useConsumerGroup config then 1 else 0;
     r_offset := FirstOffset; r_lag := 0; r_msgs := []; r_readers := []; r_fetching := ∅;
     r_taken := ∅ |}.

(** [r.cancel()]: the context of the last [start]; those before it are done. *)
Definition cancel (s : readerState) : readerState :=
  {| r_config := r_config s; r_closed := r_closed s; r_chanClosed := r_chanClosed s; r_version := r_version s;
     r_offset := r_offset s; r_lag := r_lag s; r_msgs := r_msgs s;
     r_readers := map pr_cancel (r_readers s); r_fetching := r_fetching s; r_taken := r_taken s |}.

(** The goroutines of one [start]. *)
Definition spawn (version : Z) (offsets : gmap Z Z) : list partReader :=
  map (λ po : Z * Z, {| pr_start := version; pr_partition := po.1; pr_offset := po.2;
                        pr_cancelled := false; pr_pc := PSpawned |}) (map_to_list offsets).

(** [start], under the mutex. *)
Definition start (offsets : gmap Z Z) (s : readerState) : readerState :=
  if r_closed s then s
  else
    let s := cancel s in
    {| r_config := r_config s; r_closed := r_closed s; r_chanClosed := r_chanClosed s; r_version := r_version s + 1;
       r_offset := r_offset s; r_lag := r_lag s; r_msgs := r_msgs s;
       r_readers := r_readers s ++ spawn (r_version s + 1) offsets;
       r_fetching := r_fetching s; r_taken := r_taken s |}.

Definition set_roffset (offset lag : Z) (s : readerState) : readerState :=
  {| r_config := r_config s; r_closed := r_closed s; r_chanClosed := r_chanClosed s; r_version := r_version s;
     r_offset := offset; r_lag := lag; r_msgs := r_msgs s;
     r_readers := r_readers s; r_fetching := r_fetching s; r_taken := r_taken s |}.

Definition set_queue (msgs : list (nat * readerMessage)) (s : readerState) : readerState :=
  {| r_config := r_config s; r_closed := r_closed s; r_chanClosed := r_chanClosed s; r_version := r_version s;
     r_offset := r_offset s; r_lag := r_lag s; r_msgs := msgs;
     r_readers := r_readers s; r_fetching := r_fetching s; r_taken := r_taken s |}.

Definition set_readers (readers : list partReader) (s : readerState) : readerState :=
  {| r_config := r_config s; r_closed := r_closed s; r_chanClosed := r_chanClosed s; r_version := r_version s;
     r_offset := r_offset s; r_lag := r_lag s; r_msgs := r_msgs s;
     r_readers := readers; r_fetching := r_fetching s; r_taken := r_taken s |}.

Definition set_fetching (f : gmap nat Z) (s : readerState) : readerState :=
  {| r_config := r_config s; r_closed := r_closed s; r_chanClosed := r_chanClosed s; r_version := r_version s;
     r_offset := r_offset s; r_lag := r_lag s; r_msgs := r_msgs s;
     r_readers := r_readers s; r_fetching := f; r_taken := r_taken s |}.

Definition set_taken (t : gmap nat (Z * (nat * readerMessage))) (s : readerState) : readerState :=
  {| r_config := r_config s; r_closed := r_closed s; r_chanClosed := r_chanClosed s; r_version := r_version s;
     r_offset := r_offset s; r_lag := r_lag s; r_msgs := r_msgs s;
     r_readers := r_readers s; r_fetching := r_fetching s; r_taken := t |}.

(** [Close]: the section under the mutex, and the end of the method, when
    every reader of a partition has returned. *)
Definition Reader_Close (s : readerState) : readerState :=
  {| r_config := r_config s; r_closed := true; r_chanClosed := r_chanClosed s; r_version := r_version s;
     r_offset := r_offset s; r_lag := r_lag s; r_msgs := r_msgs s;
     r_readers := r_readers s; r_fetching := r_fetching s; r_taken := r_taken s |}.

Definition Reader_Closed (s : readerState) : readerState :=
  {| r_config := r_config s; r_closed := r_closed s; r_chanClosed := true; r_version := r_version s;
     r_offset := r_offset s; r_lag := r_lag s; r_msgs := r_msgs s;
     r_readers := r_readers s; r_fetching := r_fetching s; r_taken := r_taken s |}.

(** ** [FetchMessage] *)

(** The section at the top of the loop. *)
Definition fetch_lock (tid : nat) (s : readerState) : readerState :=
  let s := if negb (r_closed s) && (r_version s =? 0)
           then start {[rc_Partition (r_config s) := r_offset s]} s else s in
  set_fetching (<[tid := r_version s]> (r_fetching s)) s.

(** The section after a message was received: what the method returns, or
    [None] when it loops. *)
Definition fetch_receive (version : Z) (m : readerMessage) (s : readerState) :
    readerState * option (Message * option goerror) :=
  if rm_version m >=? version then
    let s := match rm_error m with
             | Some _ => s
             | None =>
               if version =? r_version s then
                 let offset := int64 (msg_Offset (rm_message m) + 1) in
                 set_roffset offset (int64 (rm_watermark m - offset)) s
               else s
             end in
    (s, Some (rm_message m, dontExpectEOF (rm_error m)))
  else (s, None).

(** ** The other methods *)

Definition SetOffset (offset : Z) (s : readerState) : option goerror * readerState :=
  if useConsumerGroup (r_config s) then (Some errNotAvailableWithGroup, s)
  else if r_closed s then (Some ErrClosedPipe, s)
  else if offset =? r_offset s then (None, s)
  else
    let s := set_roffset offset (r_lag s) s in
    let s := if r_version s =? 0 then s else start {[rc_Partition (r_config s) := r_offset s]} s in
    (None, s).

Definition Reader_Offset (s : readerState) : Z :=
  if useConsumerGroup (r_config s) then -1 else r_offset s.

Definition Reader_Lag (s : readerState) : Z :=
  if useConsumerGroup (r_config s) then -1 else r_lag s.

(** [ReadLag], from the offsets of the partition or the error that the
    goroutine or the context gives. *)
Definition ReadLag (offsets : goerror + Z * Z) (s : readerState) : goerror + Z :=
  if useConsumerGroup (r_config s) then inl errNotAvailableWithGroup
  else
    match offsets with
    | inl err => inl err
    | inr (first, last) =>
      let cur := Reader_Offset s in
      inr (if cur =? FirstOffset then int64 (last - first)
           else if cur =? LastOffset then 0
           else int64 (last - cur))
    end.

(** [SetOffsetAt]: the first broker whose leader answers decides. *)
Fixpoint SetOffsetAt_loop (ask : gostring → option (outcome Z)) (brokers : list gostring) (s : readerState) :
    outcome (option goerror * readerState) :=
  match brokers with
  | [] => Done (Some (Errorf "error setting offset for timestamp" 0), s)
  | broker :: brokers =>
    match ask broker with
    | None => SetOffsetAt_loop ask brokers s
    | Some (Failed err) => Done (Some err, s)
    | Some (Done offset) => Done (SetOffset offset s)
    | Some Diverged => Diverged
    end
  end.

(** The dial of a leader (an error is [None]) and [ReadOffset] on it. *)
Definition SetOffsetAt (dial : gostring → option conn) (now t : Z) (s : readerState) :
    outcome (option goerror * readerState) :=
  if r_closed s then Done (Some ErrClosedPipe, s)
  else SetOffsetAt_loop (λ broker, (λ c, (ReadOffset t c).1) <$> dial broker) (rc_Brokers (r_config s)) s.

(** ** [CommitMessages] and [ReadMessage] *)

(** What the selects of [CommitMessages] take: the request is queued or not,
    then, for a synchronous commit, the answer. *)
Inductive commit_select : Type := CQueued | CContext (err : goerror) | CClosed.
Inductive commit_wait : Type := CAnswer (err : option goerror) | CWaitContext (err : goerror).

(** The error, and the commits that were put on the channel. *)
Definition CommitMessages (config : ReaderConfig) (sel : commit_select) (wait : commit_wait) (msgs : list Message) :
    option goerror * list commit :=
  if negb (useConsumerGroup config) then (Some errOnlyAvailableWithGroup, [])
  else
    match sel with
    | CContext err => (Some err, [])
    | CClosed => (Some ErrClosedPipe, [])
    | CQueued =>
      if negb (useSyncCommits config) then (None, makeCommits msgs)
      else
        match wait with
        | CWaitContext err => (Some err, makeCommits msgs)
        | CAnswer err => (err, makeCommits msgs)
        end
    end.

(** [ReadMessage], from what [FetchMessage] returned. *)
Definition ReadMessage (config : ReaderConfig) (fetched : goerror + Message) (sel : commit_select)
    (wait : commit_wait) : (goerror + Message) * list commit :=
  match fetched with
  | inl err => (inl err, [])
  | inr m =>
    if useConsumerGroup config then
      match CommitMessages config sel wait [m] with
      | (Some err, cs) => (inl err, cs)
      | (None, cs) => (inr m, cs)
      end
    else (inr m, [])
  end.

(** ** The steps of the system *)

Inductive reader_event : Type :=
| ELock (tid : nat)                       (* a goroutine passes the section of FetchMessage *)
| EReceive (tid : nat)                    (* takes the head of the channel *)
| EDeliver (tid : nat)                    (* and passes the section that follows *)
| ECancel (tid : nat)                     (* its context ends *)
| ESetOffset (offset : Z)
| EStart (offsets : gmap Z Z)             (* the subscription of a consumer group *)
| EClose
| ECancelReaders                          (* r.cancel() of Close and of unsubscribe, without the mutex *)
| EClosed                                 (* the readers of the partitions have returned *)
| EVersion (k : nat)                      (* goroutine k of [start] reads r.version, without the mutex *)
| EDial (k : nat)                         (* begins a dial while its context is live *)
| EPush (k : nat) (m : readerMessage)     (* sends on the channel *)
| EReturn (k : nat).                      (* returns from [run] *)

(** What goroutine [k] of [start] does. *)
Definition part_step (k : nat) (f : partReader → option part_pc) (s : readerState) : option readerState :=
  match r_readers s !! k with
  | Some g =>
    match f g with
    | Some pc => Some (set_readers (<[k := pr_set_pc pc g]> (r_readers s)) s)
    | None => None
    end
  | None => None
  end.

Definition read_version (version : Z) (g : partReader) : option part_pc :=
  match pr_pc g with PSpawned => Some (PRunning version false) | _ => None end.

Definition dial_live (g : partReader) : option part_pc :=
  match pr_pc g with
  | PRunning version _ => if pr_cancelled g then None else Some (PRunning version true)
  | _ => None
  end.

(** The loop of [run] ends only once the context is cancelled. *)
Definition run_return (g : partReader) : option part_pc :=
  match pr_pc g with
  | PRunning _ _ => if pr_cancelled g then Some PReturned else None
  | _ => None
  end.

(** Whether the goroutine may send this message: its version is the one it
    read, and a message that is not an error came over a connection. *)
Definition may_send (g : partReader) (m : readerMessage) : bool :=
  match pr_pc g with
  | PRunning version dialed =>
    (rm_version m =? version) && match rm_error m with None => dialed | Some _ => true end
  | _ => false
  end.

(** The state after the event, and what a [FetchMessage] returned.  [None]:
    the event cannot happen in this state. *)
Definition reader_step (s : readerState) (ev : reader_event) :
    option (readerState * option (Message * option goerror)) :=
  match ev with
  | ELock tid =>
    if decide (r_fetching s !! tid = None ∧ r_taken s !! tid = None) then Some (fetch_lock tid s, None) else None
  | EReceive tid =>
    match r_fetching s !! tid, r_msgs s with
    | Some version, m :: msgs =>
      Some (set_taken (<[tid := (version, m)]> (r_taken s))
              (set_queue msgs (set_fetching (delete tid (r_fetching s)) s)), None)
    | Some _, [] =>
      if r_chanClosed s then Some (set_fetching (delete tid (r_fetching s)) s, Some (zeroMessage, Some EOF))
      else None
    | None, _ => None
    end
  | EDeliver tid =>
    match r_taken s !! tid with
    | Some (version, (_, m)) => Some (fetch_receive version m (set_taken (delete tid (r_taken s)) s))
    | None => None
    end
  | ECancel tid =>
    if decide (is_Some (r_fetching s !! tid))
    then Some (set_fetching (delete tid (r_fetching s)) s, Some (zeroMessage, Some ContextCanceled))
    else None
  | ESetOffset offset => Some ((SetOffset offset s).2, None)
  | EStart offsets => if useConsumerGroup (r_config s) then Some (start offsets s, None) else None
  | EClose => Some (Reader_Close s, None)
  | ECancelReaders => Some (cancel s, None)
  | EClosed =>
    if r_closed s && negb (r_chanClosed s) && forallb (λ g, bool_decide (pr_pc g = PReturned)) (r_readers s)
    then Some (Reader_Closed s, None) else None
  | EVersion k => (λ s, (s, None)) <$> part_step k (read_version (r_version s)) s
  | EDial k => (λ s, (s, None)) <$> part_step k dial_live s
  | EPush k m =>
    match r_readers s !! k with
    | Some g =>
      if may_send g m && negb (r_chanClosed s) && (len (r_msgs s) <? rc_QueueCapacity (r_config s))
      then Some (set_queue (r_msgs s ++ [(k, m)]) s, None) else None
    | None => None
    end
  | EReturn k => (λ s, (s, None)) <$> part_step k run_return s
  end.

Fixpoint reader_run (s : readerState) (evs : list reader_event) :
    option (readerState * list (Message * option goerror)) :=
  match evs with
  | [] => Some (s, [])
  | ev :: evs =>
    '(s, res) ← reader_step s ev;
    '(s, results) ← reader_run s evs;
    Some (s, match res with Some r => r :: results | None => results end)
  end.

(** ** Lemmas *)

(** A message that is not an error, together with the goroutine that sent it:
    the version it carries is that of the [start] that spawned the goroutine. *)
Definition sent_by (readers : list partReader) (km : nat * readerMessage) : Prop :=
  rm_error km.2 = None → ∃ g, readers !! km.1 = Some g ∧ pr_start g = rm_version km.2.

(** A goroutine carries a version at least that of its [start]; it is exactly
    that version when the goroutine dialed under a live context, because a
    later [start] cancels the context before it changes the version. *)
Definition part_ok (version : Z) (g : partReader) : Prop :=
  pr_start g ≤ version ∧ (pr_cancelled g = false → pr_start g = version) ∧
  match pr_pc g with
  | PRunning v dialed => pr_start g ≤ v ≤ version ∧ (dialed = true → v = pr_start g)
  | _ => True
  end.

Record reader_inv (s : readerState) : Prop := {
  ri_readers : Forall (part_ok (r_version s)) (r_readers s);
  ri_queue : Forall (sent_by (r_readers s)) (r_msgs s);
  ri_taken : map_Forall (λ _ vm, sent_by (r_readers s) vm.2) (r_taken s);
}.

Lemma reader_inv_init config : reader_inv (NewReader_state config).
Proof. split; cbn; [constructor|constructor|apply map_Forall_empty]. Qed.

(** The arguments of a goroutine do not change, and the goroutines spawned
    later carry later starts. *)
Definition same_args (g g' : partReader) : Prop :=
  pr_start g' = pr_start g ∧ pr_partition g' = pr_partition g ∧ pr_offset g' = pr_offset g.

Record grows (s s' : readerState) : Prop := {
  gr_version : r_version s ≤ r_version s';
  gr_old : ∀ k g, r_readers s !! k = Some g → ∃ g', r_readers s' !! k = Some g' ∧ same_args g g';
  gr_new : ∀ k g', (length (r_readers s) ≤ k)%nat → r_readers s' !! k = Some g' → r_version s < pr_start g';
}.

#[global] Instance same_args_preorder : PreOrder same_args.
Proof. split; [done|]. intros g1 g2 g3 (E1 & E2 & E3) (F1 & F2 & F3). unfold same_args. split_and!; congruence. Qed.

Lemma grows_length s s' : grows s s' → (length (r_readers s) ≤ length (r_readers s'))%nat.
Proof.
  intros [_ Ho _]. destruct (decide (length (r_readers s) = 0%nat)) as [->|Hz]; [lia|].
  destruct (lookup_lt_is_Some_2 (r_readers s) (length (r_readers s) - 1)) as [g Hg]; [lia|].
  destruct (Ho _ _ Hg) as (g' & Hg' & _). apply lookup_lt_Some in Hg'. lia.
Qed.

#[global] Instance grows_preorder : PreOrder grows.
Proof.
  split.
  - intros s. split; [lia|by intros k g Hg; exists g|]. intros k g Hk Hg. apply lookup_lt_Some in Hg. lia.
  - intros s1 s2 s3 H12 H23. pose proof (grows_length _ _ H12) as Hl. destruct H12 as [V1 O1 N1], H23 as [V2 O2 N2].
    split; [lia| |].
    + intros k g (g2 & (g3 & E3 & S3)%O2 & S2)%O1. exists g3. split; [done|]. by etransitivity.
    + intros k g3 Hk E3. destruct (decide (k < length (r_readers s2))%nat) as [Hlt|Hge].
      * destruct (lookup_lt_is_Some_2 _ _ Hlt) as [g2 E2]. destruct (O2 _ _ E2) as (g3' & E3' & S3 & _).
        simplify_eq. rewrite S3. by apply (N1 k).
      * specialize (N2 k g3). apply Z.le_lt_trans with (r_version s2); [done|]. apply N2; [lia|done].
Qed.

Lemma sent_by_mono s s' km : grows s s' → sent_by (r_readers s) km → sent_by (r_readers s') km.
Proof.
  intros [_ Ho _] Hs He. destruct (Hs He) as (g & Eg & Ev). destruct (Ho _ _ Eg) as (g' & Eg' & S & _).
  exists g'. split; [done|congruence].
Qed.

(** The invariant is kept by a step that grows the state, keeps the
    goroutines well formed and adds no message. *)
Lemma inv_grow s s' :
  reader_inv s → grows s s' → Forall (part_ok (r_version s')) (r_readers s') →
  r_msgs s' ⊆ r_msgs s → r_taken s' ⊆ r_taken s → reader_inv s'.
Proof.
  intros [Hr Hq Ht] Hg Hr' Hm Htk. rewrite map_subseteq_spec in Htk. split; [done| |].
  - rewrite Forall_forall in *. intros km Hin. by eapply sent_by_mono, Hq, Hm.
  - intros tid vm E. eapply sent_by_mono; [done|]. by apply (Ht tid), Htk.
Qed.

(** A state with the same version and the same goroutines. *)
Lemma same_grows s s' : r_version s' = r_version s → r_readers s' = r_readers s → grows s s'.
Proof.
  intros Ev Er. split; rewrite ?Ev, ?Er; [lia|by intros k g Hg; exists g|]. intros k g Hk Hg. apply lookup_lt_Some in Hg. lia.
Qed.

Ltac inv_same :=
  eapply inv_grow;
  [eassumption|by apply same_grows|match goal with H : reader_inv ?s |- _ => exact (ri_readers s H) end|try done..].

Lemma cancel_grows s : grows s (cancel s).
Proof.
  split; cbn; [lia| |].
  - intros k g Hg. exists (pr_cancel g). split; [|done]. fold (fmap (M := list) pr_cancel (r_readers s)).
    by rewrite list_lookup_fmap, Hg.
  - intros k g' Hk Hg. apply lookup_lt_Some in Hg. rewrite length_map in Hg. lia.
Qed.

Lemma pr_cancel_ok version version' g :
  version ≤ version' → part_ok version g → part_ok version' (pr_cancel g).
Proof. intros Hv (H1 & H2 & H3). split; cbn; [lia|]. split; [done|]. destruct (pr_pc g); try done. destruct H3. split; [lia|done]. Qed.

Lemma cancel_inv s : reader_inv s → reader_inv (cancel s).
Proof.
  intros Hi. eapply inv_grow; [done|apply cancel_grows| |done..]. cbn. apply Forall_map.
  eapply Forall_impl; [apply (ri_readers _ Hi)|]. intros g. by apply pr_cancel_ok.
Qed.

Lemma spawn_ok version offsets : Forall (λ g, pr_start g = version ∧ part_ok version g) (spawn version offsets).
Proof.
  unfold spawn. rewrite Forall_map. apply Forall_true. intros po. cbn. split; [done|].
  split; cbn; [lia|done].
Qed.

Lemma start_grows offsets s : grows s (start offsets s).
Proof.
  unfold start. destruct (r_closed s); [done|]. cbn zeta. etransitivity; [apply cancel_grows|]. split; cbn; [lia| |].
  - intros k g Hg. exists g. split; [by apply lookup_app_l_Some|done].
  - intros k g' Hk Hg. rewrite lookup_app_r in Hg by done. pose proof (spawn_ok (r_version s + 1) offsets) as Hs.
    rewrite Forall_forall in Hs. apply list_elem_of_lookup_2, Hs in Hg as [-> _]. lia.
Qed.

Lemma start_inv offsets s : reader_inv s → reader_inv (start offsets s).
Proof.
  intros Hi. eapply inv_grow; [done|apply start_grows|..]; unfold start; destruct (r_closed s); try done; cbn.
  { by apply ri_readers. }
  apply Forall_app. split.
  - apply Forall_map. eapply Forall_impl; [apply (ri_readers _ Hi)|]. intros g. apply pr_cancel_ok. lia.
  - eapply Forall_impl; [apply spawn_ok|]. by intros g [_ ?].
Qed.

Lemma fetch_lock_grows tid s : grows s (fetch_lock tid s).
Proof.
  unfold fetch_lock. cbn zeta. set (s1 := if negb (r_closed s) && (r_version s =? 0) then _ else s).
  transitivity s1; [|by apply same_grows]. unfold s1. destruct (_ && _); [apply start_grows|done].
Qed.

Lemma fetch_lock_inv tid s : reader_inv s → reader_inv (fetch_lock tid s).
Proof.
  intros Hi. unfold fetch_lock. cbn zeta.
  set (s1 := if negb (r_closed s) && (r_version s =? 0) then _ else s).
  assert (reader_inv s1) by (unfold s1; destruct (_ && _); [by apply start_inv|done]). inv_same.
Qed.

Lemma set_roffset_inv offset lag s : reader_inv s → reader_inv (set_roffset offset lag s).
Proof. by intros [???]. Qed.

(** The section after a receive changes only the offset and the lag. *)
Lemma fetch_receive_same version m s :
  (fetch_receive version m s).1 = set_roffset (r_offset (fetch_receive version m s).1)
                                    (r_lag (fetch_receive version m s).1) s.
Proof.
  unfold fetch_receive. destruct (_ >=? _); [|by destruct s]. cbn. destruct (rm_error m); [by destruct s|].
  destruct (_ =? _); by destruct s.
Qed.

Lemma SetOffset_inv offset s : reader_inv s → reader_inv (SetOffset offset s).2.
Proof.
  intros Hi. unfold SetOffset. destruct (useConsumerGroup _); [done|]. destruct (r_closed s); [done|].
  destruct (_ =? r_offset s); [done|]. cbn zeta. cbn [snd].
  destruct (_ =? 0); [by apply set_roffset_inv|]. by apply start_inv, set_roffset_inv.
Qed.

Lemma SetOffset_grows offset s : grows s (SetOffset offset s).2.
Proof.
  unfold SetOffset. destruct (useConsumerGroup _); [done|]. destruct (r_closed s); [done|].
  destruct (_ =? r_offset s); [done|]. cbn zeta. cbn [snd].
  transitivity (set_roffset offset (r_lag s) s); [by apply same_grows|].
  destruct (_ =? 0); [done|apply start_grows].
Qed.

Lemma start_fields offsets s :
  r_fetching (start offsets s) = r_fetching s ∧ r_taken (start offsets s) = r_taken s.
Proof. unfold start. by destruct (r_closed s). Qed.

Lemma SetOffset_fields offset s :
  r_fetching (SetOffset offset s).2 = r_fetching s ∧ r_taken (SetOffset offset s).2 = r_taken s.
Proof.
  unfold SetOffset. destruct (useConsumerGroup _); [done|]. destruct (r_closed s); [done|].
  destruct (_ =? r_offset s); [done|]. cbn zeta. cbn [snd]. destruct (_ =? 0); [done|].
  by rewrite !(proj1 (start_fields _ _)), !(proj2 (start_fields _ _)).
Qed.

(** A goroutine of [start] changes only where it is. *)
Lemma part_step_Some k f s s' :
  part_step k f s = Some s' →
  ∃ g pc, r_readers s !! k = Some g ∧ f g = Some pc ∧ s' = set_readers (<[k := pr_set_pc pc g]> (r_readers s)) s.
Proof.
  unfold part_step. destruct (r_readers s !! k) as [g|] eqn:Eg; [|done]. destruct (f g) as [pc|] eqn:Ef; [|done].
  intros [= <-]. eauto 7.
Qed.

Lemma part_step_grows k f s s' : part_step k f s = Some s' → grows s s'.
Proof.
  intros (g & pc & Eg & _ & ->)%part_step_Some. split; cbn; [lia| |].
  - intros j g0 E0. destruct (decide (j = k)) as [->|Hne].
    + simplify_eq. exists (pr_set_pc pc g). split; [|done]. apply list_lookup_insert_eq. by eapply lookup_lt_Some.
    + exists g0. by rewrite list_lookup_insert_ne.
  - intros j g' Hj E. apply lookup_lt_Some in E. rewrite length_insert in E. lia.
Qed.

Lemma part_step_inv k f s s' :
  (∀ g pc, part_ok (r_version s) g → f g = Some pc → part_ok (r_version s) (pr_set_pc pc g)) →
  reader_inv s → part_step k f s = Some s' → reader_inv s'.
Proof.
  intros Hf Hi E. eapply inv_grow; [done|by eapply part_step_grows|..];
    apply part_step_Some in E as (g & pc & Eg & Epc & ->); [|done..]. cbn.
  apply Forall_insert; [by apply ri_readers|]. eapply Hf; [|done]. by eapply Forall_lookup_1; [apply ri_readers|].
Qed.

Lemma read_version_ok version g pc :
  part_ok version g → read_version version g = Some pc → part_ok version (pr_set_pc pc g).
Proof.
  intros (H1 & H2 & _). unfold read_version. destruct (pr_pc g); [|done..]. intros [= <-]. split; cbn; [lia|].
  split; [done|]. split; [lia|done].
Qed.

Lemma dial_live_ok version g pc :
  part_ok version g → dial_live g = Some pc → part_ok version (pr_set_pc pc g).
Proof.
  intros (H1 & H2 & H3). unfold dial_live. destruct (pr_pc g) as [|v d|] eqn:Ep; [done| |done].
  destruct (pr_cancelled g) eqn:Ec; [done|]. intros [= <-]. specialize (H2 eq_refl). destruct H3 as [H3 H4].
  unfold part_ok; cbn. rewrite Ec. split; [lia|]. split; [done|]. split; [lia|]. intros _. lia.
Qed.

Lemma run_return_ok version g pc :
  part_ok version g → run_return g = Some pc → part_ok version (pr_set_pc pc g).
Proof.
  intros (H1 & H2 & _). unfold run_return. destruct (pr_pc g); [done| |done].
  destruct (pr_cancelled g) eqn:Ec; [|done]. intros [= <-]. unfold part_ok; cbn. by rewrite Ec.
Qed.

(** What a goroutine may send carries the version of its [start], when it is
    not an error. *)
Lemma may_send_by version readers k g m :
  readers !! k = Some g → part_ok version g → may_send g m = true → sent_by readers (k, m).
Proof.
  unfold may_send. intros Hg (_ & _ & Hp). destruct (pr_pc g) as [|v d|]; [done| |done].
  intros [Hv%Z.eqb_eq Hd]%andb_true_iff He. cbn in *. rewrite He in Hd. exists g. split; [done|].
  destruct Hp as [_ Hp]. specialize (Hp Hd). congruence.
Qed.

Lemma reader_step_grows s ev s' res : reader_step s ev = Some (s', res) → grows s s'.
Proof.
  destruct ev as [tid|tid|tid|tid|offset|offsets| | | |k|k|k m|k]; cbn [reader_step].
  - case_decide; [|done]. intros [= <- <-]. apply fetch_lock_grows.
  - destruct (r_fetching s !! tid) as [v|]; [|done].
    destruct (r_msgs s) as [|m msgs]; [|intros [= <- <-]; by apply same_grows].
    destruct (r_chanClosed s); [|done]. intros [= <- <-]. by apply same_grows.
  - destruct (r_taken s !! tid) as [[v [k m]]|]; [|done]. intros E. apply (inj Some) in E.
    pose proof (f_equal fst E) as E1. cbn [fst] in E1. rewrite <- E1, fetch_receive_same. by apply same_grows.
  - case_decide; [|done]. intros [= <- <-]. by apply same_grows.
  - intros [= <- <-]. apply SetOffset_grows.
  - destruct (useConsumerGroup _); [|done]. intros [= <- <-]. apply start_grows.
  - intros [= <- <-]. by apply same_grows.
  - intros [= <- <-]. apply cancel_grows.
  - destruct (_ && _); [|done]. intros [= <- <-]. by apply same_grows.
  - destruct (part_step _ _ _) eqn:E; [|done]. intros [= <- <-]. by eapply part_step_grows.
  - destruct (part_step _ _ _) eqn:E; [|done]. intros [= <- <-]. by eapply part_step_grows.
  - destruct (r_readers s !! k); [|done]. destruct (_ && _); [|done]. intros [= <- <-]. by apply same_grows.
  - destruct (part_step _ _ _) eqn:E; [|done]. intros [= <- <-]. by eapply part_step_grows.
Qed.

Lemma reader_step_inv s ev s' res :
  reader_inv s → reader_step s ev = Some (s', res) → reader_inv s'.
Proof.
  intros Hi. destruct ev as [tid|tid|tid|tid|offset|offsets| | | |k|k|k m|k]; cbn [reader_step].
  - case_decide; [|done]. intros [= <- <-]. by apply fetch_lock_inv.
  - destruct (r_fetching s !! tid) as [v|] eqn:Ef; [|done]. destruct (r_msgs s) as [|m msgs] eqn:Eq.
    + destruct (r_chanClosed s); [|done]. intros [= <- <-]. inv_same.
    + intros [= <- <-]. pose proof Hi as [Hr Hq Ht]. rewrite Eq in Hq. apply Forall_cons_1 in Hq as [Hm Hq].
      split; cbn; try done. by apply map_Forall_insert_2.
  - destruct (r_taken s !! tid) as [[v [k m]]|]; [|done]. intros E. apply (inj Some) in E.
    pose proof (f_equal fst E) as E1. cbn [fst] in E1. rewrite <- E1, fetch_receive_same.
    apply set_roffset_inv. inv_same. cbn. apply delete_subseteq.
  - case_decide; [|done]. intros [= <- <-]. inv_same.
  - intros [= <- <-]. by apply SetOffset_inv.
  - destruct (useConsumerGroup _); [|done]. intros [= <- <-]. by apply start_inv.
  - intros [= <- <-]. by destruct Hi.
  - intros [= <- <-]. by apply cancel_inv.
  - destruct (_ && _); [|done]. intros [= <- <-]. by destruct Hi.
  - destruct (part_step _ _ _) eqn:E; [|done]. intros [= <- <-].
    eapply part_step_inv; [|done..]. intros ??. apply read_version_ok.
  - destruct (part_step _ _ _) eqn:E; [|done]. intros [= <- <-].
    eapply part_step_inv; [|done..]. intros ??. apply dial_live_ok.
  - destruct (r_readers s !! k) as [g|] eqn:Eg; [|done]. destruct (may_send g m) eqn:Em; [|done]. cbn [andb].
    destruct (_ && _); [|done]. intros [= <- <-]. pose proof Hi as [Hr Hq Ht]. split; cbn; try done.
    apply Forall_app. split; [done|]. constructor; [|constructor].
    eapply may_send_by; [done| |done]. by eapply Forall_lookup_1.
  - destruct (part_step _ _ _) eqn:E; [|done]. intros [= <- <-].
    eapply part_step_inv; [|done..]. intros ??. apply run_return_ok.
Qed.

(** *** Runs *)

Lemma reader_run_cons s ev evs s' res :
  reader_run s (ev :: evs) = Some (s', res) →
  ∃ s1 r1 res1, reader_step s ev = Some (s1, r1) ∧ reader_run s1 evs = Some (s', res1) ∧
    res = match r1 with Some r => r :: res1 | None => res1 end.
Proof.
  cbn. destruct (reader_step s ev) as [[s1 r1]|] eqn:E1; [|done]. cbn.
  destruct (reader_run s1 evs) as [[s2 r2]|] eqn:E2; [|done]. cbn. intros [= <- <-]. eauto 7.
Qed.

Lemma reader_run_app s evs evs' s' res :
  reader_run s (evs ++ evs') = Some (s', res) →
  ∃ s1 r1 r2, reader_run s evs = Some (s1, r1) ∧ reader_run s1 evs' = Some (s', r2).
Proof.
  revert s res. induction evs as [|ev evs IH]; intros s res; cbn [app]; [by exists s, [], res|].
  intros (s1 & r1 & res1 & E1 & (s2 & r2 & r3 & E2 & E3)%IH & _)%reader_run_cons. exists s2.
  cbn [reader_run]. rewrite E1. cbn. rewrite E2. cbn. eauto.
Qed.

Lemma reader_run_inv s evs s' res : reader_inv s → reader_run s evs = Some (s', res) → reader_inv s'.
Proof.
  revert s res. induction evs as [|ev evs IH]; intros s res Hi; [by intros [= <- <-]|].
  intros (s1 & r1 & res1 & E1 & E2 & _)%reader_run_cons. eapply IH; [|exact E2]. by eapply reader_step_inv.
Qed.

Lemma reader_run_grows s evs s' res : reader_run s evs = Some (s', res) → grows s s'.
Proof.
  revert s res. induction evs as [|ev evs IH]; intros s res; [by intros [= <- <-]|].
  intros (s1 & r1 & res1 & E1 & E2 & _)%reader_run_cons.
  etransitivity; [by eapply reader_step_grows|by eapply IH].
Qed.

(** *** What a goroutine saw *)

(** What the goroutine sees is at least [v]. *)
Definition sees_from (tid : nat) (v : Z) (s : readerState) : Prop :=
  map_Forall (λ t u, t = tid → v ≤ u) (r_fetching s) ∧
  map_Forall (λ t (um : Z * (nat * readerMessage)), t = tid → v ≤ um.1) (r_taken s).

Lemma sees_from_weaken tid v s s' :
  sees_from tid v s → r_fetching s' ⊆ r_fetching s → r_taken s' ⊆ r_taken s → sees_from tid v s'.
Proof.
  intros [Hf Ht] Hfs Hts. rewrite map_subseteq_spec in Hfs. rewrite map_subseteq_spec in Hts.
  split; intros t x E; [apply (Hf t), Hfs|apply (Ht t), Hts]; done.
Qed.

(** Every goroutine that locks sees at least the current version. *)
Lemma reader_step_sees tid v s ev s' res :
  v ≤ r_version s → sees_from tid v s → reader_step s ev = Some (s', res) → sees_from tid v s'.
Proof.
  intros Hv Hsf. destruct ev as [t|t|t|t|offset|offsets| | | |k|k|k m|k]; cbn [reader_step].
  - case_decide; [|done]. intros [= <- <-]. unfold fetch_lock. cbn zeta.
    set (s1 := if negb (r_closed s) && (r_version s =? 0) then _ else s).
    assert (v ≤ r_version s1 ∧ sees_from tid v s1) as [Hv1 [Hf Ht]].
    { unfold s1. destruct (_ && _); [|done]. unfold start. destruct (r_closed s); [done|]. cbn. split; [lia|done]. }
    split; [|done]. cbn. by apply map_Forall_insert_2.
  - destruct (r_fetching s !! t) as [u|] eqn:Ef; [|done]. destruct (r_msgs s) as [|m msgs].
    + destruct (r_chanClosed s); [|done]. intros [= <- <-].
      eapply sees_from_weaken; [done|cbn; apply delete_subseteq|done].
    + intros [= <- <-]. destruct Hsf as [Hf Ht]. split; cbn; [by apply map_Forall_delete|].
      apply map_Forall_insert_2; [|done]. exact (Hf _ _ Ef).
  - destruct (r_taken s !! t) as [[u [k m]]|]; [|done]. intros E. apply (inj Some) in E.
    pose proof (f_equal fst E) as E1. cbn [fst] in E1. rewrite <- E1, fetch_receive_same.
    eapply sees_from_weaken; [done|done|cbn; apply delete_subseteq].
  - case_decide; [|done]. intros [= <- <-]. eapply sees_from_weaken; [done|cbn; apply delete_subseteq|done].
  - intros [= <- <-]. destruct (SetOffset_fields offset s) as [Hf Ht].
    eapply sees_from_weaken; [done|by rewrite Hf|by rewrite Ht].
  - destruct (useConsumerGroup _); [|done]. intros [= <- <-]. unfold start. by destruct (r_closed s).
  - by intros [= <- <-].
  - by intros [= <- <-].
  - destruct (_ && _); [|done]. by intros [= <- <-].
  - destruct (part_step _ _ _) eqn:E; [|done]. apply part_step_Some in E as (? & ? & _ & _ & ->). by intros [= <- <-].
  - destruct (part_step _ _ _) eqn:E; [|done]. apply part_step_Some in E as (? & ? & _ & _ & ->). by intros [= <- <-].
  - destruct (r_readers s !! k); [|done]. destruct (_ && _); [|done]. by intros [= <- <-].
  - destruct (part_step _ _ _) eqn:E; [|done]. apply part_step_Some in E as (? & ? & _ & _ & ->). by intros [= <- <-].
Qed.

Lemma reader_run_sees tid v s evs s' res :
  v ≤ r_version s → sees_from tid v s → reader_run s evs = Some (s', res) → sees_from tid v s'.
Proof.
  revert s res. induction evs as [|ev evs IH]; intros s res Hv Hs; [by intros [= <- <-]|].
  intros (s1 & r1 & res1 & E1 & E2 & _)%reader_run_cons. eapply IH; [|by eapply reader_step_sees|exact E2].
  destruct (reader_step_grows _ _ _ _ E1). lia.
Qed.

(** A message returned without an error was taken from the channel, from a
    reader at least as recent as what the goroutine saw. *)
Lemma reader_deliver s tid s' msg :
  reader_step s (EDeliver tid) = Some (s', Some (msg, None)) →
  ∃ v k m, r_taken s !! tid = Some (v, (k, m)) ∧ rm_message m = msg ∧ rm_error m = None ∧ v ≤ rm_version m ∧
    r_offset s' = (if v =? r_version s then int64 (msg_Offset msg + 1) else r_offset s).
Proof.
  cbn [reader_step]. destruct (r_taken s !! tid) as [[v [k m]]|]; [|done].
  unfold fetch_receive. destruct (Z.geb_spec (rm_version m) v) as [Hv|Hv]; [|done].
  intros E. apply (inj Some) in E. injection E as Es Em Ee.
  assert (rm_error m = None) as Hn.
  { destruct (rm_error m) as [e|]; [|done]. unfold dontExpectEOF in Ee. by case_decide. }
  exists v, k, m. split_and!; try done; try lia. rewrite <- Es, Hn, <- Em. cbn.
  by destruct (v =? r_version s).
Qed.
