(* ===== verification/Lifecycle.v ===== *)
(** * The life of a reader ([handshake], [run], [Close] of reader.go; rungroup.go)

    The goroutines of a [Reader] as one machine: [run] and the handshakes it
    makes, the loops of a generation in their [runGroup], the readers of
    partitions counted by [join], and any number of goroutines in [Close].
    Every event is one section that runs without waiting.  A call to the
    broker is a state in which the goroutine waits, left by the event of its
    answer, which says how it ended: an answer, an error code, a failure of
    the connection or the expiry of a deadline, where the code set one.
    (The requests of one call, as join and sync of [rebalance] or the lookups
    of a dial, are one wait; what they are is in ReaderGroup.v and
    SubReader.v.)  The expiry of a pause or of a ticker, a request to commit,
    and the room in the channel that a send needs are events of their own. *)

From S2P Require Import Prelude.

(** ** Run groups (rungroup.go) *)

(** Whether [cancel] was called, and the count of [wg]. *)
Record runGroup : Type := { rg_cancelled : bool; rg_running : nat }.

Definition rg_WithContext : runGroup := {| rg_cancelled := false; rg_running := 0 |}.

Definition rg_Go (g : runGroup) : runGroup :=
  {| rg_cancelled := rg_cancelled g; rg_running := S (rg_running g) |}.

(** A function of the group returned: [defer r.cancel()], [defer r.wg.Done()]. *)
Definition rg_return (g : runGroup) : runGroup :=
  {| rg_cancelled := true; rg_running := pred (rg_running g) |}.

Definition rg_cancel (g : runGroup) : runGroup :=
  {| rg_cancelled := true; rg_running := rg_running g |}.

(** The channel [stop] of the functions is closed. *)
Definition rg_done (parent : bool) (g : runGroup) : bool := parent || rg_cancelled g.

(** ** The state *)

(** Where [run] is in its handshake: about to cancel the readers, waiting for
    them, looking the coordinator up or pausing before the next attempt,
    dialing it, rebalancing, fetching the offsets to subscribe, waiting for
    the loops, in the deferred function, leaving the group, back in [run],
    returned. *)
Inductive hpc : Type :=
| HCancel | HJoin | HRefresh | HPause | HDial | HRebalance | HSubscribe | HWait | HDefer | HLeave | HReturn | HEnd.

(** A loop of the generation is in its [select], in a call to the broker, with
    the attempts that are left and whether it returns after it, or pausing
    before the next attempt. *)
Inductive loop_kind : Type := Heartbeat | Commit | Watcher.
Inductive loop_pc : Type := LSelect | LCall (more : nat) (final : bool) | LPause (more : nat) (final : bool).

(** A reader of a partition is in [initialize], in the [sleep] before it or
    before a fetch (with a connection), waiting for a fetch or for the rest of
    a message, sending a message or an error on [r.msgs], or waiting for the
    rest of a batch that it closes. *)
Inductive preader_pc : Type := PDial | PPause (conn : bool) | PFetch | PSendMessage | PSendError (conn : bool) | PDrain.

Record preader : Type := { pt_cancelled : bool; pt_pc : preader_pc }.

(** A goroutine in [Close]: before it, after the section under the mutex,
    after [cancel], after [stop], after [join.Wait], after the call.  The flag
    is its copy of [closed]. *)
Inductive closer : Type :=
| CStart
| CMarked (closed : bool)
| CCancelled (closed : bool)
| CStopped (closed : bool)
| CJoined (closed : bool)
| CReturned.

Record lifecycle : Type := {
  lc_group : bool;             (* useConsumerGroup *)
  lc_watch : bool;             (* WatchPartitionChanges *)
  lc_pc : hpc;
  lc_conn : bool;              (* the connection of the handshake is open *)
  lc_rg : runGroup;
  lc_loops : list (loop_kind * loop_pc);  (* the functions of the run group *)
  lc_readers : list preader;      (* the readers that run *)
  lc_closed : bool;            (* r.closed *)
  lc_stopped : bool;           (* stctx is done *)
  lc_done : bool;              (* close(r.done) *)
  lc_chanClosed : bool;        (* close(r.msgs) *)
  lc_panicked : bool;          (* a send on r.msgs or a close of it after it was closed *)
  lc_left : nat;               (* the calls of leaveGroup of the deferred function *)
  lc_closers : list closer;
}.

(** [NewReader], with the goroutines that will call [Close]: [run] of a reader
    without a group returns. *)
Definition lc_init (group watch : bool) (closers : nat) : lifecycle :=
  {| lc_group := group; lc_watch := watch; lc_pc := if group then HCancel else HEnd; lc_conn := false;
     lc_rg := rg_WithContext; lc_loops := []; lc_readers := []; lc_closed := false; lc_stopped := false;
     lc_done := negb group; lc_chanClosed := false; lc_panicked := false; lc_left := 0;
     lc_closers := replicate closers CStart |}.

(** ** Updates *)

Definition at_hpc (s : lifecycle) (pc : hpc) (conn : bool) : lifecycle :=
  {| lc_group := lc_group s; lc_watch := lc_watch s; lc_pc := pc; lc_conn := conn; lc_rg := lc_rg s;
     lc_loops := lc_loops s; lc_readers := lc_readers s; lc_closed := lc_closed s; lc_stopped := lc_stopped s;
     lc_done := lc_done s; lc_chanClosed := lc_chanClosed s; lc_panicked := lc_panicked s; lc_left := lc_left s;
     lc_closers := lc_closers s |}.

Definition with_loops (s : lifecycle) (rg : runGroup) (loops : list (loop_kind * loop_pc)) : lifecycle :=
  {| lc_group := lc_group s; lc_watch := lc_watch s; lc_pc := lc_pc s; lc_conn := lc_conn s; lc_rg := rg;
     lc_loops := loops; lc_readers := lc_readers s; lc_closed := lc_closed s; lc_stopped := lc_stopped s;
     lc_done := lc_done s; lc_chanClosed := lc_chanClosed s; lc_panicked := lc_panicked s; lc_left := lc_left s;
     lc_closers := lc_closers s |}.

Definition with_readers (s : lifecycle) (readers : list preader) : lifecycle :=
  {| lc_group := lc_group s; lc_watch := lc_watch s; lc_pc := lc_pc s; lc_conn := lc_conn s; lc_rg := lc_rg s;
     lc_loops := lc_loops s; lc_readers := readers; lc_closed := lc_closed s; lc_stopped := lc_stopped s;
     lc_done := lc_done s; lc_chanClosed := lc_chanClosed s; lc_panicked := lc_panicked s; lc_left := lc_left s;
     lc_closers := lc_closers s |}.

Definition with_left (s : lifecycle) (left : nat) : lifecycle :=
  {| lc_group := lc_group s; lc_watch := lc_watch s; lc_pc := lc_pc s; lc_conn := lc_conn s; lc_rg := lc_rg s;
     lc_loops := lc_loops s; lc_readers := lc_readers s; lc_closed := lc_closed s; lc_stopped := lc_stopped s;
     lc_done := lc_done s; lc_chanClosed := lc_chanClosed s; lc_panicked := lc_panicked s; lc_left := left;
     lc_closers := lc_closers s |}.

Definition with_flags (s : lifecycle) (closed stopped done chanClosed panicked : bool) : lifecycle :=
  {| lc_group := lc_group s; lc_watch := lc_watch s; lc_pc := lc_pc s; lc_conn := lc_conn s; lc_rg := lc_rg s;
     lc_loops := lc_loops s; lc_readers := lc_readers s; lc_closed := closed; lc_stopped := stopped; lc_done := done;
     lc_chanClosed := chanClosed; lc_panicked := panicked; lc_left := lc_left s; lc_closers := lc_closers s |}.

Definition with_closer (s : lifecycle) (i : nat) (c : closer) : lifecycle :=
  {| lc_group := lc_group s; lc_watch := lc_watch s; lc_pc := lc_pc s; lc_conn := lc_conn s; lc_rg := lc_rg s;
     lc_loops := lc_loops s; lc_readers := lc_readers s; lc_closed := lc_closed s; lc_stopped := lc_stopped s;
     lc_done := lc_done s; lc_chanClosed := lc_chanClosed s; lc_panicked := lc_panicked s; lc_left := lc_left s;
     lc_closers := <[i := c]> (lc_closers s) |}.

Definition pt_cancel (r : preader) : preader := {| pt_cancelled := true; pt_pc := pt_pc r |}.

(** [r.cancel()]: the context of the last [start] is done; those before it
    are since that [start]. *)
Definition cancel_readers (s : lifecycle) : lifecycle := with_readers s (map pt_cancel (lc_readers s)).

(** [start] with [n] partitions, under the mutex. *)
Definition lc_start (n : nat) (s : lifecycle) : lifecycle :=
  if lc_closed s then s
  else with_readers s (map pt_cancel (lc_readers s) ++ replicate n {| pt_cancelled := false; pt_pc := PDial |}).

(** The goroutines that the handshake starts in its run group; the watcher
    begins with a call. *)
Definition start_loops (watch : bool) : runGroup :=
  let g := rg_Go (rg_Go rg_WithContext) in if watch then rg_Go g else g.

Definition first_loops (watch : bool) : list (loop_kind * loop_pc) :=
  [(Heartbeat, LSelect); (Commit, LSelect)] ++ (if watch then [(Watcher, LCall 0 false)] else []).

(** ** Events *)

(** What happens to a loop: its ticker or a request to commit, with the call
    that it makes or none; its [stop] channel, with a last call or none; the
    answer to its call; the end of its pause; [stctx] during the pause. *)
Inductive loop_event : Type :=
| LWork (call : bool) | LStop (call : bool) | LAnswer (ok : bool) | LWake | LGiveUp.

(** How a call of a reader of a partition to the broker ends: with a
    connection, with nothing usable (the connection is given up), with an
    error to send, with a message, with the end of the batch. *)
Inductive fetch_answer : Type := AReady | AFailed | AError | AMessage | AEnd.

(** What happens to a reader of a partition: the end of its call, its send,
    the end of its pause, its cancelled context. *)
Inductive preader_event : Type := RAnswer (a : fetch_answer) | RSend | RWake | RCancelled.

Inductive lc_event : Type :=
| EHandshake                        (* the next section of run that waits for no broker *)
| EAnswer (ok : bool) (n : nat)     (* the end of a call of run to the broker; the partitions it gave *)
| EWake                             (* the end of its pause *)
| EStart (n : nat)                  (* FetchMessage and SetOffset of a reader without a group *)
| EReader (i : nat) (ev : preader_event)
| ELoop (i : nat) (ev : loop_event)
| EClose (i : nat).                 (* the next section of a goroutine in Close *)

(** [run] and [handshake]: the sections that wait for no broker.  The dial of
    the coordinator ends with [stctx]. *)
Definition handshake_step (s : lifecycle) : option lifecycle :=
  match lc_pc s with
  | HCancel => Some (at_hpc (cancel_readers s) HJoin (lc_conn s))
  | HJoin => if decide (lc_readers s = []) then Some (at_hpc s HRefresh (lc_conn s)) else None
  | HPause | HDial => if lc_stopped s then Some (at_hpc s HReturn (lc_conn s)) else None
  | HWait =>
    if decide (rg_running (lc_rg s) = 0%nat) then Some (at_hpc s HDefer (lc_conn s)) else None
  | HDefer => Some (if lc_stopped s then at_hpc s HLeave (lc_conn s) else at_hpc s HReturn false)
  | HReturn =>
    Some (if lc_stopped s
          then at_hpc (with_flags s (lc_closed s) true true (lc_chanClosed s) (lc_panicked s)) HEnd (lc_conn s)
          else at_hpc s HCancel (lc_conn s))
  | HRefresh | HRebalance | HSubscribe | HLeave | HEnd => None
  end.

(** The end of a call to the broker.  A member without a partition subscribes
    to nothing and asks nothing. *)
Definition handshake_answer (ok : bool) (n : nat) (s : lifecycle) : option lifecycle :=
  match lc_pc s with
  | HRefresh => Some (at_hpc s (if ok then HDial else HPause) (lc_conn s))
  | HDial => Some (if ok then at_hpc s HRebalance true else at_hpc s HReturn (lc_conn s))
  | HRebalance =>
    Some (if ok
          then at_hpc (with_loops s (start_loops (lc_watch s)) (first_loops (lc_watch s)))
                 (match n with O => HWait | S _ => HSubscribe end) (lc_conn s)
          else at_hpc s HDefer (lc_conn s))
  | HSubscribe =>
    Some (if ok then at_hpc (lc_start n s) HWait (lc_conn s)
          else at_hpc (with_loops s (rg_cancel (lc_rg s)) (lc_loops s)) HWait (lc_conn s))
  | HLeave => Some (at_hpc (with_left s (S (lc_left s))) HReturn false)
  | _ => None
  end.

(** [defaultCommitRetries - 1]: the attempts after the first one. *)
Definition call_retries (k : loop_kind) : nat := match k with Commit => 2 | _ => 0 end.

(** The loops: where the event takes one, or that it returns. *)
Definition loop_next (stopped done : bool) (k : loop_kind) (pc : loop_pc) (ev : loop_event) : option (option loop_pc) :=
  match pc, ev with
  | LSelect, LWork call => Some (Some (if call then LCall (call_retries k) false else LSelect))
  | LSelect, LStop call =>
    if done then
      Some (match k with Commit => if call then Some (LCall (call_retries k) true) else None | _ => None end)
    else None
  | LCall more final, LAnswer ok =>
    Some (match k with
          | Commit =>
            match ok, more with
            | false, S more => Some (LPause more final)
            | _, _ => if final then None else Some LSelect
            end
          | _ => if ok && negb final then Some LSelect else None
          end)
  | LPause more final, LWake => Some (Some (LCall more final))
  | LPause more final, LGiveUp => if stopped then Some (if final then None else Some LSelect) else None
  | _, _ => None
  end.

(** [reader.run]: where the event takes it, or that it returns. *)
Definition preader_next (r : preader) (ev : preader_event) : option (option preader_pc) :=
  match pt_pc r, ev with
  | PDial, RAnswer AReady => Some (Some (PPause true))
  | PDial, RAnswer AFailed => Some (Some (PPause false))
  | PDial, RAnswer AError => Some (Some (PSendError false))
  | PPause conn, RWake => Some (Some (if conn then PFetch else PDial))
  | PPause _, RCancelled => if pt_cancelled r then Some None else None
  | PFetch, RAnswer AMessage => Some (Some PSendMessage)
  | PFetch, RAnswer AEnd | PDrain, RAnswer AEnd => Some (Some (PPause true))
  | PFetch, RAnswer AFailed | PDrain, RAnswer AFailed => Some (Some (PPause false))
  | PFetch, RAnswer AError | PDrain, RAnswer AError => Some (Some (PSendError true))
  | PSendMessage, RSend => Some (Some PFetch)
  | PSendMessage, RCancelled => if pt_cancelled r then Some (Some PDrain) else None
  | PSendError conn, RSend => Some (Some (PPause conn))
  | PSendError conn, RCancelled => if pt_cancelled r then Some (Some (PPause conn)) else None
  | _, _ => None
  end.

Definition close_step (i : nat) (s : lifecycle) : option lifecycle :=
  c ← lc_closers s !! i;
  match c with
  | CStart =>
    Some (with_closer (with_flags s true (lc_stopped s) (lc_done s) (lc_chanClosed s) (lc_panicked s)) i
            (CMarked (lc_closed s)))
  | CMarked closed => Some (with_closer (cancel_readers s) i (CCancelled closed))
  | CCancelled closed =>
    Some (with_closer (with_flags s (lc_closed s) true (lc_done s) (lc_chanClosed s) (lc_panicked s)) i
            (CStopped closed))
  | CStopped closed => if decide (lc_readers s = []) then Some (with_closer s i (CJoined closed)) else None
  | CJoined closed =>
    if lc_done s then
      let s := with_closer s i CReturned in
      Some (if closed then s
            else with_flags s (lc_closed s) (lc_stopped s) (lc_done s) true (lc_panicked s || lc_chanClosed s))
    else None
  | CReturned => None
  end.

Definition loop_step (i : nat) (ev : loop_event) (s : lifecycle) : option lifecycle :=
  '(k, pc) ← lc_loops s !! i;
  next ← loop_next (lc_stopped s) (rg_done (lc_stopped s) (lc_rg s)) k pc ev;
  Some (match next with
        | Some pc => with_loops s (lc_rg s) (<[i := (k, pc)]> (lc_loops s))
        | None => with_loops s (rg_return (lc_rg s)) (delete i (lc_loops s))
        end).

Definition sends (ev : preader_event) : bool := match ev with RSend => true | _ => false end.

Definition preader_step (i : nat) (ev : preader_event) (s : lifecycle) : option lifecycle :=
  r ← lc_readers s !! i;
  next ← preader_next r ev;
  let s := with_flags s (lc_closed s) (lc_stopped s) (lc_done s) (lc_chanClosed s)
             (lc_panicked s || (sends ev && lc_chanClosed s)) in
  Some (with_readers s
          match next with
          | Some pc => <[i := {| pt_cancelled := pt_cancelled r; pt_pc := pc |}]> (lc_readers s)
          | None => delete i (lc_readers s)
          end).

Definition lc_step (ev : lc_event) (s : lifecycle) : option lifecycle :=
  match ev with
  | EHandshake => handshake_step s
  | EAnswer ok n => handshake_answer ok n s
  | EWake => match lc_pc s with HPause => Some (at_hpc s HRefresh (lc_conn s)) | _ => None end
  | EStart n => if lc_group s then None else Some (lc_start n s)
  | EReader i ev => preader_step i ev s
  | ELoop i ev => loop_step i ev s
  | EClose i => close_step i s
  end.

Fixpoint lc_run (evs : list lc_event) (s : lifecycle) : option lifecycle :=
  match evs with
  | [] => Some s
  | ev :: evs => s ← lc_step ev s; lc_run evs s
  end.

(** ** The invariant *)

Definition has_conn (pc : hpc) : bool :=
  match pc with HRebalance | HSubscribe | HWait | HDefer | HLeave => true | _ => false end.

Definition has_loops (pc : hpc) : bool := match pc with HSubscribe | HWait => true | _ => false end.

(** The readers of the generation before have returned. *)
Definition joined_readers (pc : hpc) : bool :=
  match pc with HRefresh | HPause | HDial | HRebalance | HSubscribe => true | _ => false end.

(** The goroutine in [Close] that will close the channel. *)
Definition first_closer (c : closer) : bool :=
  match c with CMarked false | CCancelled false | CStopped false | CJoined false => true | _ => false end.

Definition all_cancelled (readers : list preader) : Prop := Forall (λ r, pt_cancelled r = true) readers.

Definition closer_inv (s : lifecycle) (c : closer) : Prop :=
  match c with
  | CStart => True
  | CMarked _ => lc_closed s = true
  | CCancelled _ => lc_closed s = true ∧ all_cancelled (lc_readers s)
  | CStopped _ => lc_closed s = true ∧ all_cancelled (lc_readers s) ∧ lc_stopped s = true
  | CJoined _ => lc_closed s = true ∧ lc_readers s = [] ∧ lc_stopped s = true
  | CReturned => lc_closed s = true ∧ lc_readers s = [] ∧ lc_stopped s = true ∧ lc_done s = true
  end.

Record lc_inv (s : lifecycle) : Prop := {
  v_conn : lc_conn s = has_conn (lc_pc s);
  v_count : length (lc_loops s) = rg_running (lc_rg s);
  v_loops : has_loops (lc_pc s) = false → rg_running (lc_rg s) = 0%nat;
  v_join : lc_group s = true → joined_readers (lc_pc s) = true → lc_readers s = [];
  v_done : lc_done s = true ↔ lc_pc s = HEnd;
  v_end : lc_group s = true → lc_done s = true → lc_stopped s = true;
  v_single : lc_group s = false → lc_pc s = HEnd;
  v_closers : ∀ i c, lc_closers s !! i = Some c → closer_inv s c;
  v_chan : lc_chanClosed s = true → lc_closed s = true ∧ lc_readers s = [] ∧ lc_done s = true;
  v_once : ∀ i c, lc_closers s !! i = Some c → first_closer c = true →
    lc_chanClosed s = false ∧ ∀ j c', lc_closers s !! j = Some c' → first_closer c' = true → i = j;
  v_panic : lc_panicked s = false;
}.

Lemma lc_init_inv group watch n : lc_inv (lc_init group watch n).
Proof.
  constructor; cbn; try done.
  - by destruct group.
  - by destruct group.
  - by intros ->.
  - by intros ->.
  - intros i c Hc. apply lookup_replicate in Hc as [-> _]. done.
  - intros i c Hc. apply lookup_replicate in Hc as [-> _]. done.
Qed.

(** Before [closed] is set nobody has gone far in [Close]. *)
Lemma open_closers s i c : lc_inv s → lc_closed s = false → lc_closers s !! i = Some c → c = CStart.
Proof.
  intros H Hc Hi. pose proof (v_closers _ H i c Hi) as Hci. destruct c; cbn in Hci; try done; destruct_and?; congruence.
Qed.

(** A step of [run] that leaves readers and flags alone. *)
Lemma inv_at s pc conn :
  lc_inv s → lc_group s = true → lc_pc s ≠ HEnd → pc ≠ HEnd → conn = has_conn pc →
  (has_loops pc = false → rg_running (lc_rg s) = 0%nat) → (joined_readers pc = true → lc_readers s = []) →
  lc_inv (at_hpc s pc conn).
Proof.
  intros [Hc Hn Hl Hj Hd He Hs Hcl Hch Ho Hp] Hg Hpc Hpc' -> Hl' Hj'. constructor; cbn; try done.
  - by rewrite Hd.
  - by rewrite Hg.
Qed.

(** A step that changes the loops. *)
Lemma inv_loops s rg loops :
  lc_inv s → length loops = rg_running rg → (has_loops (lc_pc s) = false → rg_running rg = 0%nat) →
  lc_inv (with_loops s rg loops).
Proof. intros [Hc Hn Hl Hj Hd He Hs Hcl Hch Ho Hp] Hlen Hr. by constructor. Qed.

Lemma cancelled_all readers : all_cancelled (map pt_cancel readers).
Proof. by apply Forall_map, Forall_forall. Qed.

Lemma inv_cancel s : lc_inv s → lc_inv (cancel_readers s).
Proof.
  intros [Hc Hn Hl Hj Hd He Hs Hcl Hch Ho Hp]. constructor; cbn; try done.
  - intros Hg Hpc. by rewrite Hj.
  - intros i c Hi. specialize (Hcl i c Hi). pose proof (cancelled_all (lc_readers s)).
    destruct c; cbn in *; destruct_and?; split_and?; try done; match goal with E : lc_readers _ = [] |- _ => by rewrite E end.
  - intros Hcc. destruct (Hch Hcc) as (? & E & ?). by rewrite E.
Qed.

Lemma inv_start s n :
  lc_inv s → (lc_group s = true → joined_readers (lc_pc s) = false) → lc_inv (lc_start n s).
Proof.
  intros H Hnj. unfold lc_start. destruct (lc_closed s) eqn:Ec; [done|].
  pose proof (open_closers s) as Hopen. pose proof H as [Hc Hn Hl Hj Hd He Hs Hcl Hch Ho Hp]. constructor; cbn; try done.
  - intros Hg Hpc. specialize (Hnj Hg). congruence.
  - intros i c Hi. by rewrite (Hopen i c H Ec Hi).
  - intros Hcc. destruct (Hch Hcc) as (? & _). congruence.
Qed.

(** While [run] has not returned, the reader has a group. *)
Lemma inv_group s : lc_inv s → lc_pc s ≠ HEnd → lc_group s = true.
Proof.
  intros H Hn. destruct (lc_group s) eqn:Eg; [done|]. destruct Hn. by apply (v_single _ H).
Qed.

Lemma handshake_inv s s' : lc_inv s → handshake_step s = Some s' → lc_inv s'.
Proof.
  intros H E. unfold handshake_step in E. pose proof (inv_group s H) as Hg.
  pose proof (v_conn _ H) as Hc. pose proof (v_loops _ H) as Hl. pose proof (v_join _ H) as Hj.
  destruct (lc_pc s) eqn:Epc; cbn in *; try done; specialize (Hg ltac:(done)).
  - injection E as <-. apply inv_at; try (by apply inv_cancel); cbn; rewrite ?Epc; auto; done.
  - destruct (decide (lc_readers s = [])); [|done]. injection E as <-. apply inv_at; rewrite ?Epc; auto; done.
  - destruct (lc_stopped s); [|done]. injection E as <-. apply inv_at; rewrite ?Epc; auto; done.
  - destruct (lc_stopped s); [|done]. injection E as <-. apply inv_at; rewrite ?Epc; auto; done.
  - destruct (decide (rg_running (lc_rg s) = 0%nat)); [|done]. injection E as <-. apply inv_at; rewrite ?Epc; auto; done.
  - injection E as <-. destruct (lc_stopped s); apply inv_at; rewrite ?Epc; auto; done.
  - destruct (lc_stopped s) eqn:Es; injection E as <-; [|apply inv_at; rewrite ?Epc; auto; done].
    destruct H as [? ? ? ? Hd ? ? Hcl Hch ? ?]. constructor; cbn; try done; auto.
    + intros i c Hi. specialize (Hcl i c Hi). by destruct c; cbn in *; destruct_and?; split_and?.
    + intros Hcc. destruct (Hch Hcc) as (? & ? & ?). done.
Qed.

Lemma handshake_answer_inv s s' ok n : lc_inv s → handshake_answer ok n s = Some s' → lc_inv s'.
Proof.
  intros H E. unfold handshake_answer in E. pose proof (inv_group s H) as Hg.
  pose proof (v_conn _ H) as Hc. pose proof (v_loops _ H) as Hl. pose proof (v_join _ H) as Hj.
  destruct (lc_pc s) eqn:Epc; cbn in *; try done; specialize (Hg ltac:(done)); injection E as <-.
  - destruct ok; apply inv_at; rewrite ?Epc; auto; done.
  - destruct ok; apply inv_at; rewrite ?Epc; auto; done.
  - destruct ok; [|apply inv_at; rewrite ?Epc; auto; done].
    assert (lc_inv (at_hpc s HWait true)) as H1 by (apply inv_at; rewrite ?Epc; auto; done).
    assert (lc_inv (at_hpc s HSubscribe true)) as H2 by (apply inv_at; rewrite ?Epc; auto; done). rewrite Hc.
    destruct n; [apply (inv_loops _ (start_loops (lc_watch s)) (first_loops (lc_watch s))) in H1; [done|..]
                |apply (inv_loops _ (start_loops (lc_watch s)) (first_loops (lc_watch s))) in H2; [done|..]];
      cbn; try done; by destruct (lc_watch s).
  - assert (lc_inv (at_hpc s HWait (lc_conn s))) as H1 by (apply inv_at; rewrite ?Epc; auto; done). destruct ok.
    + apply (inv_start _ n) in H1; [|done]. unfold lc_start in *. cbn in *. by destruct (lc_closed s).
    + apply (inv_loops _ (rg_cancel (lc_rg s)) (lc_loops s)) in H1; [done|apply (v_count _ H)|done].
  - assert (lc_inv (with_left s (S (lc_left s)))) as H1 by (destruct H as [? ? ? ? ? ? ? Hcl ? ? ?]; by constructor).
    apply inv_at; cbn; rewrite ?Epc; auto; done.
Qed.

(** A goroutine moves on in [Close] and keeps its flag. *)
Lemma once_moved s (i : nat) c c' :
  (∀ i c, lc_closers s !! i = Some c → first_closer c = true →
    lc_chanClosed s = false ∧ ∀ j c', lc_closers s !! j = Some c' → first_closer c' = true → i = j) →
  lc_closers s !! i = Some c → (first_closer c' = true → first_closer c = true) →
  ∀ k ck, <[i := c']> (lc_closers s) !! k = Some ck → first_closer ck = true →
    lc_chanClosed s = false ∧
    ∀ j cj, <[i := c']> (lc_closers s) !! j = Some cj → first_closer cj = true → k = j.
Proof.
  intros Ho Hi Hcc.
  assert (∀ k ck, <[i := c']> (lc_closers s) !! k = Some ck → first_closer ck = true →
    ∃ c0, lc_closers s !! k = Some c0 ∧ first_closer c0 = true) as Hback.
  { intros k ck Hk Hf. apply list_lookup_insert_Some in Hk as [(<- & <- & _)|[_ Hk]]; eauto. }
  intros k ck Hk Hf. destruct (Hback k ck Hk Hf) as (c0 & Hk0 & Hf0). destruct (Ho k c0 Hk0 Hf0) as [Hch Hu].
  split; [done|]. intros j cj Hj Hfj. destruct (Hback j cj Hj Hfj) as (c1 & Hj1 & Hf1). eauto.
Qed.

Lemma closers_moved s s' (i : nat) c' :
  (∀ k c, lc_closers s !! k = Some c → closer_inv s c) →
  (∀ c, closer_inv s c → closer_inv s' c) → closer_inv s' c' →
  ∀ k c, <[i := c']> (lc_closers s) !! k = Some c → closer_inv s' c.
Proof.
  intros Hcl Hmono Hc' k c Hk. apply list_lookup_insert_Some in Hk as [(<- & <- & _)|[_ Hk]]; eauto.
Qed.

Lemma close_inv s s' i : lc_inv s → close_step i s = Some s' → lc_inv s'.
Proof.
  intros H E. unfold close_step in E. destruct (lc_closers s !! i) as [c|] eqn:Hi; [|done]. cbn in E.
  pose proof (v_closers _ H i c Hi) as Hci. pose proof (v_once _ H i c Hi) as Hfirst.
  destruct c as [|closed|closed|closed|closed|]; cbn in Hci.
  - injection E as <-. pose proof (open_closers s) as Hopen.
    pose proof H as [Hc Hn Hl Hj Hd He Hs Hcl Hch Ho Hp]. constructor; cbn; try done.
    + eapply closers_moved; [exact Hcl| |done]. intros c. destruct c; cbn; naive_solver.
    + intros Hcc. destruct (Hch Hcc) as (? & ? & ?). done.
    + destruct (lc_closed s) eqn:Ec; [by eapply once_moved|].
      assert (lc_chanClosed s = false) as Enc by (destruct (lc_chanClosed s); [|done]; by destruct (Hch eq_refl)).
      assert (∀ k ck, <[i := CMarked false]> (lc_closers s) !! k = Some ck → first_closer ck = true → k = i) as Hk.
      { intros k ck Hk Hf. apply list_lookup_insert_Some in Hk as [(<- & _)|[_ Hk]]; [done|].
        by rewrite (Hopen _ _ H eq_refl Hk) in Hf. }
      intros k ck Hk1 Hf1. split; [done|]. intros j cj Hj1 Hfj. by rewrite (Hk k ck), (Hk j cj).
  - injection E as <-. pose proof (inv_cancel s H) as [Hc Hn Hl Hj Hd He Hs Hcl Hch Ho Hp]. constructor; cbn; try done.
    + eapply (closers_moved (cancel_readers s)); [exact Hcl|done|]. cbn. split; [done|].
      apply cancelled_all.
    + eapply (once_moved (cancel_readers s)); [exact Ho|exact Hi|by destruct closed].
  - injection E as <-. pose proof H as [Hc Hn Hl Hj Hd He Hs Hcl Hch Ho Hp]. constructor; cbn; try done.
    + eapply closers_moved; [exact Hcl| |cbn; naive_solver]. intros c. destruct c; cbn; naive_solver.
    + eapply once_moved; [exact Ho|exact Hi|by destruct closed].
  - destruct (decide (lc_readers s = [])) as [En|]; [|done]. injection E as <-.
    pose proof H as [Hc Hn Hl Hj Hd He Hs Hcl Hch Ho Hp]. constructor; cbn; try done.
    + eapply closers_moved; [exact Hcl|done|cbn; naive_solver].
    + eapply once_moved; [exact Ho|exact Hi|by destruct closed].
  - destruct (lc_done s) eqn:Ed; [|done]. injection E as <-. destruct Hci as (Hcd & Hr & Hst).
    pose proof H as [Hc Hn Hl Hj Hd He Hs Hcl Hch Ho Hp]. destruct closed; constructor; cbn; try done.
    + eapply closers_moved; [exact Hcl|done|done].
    + eapply once_moved; [exact Ho|exact Hi|done].
    + by rewrite <- Hd, Ed.
    + eapply closers_moved; [exact Hcl| |done]. intros c. destruct c; cbn; naive_solver.
    + intros k ck Hk Hf. exfalso. destruct (Hfirst eq_refl) as [_ Hu].
      apply list_lookup_insert_Some in Hk as [(_ & <- & _)|[Hne Hk]]; [done|]. by apply Hne, (Hu k ck).
    + rewrite Hp. by destruct (Hfirst eq_refl) as [-> _].
  - done.
Qed.

Lemma loop_step_inv s s' i ev : lc_inv s → loop_step i ev s = Some s' → lc_inv s'.
Proof.
  intros H E. unfold loop_step in E. destruct (lc_loops s !! i) as [[k pc]|] eqn:Hi; [|done]. cbn in E.
  destruct (loop_next _ _ k pc ev) as [next|]; [|done]. cbn in E. injection E as <-.
  pose proof (v_count _ H) as Hn. pose proof (v_loops _ H) as Hl. destruct next as [pc'|]; apply inv_loops; try done.
  - by rewrite length_insert.
  - cbn. rewrite length_delete by done. lia.
  - cbn. intros Hf. rewrite (Hl Hf). done.
Qed.

(** Readers that were all cancelled stay so. *)
Lemma all_cancelled_insert readers (i : nat) r pc :
  readers !! i = Some r → all_cancelled readers →
  all_cancelled (<[i := {| pt_cancelled := pt_cancelled r; pt_pc := pc |}]> readers).
Proof. intros Hi Ha. apply Forall_insert; [done|]. cbn. exact (Forall_lookup_1 _ _ _ _ Ha Hi). Qed.

Lemma preader_step_inv s s' i ev : lc_inv s → preader_step i ev s = Some s' → lc_inv s'.
Proof.
  intros H E. unfold preader_step in E. destruct (lc_readers s !! i) as [r|] eqn:Hi; [|done]. cbn in E.
  destruct (preader_next r ev) as [next|]; [|done]. cbn in E. injection E as <-.
  assert (lc_chanClosed s = false) as Hnc.
  { destruct (lc_chanClosed s) eqn:Ec; [|done]. destruct (v_chan _ H Ec) as (_ & Hr & _). by rewrite Hr in Hi. }
  assert (lc_readers s ≠ []) as Hne by (intros Hn; by rewrite Hn in Hi).
  pose proof H as [Hc Hn Hl Hj Hd He Hs Hcl Hch Ho Hp]. constructor; cbn; try done.
  - intros Hg Hpc. by destruct Hne; apply Hj.
  - intros k c Hk. specialize (Hcl k c Hk).
    assert (all_cancelled (lc_readers s) → all_cancelled (match next with
      | Some pc => <[i := {| pt_cancelled := pt_cancelled r; pt_pc := pc |}]> (lc_readers s)
      | None => delete i (lc_readers s) end)) as Hall.
    { destruct next; [by apply all_cancelled_insert|by apply Forall_delete]. }
    destruct c; cbn in *; destruct_and?; split_and?; try done; by apply Hall.
  - congruence.
  - by rewrite Hp, Hnc, andb_false_r.
Qed.

Lemma lc_step_inv s s' ev : lc_inv s → lc_step ev s = Some s' → lc_inv s'.
Proof.
  intros H E. destruct ev as [|ok n| |n|i ev|i ev|i]; cbn in E.
  - by eapply handshake_inv.
  - by eapply handshake_answer_inv.
  - destruct (lc_pc s) eqn:Epc; try done. injection E as <-.
    pose proof (inv_group s H) as Hg. pose proof (v_conn _ H) as Hc. pose proof (v_loops _ H) as Hl.
    pose proof (v_join _ H) as Hj. rewrite Epc in *. specialize (Hg ltac:(done)).
    apply inv_at; rewrite ?Epc; cbn in *; auto; done.
  - destruct (lc_group s) eqn:Eg; [done|]. injection E as <-. by apply inv_start; [|rewrite Eg].
  - by eapply preader_step_inv.
  - by eapply loop_step_inv.
  - by eapply close_inv.
Qed.

Lemma lc_run_inv s s' evs : lc_inv s → lc_run evs s = Some s' → lc_inv s'.
Proof.
  revert s. induction evs as [|ev evs IH]; intros s H E; cbn in E; [by injection E as <-|].
  destruct (lc_step ev s) as [s1|] eqn:E1; [|done]. by eapply IH, E; eapply lc_step_inv.
Qed.

(** ** Termination *)

(** The events that wait for nobody outside of the reader. *)
Definition internal (ev : lc_event) : Prop :=
  match ev with
  | EHandshake | EClose _ | EReader _ RCancelled | ELoop _ (LStop _) | ELoop _ LGiveUp => True
  | _ => False
  end.

(** A goroutine of the reader waits for the end of a call to the broker. *)
Definition waits (s : lifecycle) : Prop :=
  lc_pc s ∈ [HRefresh; HRebalance; HSubscribe; HLeave] ∨
  (∃ i k more final, lc_loops s !! i = Some (k, LCall more final)) ∨
  (∃ i r, lc_readers s !! i = Some r ∧ pt_pc r ∈ [PDial; PFetch; PDrain]).

Definition hpc_rank (pc : hpc) : nat :=
  match pc with
  | HCancel => 11 | HJoin => 10 | HRefresh => 9 | HPause => 8 | HDial => 7 | HRebalance => 6 | HSubscribe => 5
  | HWait => 4 | HDefer => 3 | HLeave => 2 | HReturn => 1 | HEnd => 0
  end.

Definition closer_rank (c : closer) : nat :=
  match c with
  | CStart => 5 | CMarked _ => 4 | CCancelled _ => 3 | CStopped _ => 2 | CJoined _ => 1 | CReturned => 0
  end.

Definition loop_rank (l : loop_kind * loop_pc) : nat :=
  match l.2 with
  | LSelect => 6
  | LCall more final => 2 * more + 1 + (if final then 0 else 6)
  | LPause more final => 2 * more + 2 + (if final then 0 else 6)
  end.

Definition preader_rank (r : preader) : nat :=
  match pt_pc r with PPause _ => 1 | PSendError _ => 2 | PDial | PFetch | PDrain => 3 | PSendMessage => 4 end.

(** What is left to do once [stop] was called. *)
Definition lc_work (s : lifecycle) : nat :=
  20 * hpc_rank (lc_pc s) + sum_list (map loop_rank (lc_loops s)) + sum_list (map preader_rank (lc_readers s)) +
  sum_list (map closer_rank (lc_closers s)).

(** The work that an event brings: a ticker or a request to commit, the end
    of a pause, a message that arrived, a call of the program. *)
Definition brings (ev : lc_event) : nat :=
  match ev with
  | EWake => 21
  | EStart _ => 1
  | EReader _ RWake => 3
  | EReader _ (RAnswer AMessage) => 2
  | ELoop _ (LWork call) => if call then 6 else 1
  | _ => 0
  end.

(** [stop] was called, by a goroutine that set [closed] before. *)
Definition closing (s : lifecycle) : Prop :=
  lc_stopped s = true → lc_closed s = true ∧
    ∃ i c, lc_closers s !! i = Some c ∧ (closer_rank c ≤ 2)%nat.

Lemma cancel_rank l : map preader_rank (map pt_cancel l) = map preader_rank l.
Proof. rewrite map_map. by apply map_ext. Qed.

Lemma loop_next_rank stopped done k pc ev next :
  loop_next stopped done k pc ev = Some next →
  (match next with Some pc' => loop_rank (k, pc') | None => 0 end + 1 ≤ loop_rank (k, pc) + brings (ELoop 0 ev))%nat.
Proof.
  unfold loop_next, loop_rank.
  destruct pc as [|[|more] []|[|more] []], ev as [[]|[]|[]| |], k, stopped, done; cbn; intros; simplify_eq; cbn; lia.
Qed.

Lemma preader_next_rank r ev next :
  preader_next r ev = Some next →
  (match next with Some pc => preader_rank {| pt_cancelled := pt_cancelled r; pt_pc := pc |} | None => 0 end + 1 ≤
   preader_rank r + brings (EReader 0 ev))%nat.
Proof.
  unfold preader_next, preader_rank. destruct (pt_pc r) as [|[]| | |[]|], ev as [[]| | |]; cbn; try done;
    repeat case_match; intros; simplify_eq; cbn in *; lia.
Qed.

Lemma handshake_work s s' ev :
  lc_inv s → lc_stopped s = true → lc_closed s = true →
  ev = EHandshake ∨ ev = EWake ∨ (∃ ok n, ev = EAnswer ok n) → lc_step ev s = Some s' →
  (lc_work s' + 1 ≤ lc_work s + brings ev)%nat ∧ lc_stopped s' = true ∧ lc_closed s' = true.
Proof.
  intros H Hs Hc Hev E. pose proof (v_loops _ H) as Hl. pose proof (v_count _ H) as Hn.
  destruct Hev as [->|[->|(ok & n & ->)]]; cbn in E; unfold handshake_step, handshake_answer, lc_start in E;
    destruct (lc_pc s) eqn:Epc; cbn in Hl; try done; repeat (case_decide || case_match); simplify_eq;
    unfold lc_work; cbn; rewrite ?Epc, ?cancel_rank; cbn; try (split_and!; [lia|done|done]).
  all: rewrite (Hl eq_refl) in Hn; apply length_zero_iff_nil in Hn; rewrite Hn; split_and!; [|done|done];
    destruct (lc_watch s); cbn; lia.
Qed.

Lemma lc_step_work s s' ev :
  lc_inv s → lc_stopped s = true → lc_closed s = true → lc_step ev s = Some s' →
  (lc_work s' + 1 ≤ lc_work s + brings ev)%nat ∧ lc_stopped s' = true ∧ lc_closed s' = true.
Proof.
  intros H Hs Hc E. destruct ev as [|ok n| |n|i ev|i ev|i]; try (eapply handshake_work; eauto 6; fail); cbn [lc_step] in E.
  - destruct (lc_group s); [done|]. unfold lc_start in E. rewrite Hc in E. injection E as <-. cbn. split_and!; [lia|done|done].
  - unfold preader_step in E. destruct (lc_readers s !! i) as [r|] eqn:Hi; [|done]. cbn in E.
    destruct (preader_next r ev) as [next|] eqn:En; [|done]. cbn in E. injection E as <-.
    apply preader_next_rank in En. change (brings (EReader 0 ev)) with (brings (EReader i ev)) in En.
    split_and!; [|done|done]. unfold lc_work. cbn [lc_pc lc_loops lc_readers lc_closers with_readers with_flags].
    destruct next as [pc|]; [pose proof (sum_insert preader_rank i r {| pt_cancelled := pt_cancelled r; pt_pc := pc |} _ Hi)
                            |pose proof (sum_delete preader_rank i r _ Hi)]; lia.
  - unfold loop_step in E. destruct (lc_loops s !! i) as [[k pc]|] eqn:Hi; [|done]. cbn in E.
    destruct (loop_next _ _ k pc ev) as [next|] eqn:En; [|done]. cbn in E. injection E as <-.
    apply loop_next_rank in En. change (brings (ELoop 0 ev)) with (brings (ELoop i ev)) in En.
    destruct next as [pc'|]; (split_and!; [|done|done]); unfold lc_work; cbn [lc_pc lc_loops lc_readers lc_closers with_loops];
      [pose proof (sum_insert loop_rank i _ (k, pc') _ Hi)|pose proof (sum_delete loop_rank i _ _ Hi)]; lia.
  - unfold close_step in E. destruct (lc_closers s !! i) as [c|] eqn:Hci; [|done]. cbn in E.
    pose proof (λ c', sum_insert closer_rank i c c' (lc_closers s) Hci) as Hw.
    destruct c; repeat (case_decide || case_match); simplify_eq; unfold lc_work; cbn; rewrite ?cancel_rank;
      (split_and!; [|done|done]);
      match goal with |- context [<[i := ?c']> _] => specialize (Hw c'); cbn in Hw; lia end.
Qed.

(** The closers keep their places under every event but their own. *)
Lemma step_closers s s' ev :
  (∀ i, ev ≠ EClose i) → lc_step ev s = Some s' →
  lc_closers s' = lc_closers s ∧ lc_closed s' = lc_closed s ∧ lc_stopped s' = lc_stopped s.
Proof.
  intros Hne E. destruct ev as [|ok n| |n|i ev|i ev|i]; cbn in E; [| | | | | |by destruct (Hne i)].
  - unfold handshake_step in E. destruct (lc_pc s); repeat (case_decide || case_match); by simplify_eq.
  - unfold handshake_answer, lc_start in E. destruct (lc_pc s); repeat case_match; by simplify_eq.
  - destruct (lc_pc s); by simplify_eq.
  - unfold lc_start in E. destruct (lc_group s); [done|]. destruct (lc_closed s) eqn:Ec; injection E as <-; by rewrite ?Ec.
  - unfold preader_step in E. destruct (lc_readers s !! i); [|done]. cbn in E. destruct (preader_next _ _); [|done].
    by injection E as <-.
  - unfold loop_step in E. destruct (lc_loops s !! i) as [[k pc]|]; [|done]. cbn in E.
    destruct (loop_next _ _ _ _ _) as [[]|]; [..|done]; by injection E as <-.
Qed.

Lemma closing_kept s s' ev : closing s → lc_inv s → lc_step ev s = Some s' → closing s'.
Proof.
  intros Hc H E Hs.
  assert ((∃ i, ev = EClose i) ∨ ∀ i, ev ≠ EClose i) as [[i ->]|Hne] by (destruct ev; eauto; by right).
  2: { destruct (step_closers s s' ev Hne E) as (-> & -> & Es). apply Hc. congruence. }
  cbn in E. unfold close_step in E. destruct (lc_closers s !! i) as [c|] eqn:Hi; [|done]. cbn in E.
  pose proof (v_closers _ H i c Hi) as Hci.
  assert (∀ c', (closer_rank c' ≤ closer_rank c)%nat → (∃ j c0, lc_closers s !! j = Some c0 ∧ (closer_rank c0 ≤ 2)%nat) →
    ∃ j c0, <[i := c']> (lc_closers s) !! j = Some c0 ∧ (closer_rank c0 ≤ 2)%nat) as Hkeep.
  { intros c' Hle (j & c0 & Hj & Hr). destruct (decide (j = i)) as [->|Hne].
    - exists i, c'. split; [|rewrite Hi in Hj; simplify_eq; lia]. apply list_lookup_insert_eq. by eapply lookup_lt_Some.
    - exists j, c0. by rewrite list_lookup_insert_ne. }
  assert (∀ c', (closer_rank c' ≤ 2)%nat → ∃ j c0, <[i := c']> (lc_closers s) !! j = Some c0 ∧ (closer_rank c0 ≤ 2)%nat) as Hnew.
  { intros c' Hr. exists i, c'. split; [|done]. apply list_lookup_insert_eq. by eapply lookup_lt_Some. }
  destruct c; repeat (case_decide || case_match); simplify_eq; cbn in *;
    (split; [naive_solver|]); first [apply Hnew; cbn; lia|apply Hkeep; [cbn; lia|by apply Hc]].
Qed.

Lemma internal_brings ev : internal ev → brings ev = 0%nat.
Proof. by destruct ev as [| | | |? []|? []|]. Qed.

(** A call that a goroutine waits for may end at any time, and brings no work
    when it ends without a message. *)
Lemma waits_answered s : waits s → ∃ ev s', brings ev = 0%nat ∧ lc_step ev s = Some s'.
Proof.
  intros [Hpc|[(i & k & more & final & Hi)|(i & r & Hi & Hr)]].
  - exists (EAnswer false 0). cbn. unfold handshake_answer.
    repeat (apply elem_of_cons in Hpc as [->|Hpc]; [by eauto|]). by apply elem_of_nil in Hpc.
  - exists (ELoop i (LAnswer false)). cbn. unfold loop_step. rewrite Hi. cbn. by eauto.
  - exists (EReader i (RAnswer AFailed)). cbn. unfold preader_step, preader_next. rewrite Hi. cbn.
    repeat (apply elem_of_cons in Hr as [->|Hr]; [cbn; by eauto|]). by apply elem_of_nil in Hr.
Qed.

Definition can_step (s : lifecycle) : Prop := ∃ ev s', internal ev ∧ lc_step ev s = Some s'.

(** A reader of a partition whose context is done steps or waits for the broker. *)
Lemma preader_progress s i r : lc_readers s !! i = Some r → pt_cancelled r = true → can_step s ∨ waits s.
Proof.
  intros Hi Hc. destruct (pt_pc r) eqn:Ep;
    [right; right; right; exists i, r; rewrite Ep; split; [done|set_solver]
    |left| right; right; right; exists i, r; rewrite Ep; split; [done|set_solver]|left|left
    |right; right; right; exists i, r; rewrite Ep; split; [done|set_solver]].
  all: exists (EReader i RCancelled); cbn; unfold preader_step, preader_next; rewrite Hi; cbn; rewrite Ep, Hc; cbn; by eauto.
Qed.

(** So does a loop, once [stop] was called. *)
Lemma loop_progress s i l : lc_stopped s = true → lc_loops s !! i = Some l → can_step s ∨ waits s.
Proof.
  intros Hs Hi. destruct l as [k [|more final|more final]].
  - left. exists (ELoop i (LStop false)). cbn. unfold loop_step, rg_done. rewrite Hi, Hs. cbn. destruct k; by eauto.
  - right. right. left. by exists i, k, more, final.
  - left. exists (ELoop i LGiveUp). cbn. unfold loop_step. rewrite Hi, Hs. cbn. destruct final; by eauto.
Qed.

(** So does [run], when no reader is left. *)
Lemma main_progress s :
  lc_inv s → lc_stopped s = true → lc_readers s = [] → lc_pc s ≠ HEnd → can_step s ∨ waits s.
Proof.
  intros H Hs Hr Hpc. destruct (lc_pc s) eqn:Epc; try done;
    try (right; left; rewrite Epc; set_solver).
  all: try (left; exists EHandshake; cbn; unfold handshake_step; rewrite Epc, ?Hr, ?Hs; cbn; by eauto).
  destruct (lc_loops s) as [|l ls] eqn:El; [|by eapply (loop_progress s 0 l); [|rewrite El]].
  left. exists EHandshake. cbn. unfold handshake_step. rewrite Epc, decide_True by (by rewrite <- (v_count _ H), El). by eauto.
Qed.

(** While something is left to do, some goroutine can run or waits for the
    broker. *)
Lemma lc_progress s :
  lc_inv s → closing s → lc_stopped s = true →
  can_step s ∨ waits s ∨
  (Forall (eq CReturned) (lc_closers s) ∧ lc_pc s = HEnd ∧ rg_running (lc_rg s) = 0%nat ∧
   lc_readers s = [] ∧ lc_conn s = false ∧ lc_done s = true).
Proof.
  intros H Hcl Hs. destruct (Hcl Hs) as (Hc & i & c & Hi & Hr).
  assert (∀ j c', lc_closers s !! j = Some c' → c' = CReturned ∨ can_step s ∨ waits s) as Hall.
  { intros j c' Hj. pose proof (v_closers _ H j c' Hj) as Hcj.
    destruct c' as [|f|f|f|f|]; cbn in Hcj;
      try (right; left; exists (EClose j); cbn; unfold close_step; rewrite Hj; cbn; by eauto).
    - right. destruct Hcj as (_ & Hf & _). destruct (lc_readers s) as [|r rs] eqn:Er.
      + left. exists (EClose j). cbn. unfold close_step. rewrite Hj. cbn. rewrite Er. cbn. by eauto.
      + apply Forall_cons_1 in Hf as [Hf _]. apply (preader_progress s 0 r); [by rewrite Er|done].
    - right. destruct Hcj as (_ & Hrd & _). destruct (lc_done s) eqn:Ed.
      { left. exists (EClose j). cbn. unfold close_step. rewrite Hj. cbn. rewrite Ed. by eauto. }
      apply main_progress; try done. intros Epc. by rewrite (proj2 (v_done _ H) Epc) in Ed.
    - by left. }
  destruct (decide (Forall (λ c, closer_rank c = 0%nat) (lc_closers s))) as [Hf|Hn].
  - right. right. assert (c = CReturned) as ->.
    { apply list_elem_of_lookup_2 in Hi. rewrite Forall_forall in Hf. specialize (Hf c Hi). by destruct c. }
    destruct (v_closers _ H i _ Hi) as (_ & Hrd & _ & Hd). apply (v_done _ H) in Hd as Hpc.
    pose proof (v_conn _ H) as Hcn. rewrite Hpc in Hcn. split_and!; try done.
    + eapply Forall_impl; [exact Hf|]. intros x Hx. by destruct x.
    + apply (v_loops _ H). by rewrite Hpc.
  - apply not_Forall_Exists in Hn; [|intros x; apply _]. apply Exists_exists in Hn as (x & Hx & Hne).
    apply list_elem_of_lookup in Hx as [j Hj]. destruct (Hall j x Hj) as [->|[Hex|Hex]]; [by destruct Hne|by left|by right; left].
Qed.

(** Runs after [stop] are bounded by the work there is and the work that their
    events bring. *)
Lemma lc_run_bounded s s' evs :
  lc_inv s → closing s → lc_stopped s = true → lc_run evs s = Some s' →
  (lc_work s' + length evs ≤ lc_work s + sum_list (map brings evs))%nat ∧ lc_inv s' ∧ closing s' ∧ lc_stopped s' = true.
Proof.
  revert s. induction evs as [|ev evs IH]; intros s H Hc Hs E; cbn in E.
  - injection E as <-. cbn. split_and!; [lia|done..].
  - destruct (lc_step ev s) as [s1|] eqn:E1; [|done]. cbn in E.
    destruct (lc_step_work _ _ _ H Hs (proj1 (Hc Hs)) E1) as (Hlt & Hs1 & _).
    destruct (IH s1) as (Hle & ? & ? & ?); [by eapply lc_step_inv|by eapply closing_kept|done|done|].
    cbn [length map]. change (sum_list (brings ev :: ?l)) with (brings ev + sum_list l)%nat. split_and!; [lia|done..].
Qed.

Lemma lc_run_closing s s' evs : lc_inv s → closing s → lc_run evs s = Some s' → lc_inv s' ∧ closing s'.
Proof.
  revert s. induction evs as [|ev evs IH]; intros s H Hc E; cbn in E; [by injection E as <-|].
  destruct (lc_step ev s) as [s1|] eqn:E1; [|done]. cbn in E.
  eapply IH, E; [by eapply lc_step_inv|by eapply closing_kept].
Qed.
