(* ===== verification/Stats.v ===== *)
(** * Statistics (stats.go)

    Each statistic is a 64-bit cell that goroutines change with atomic
    operations.  A goroutine is a program counter; a step of the system is
    one atomic operation of one goroutine, so that the theorems hold for
    every interleaving.  The average of a [summary] is a division of numbers
    of 53 bits, rounded to even, as Go's [float64] is. *)

From S2P Require Import Prelude.

(** ** [counter] *)

Module Counter.

(** Where a goroutine is: about to [AddInt64] an observation, about to load
    for a snapshot, about to subtract what it loaded, or returned. *)
Inductive thread : Type :=
| Observe (v : Z)
| Snapshot
| Subtract (v : Z)
| Observed
| Returned (v : Z).

Definition counter_op (cell : Z) (t : thread) : option (Z * thread) :=
  match t with
  | Observe v => Some (int64 (cell + v), Observed)
  | Snapshot => Some (cell, Subtract cell)
  | Subtract v => Some (int64 (cell + int64 (- v)), Returned v)
  | Observed | Returned _ => None
  end.

Definition state : Type := Z * list thread.

Inductive step : state → state → Prop :=
| step_at cell ts i t cell' t' :
    ts !! i = Some t → counter_op cell t = Some (cell', t') →
    step (cell, ts) (cell', <[i := t']> ts).

(** What a goroutine is about to add to the cell, or has taken from it. *)
Definition taken (t : thread) : Z :=
  match t with Observe v | Returned v => v | _ => 0 end.

Definition total (ts : list thread) : Z := foldr (λ t n, taken t + n) 0 ts.

Lemma total_insert ts i t t' : ts !! i = Some t → total (<[i := t']> ts) = total ts - taken t + taken t'.
Proof.
  intros Hi. rewrite <- (take_drop_middle _ _ _ Hi) at 2.
  rewrite insert_take_drop by (by eapply lookup_lt_Some).
  unfold total. rewrite !foldr_app. cbn [foldr].
  assert (∀ l a b, foldr (λ t n, taken t + n) a l = foldr (λ t n, taken t + n) b l + (a - b)) as H.
  { induction l as [|x l IH]; intros a b; cbn; [lia|]. rewrite (IH a b). lia. }
  rewrite (H (take i ts) (taken t' + _) (taken t + foldr (λ t n, taken t + n) 0 (drop (S i) ts))). lia.
Qed.

(** What the cell holds and what was taken from it are what was observed. *)
Lemma step_total s s' : step s s' → eqw 64 (s'.1 + total s'.2) (s.1 + total s.2).
Proof.
  intros H. destruct H as [cell ts i t cell' t' Hi Ht]. cbn [fst snd].
  pose proof (total_insert ts i t t' Hi) as E. unfold state in *. rewrite E.
  destruct t as [v| |v| |v]; cbn in Ht; try done; injection Ht as <- <-; cbn [taken]; rewrite ?eqw_wrapS.
  - unfold eqw. f_equal. lia.
  - unfold eqw. f_equal. lia.
  - unfold eqw. f_equal. lia.
Qed.

(** Every interleaving keeps the account. *)
Lemma steps_total s s' : rtc step s s' → eqw 64 (s'.1 + total s'.2) (s.1 + total s.2).
Proof. induction 1 as [s|s1 s2 s3 H _ IH]; [done|]. by rewrite IH, step_total. Qed.
End Counter.

(** ** [gauge] *)

Definition gauge_observe (cell v : Z) : Z := v.
Definition gauge_snapshot (cell : Z) : Z := cell.

(** ** [minimum] and [maximum]

    The two types differ in the test that leaves the value in place. *)

Definition minimum_keeps (min v : Z) : bool := (min >=? 0) && (min <=? v).
Definition maximum_keeps (max v : Z) : bool := (max >=? 0) && (max >=? v).

Module Extremum.
Section extremum.
Context (keeps : Z → Z → bool).

(** About to load, about to compare and swap with the value loaded, about to
    load or swap in a snapshot, or returned. *)
Inductive thread : Type :=
| Observe (v : Z)
| Swap (v old : Z)
| Snapshot
| Clear (old : Z)
| Observed (v : Z)
| Returned (v : Z).

Definition extremum_op (cell : Z) (t : thread) : option (Z * thread) :=
  match t with
  | Observe v => Some (cell, if keeps cell v then Observed v else Swap v cell)
  | Swap v old => Some (if cell =? old then (v, Observed v) else (cell, Observe v))
  | Snapshot => Some (cell, Clear cell)
  | Clear old => Some (if cell =? old then -1 else cell, Returned (if old <? 0 then 0 else old))
  | Observed _ | Returned _ => None
  end.

Inductive step : Z * list thread → Z * list thread → Prop :=
| step_at cell ts i t cell' t' :
    ts !! i = Some t → extremum_op cell t = Some (cell', t') →
    step (cell, ts) (cell', <[i := t']> ts).

Definition value (t : thread) : option Z :=
  match t with Observe v | Swap v _ | Observed v => Some v | _ => None end.

(** ** Without snapshots, the cell ends on the extremum *)

Context (le : Z → Z → Prop) `{!PreOrder le}.
Context (keeps_spec : ∀ m v, keeps m v = true ↔ 0 ≤ m ∧ le m v).
Context (le_total : ∀ m v, le m v ∨ le v m).

Definition observer (t : thread) : Prop := match value t with Some v => 0 ≤ v | None => False end.

(** The cell is [-1] or the value of an observer, and what an observer that
    has returned, or is about to swap, saw of it. *)
Definition thread_ok (cell : Z) (t : thread) : Prop :=
  match t with
  | Observed v => 0 ≤ cell ∧ le cell v
  | Swap v old => 0 ≤ v ∧ keeps old v = false
  | Observe v => 0 ≤ v
  | _ => False
  end.

Record ok (s : Z * list thread) : Prop := {
  ok_threads : Forall (thread_ok s.1) s.2;
  ok_cell : s.1 = -1 ∨ 0 ≤ s.1 ∧ ∃ t, t ∈ s.2 ∧ value t = Some s.1;
}.

Lemma thread_ok_lower cell cell' t :
  0 ≤ cell' → (0 ≤ cell → le cell' cell) → thread_ok cell t → thread_ok cell' t.
Proof.
  intros H0 Hle. destruct t; cbn; try done. intros [Hc Hv]. split; [done|]. etransitivity; [by apply Hle|done].
Qed.

Lemma step_values s s' : step s s' → map value s'.2 = map value s.2 ∨ ∃ t, t ∈ s.2 ∧ value t = None.
Proof.
  intros H. destruct H as [cell ts i t cell' t' Hi Ht]. cbn [fst snd].
  destruct (value t) as [v|] eqn:Ev; [left|right; exists t; split; [by eapply list_elem_of_lookup_2|done]].
  change (map value) with (fmap (M:=list) value). rewrite list_fmap_insert. apply list_insert_id.
  rewrite list_lookup_fmap, Hi. cbn. f_equal. rewrite Ev.
  destruct t; cbn in *; try done; injection Ev as ->.
  - destruct (keeps cell v); by injection Ht as <- <-.
  - destruct (cell =? old); by injection Ht as <- <-.
Qed.

Lemma ok_step s s' : ok s → step s s' → ok s'.
Proof.
  intros [Hts Hcell] H. pose proof (step_values _ _ H) as Hv.
  destruct H as [cell ts i t cell' t' Hi Ht]. cbn [fst snd] in *.
  pose proof (Forall_lookup_1 _ _ _ _ Hts Hi) as Hok.
  assert (map value (<[i:=t']> ts) = map value ts) as Hval.
  { destruct Hv as [?|(t0 & Hin & Hn)]; [done|]. rewrite Forall_forall in Hts. apply Hts in Hin.
    by destruct t0. }
  assert (∀ x, (∃ t0, t0 ∈ ts ∧ value t0 = Some x) ↔ ∃ t0, t0 ∈ <[i:=t']> ts ∧ value t0 = Some x) as Hmem.
  { intros x. assert (∀ l : list thread, (∃ t0, t0 ∈ l ∧ value t0 = Some x) ↔ Some x ∈ map value l) as Hl.
    { intros l. rewrite list_elem_of_fmap. naive_solver. }
    by rewrite !Hl, Hval. }
  assert (i < length ts)%nat as Hlen by (by eapply lookup_lt_Some).
  destruct t as [v|v old| | | |]; cbn in Hok, Ht; try done.
  - destruct (keeps cell v) eqn:Hk; injection Ht as <- <-.
    + apply keeps_spec in Hk as [??]. split; cbn; [by apply Forall_insert|]. by rewrite <- Hmem.
    + split; cbn; [by apply Forall_insert|]. by rewrite <- Hmem.
  - destruct Hok as [Hv0 Hk]. destruct (Z.eqb_spec cell old) as [<-|Hne]; injection Ht as <- <-.
    + assert (0 ≤ cell → le v cell) as Hle.
      { intros Hc. destruct (le_total cell v) as [Hl|Hl]; [|done].
        rewrite (proj2 (keeps_spec cell v)) in Hk; [done|by split]. }
      split; cbn.
      * apply Forall_insert; [|cbn; split; [done|reflexivity]].
        eapply Forall_impl; [exact Hts|]. intros t. by apply thread_ok_lower.
      * right. split; [done|]. exists (Observed v). split; [|done].
        apply list_elem_of_lookup. exists i. by apply list_lookup_insert_eq.
    + split; cbn; [by apply Forall_insert|]. by rewrite <- Hmem.
Qed.

Lemma ok_steps s s' : ok s → rtc step s s' → ok s'.
Proof. intros Hok Hr. induction Hr as [|s1 s2 s3 H _ IH]; [done|]. apply IH. by eapply ok_step. Qed.

Lemma values_steps s s' : ok s → rtc step s s' → map value s'.2 = map value s.2.
Proof.
  intros Hok H. induction H as [|s1 s2 s3 H _ IH]; [done|]. rewrite IH by (by eapply ok_step).
  destruct (step_values _ _ H) as [?|(t & Hin & Hn)]; [done|]. destruct Hok as [Hts _].
  rewrite Forall_forall in Hts. apply Hts in Hin. by destruct t.
Qed.

(** When every observer has returned, the cell is the least value (for [le])
    that was observed. *)
Lemma extremum_observed vs cell ts :
  Forall (λ v, 0 ≤ v) vs → vs ≠ [] →
  rtc step (-1, map Observe vs) (cell, ts) → Forall (λ t, ∃ v, t = Observed v) ts →
  cell ∈ vs ∧ Forall (le cell) vs.
Proof.
  intros H0 Hne Hr Hd.
  assert (ok (-1, map Observe vs)) as Hok.
  { split; cbn; [|by left]. apply Forall_map. eapply Forall_impl; [exact H0|]. done. }
  pose proof (values_steps _ _ Hok Hr) as Hval. pose proof (ok_steps _ _ Hok Hr) as [Hts Hcell].
  cbn [fst snd] in *. rewrite map_map in Hval. cbn in Hval.
  assert (ts = map Observed vs) as ->.
  { clear Hr Hne H0 Hok Hts Hcell. revert vs Hval. induction Hd as [|t ts [v ->] _ IH]; intros [|v' vs] Hval; try done.
    cbn in Hval. injection Hval as -> Hval. cbn. f_equal. by apply IH. }
  rewrite Forall_map in Hts. cbn in Hts. split.
  - destruct Hcell as [E|(_ & t & Hin & Ht)].
    + destruct vs as [|v vs]; [done|]. inversion_clear Hts as [|? ? [Hc _] _]. lia.
    + apply list_elem_of_fmap in Hin as (v & -> & Hin). cbn in Ht. by injection Ht as ->.
  - eapply Forall_impl; [exact Hts|]. cbn. by intros v [_ ?].
Qed.
End extremum.
End Extremum.

(** ** [summary] *)

Record summary : Type := { sm_min : Z; sm_max : Z; sm_sum : Z; sm_count : Z }.

Definition makeSummary : summary := {| sm_min := -1; sm_max := -1; sm_sum := 0; sm_count := 0 |}.

(** [observe] and [snapshot] by one goroutine: the loops of the extrema end
    in the first iteration. *)
Definition summary_observe (s : summary) (v : Z) : summary :=
  {| sm_min := if minimum_keeps (sm_min s) v then sm_min s else v;
     sm_max := if maximum_keeps (sm_max s) v then sm_max s else v;
     sm_sum := int64 (sm_sum s + v);
     sm_count := int64 (sm_count s + 1) |}.

(** ** The average *)

(** [n / d] to the nearest integer, to the even one of two. *)
Definition round_half_even (n d : Z) : Z :=
  let q := n / d in
  let r := n mod d in
  if 2 * r <? d then q else if d <? 2 * r then q + 1 else if Z.even q then q else q + 1.

(** [float64(z)] for [0 <= z]: an integer too, of at most 53 significant bits. *)
Definition float64_of (z : Z) : Z :=
  if z <? 2 ^ 53 then z else let e := Z.log2 z - 52 in round_half_even z (2 ^ e) * 2 ^ e.

(** [a * 2 ^ k / b] as a fraction. *)
Definition scaled (a b k : Z) : Z * Z := if 0 <=? k then (a * 2 ^ k, b) else (a, b * 2 ^ (- k)).

(** The scale at which the quotient of [a] and [b] has 53 bits. *)
Definition div_scale (a b : Z) : Z :=
  let k := 53 + Z.log2 b - Z.log2 a in
  let '(n, d) := scaled a b k in if 2 ^ 53 <=? n / d then k - 1 else k.

(** [int64(x / y)] for numbers [0 <= x], [0 < y] of 53 bits: the rounded
    quotient, then its integer part. *)
Definition float_div (a b : Z) : Z :=
  let k := div_scale a b in
  let '(n, d) := scaled a b k in
  let m := round_half_even n d in
  if 0 <=? k then m / 2 ^ k else m * 2 ^ (- k).

(** [int64(float64(sum) / float64(count))]. *)
Definition average (sum count : Z) : Z :=
  Z.sgn sum * float_div (float64_of (Z.abs sum)) (float64_of count).

Record SummaryStats : Type := { st_Avg : Z; st_Min : Z; st_Max : Z }.

(** A counter is read and the value subtracted. *)
Definition counter_snapshot (cell : Z) : Z * Z := (cell, int64 (cell + int64 (- cell))).

(** An extremum is read and set to -1, by one goroutine. *)
Definition extremum_snapshot (cell : Z) : Z * Z := (if cell <? 0 then 0 else cell, -1).

(** [snapshot]: the statistics, and the summary after. *)
Definition summary_snapshot (s : summary) : SummaryStats * summary :=
  let '(min, min') := extremum_snapshot (sm_min s) in
  let '(max, max') := extremum_snapshot (sm_max s) in
  let '(sum, sum') := counter_snapshot (sm_sum s) in
  let '(count, count') := counter_snapshot (sm_count s) in
  ({| st_Avg := if count =? 0 then 0 else average sum count; st_Min := min; st_Max := max |},
   {| sm_min := min'; sm_max := max'; sm_sum := sum'; sm_count := count' |}).

Lemma summary_snapshot_spec s :
  summary_snapshot s =
  ({| st_Avg := if sm_count s =? 0 then 0 else average (sm_sum s) (sm_count s);
      st_Min := Z.max 0 (sm_min s); st_Max := Z.max 0 (sm_max s) |}, makeSummary).
Proof.
  unfold summary_snapshot, extremum_snapshot, counter_snapshot. rewrite !wrapS_add_r, !Z.add_opp_diag_r.
  assert (∀ v, (if v <? 0 then 0 else v) = Z.max 0 v) as Hm by (intros v; destruct (Z.ltb_spec v 0); lia).
  by rewrite !Hm.
Qed.

(** Durations are summarised in nanoseconds. *)
Record DurationStats : Type := { dst_Avg : Z; dst_Min : Z; dst_Max : Z }.

Definition observeDuration (s : summary) (v : Z) : summary := summary_observe s v.

Definition snapshotDuration (s : summary) : DurationStats * summary :=
  let '(st, s) := summary_snapshot s in
  ({| dst_Avg := st_Avg st; dst_Min := st_Min st; dst_Max := st_Max st |}, s).

(** *** The average is the integer part of the quotient *)

Lemma round_half_even_bounds n d : 0 < d → n / d ≤ round_half_even n d ∧ 2 * d * round_half_even n d ≤ 2 * n + d.
Proof.
  intros Hd. unfold round_half_even. cbn zeta. pose proof (Z.div_mod n d ltac:(lia)). pose proof (Z.mod_pos_bound n d Hd).
  destruct (Z.ltb_spec (2 * (n mod d)) d); [nia|]. destruct (Z.ltb_spec d (2 * (n mod d))); [nia|].
  destruct (Z.even _); nia.
Qed.

Lemma div_scale_bounds a b : 0 < a < 2 ^ 53 → 0 < b → 0 ≤ Z.log2 b ≤ div_scale a b.
Proof.
  intros Ha Hb. split; [apply Z.log2_nonneg|]. assert (Z.log2 a < 53) by (apply Z.log2_lt_pow2; lia).
  unfold div_scale. cbn zeta. destruct (scaled _ _ _) as [n d]. destruct (_ <=? _); lia.
Qed.

Lemma float_div_exact a b : 0 ≤ a < 2 ^ 53 → 0 < b → float_div a b = a / b.
Proof.
  intros Ha Hb. destruct (decide (a = 0)) as [->|Hne].
  { unfold float_div. destruct (scaled 0 b _) as [n d] eqn:E.
    assert (n = 0 ∧ 0 < d) as [-> Hd].
    { unfold scaled in E. destruct (Z.leb_spec 0 (div_scale 0 b)); injection E as <- <-; [lia|].
      split; [done|]. apply Z.mul_pos_pos; [done|]. apply Z.pow_pos_nonneg; lia. }
    unfold round_half_even. rewrite Z.div_0_l, Z.mod_0_l by lia. rewrite (proj2 (Z.ltb_lt _ _)) by lia.
    destruct (Z.leb_spec 0 (div_scale 0 b)); [|done]. rewrite !Z.div_0_l; lia. }
  pose proof (div_scale_bounds a b ltac:(lia) Hb) as [Hl Hk]. unfold float_div. set (k := div_scale a b) in *.
  unfold scaled. rewrite (proj2 (Z.leb_le 0 k)) by lia.
  pose proof (round_half_even_bounds (a * 2 ^ k) b Hb) as [H1 H2]. set (m := round_half_even _ _) in *.
  assert (b < 2 * 2 ^ k) as Hbk.
  { pose proof (proj2 (Z.log2_spec b Hb)). rewrite <- Z.pow_succ_r by lia.
    eapply Z.lt_le_trans; [done|]. apply Z.pow_le_mono_r; lia. }
  assert (0 < 2 ^ k) by (apply Z.pow_pos_nonneg; lia).
  pose proof (Z.div_mod a b ltac:(lia)). pose proof (Z.mod_pos_bound a b Hb). set (q := a / b) in *.
  symmetry. apply Z.div_unique with (m - q * 2 ^ k); [left|lia].
  assert (q * 2 ^ k ≤ a * 2 ^ k / b) by (apply Z.div_le_lower_bound; nia).
  split; [lia|]. nia.
Qed.

Lemma average_exact sum count : 0 ≤ sum < 2 ^ 53 → 0 < count < 2 ^ 53 → average sum count = sum / count.
Proof.
  intros Hs Hc. unfold average, float64_of. rewrite Z.abs_eq by lia.
  rewrite !(proj2 (Z.ltb_lt _ _)) by lia. rewrite float_div_exact by lia.
  destruct (decide (sum = 0)) as [->|]; [by rewrite Z.div_0_l by lia|]. rewrite Z.sgn_pos by lia. lia.
Qed.

(** *** Observations of one goroutine *)

Definition observe_all (s : summary) (vs : list Z) : summary := fold_left summary_observe vs s.

Definition zsum (vs : list Z) : Z := fold_right Z.add 0 vs.

Lemma observe_all_sums vs s :
  Forall (λ v, 0 ≤ v) vs → 0 ≤ sm_sum s → 0 ≤ sm_count s → sm_sum s + zsum vs < 2 ^ 53 → sm_count s + len vs < 2 ^ 53 →
  sm_sum (observe_all s vs) = sm_sum s + zsum vs ∧ sm_count (observe_all s vs) = sm_count s + len vs.
Proof.
  intros Hv. revert s. induction Hv as [|v vs Hv Hvs IH]; intros s Hs Hc Hb Hn.
  { unfold observe_all. cbn [fold_left zsum fold_right]. change (len (@nil Z)) with 0. lia. }
  assert (0 ≤ zsum vs) by (clear -Hvs; unfold zsum; induction Hvs; cbn; lia). rewrite len_cons in Hn. pose proof (len_nonneg vs).
  change (zsum (v :: vs)) with (v + zsum vs) in *.
  assert (int64 (sm_sum s + v) = sm_sum s + v) as E1 by (apply wrapS_id; [lia|unfold inS; lia]).
  assert (int64 (sm_count s + 1) = sm_count s + 1) as E2 by (apply wrapS_id; [lia|unfold inS; lia]).
  destruct (IH (summary_observe s v)) as [H1 H2]; cbn [summary_observe sm_sum sm_count]; rewrite ?E1, ?E2; [lia..|].
  change (observe_all s (v :: vs)) with (observe_all (summary_observe s v) vs). rewrite H1, H2.
  cbn [summary_observe sm_sum sm_count]. rewrite E1, E2, len_cons. lia.
Qed.

(** The extrema of what was observed since a fresh summary. *)
Lemma observe_all_extrema vs s :
  Forall (λ v, 0 ≤ v) vs → 0 ≤ sm_min s → 0 ≤ sm_max s →
  sm_min (observe_all s vs) ∈ sm_min s :: vs ∧ Forall (λ v, sm_min (observe_all s vs) ≤ v) (sm_min s :: vs) ∧
  sm_max (observe_all s vs) ∈ sm_max s :: vs ∧ Forall (λ v, v ≤ sm_max (observe_all s vs)) (sm_max s :: vs).
Proof.
  intros Hv. revert s. induction Hv as [|v vs Hv Hvs IH]; intros s Hm HM.
  { cbn. rewrite !list_elem_of_singleton, !Forall_singleton. lia. }
  assert (sm_min (summary_observe s v) = Z.min (sm_min s) v) as E1.
  { cbn. unfold minimum_keeps. rewrite Z.geb_leb, (proj2 (Z.leb_le _ _) Hm). cbn. destruct (Z.leb_spec (sm_min s) v); lia. }
  assert (sm_max (summary_observe s v) = Z.max (sm_max s) v) as E2.
  { cbn. unfold maximum_keeps. rewrite !Z.geb_leb, (proj2 (Z.leb_le _ _) HM). cbn. destruct (Z.leb_spec v (sm_max s)); lia. }
  destruct (IH (summary_observe s v)) as (H1 & H2 & H3 & H4); [rewrite E1; lia|rewrite E2; lia|].
  rewrite E1 in H1, H2. rewrite E2 in H3, H4. change (observe_all s (v :: vs)) with (observe_all (summary_observe s v) vs).
  rewrite !Forall_cons in *. destruct H2 as [H2 H2']. destruct H4 as [H4 H4']. rewrite !elem_of_cons in *.
  repeat split; try done; try lia; [destruct H1 as [->|]|destruct H3 as [->|]]; try tauto; lia.
Qed.
