(* ===== verification/Reporting.v ===== *)
(** * Reports of readers and writers ([Stats], [readLag] of reader.go and writer.go)

    The statistics of a writer and of a reader, the snapshots that [Stats]
    returns, and the goroutine that follows the lag of a partition. *)

From S2P Require Import Prelude Errors Time Read Stats Writer GroupBalancer ReaderConfig Reader.

(** ** Writers *)

Record writerStats : Type := {
  wst_dials : Z; wst_writes : Z; wst_messages : Z; wst_bytes : Z; wst_rebalances : Z; wst_errors : Z;
  wst_dialTime : summary; wst_writeTime : summary; wst_waitTime : summary; wst_retries : summary;
  wst_batchSize : summary; wst_batchSizeBytes : summary;
}.

Definition zeroSummary : summary := {| sm_min := 0; sm_max := 0; sm_sum := 0; sm_count := 0 |}.

(** The statistics that [NewWriter] makes: two summaries are left at zero. *)
Definition NewWriter_stats : writerStats :=
  {| wst_dials := 0; wst_writes := 0; wst_messages := 0; wst_bytes := 0; wst_rebalances := 0; wst_errors := 0;
     wst_dialTime := makeSummary; wst_writeTime := makeSummary; wst_waitTime := makeSummary;
     wst_retries := makeSummary; wst_batchSize := zeroSummary; wst_batchSizeBytes := zeroSummary |}.

(** [WriterStats]: counters and summaries of the time since the last report,
    and the configuration. *)
Record WriterStats : Type := {
  WS_Dials : Z; WS_Writes : Z; WS_Messages : Z; WS_Bytes : Z; WS_Rebalances : Z; WS_Errors : Z;
  WS_DialTime : DurationStats; WS_WriteTime : DurationStats; WS_WaitTime : DurationStats; WS_Retries : SummaryStats;
  WS_BatchSize : SummaryStats; WS_BatchBytes : SummaryStats;
  WS_MaxAttempts : Z; WS_MaxRetries : Z; WS_RetryBackoffInterval : Z; WS_MaxBatchSize : Z; WS_BatchTimeout : Z;
  WS_ReadTimeout : Z; WS_WriteTimeout : Z; WS_RebalanceInterval : Z; WS_RequiredAcks : Z; WS_Async : bool;
  WS_QueueLength : Z; WS_QueueCapacity : Z; WS_ClientID : gostring; WS_Topic : gostring;
}.

Definition Writer_Stats (config : WriterConfig) (clientID : gostring) (queued : Z) (st : writerStats) :
    WriterStats * writerStats :=
  ({| WS_Dials := (counter_snapshot (wst_dials st)).1; WS_Writes := (counter_snapshot (wst_writes st)).1;
      WS_Messages := (counter_snapshot (wst_messages st)).1; WS_Bytes := (counter_snapshot (wst_bytes st)).1;
      WS_Rebalances := (counter_snapshot (wst_rebalances st)).1; WS_Errors := (counter_snapshot (wst_errors st)).1;
      WS_DialTime := (snapshotDuration (wst_dialTime st)).1; WS_WriteTime := (snapshotDuration (wst_writeTime st)).1;
      WS_WaitTime := (snapshotDuration (wst_waitTime st)).1; WS_Retries := (summary_snapshot (wst_retries st)).1;
      WS_BatchSize := (summary_snapshot (wst_batchSize st)).1;
      WS_BatchBytes := (summary_snapshot (wst_batchSizeBytes st)).1;
      WS_MaxAttempts := wcf_MaxAttempts config; WS_MaxRetries := wcf_Retries config;
      WS_RetryBackoffInterval := wcf_RetryBackoffInterval config; WS_MaxBatchSize := wcf_BatchSize config;
      WS_BatchTimeout := wcf_BatchTimeout config; WS_ReadTimeout := wcf_ReadTimeout config;
      WS_WriteTimeout := wcf_WriteTimeout config; WS_RebalanceInterval := wcf_RebalanceInterval config;
      WS_RequiredAcks := wcf_RequiredAcks config; WS_Async := wcf_Async config; WS_QueueLength := queued;
      WS_QueueCapacity := wcf_QueueCapacity config; WS_ClientID := clientID; WS_Topic := wcf_Topic config |},
   {| wst_dials := (counter_snapshot (wst_dials st)).2; wst_writes := (counter_snapshot (wst_writes st)).2;
      wst_messages := (counter_snapshot (wst_messages st)).2; wst_bytes := (counter_snapshot (wst_bytes st)).2;
      wst_rebalances := (counter_snapshot (wst_rebalances st)).2; wst_errors := (counter_snapshot (wst_errors st)).2;
      wst_dialTime := (snapshotDuration (wst_dialTime st)).2; wst_writeTime := (snapshotDuration (wst_writeTime st)).2;
      wst_waitTime := (snapshotDuration (wst_waitTime st)).2; wst_retries := (summary_snapshot (wst_retries st)).2;
      wst_batchSize := (summary_snapshot (wst_batchSize st)).2;
      wst_batchSizeBytes := (summary_snapshot (wst_batchSizeBytes st)).2 |}).

(** ** Readers *)

Record readerStats : Type := {
  rst_dials : Z; rst_fetches : Z; rst_messages : Z; rst_bytes : Z; rst_rebalances : Z; rst_timeouts : Z; rst_errors : Z;
  rst_dialTime : summary; rst_readTime : summary; rst_waitTime : summary; rst_fetchSize : summary;
  rst_fetchBytes : summary; rst_offset : Z; rst_lag : Z; rst_partition : gostring;
}.

Record ReaderStats : Type := {
  RS_Dials : Z; RS_Fetches : Z; RS_Messages : Z; RS_Bytes : Z; RS_Rebalances : Z; RS_Timeouts : Z; RS_Errors : Z;
  RS_DialTime : DurationStats; RS_ReadTime : DurationStats; RS_WaitTime : DurationStats; RS_FetchSize : SummaryStats;
  RS_FetchBytes : SummaryStats; RS_Offset : Z; RS_Lag : Z; RS_MinBytes : Z; RS_MaxBytes : Z; RS_MaxWait : Z;
  RS_QueueLength : Z; RS_QueueCapacity : Z; RS_ClientID : gostring; RS_Topic : gostring; RS_Partition : gostring;
  RS_DeprecatedFetchesWithTypo : Z;
}.

(** [Reader.Stats]; a gauge keeps its value. *)
Definition Reader_Stats (config : ReaderConfig) (clientID : gostring) (queued : Z) (st : readerStats) :
    ReaderStats * readerStats :=
  ({| RS_Dials := (counter_snapshot (rst_dials st)).1; RS_Fetches := (counter_snapshot (rst_fetches st)).1;
      RS_Messages := (counter_snapshot (rst_messages st)).1; RS_Bytes := (counter_snapshot (rst_bytes st)).1;
      RS_Rebalances := (counter_snapshot (rst_rebalances st)).1; RS_Timeouts := (counter_snapshot (rst_timeouts st)).1;
      RS_Errors := (counter_snapshot (rst_errors st)).1; RS_DialTime := (snapshotDuration (rst_dialTime st)).1;
      RS_ReadTime := (snapshotDuration (rst_readTime st)).1; RS_WaitTime := (snapshotDuration (rst_waitTime st)).1;
      RS_FetchSize := (summary_snapshot (rst_fetchSize st)).1; RS_FetchBytes := (summary_snapshot (rst_fetchBytes st)).1;
      RS_Offset := gauge_snapshot (rst_offset st); RS_Lag := gauge_snapshot (rst_lag st);
      RS_MinBytes := rc_MinBytes config; RS_MaxBytes := rc_MaxBytes config; RS_MaxWait := rc_MaxWait config;
      RS_QueueLength := queued; RS_QueueCapacity := rc_QueueCapacity config; RS_ClientID := clientID;
      RS_Topic := rc_Topic config; RS_Partition := rst_partition st;
      RS_DeprecatedFetchesWithTypo := (counter_snapshot (rst_fetches st)).1 |},
   {| rst_dials := (counter_snapshot (rst_dials st)).2; rst_fetches := (counter_snapshot (rst_fetches st)).2;
      rst_messages := (counter_snapshot (rst_messages st)).2; rst_bytes := (counter_snapshot (rst_bytes st)).2;
      rst_rebalances := (counter_snapshot (rst_rebalances st)).2; rst_timeouts := (counter_snapshot (rst_timeouts st)).2;
      rst_errors := (counter_snapshot (rst_errors st)).2; rst_dialTime := (snapshotDuration (rst_dialTime st)).2;
      rst_readTime := (snapshotDuration (rst_readTime st)).2; rst_waitTime := (snapshotDuration (rst_waitTime st)).2;
      rst_fetchSize := (summary_snapshot (rst_fetchSize st)).2; rst_fetchBytes := (summary_snapshot (rst_fetchBytes st)).2;
      rst_offset := rst_offset st; rst_lag := rst_lag st; rst_partition := rst_partition st |}).

(** ** The lag of a reader *)

(** An iteration of [readLag], from what [ReadLag] returned. *)
Definition readLag_step (lag : goerror + Z) (st : readerStats) : readerStats :=
  {| rst_dials := rst_dials st; rst_fetches := rst_fetches st; rst_messages := rst_messages st;
     rst_bytes := rst_bytes st; rst_rebalances := rst_rebalances st; rst_timeouts := rst_timeouts st;
     rst_errors := match lag with inl _ => int64 (rst_errors st + 1) | inr _ => rst_errors st end;
     rst_dialTime := rst_dialTime st; rst_readTime := rst_readTime st; rst_waitTime := rst_waitTime st;
     rst_fetchSize := rst_fetchSize st; rst_fetchBytes := rst_fetchBytes st; rst_offset := rst_offset st;
     rst_lag := match lag with inl _ => rst_lag st | inr lag => gauge_observe (rst_lag st) lag end;
     rst_partition := rst_partition st |}.

(** [readLag]: an iteration at the start and one per tick, until the context is
    done.  [offsets] and [states] are what the broker answers, and the reader, in
    each iteration. *)
Definition readLag (iterations : list ((goerror + Z * Z) * readerState)) (st : readerStats) : readerStats :=
  fold_left (λ st it, readLag_step (ReadLag it.1 it.2) st) iterations st.

(** [activateReadLag] on the cell [once]: the cell, and whether the goroutine
    is started. *)
Definition activateReadLag (config : ReaderConfig) (once : Z) : Z * bool :=
  if (rc_ReadLagInterval config >? 0) && (once =? 0) then (1, negb (useConsumerGroup config)) else (once, false).

(** The goroutines that [n] calls start. *)
Fixpoint activations (config : ReaderConfig) (n : nat) (once : Z) : nat :=
  match n with
  | O => 0
  | S n =>
    let '(once, started) := activateReadLag config once in
    ((if started then 1 else 0) + activations config n once)%nat
  end.

(** ** Properties *)

(** C38 summary_exact: the report of a summary that one goroutine fed: the minimum and the
    maximum are observed values and bound the others, the average is the integer
    part of the mean, between them, as long as the sum and the count have 53 bits;
    the summary is then as new. *)
Theorem summary_exact vs st s :
  vs ≠ [] → Forall (λ v, 0 ≤ v) vs → zsum vs < 2 ^ 53 → len vs < 2 ^ 53 →
  summary_snapshot (observe_all makeSummary vs) = (st, s) →
  s = makeSummary ∧ st_Avg st = zsum vs / len vs ∧ st_Min st ∈ vs ∧ st_Max st ∈ vs ∧
  Forall (λ v, st_Min st ≤ v ≤ st_Max st) vs ∧ st_Min st ≤ st_Avg st ≤ st_Max st.
Proof.
  intros Hne Hv Hs Hl E. destruct vs as [|v vs]; [done|]. remember (observe_all makeSummary (v :: vs)) as o eqn:Eo.
  rewrite summary_snapshot_spec in E. injection E as <- <-. cbn [st_Avg st_Min st_Max].
  destruct (observe_all_sums (v :: vs) makeSummary Hv) as [Es Ec]; [done..|cbn [makeSummary sm_sum]; lia|cbn [makeSummary sm_count]; lia|].
  rewrite <- Eo in Es, Ec. cbn [makeSummary sm_sum sm_count] in Es, Ec. rewrite Es, Ec, !Z.add_0_l.
  apply Forall_cons_1 in Hv as [Hv0 Hvs].
  assert (summary_observe makeSummary v = {| sm_min := v; sm_max := v; sm_sum := int64 v; sm_count := 1 |}) as E1 by done.
  change (observe_all makeSummary (v :: vs)) with (observe_all (summary_observe makeSummary v) vs) in Eo. rewrite E1 in Eo.
  destruct (observe_all_extrema vs {| sm_min := v; sm_max := v; sm_sum := int64 v; sm_count := 1 |} Hvs Hv0 Hv0)
    as (Hm & Hml & HM & HMl). cbn [sm_min sm_max] in Hm, Hml, HM, HMl.
  rewrite <- Eo in Hm, Hml, HM, HMl. clear Eo.
  assert (0 ≤ sm_min o) as H0. { rewrite Forall_forall in Hvs. apply elem_of_cons in Hm as [->|?]; auto. }
  assert (0 ≤ sm_max o) as H0'. { rewrite Forall_forall in Hvs. apply elem_of_cons in HM as [->|?]; auto. }
  rewrite !Z.max_r by done.
  assert (0 < len (v :: vs)) by (rewrite len_cons; pose proof (len_nonneg vs); lia).
  assert (Forall (λ x, sm_min o ≤ x ≤ sm_max o) (v :: vs)) as Hb.
  { apply Forall_forall. intros x Hx. rewrite Forall_forall in Hml, HMl. split; auto. }
  assert (sm_min o * len (v :: vs) ≤ zsum (v :: vs) ≤ sm_max o * len (v :: vs)) as Hsum.
  { clear -Hb. induction Hb as [|x l Hx _ IH]; [change (len (@nil Z)) with 0; cbn; lia|]. change (zsum (x :: l)) with (x + zsum l). rewrite len_cons. lia. }
  rewrite (proj2 (Z.eqb_neq _ 0)) by lia.
  rewrite average_exact; [|nia|lia]. repeat (split; [done|]). split.
  - apply Z.div_le_lower_bound; lia.
  - apply Z.div_le_upper_bound; lia.
Qed.

Lemma summary_exact_witness :
  st_Avg (summary_snapshot (observe_all makeSummary [3; 9; 4])).1 = 5 ∧
  st_Min (summary_snapshot (observe_all makeSummary [3; 9; 4])).1 = 3 ∧
  3 ≤ st_Avg (summary_snapshot (observe_all makeSummary [3; 9; 4])).1 ≤ 9.
Proof.
  destruct (summary_exact [3; 9; 4] _ _ ltac:(done) ltac:(repeat constructor; done) eq_refl eq_refl eq_refl)
    as (_ & Ha & _ & _ & _ & Hb). split; [exact Ha|]. split; [reflexivity|exact Hb].
Defined.

(** Finding batch_size_minimum: the minimum of the batch sizes that the first report of a writer
    gives is 0 whatever was observed. *)
Lemma batch_size_minimum vs :
  Forall (λ v, 0 ≤ v) vs → sm_min (observe_all (wst_batchSize NewWriter_stats) vs) = 0.
Proof.
  intros Hv. cbn. destruct (observe_all_extrema vs zeroSummary Hv ltac:(done) ltac:(done)) as (Hm & Hl & _). cbn in *.
  apply Forall_cons_1 in Hl as [Hl _]. rewrite Forall_forall in Hv. apply elem_of_cons in Hm as [|Hm]; [done|]. specialize (Hv _ Hm). lia.
Qed.

(** Fact lag_followed_once: however often it is activated, at most one goroutine follows the lag,
    and the lag that is reported is the last one that could be read. *)
Lemma lag_followed_once config n once :
  once = 0 ∨ once = 1 → (activations config n once ≤ 1)%nat ∧ (once = 1 → activations config n once = 0%nat).
Proof.
  revert once. induction n as [|n IH]; intros once Ho; cbn; [lia|]. unfold activateReadLag.
  destruct ((_ >? 0) && (once =? 0)) eqn:E.
  - apply andb_true_iff in E as [_ E%Z.eqb_eq]. destruct (IH 1) as [_ H1]; [by right|]. rewrite H1 by done.
    split; [destruct (negb _); lia|lia].
  - destruct (IH once Ho) as [H1 H2]. split; [lia|]. intros ->. by rewrite H2.
Qed.

Lemma readLag_last its it st :
  rst_lag (readLag (its ++ [it]) st) =
  match ReadLag it.1 it.2 with inr lag => lag | inl _ => rst_lag (readLag its st) end.
Proof. unfold readLag. rewrite fold_left_app. cbn. by destruct (ReadLag _ _). Qed.
