(* ===== verification/ProtocolProps.v ===== *)
(** * Properties of the wire format

    The requests and responses of the protocol: integers of variable length,
    framing, the routines that write requests field by field, checksums,
    timeouts, and the headers of fetch responses. *)

From S2P Require Import Prelude Errors Time Bufio Read Write VarInt Wire.
From S2P Require Import Protocol Crc32 OffsetMessages TopicMessages GroupMessages Messages DataRequests ReadAny.
From S2P Require Import FetchResponse.

(** The record, header and message of the examples. *)
Definition ascii (l : list Z) : list byte := map byte_of_Z l.

Definition sample_message : Message :=
  {| msg_Topic := []; msg_Partition := 0; msg_Offset := 7; msg_Key := Some (ascii [107]);
     msg_Value := Some (ascii [104; 105]); msg_Headers := []; msg_Time := 1500000000 * Time.Second |}.

(** C34 varint_roundtrip: on the integers of 63 bits [writeVarInt] ends, [varIntLen] is the
    number of the bytes it writes (at most nine), and [readVarInt] reads the
    integer back, consuming exactly those bytes. *)
Theorem varint_roundtrip i :
  - 2 ^ 62 ≤ i < 2 ^ 62 →
  ∃ bs, writeVarInt i = Some bs ∧ varIntLen i = Some (len bs) ∧ len bs ≤ 9 ∧ reads readVarInt bs i.
Proof.
  intros Hi. destruct (writeVarInt_terminates i Hi) as (bs & E & Hl). exists bs.
  split; [done|]. split; [by rewrite varIntLen_writeVarInt, E|]. split; [done|].
  by apply reads_readVarInt.
Qed.

Lemma varint_roundtrip_witness :
  ∃ bs, writeVarInt (-300) = Some bs ∧ varIntLen (-300) = Some (len bs) ∧ len bs ≤ 9 ∧ reads readVarInt bs (-300).
Proof. apply (varint_roundtrip (-300)). lia. Defined.

(** Finding varint_diverges: on every other int64 the loops of [writeVarInt] and [varIntLen] do
    not end, whatever the number of iterations: the zig-zag code is a
    negative number, which the arithmetic shift never brings below 128. *)
Theorem varint_diverges i fuel :
  is_int64 i → ¬ (- 2 ^ 62 ≤ i < 2 ^ 62) →
  writeVarInt_loop fuel (zigzag_encode i) = None ∧ varIntLen i = None.
Proof.
  intros Hi Hn. split; [by apply writeVarInt_diverges|].
  rewrite varIntLen_writeVarInt. unfold writeVarInt. by rewrite writeVarInt_diverges.
Qed.

Lemma varint_diverges_witness :
  writeVarInt_loop 1000 (zigzag_encode (2 ^ 62)) = None ∧ varIntLen (2 ^ 62) = None.
Proof. apply (varint_diverges (2 ^ 62) 1000); [by vm_compute|lia]. Defined.

(** C28 request_framed: every request that [writeRequest] sends, of any of the request types,
    starts with the number of the bytes that follow, and its header is read
    back as the key, the version, the correlation id and the client id it was
    made of, leaving the body. *)
Theorem request_framed `{Request A} clientID key version id (req : A) :
  let bs := writeRequest clientID key version id req in
  len bs < 2 ^ 31 → is_int32 id → wf_string clientID →
  framed_block bs ∧
  ∃ sz, bs = requestHeader_writeTo (with_Size (conn_requestHeader clientID key version id) sz) ++ writeTo req ∧
    reads readRequestHeader (requestHeader_writeTo (with_Size (conn_requestHeader clientID key version id) sz))
      {| h_Size := sz; h_ApiKey := int16 key; h_ApiVersion := int16 version; h_CorrelationID := id;
         h_ClientID := clientID |}.
Proof.
  intros bs Hl Hid Hc. split; [by apply writeRequest_framed|]. eexists. split; [reflexivity|].
  apply readRequestHeader_reads; cbn; try done; apply wrapS_range; lia.
Qed.

Definition sample_heartbeat : heartbeatRequestV0 :=
  {| hbr_GroupID := ascii [103]; hbr_GenerationID := 3; hbr_MemberID := ascii [109] |}.

Lemma request_framed_witness :
  framed_block (writeRequest (ascii [99]) Api.heartbeatRequest Api.v0 5 sample_heartbeat).
Proof.
  apply (request_framed (ascii [99]) Api.heartbeatRequest Api.v0 5 sample_heartbeat);
    vm_compute; split; congruence || reflexivity || idtac; done.
Defined.

(** C29 produce_v2_struct: [writeProduceRequestV2], which writes the request field by field
    and computes the sizes beforehand, sends exactly what [writeRequest]
    sends for the structure [produceRequestV2] of the (possibly compressed)
    message set; it fails exactly when the codec does. *)
Theorem produce_v2_struct codec id clientID topic partition timeout acks msgs :
  writeProduceRequestV2 codec id clientID topic partition timeout acks msgs
  = match produced codec msgs with
    | inl err => inl err
    | inr (msgs, attributes) =>
      inr (writeRequest clientID Api.produceRequest Api.v2 id
             (produceRequestV2_of topic partition timeout acks (map (item_of attributes) msgs)))
    end.
Proof. apply writeProduceRequestV2_struct. Qed.

(** C30 fetch_and_list_struct: the optimised writers of fetch and list-offset requests send what
    [writeRequest] sends for the structures of the protocol; the fetch request
    of version 5, which has no structure, is framed. *)
Theorem fetch_and_list_struct id clientID topic partition offset minBytes maxBytes maxWait iso time :
  writeFetchRequestV2 id clientID topic partition offset minBytes maxBytes maxWait
    = writeRequest clientID Api.fetchRequest Api.v2 id
        (fetchRequestV2_of topic partition offset minBytes maxBytes maxWait) ∧
  writeListOffsetRequestV1 id clientID topic partition time
    = writeRequest clientID Api.listOffsetRequest Api.v1 id (listOffsetRequestV1_of topic partition time) ∧
  (len (writeFetchRequestV5 id clientID topic partition offset minBytes maxBytes maxWait iso) < 2 ^ 31 →
   framed_block (writeFetchRequestV5 id clientID topic partition offset minBytes maxBytes maxWait iso)).
Proof.
  split; [apply writeFetchRequestV2_struct|]. split; [apply writeListOffsetRequestV1_struct|].
  apply writeFetchRequestV5_framed.
Qed.

(** C31 produce_v3_framed: writing a produce request of version 3 for messages within 146 years
    of the first and within the address space ends, and what it sends is
    framed: the two passes, [recordBatchSize] and the writing, agree. *)
Theorem produce_v3_framed codec id clientID topic partition timeout acks msgs :
  Forall (record_ok (msg_Time (hd zeroMessage msgs))) msgs → len msgs ≤ 2 ^ 62 →
  writeProduceRequestV3 codec id clientID topic partition timeout acks msgs ≠ Diverged ∧
  ∀ bs, writeProduceRequestV3 codec id clientID topic partition timeout acks msgs = Done bs →
    len bs < 2 ^ 31 → framed_block bs.
Proof.
  intros Hm Hl. split; [|intros bs; apply writeProduceRequestV3_framed].
  destruct msgs as [|m0 msgs]; [done|]. cbn [hd] in Hm.
  destruct (writeRecords_terminates (msg_Time m0) 0 (m0 :: msgs) Hm) as [bs E]; [lia|lia|].
  unfold writeProduceRequestV3, recordBatchSize. cbn [first_message mbind outcome_bind].
  change recordBatchHeaderSize with (int32 recordBatchHeaderSize).
  rewrite size_of_records, E. cbn [fmap option_fmap option_map may_diverge mbind outcome_bind].
  assert (∀ p sz at', sendRecordBatch id clientID topic partition timeout acks (m0 :: msgs) sz p at' ≠ Diverged) as Hs.
  { intros p sz at'. unfold sendRecordBatch, writeRecordBatch. cbn [first_message mbind outcome_bind].
    by destruct (_ <? 0). }
  destruct codec as [codec|]; [|apply Hs]. destruct (_ <? 0); [done|].
  destruct (Encode codec bs); [done|]. cbn [may_fail mbind outcome_bind]. apply Hs.
Qed.

Lemma produce_v3_framed_witness :
  writeProduceRequestV3 None 1 [] (ascii [116]) 0 0 1 [sample_message] ≠ Diverged ∧
  ∀ bs, writeProduceRequestV3 None 1 [] (ascii [116]) 0 0 1 [sample_message] = Done bs →
    len bs < 2 ^ 31 → framed_block bs.
Proof.
  apply (produce_v3_framed None 1 [] (ascii [116]) 0 0 1 [sample_message]); [|by vm_compute].
  constructor; [|constructor]. split; vm_compute; [split; congruence|reflexivity].
Defined.

(** Fact message_crc: the CRC that a message carries is the IEEE checksum of the bytes that
    follow it on the wire, whatever buffer the pool returned to compute it. *)
Theorem message_crc pooled m :
  int32 (crc32OfMessage_pooled pooled (m_MagicByte m) (m_Attributes m) (m_Timestamp m) (m_Key m) (m_Value m)).1
    = message_crc32 m ∧
  ∃ body, message_writeTo m = writeInt32 (m_CRC m) ++ body ∧ message_crc32 m = int32 (Checksum IEEE body).
Proof.
  unfold message_crc32, crc32OfMessage. rewrite !crc32OfMessage_pooled_sum. split; [done|].
  eexists. split; [apply message_writeTo_body|done].
Qed.

(** Fact fetch_header_v2: the header of a version 2 fetch response, as fetch.go writes it, is read
    with its throttle time and high water mark; an error code of the
    partition is reported as that error, and a size that is not the number of
    bytes left is refused.  The reader is left on the message set in each
    case. *)
Theorem fetch_header_v2 r throttle topic partition errorCode hw ms tail n :
  16 ≤ rd_bufsize r → is_int32 throttle → wf_string topic → is_int32 partition →
  is_int16 errorCode → is_int64 hw → 0 ≤ n →
  let bs := writeTo (fetchResponseV2_of throttle topic partition errorCode hw ms) in
  let set := writeTo ms ++ tail in
  readFetchResponseHeaderV2 (with_data r (bs ++ tail)) (len bs - len (writeTo ms) + n)
  = (if negb (errorCode =? 0) then inl (KafkaError errorCode)
     else if negb (n =? size ms) then inl (Errorf bad_set_size (size ms))
     else inr (throttle, hw), (n, with_data r set)).
Proof.
  intros Hb Ht Htop Hp He Hh Hn bs set. subst bs set. rewrite fetchResponseV2_bytes, <- app_assoc.
  replace (len _ - _ + n) with (len (fetchHeader_bytes throttle topic partition errorCode hw (size ms)) + n)
    by (rewrite len_app; lia).
  apply readFetchResponseHeaderV2_run; try done. rewrite size_writeTo. apply wrapS_range. lia.
Qed.

Lemma fetch_header_v2_witness :
  let resp := fetchResponseV2_of 0 (ascii [116]) 1 3 9 [] in
  readFetchResponseHeaderV2 (with_data (NewReader []) (writeTo resp ++ []))
    (len (writeTo resp) - len (writeTo ([] : messageSet)) + 0)
  = (inl (KafkaError 3), (0, with_data (NewReader []) [])).
Proof. apply (fetch_header_v2 (NewReader []) 0 (ascii [116]) 1 3 9 [] [] 0); by vm_compute. Defined.

(** Fact reflective_reads: reading a partition header of a fetch response through reflection
    ([read] on the type of the struct) is reading its fields in order, and
    no reflective read of any type takes a byte more than it accounts for. *)
Theorem reflective_reads :
  (∀ r sz, read fetchPartitionV2_type r sz = (p ← read_fetchPartitionV2; mret (fetchPartitionV2_value p)) r sz) ∧
  (∀ r sz, read fetchPartitionV5_type r sz = (p ← read_fetchPartitionV5; mret (fetchPartitionV5_value p)) r sz) ∧
  ∀ t, Framed (read t).
Proof.
  split; [apply read_fetchPartitionV2_reflect|]. split; [apply read_fetchPartitionV5_reflect|]. apply _.
Qed.

(** Fact timeouts_bounded: the timeout that goes into a request is the time left to the
    deadline, less a round trip, in milliseconds: with a deadline ahead it is
    never negative, never more than the time left, and its conversion to
    int32 saturates where it does not fit. *)
Theorem timeouts_bounded deadline now :
  Time.IsZero deadline = false → now ≤ deadline → deadline - now < 2 ^ 63 →
  let left := Time.adjustDeadlineForRTT deadline now Time.defaultRTT - now in
  0 ≤ left ≤ deadline - now ∧
  Time.milliseconds left = Z.min (2 ^ 31 - 1) (left / Time.Millisecond).
Proof.
  intros Hz Hn Hd left.
  destruct (adjustDeadline_bounds deadline now Time.defaultRTT Hz Hn Hd ltac:(by vm_compute)) as [Hb _].
  subst left. split; [lia|]. rewrite milliseconds_clamp.
  rewrite Z.quot_div_nonneg by (unfold Time.Millisecond; lia).
  pose proof (Z.div_pos (Time.adjustDeadlineForRTT deadline now Time.defaultRTT - now) Time.Millisecond
    ltac:(lia) ltac:(by vm_compute)). lia.
Qed.

Lemma timeouts_bounded_witness :
  let left := Time.adjustDeadlineForRTT (12 * Time.Second) (10 * Time.Second) Time.defaultRTT - 10 * Time.Second in
  0 ≤ left ≤ 12 * Time.Second - 10 * Time.Second ∧
  Time.milliseconds left = Z.min (2 ^ 31 - 1) (left / Time.Millisecond).
Proof. apply (timeouts_bounded (12 * Time.Second) (10 * Time.Second)); by vm_compute. Defined.

(** Finding kafka_errors_retried: every error that the broker reports is a [net.Error] (it has
    [Timeout] and [Temporary]), so that [shouldRetry] retries it as long as
    attempts are left, temporary or not. *)
Theorem kafka_errors_retried code maxRetries attempts :
  shouldRetry (Some (KafkaError code)) maxRetries attempts = (attempts <? maxRetries) ∧
  needsReconnect (Some (KafkaError code)) = true.
Proof.
  unfold shouldRetry, needsReconnect. cbn [is_net_Error orb]. rewrite orb_true_r, Z.geb_leb.
  split; [|done]. destruct (Z.leb_spec maxRetries attempts), (Z.ltb_spec attempts maxRetries); lia.
Qed.

(** Finding assignment_size_short: the size that [groupAssignment.size] computes is two bytes less
    than what [groupAssignment.writeTo] writes, in every order of the map. *)
Theorem assignment_size_short order t :
  groupAssignment_size order t = int32 (len (groupAssignment_writeTo order t) - 2).
Proof.
  unfold groupAssignment_size, groupAssignment_writeTo. cbn zeta.
  change (sizeofInt16 (ga_Version t) ⊞ sizeofInt16 (int16 (len order))) with (int32 4).
  rewrite groupAssignment_size_loop, sizeofBytes_ok. autorewrite with len. wrap_eq.
Qed.
