(* ===== verification/MessageSetProps.v ===== *)
(** * Properties of message sets

    Sets of both formats that the library writes are read back in order, and
    a reader never loses its place in the response. *)

From S2P Require Import Prelude Errors Time Bufio Read Write VarInt Wire.
From S2P Require Import Crc32 Messages DataRequests FetchResponse MessageSet MessageSetAlign MessageSetRead RecordBatchRead.

(** ** Format 1 *)

(** Reads [n] messages one after the other, as a program does. *)
Fixpoint V1_drain (codecs : codec_registry) (fuel : nat) (min : Z) (n : nat) (s : readerStack) :
    list (outcome (msgResult bytes bytes)) * readerStack :=
  match n with
  | 0%nat => ([], s)
  | S n =>
    let '(res, s) := V1_readMessage codecs readNewBytes readNewBytes fuel min s in
    let '(l, s) := V1_drain codecs fuel min n s in (res :: l, s)
  end.

Definition kept (min base : Z) (msgs : list Message) : list Message :=
  List.filter (λ msg, negb (int64 (msg_Offset msg + base) <? min)) msgs.

Definition result_of (base : Z) (msg : Message) : outcome (msgResult bytes bytes) :=
  Done (MsgResult (int64 (msg_Offset msg + base)) (Time.timestamp (msg_Time msg)) []
          (bnorm (msg_Key msg)) (bnorm (msg_Value msg))).

Lemma next_message_kept min base msgs :
  match next_message min base msgs with
  | Some (msg, rest) => kept min base msgs = msg :: kept min base rest ∧
                        (∃ pre, msgs = pre ++ rest)
  | None => kept min base msgs = []
  end.
Proof.
  induction msgs as [|msg msgs IH]; [done|]. cbn [next_message kept List.filter].
  fold (kept min base msgs). destruct (int64 (msg_Offset msg + base) <? min); cbn [negb].
  - destruct (next_message min base msgs) as [[m rest]|]; [|done].
    destruct IH as [-> [pre ->]]. split; [done|]. by exists (msg :: pre).
  - split; [done|]. by exists [msg].
Qed.

Lemma V1_drain_kept codecs fuel min base msgs r s tail :
  Forall message_ok msgs → is_nil s = false → 16 ≤ rd_bufsize r → (length msgs ≤ fuel)%nat →
  top s = Frame (with_data r (enc_set msgs ++ tail)) (len (enc_set msgs)) base →
  (V1_drain codecs fuel min (length (kept min base msgs)) s).1 = map (result_of base) (kept min base msgs).
Proof.
  remember (length (kept min base msgs)) as n eqn:Hn. revert msgs s Hn.
  induction n as [|n IH]; intros msgs s Hn Hok Hnil Hb Hf Htop.
  { by destruct (kept min base msgs). }
  pose proof (next_message_kept min base msgs) as Hnext.
  destruct (next_message min base msgs) as [[msg rest]|] eqn:En; [|by rewrite Hnext in Hn].
  destruct Hnext as [Hk [pre Hpre]]. rewrite Hk in *. cbn [length] in Hn. injection Hn as Hn.
  cbn [V1_drain]. rewrite (V1_finds codecs readNewBytes readNewBytes bnorm bnorm readNewBytes_reads_as
    readNewBytes_reads_as msgs msg rest fuel min s r base tail En Hok Hnil Hb Htop Hf).
  specialize (IH rest (set_top s (Frame (with_data r (enc_set rest ++ tail)) (len (enc_set rest)) base)) Hn).
  destruct (V1_drain _ _ _ n _) as [l s']. cbn [fst map] in *. f_equal.
  subst msgs. rewrite length_app in Hf.
  apply IH; [by apply Forall_app in Hok as [_ ?]|by rewrite is_nil_set_top|done|lia|by rewrite top_set_top].
Qed.

(** C3 message_set_v1_read: a format 1 message set as [writeMessage] lays it out is read back: the
    reader gives the messages at or after the offset asked for, in order,
    with their offsets, their times in milliseconds, keys and values. *)
Theorem message_set_v1_read codecs min base msgs r tail :
  Forall message_ok msgs → 16 ≤ rd_bufsize r →
  let s := Stack [] (Frame (with_data r (enc_set msgs ++ tail)) (len (enc_set msgs)) base) false in
  (V1_drain codecs (length msgs) min (length (kept min base msgs)) s).1
  = map (result_of base) (kept min base msgs).
Proof. intros Hok Hb s. by eapply V1_drain_kept. Qed.

Definition sample (offset : Z) (v : list Z) : Message :=
  {| msg_Topic := []; msg_Partition := 0; msg_Offset := offset; msg_Key := None;
     msg_Value := Some (map byte_of_Z v); msg_Headers := []; msg_Time := 1500000000 * Time.Second |}.

Lemma message_set_v1_read_witness :
  let msgs := [sample 3 [1]; sample 4 [2; 2]; sample 5 [3]] in
  let s := Stack [] (Frame (with_data (NewReader []) (enc_set msgs ++ [])) (len (enc_set msgs)) 0) false in
  (V1_drain ∅ 3 4 2 s).1 = [result_of 0 (sample 4 [2; 2]); result_of 0 (sample 5 [3])].
Proof.
  apply (message_set_v1_read ∅ 4 0 [sample 3 [1]; sample 4 [2; 2]; sample 5 [3]] (NewReader []) []);
    [|by vm_compute].
  repeat constructor; by vm_compute.
Defined.

(** C32 compressed_set_v1_read: the same for a compressed set, whose messages are numbered from
    0 and whose container carries the offset of the last one: reading the
    container gives the first message at or after the offset asked for, at its
    absolute offset, for every codec that inverts its own compression. *)
Theorem compressed_set_v1_read codecs msgs msg rest min r offset codec time compressed tail :
  let base := int64 (offset - (len msgs - 1)) in
  let container := writeMessage offset (Code codec) time None (Some compressed) in
  next_message min base (number 0 msgs) = Some (msg, rest) →
  Forall message_fits msgs → len msgs < 2 ^ 63 →
  codec_inverts codec → Encode codec (writeMessages_from 0 msgs) = inr compressed →
  16 ≤ rd_bufsize r → is_int64 offset → 1 ≤ Code codec ≤ 3 → codecs !! Code codec = Some codec →
  len compressed < 2 ^ 31 →
  V1_readMessage codecs readNewBytes readNewBytes (S (length msgs)) min
    (Stack [] (Frame (with_data r (container ++ tail)) (len container) 0) false) =
  (result_of base msg,
   Stack [Frame (NewReader (enc_set rest)) (len (enc_set rest)) base] (Frame (with_data r tail) 0 0) false).
Proof.
  intros base container Hnext Hfit Hn Hinv Henc Hb Ho Hc Hreg Hl.
  set (s := Stack [] _ false).
  rewrite (V1_finds_compressed codecs readNewBytes readNewBytes bnorm bnorm readNewBytes_reads_as
    readNewBytes_reads_as msgs msg rest (length msgs) min s r offset codec time compressed 0
    (len container) tail Hnext Hfit Hn Hinv Henc eq_refl Hb eq_refl (Z.le_refl _) Ho Hc Hreg Hl (le_n _)).
  by rewrite Z.sub_diag.
Qed.

(** A codec that stores its input. *)
Definition store_codec : CompressionCodec :=
  {| Code := 1; Encode := inr; Decode := inr |}.

Lemma compressed_set_v1_read_witness :
  let msgs := [sample 0 [1]; sample 0 [2]] in
  let compressed := writeMessages_from 0 msgs in
  let container := writeMessage 11 1 0 None (Some compressed) in
  V1_readMessage {[1 := store_codec]} readNewBytes readNewBytes 3 11
    (Stack [] (Frame (with_data (NewReader []) (container ++ [])) (len container) 0) false) =
  (result_of 10 (with_Offset (sample 0 [2]) 1), Stack [Frame (NewReader []) 0 10] (Frame (NewReader []) 0 0) false).
Proof.
  apply (compressed_set_v1_read {[1 := store_codec]} [sample 0 [1]; sample 0 [2]]
    (with_Offset (sample 0 [2]) 1) [] 11 (NewReader []) 11 store_codec 0
    (writeMessages_from 0 [sample 0 [1]; sample 0 [2]]) []).
  - reflexivity.
  - repeat constructor; by vm_compute.
  - by vm_compute.
  - intros b e [= ->]. reflexivity.
  - reflexivity.
  - by vm_compute.
  - by vm_compute.
  - by vm_compute.
  - reflexivity.
  - by vm_compute.
Defined.

(** ** Format 2 *)

Fixpoint V2_drain (codecs : codec_registry) (n : nat) (m : messageSetReaderV2) :
    list (outcome (msgResult bytes bytes)) * messageSetReaderV2 :=
  match n with
  | 0%nat => ([], m)
  | S n =>
    let '(res, m) := V2_readMessage codecs readNewBytes readNewBytes m in
    let '(l, m) := V2_drain codecs n m in (res :: l, m)
  end.

(** What is read of the record at position [i]: the delta of its time, in
    nanoseconds, is added to the milliseconds of the first one. *)
Definition record_of (h : messageSetHeaderV2) (baseTime i : Z) (msg : Message) : outcome (msgResult bytes bytes) :=
  Done (MsgResult (int64 (h2_firstOffset h + i))
          (int64 (h2_firstTimestamp h + Time.Sub (msg_Time msg) baseTime))
          (map canonHeader (msg_Headers msg))
          (bnorm (Some (bdata (msg_Key msg)))) (bnorm (Some (bdata (msg_Value msg))))).

Fixpoint records_of (h : messageSetHeaderV2) (baseTime i : Z) (msgs : list Message) :
    list (outcome (msgResult bytes bytes)) :=
  match msgs with
  | [] => []
  | msg :: msgs => record_of h baseTime i msg :: records_of h baseTime (i + 1) msgs
  end.

(** A message that fits a record and whose key and value fit an int32. *)
Definition record_fits (baseTime : Z) (msg : Message) : Prop :=
  record_ok baseTime msg ∧ wf_bytes (msg_Key msg) ∧ wf_bytes (msg_Value msg).

Lemma V2_drain_records codecs h baseTime i msgs r sz tail m :
  in_batch h baseTime i msgs r sz tail m → Forall (record_fits baseTime) msgs →
  0 ≤ i → i + len msgs ≤ 2 ^ 62 →
  (V2_drain codecs (length msgs) m).1 = records_of h baseTime i msgs ∧
  in_batch h baseTime (i + len msgs) [] r sz tail (V2_drain codecs (length msgs) m).2.
Proof.
  intros Hin Hok. revert i m Hin. induction Hok as [|msg msgs (Hm & Hk & Hv) Hok IH]; intros i m Hin Hi Hl.
  { cbn. rewrite Z.add_0_r. done. }
  rewrite len_cons in Hl. pose proof (len_nonneg msgs).
  destruct (V2_step readNewBytes readNewBytes bnorm bnorm readNewBytes_reads_as readNewBytes_reads_as
    codecs h baseTime i msg msgs r sz tail m Hin Hm ltac:(lia) Hk Hv) as (m' & E & Hin').
  cbn [V2_drain length records_of]. rewrite E.
  destruct (IH (i + 1) m' Hin') as [E1 E2]; [lia|lia|].
  destruct (V2_drain codecs (length msgs) m') as [l m'']. cbn [fst snd] in *.
  rewrite len_cons. replace (i + (1 + len msgs)) with (i + 1 + len msgs) by lia. by rewrite E1.
Qed.

(** C9 record_batch_read: an uncompressed record batch as [writeRecordBatch] writes it is opened
    and read back record by record: positions as offsets, keys, values and
    headers; the bytes after the batch are left for the next one. *)
Theorem record_batch_read codecs attributes size msgs m0 records batch r tail :
  let stack := Stack [] (Frame (with_data r (batch ++ tail)) (len batch + len tail) 0) false in
  let m := {| v2_stack := stack; v2_messageCount := 0; v2_header := zeroHeaderV2 |} in
  first_message msgs = Done m0 → writeRecords (msg_Time m0) 0 msgs = Some records →
  writeRecordBatch attributes size records msgs = Done batch →
  0 ≤ attributes < 2 ^ 15 → Z.land attributes 7 = 0 → len msgs < 2 ^ 31 → 16 ≤ rd_bufsize r →
  Forall (record_fits (msg_Time m0)) msgs →
  ∃ h m', V2_nextBatch codecs m = (inr tt, m') ∧ h2_firstOffset h = 0 ∧
    h2_firstTimestamp h = Time.timestamp (msg_Time m0) ∧
    (V2_drain codecs (length msgs) m').1 = records_of h (msg_Time m0) 0 msgs ∧
    top (v2_stack (V2_drain codecs (length msgs) m').2) = Frame (with_data r tail) (len tail) 0.
Proof.
  intros stack m Hm Hr Hb Ha Hcode Hl Hbuf Hok. pose proof (len_nonneg tail). pose proof (len_nonneg msgs).
  destruct (V2_nextBatch_opens codecs attributes size msgs m0 records batch r (len tail) tail m
    Hm Hr Hb Ha Hcode Hl Hbuf ltac:(lia) eq_refl) as (h & m' & E & Ho & Ht & Hin).
  exists h, m'. split; [done|]. split; [done|]. split; [done|].
  destruct (V2_drain_records codecs h (msg_Time m0) 0 msgs r (len tail) tail m' Hin Hok) as [E1 E2]; [lia|lia|].
  split; [done|]. destruct (ib_top _ _ _ _ _ _ _ _ E2) as (recs & Hrec & Htop & _).
  cbn [writeRecords] in Hrec. apply (inj Some) in Hrec as <-. done.
Qed.

(** Two messages a second apart. *)
Definition two_messages : list Message :=
  [sample 0 [1]; {| msg_Topic := []; msg_Partition := 0; msg_Offset := 0; msg_Key := Some [];
     msg_Value := Some (map byte_of_Z [2]); msg_Headers := [{| hd_Key := []; hd_Value := None |}];
     msg_Time := 1500000001 * Time.Second |}].

Definition two_records : list byte := default [] (writeRecords (1500000000 * Time.Second) 0 two_messages).
Definition two_batch : list byte :=
  match writeRecordBatch 0 100 two_records two_messages with Done b => b | _ => [] end.

Lemma record_batch_read_witness :
  let stack := Stack [] (Frame (with_data (NewReader []) (two_batch ++ [])) (len two_batch + 0) 0) false in
  let m := {| v2_stack := stack; v2_messageCount := 0; v2_header := zeroHeaderV2 |} in
  ∃ h m', V2_nextBatch ∅ m = (inr tt, m') ∧ h2_firstOffset h = 0 ∧
    h2_firstTimestamp h = Time.timestamp (1500000000 * Time.Second) ∧
    (V2_drain ∅ 2 m').1 = records_of h (1500000000 * Time.Second) 0 two_messages ∧
    top (v2_stack (V2_drain ∅ 2 m').2) = Frame (NewReader []) 0 0.
Proof.
  apply (record_batch_read ∅ 0 100 two_messages (sample 0 [1]) two_records two_batch (NewReader []) []).
  - reflexivity.
  - vm_compute. reflexivity.
  - vm_compute. reflexivity.
  - lia.
  - reflexivity.
  - by vm_compute.
  - by vm_compute.
  - repeat constructor; vm_compute; congruence.
Defined.

(** Finding record_time_in_ns: the deltas of the times of records are written in nanoseconds and
    added to milliseconds when they are read: a message [d] milliseconds
    after the first is read a million times as late. *)
Theorem record_time_in_ns h b d i msg :
  0 ≤ b → 0 ≤ d → b + d * 1000000 ≤ 9223372036854 →
  h2_firstTimestamp h = Time.timestamp (b * Time.Millisecond) →
  msg_Time msg = (b + d) * Time.Millisecond →
  Time.timestamp (msg_Time msg) = b + d ∧
  ∃ o hs k v, record_of h (b * Time.Millisecond) i msg = Done (MsgResult o (b + d * 1000000) hs k v).
Proof.
  intros Hb Hd Hr Hh Ht. rewrite Ht, Time.timestamp_of_nanos by lia. split; [done|].
  unfold record_of. rewrite Hh, Ht, Time.timestamp_of_nanos by lia. do 4 eexists. do 2 f_equal.
  unfold Time.Sub, Time.Millisecond. rewrite wrapS_id by (try unfold inS; lia). lia.
Qed.

Lemma record_time_in_ns_witness :
  Time.timestamp (1500000001 * Time.Second) = 1500000000000 + 1000 ∧
  ∃ o hs k v,
    record_of (batch_header 0 0 (1500000000000 * Time.Millisecond) 0 1 0) (1500000000000 * Time.Millisecond) 1
      (nth 1 two_messages (sample 0 []))
    = Done (MsgResult o (1500000000000 + 1000 * 1000000) hs k v).
Proof.
  apply (record_time_in_ns (batch_header 0 0 (1500000000000 * Time.Millisecond) 0 1 0) 1500000000000 1000 1
    (nth 1 two_messages (sample 0 []))); [lia|lia|lia|reflexivity|reflexivity].
Defined.

(** ** Staying aligned with the response *)

(** Finding v2_discard_inner: closing a format 2 reader inside a compressed batch discards the
    decompressed records only: what is left of the response stays unread,
    and [remaining] reports none of it. *)
Theorem v2_discard_inner r sz inner :
  let m := {| v2_stack := Stack [Frame (NewReader inner) (len inner) 0] (Frame r sz 0) false;
              v2_messageCount := 1; v2_header := zeroHeaderV2 |} in
  let '(err, m') := V2_discard m in
  err = None ∧ V2_remaining m' = 0 ∧ rs_bottom (v2_stack m') = Frame r sz 0.
Proof.
  cbn zeta. unfold V2_discard, on_top, on_frame, top, set_top, discardN, Discard.
  cbn [v2_stack rs_inner rs_bottom fr_reader fr_remain fr_base NewReader rd_data].
  pose proof (len_nonneg inner). rewrite Z.leb_refl.
  rewrite (proj2 (Z.ltb_ge (len inner) 0)) by lia. cbn.
  unfold V2_remaining, top. cbn. by rewrite Z.sub_diag.
Qed.

(** Finding v2_compressed_limit: a compressed record batch is peeked whole: one whose payload is
    longer than the buffer of the connection, 4096 bytes by default, is never
    read, whatever has arrived of it, and a codec that could decode it is not
    called. *)
Lemma v2_compressed_limit codec n r sz :
  rd_bufsize r < n ≤ sz → 0 ≤ n →
  readCompressedBatch codec n r sz = (inl ErrBufferFull, (sz, r)).
Proof.
  intros Hn H0. unfold readCompressedBatch, Peek.
  rewrite Z.gtb_ltb, (proj2 (Z.ltb_ge sz n)), (proj2 (Z.ltb_ge n 0)), (proj2 (Z.ltb_lt _ n)) by lia. done.
Qed.
