(* ===== verification/ConnProps.v ===== *)
(** * Properties of a connection

    What the operations of a [Conn] return for what the broker answers, and
    that they leave the stream of responses where the next operation expects
    it. *)

From S2P Require Import Prelude Errors Time Bufio Read Write VarInt Wire.
From S2P Require Import Protocol OffsetMessages TopicMessages GroupMessages SaslMessages Messages DataRequests FetchResponse.
From S2P Require Import MessageSet MessageSetAlign Conn ConnOps ConnShared ConnSync ConnData Batch BatchSync.
From stdpp Require Import relations.

#[local] Open Scope Z_scope.

(** ** Calls *)

(** A response whose error codes are [codes]. *)
Definition checked {A} (codes : list Z) (a : A) : outcome A :=
  match list_find (λ code, code ≠ 0) codes with
  | Some (_, code) => Failed (KafkaError code)
  | None => Done a
  end.

Lemma call_check_returns `{Sizable A, Writable A, Codec B} d key version (req : A) (codes : B → list Z)
    c (resp : B) rest :
  expects c (writeTo resp) rest → wf resp →
  (r ← call d key version req; check (codes r) r) c =
  (checked (codes (canon resp)) (canon resp),
   sent c (writeRequest (cfg_clientID (c_cfg c)) key version (int32 (c_correlationID c + 1)) req) rest).
Proof.
  intros He Hw. erewrite cm_bind_done by (by apply call_returns).
  unfold check, checked. by destruct (list_find _ _) as [[]|].
Qed.

(** The bytes of the next request of a connection. *)
Definition next_request `{Sizable A, Writable A} (c : conn) (key version : Z) (req : A) : list byte :=
  writeRequest (cfg_clientID (c_cfg c)) key version (int32 (c_correlationID c + 1)) req.

(** C22 group_calls_return: the calls to the coordinator of a group send exactly one request and,
    given the broker's response to it, return it with every field as it was
    sent, or the first error code it carries; in both cases they take exactly
    the response from the stream and leave the connection open. *)
Theorem group_calls_return c rest :
  (∀ req resp, expects c (writeTo resp) rest → wf resp →
     joinGroup req c = (checked [jgs_ErrorCode resp] (canon resp),
                        sent c (next_request c Api.joinGroupRequest Api.v1 req) rest)) ∧
  (∀ req resp, expects c (writeTo resp) rest → wf resp →
     syncGroups req c = (checked [sgs_ErrorCode resp] (canon resp),
                         sent c (next_request c Api.syncGroupRequest Api.v0 req) rest)) ∧
  (∀ req resp, expects c (writeTo resp) rest → wf resp →
     heartbeat req c = (checked [hbs_ErrorCode resp] (canon resp),
                        sent c (next_request c Api.heartbeatRequest Api.v0 req) rest)) ∧
  (∀ req resp, expects c (writeTo resp) rest → wf resp →
     leaveGroup req c = (checked [lgs_ErrorCode resp] (canon resp),
                         sent c (next_request c Api.leaveGroupRequest Api.v0 req) rest)) ∧
  (∀ req resp, expects c (writeTo resp) rest → wf resp →
     findCoordinator req c = (checked [fcs_ErrorCode resp] (canon resp),
                              sent c (next_request c Api.groupCoordinatorRequest Api.v0 req) rest)).
Proof.
  split; [|split; [|split; [|split]]]; intros req resp He Hw.
  - exact (call_check_returns wdeadline _ _ req (λ r, [jgs_ErrorCode r]) c resp rest He Hw).
  - exact (call_check_returns rdeadline _ _ req (λ r, [sgs_ErrorCode r]) c resp rest He Hw).
  - exact (call_check_returns wdeadline _ _ req (λ r, [hbs_ErrorCode r]) c resp rest He Hw).
  - exact (call_check_returns wdeadline _ _ req (λ r, [lgs_ErrorCode r]) c resp rest He Hw).
  - exact (call_check_returns rdeadline _ _ req (λ r, [fcs_ErrorCode r]) c resp rest He Hw).
Qed.

(** Well-formedness of a concrete value: its conditions one by one. *)
Ltac wf_concrete :=
  repeat first [ progress cbn [map] | apply Forall_nil_2 | apply Forall_cons_2 | split ];
  (vm_compute; (congruence || reflexivity)).

(** The connection of the examples, about to receive [data]. *)
Definition sample_conn (data : list byte) : conn :=
  {| c_cfg := {| cfg_clientID := []; cfg_topic := map byte_of_Z [116]; cfg_partition := 0;
                 cfg_fetchMaxBytes := 1000000; cfg_fetchMinSize := 0; cfg_apiVersions := ∅;
                 cfg_fetchVersion := 2 |};
     c_rbuf := NewReader data; c_out := []; c_werr := None; c_closed := false; c_offset := 0;
     c_correlationID := 0; c_requiredAcks := -1; c_rdeadline := Time.zeroTime; c_wdeadline := Time.zeroTime |}.

Definition sample_heartbeat_response : heartbeatResponseV0 := {| hbs_ErrorCode := 27 |}.

Lemma group_calls_return_witness :
  let c := sample_conn (response_block 1 (writeTo sample_heartbeat_response) ++ []) in
  let req := {| hbr_GroupID := []; hbr_GenerationID := 1; hbr_MemberID := [] |} in
  heartbeat req c = (Failed (KafkaError 27), sent c (next_request c Api.heartbeatRequest Api.v0 req) []).
Proof.
  intros c req.
  destruct (group_calls_return c []) as (_ & _ & H & _).
  apply (H req sample_heartbeat_response); [constructor; by vm_compute|by vm_compute].
Defined.

(** Fact offset_calls_return: the same for the calls that fetch and commit offsets, whose error
    codes are those of the partitions, in the order of the response. *)
Theorem offset_calls_return c rest :
  (∀ req resp, expects c (writeTo resp) rest → wf resp →
     offsetFetch req c =
     (checked (concat (map (λ r, map ofsp_ErrorCode (ofst_PartitionResponses r)) (ofs_Responses (canon resp))))
        (canon resp), sent c (next_request c Api.offsetFetchRequest Api.v1 req) rest)) ∧
  (∀ req resp, expects c (writeTo resp) rest → wf resp →
     offsetCommit req c =
     (checked (concat (map (λ r, map ocsp_ErrorCode (ocst_PartitionResponses r)) (ocs_Responses (canon resp))))
        (canon resp), sent c (next_request c Api.offsetCommitRequest Api.v2 req) rest)).
Proof.
  split; intros req resp He Hw.
  - exact (call_check_returns rdeadline _ _ req
      (λ r, concat (map (λ r, map ofsp_ErrorCode (ofst_PartitionResponses r)) (ofs_Responses r))) c resp rest He Hw).
  - exact (call_check_returns wdeadline _ _ req
      (λ r, concat (map (λ r, map ocsp_ErrorCode (ocst_PartitionResponses r)) (ocs_Responses r))) c resp rest He Hw).
Qed.

Definition sample_fetch_response : offsetFetchResponseV1 :=
  {| ofs_Responses := [{| ofst_Topic := map byte_of_Z [116];
       ofst_PartitionResponses := [{| ofsp_Partition := 2; ofsp_Offset := 40; ofsp_Metadata := [];
                                      ofsp_ErrorCode := 0 |}] |}] |}.

Lemma offset_calls_return_witness :
  let c := sample_conn (response_block 1 (writeTo sample_fetch_response) ++ []) in
  let req := {| ofr_GroupID := []; ofr_Topics := [] |} in
  offsetFetch req c = (Done sample_fetch_response, sent c (next_request c Api.offsetFetchRequest Api.v1 req) []).
Proof.
  intros c req. destruct (offset_calls_return c []) as [H _].
  apply (H req sample_fetch_response); [constructor; by vm_compute|].
  wf_concrete.
Defined.

(** ** Staying in step *)

(** C13 calls_in_step: whatever bytes the broker answers with, well formed or not, truncated,
    too long or carrying error codes, these operations return and leave the
    connection closed or on the first byte of the next response. *)
Theorem calls_in_step :
  (∀ req, in_step (describeGroups req)) ∧ (∀ req, in_step (findCoordinator req)) ∧
  (∀ req, in_step (heartbeat req)) ∧ (∀ req, in_step (joinGroup req)) ∧
  (∀ req, in_step (leaveGroup req)) ∧ (∀ req, in_step (listGroups req)) ∧
  (∀ req, in_step (offsetCommit req)) ∧ (∀ req, in_step (offsetFetch req)) ∧
  (∀ req, in_step (syncGroups req)) ∧ (∀ now req, in_step (createTopics now req)) ∧
  (∀ now req, in_step (deleteTopics now req)) ∧ (∀ mechanism, in_step (saslHandshake mechanism)) ∧
  (∀ topics, in_step (metadata topics)) ∧ in_step Controller ∧ in_step Brokers ∧
  (∀ topics, in_step (ReadPartitions topics)).
Proof.
  do 9 (split; [intros req; apply in_step_check, call_in_step|]). split; [|split; [|split; [|split; [|split; [|split]]]]].
  - apply createTopics_in_step.
  - apply deleteTopics_in_step.
  - intros mechanism. unfold saslHandshake. apply in_step_get. intros c. apply in_step_check, call_in_step.
  - apply metadata_in_step.
  - apply in_step_map, metadata_in_step.
  - apply in_step_map, metadata_in_step.
  - apply ReadPartitions_in_step.
Qed.

(** ** Producing *)

(** The writer that [writeCompressedMessages] gives to [do]. *)
Definition produce_writer (c : conn) (now : Z) (codec : option CompressionCodec) (msgs : list Message) :
    Z → Z → outcome (list byte) := λ deadline id,
  let timeout := Time.deadlineToTimeout (Time.adjustDeadlineForRTT deadline now Time.defaultRTT) now in
  if maxVersion c Api.produceRequest >=? 3 then
    writeProduceRequestV3 codec id (cfg_clientID (c_cfg c)) (cfg_topic (c_cfg c)) (cfg_partition (c_cfg c))
      timeout (int16 (c_requiredAcks c)) msgs
  else
    may_fail (writeProduceRequestV2 codec id (cfg_clientID (c_cfg c)) (cfg_topic (c_cfg c))
      (cfg_partition (c_cfg c)) timeout (int16 (c_requiredAcks c)) msgs).

Lemma writeCompressedMessages_do writeTime now codec msgs msgs' nbytes c :
  msgs ≠ [] → prepareMessages (cfg_topic (c_cfg c)) writeTime msgs = (msgs', nbytes, None) →
  writeCompressedMessages writeTime now codec msgs c =
  match do wdeadline (produce_writer c now codec msgs') (expectZeroSize produce_reader) c with
  | (Done at_, c') => (Done (inr (nbytes, at_)), c')
  | (Failed err, c') => (Done (inl (0, err)), c')
  | (Diverged, c') => (Diverged, c')
  end.
Proof.
  intros Hne Hp. unfold writeCompressedMessages, mbind at 1, cm_bind at 1, get.
  rewrite decide_False by done. rewrite Hp. unfold mbind, cm_bind, try_, writeOperation.
  change read_produceResponse with (expectZeroSize produce_reader).
  change (λ deadline id, _) with (produce_writer c now codec msgs').
  by destruct (do _ _ _ c) as [[?|?|] ?].
Qed.

(** What a produce response does to the call, by its error code. *)
Lemma writeCompressedMessages_answer writeTime now codec msgs msgs' nbytes c topic p throttle rest bs :
  msgs ≠ [] → prepareMessages (cfg_topic (c_cfg c)) writeTime msgs = (msgs', nbytes, None) →
  produce_writer c now codec msgs' (c_wdeadline c) (int32 (c_correlationID c + 1)) = Done bs →
  expects c (produce_bytes topic p ++ writeInt32 throttle) rest → wf_string topic → wf p →
  writeCompressedMessages writeTime now codec msgs c =
  if psp_ErrorCode p =? 0 then (Done (inr (nbytes, produced_of p)), sent c bs rest)
  else (Done (inl (0, KafkaError (psp_ErrorCode p))), sent c bs (writeInt32 throttle ++ rest)).
Proof.
  intros Hne Hp Hw He Ht Hwf. rewrite (writeCompressedMessages_do _ _ _ _ _ _ _ Hne Hp).
  destruct (Z.eqb_spec (psp_ErrorCode p) 0) as [Hz|Hz].
  - erewrite do_returns; [reflexivity|exact He|exact Hw|]. by apply produce_reader_ok.
  - erewrite do_fails; [reflexivity|exact He|exact Hw|]. by apply produce_reader_error.
Qed.

(** C35 produce_returns: when the broker answers a produce request with the offset it gave to
    the messages, [writeCompressedMessages] returns the number of bytes of
    keys and values and that position, and takes exactly the response; when
    it answers with an error code, the code is returned with a count of zero
    bytes, the connection stays open, and the four bytes of the throttle time
    are left in the stream, in front of the next response. *)
Theorem produce_returns writeTime now codec msgs msgs' nbytes c topic p throttle rest bs :
  msgs ≠ [] → prepareMessages (cfg_topic (c_cfg c)) writeTime msgs = (msgs', nbytes, None) →
  produce_writer c now codec msgs' (c_wdeadline c) (int32 (c_correlationID c + 1)) = Done bs →
  expects c (produce_bytes topic p ++ writeInt32 throttle) rest → wf_string topic → wf p →
  writeCompressedMessages writeTime now codec msgs c =
  if psp_ErrorCode p =? 0 then (Done (inr (nbytes, produced_of p)), sent c bs rest)
  else (Done (inl (0, KafkaError (psp_ErrorCode p))), sent c bs (writeInt32 throttle ++ rest)).
Proof. apply writeCompressedMessages_answer. Qed.

Definition sample_partition (code : Z) : produceResponsePartitionV2 :=
  {| psp_Partition := 0; psp_ErrorCode := code; psp_Offset := 12; psp_Timestamp := -1 |}.

Definition sample_value : Message :=
  {| msg_Topic := []; msg_Partition := 0; msg_Offset := 0; msg_Key := None;
     msg_Value := Some (map byte_of_Z [104; 105]); msg_Headers := []; msg_Time := Time.Second |}.

Definition sample_produce (code : Z) : conn :=
  sample_conn (response_block 1 (produce_bytes (map byte_of_Z [116]) (sample_partition code) ++ writeInt32 0) ++ []).

Definition sample_request : list byte :=
  match produce_writer (sample_produce 6) 1 None [sample_value] Time.zeroTime 1 with Done bs => bs | _ => [] end.

Lemma produce_returns_witness :
  writeCompressedMessages 0 1 None [sample_value] (sample_produce 6)
  = (Done (inl (0, KafkaError 6)), sent (sample_produce 6) sample_request (writeInt32 0 ++ [])).
Proof.
  apply (produce_returns 0 1 None [sample_value] [sample_value] 2 (sample_produce 6) (map byte_of_Z [116])
    (sample_partition 6) 0 [] sample_request).
  - done.
  - reflexivity.
  - vm_compute. reflexivity.
  - constructor; by vm_compute.
  - by vm_compute.
  - wf_concrete.
Defined.

(** ** Seeking *)

(** C37 seek_bounds: [Seek] with [SeekAbsolute] to the offset that the connection is at asks
    nothing, returns that offset and changes nothing; with a [whence] that is
    not one of the four it fails and changes nothing.  Every other call asks for
    the first and the last offset of the partition; when the broker answers both
    without an error code, it moves to the target when it lies between them, and
    otherwise fails with [OffsetOutOfRange] and stays; both responses are taken
    from the stream in each case.  The target is the first offset plus [offset]
    for [SeekStart], the last one minus [offset] for [SeekEnd] (the comment of
    [Seek] says the current one), [offset] for [SeekAbsolute], the current offset
    plus [offset] for [SeekCurrent], in 64 bits. *)
Theorem seek_bounds c topic p1 p2 rest offset whence :
  (whence = SeekAbsolute → offset = c_offset c → Seek offset whence c = (Done offset, c)) ∧
  (¬ (0 ≤ whence ≤ 3) → ∃ err, Seek offset whence c = (Failed err, c)) ∧
  (expects_offsets c topic p1 p2 rest → po_ErrorCode p1 = 0 → po_ErrorCode p2 = 0 →
   0 ≤ whence ≤ 3 → ¬ (whence = SeekAbsolute ∧ offset = c_offset c) →
   let target := seek_target offset whence (c_offset c) (po_Offset p1) (po_Offset p2) in
   Seek offset whence c =
   if decide (po_Offset p1 ≤ target ≤ po_Offset p2)
   then (Done target, set_offset (after_offsets c rest) target)
   else (Failed (KafkaError Code.OffsetOutOfRange), after_offsets c rest)).
Proof.
  split; [|split; [|apply Seek_spec]].
  - intros -> ->. unfold Seek. by rewrite !Z.eqb_refl.
  - intros Hw. eexists. unfold Seek. destruct (Z.leb_spec 0 whence), (Z.leb_spec whence 3); [lia|done..].
Qed.

Definition sample_offset (o : Z) : partitionOffsetV1 :=
  {| po_Partition := 0; po_ErrorCode := 0; po_Timestamp := -1; po_Offset := o |}.

Definition sample_seek : conn :=
  sample_conn (response_block 1 (listOffset_bytes [] (sample_offset 5)) ++
               response_block 2 (listOffset_bytes [] (sample_offset 9)) ++ []).

Lemma seek_bounds_witness :
  Seek 1 SeekEnd sample_seek = (Done 8, set_offset (after_offsets sample_seek []) 8).
Proof.
  refine (proj2 (proj2 (seek_bounds sample_seek [] (sample_offset 5) (sample_offset 9) [] 1 SeekEnd)) _ _ _ _ _).
  - constructor; [constructor; by vm_compute|by vm_compute|by vm_compute|wf_concrete|wf_concrete].
  - reflexivity.
  - reflexivity.
  - by vm_compute.
  - intros [E _]. discriminate E.
Defined.

(** ** Fetching *)

(** C10 batch_in_step: a batch opened on a response with a message set of format 0 or 1 may be
    read in any way, with [Read] and [ReadMessage] in any order, however far
    and whatever they return: closing it leaves the stream of the connection
    on the first byte after the response. *)
Theorem batch_in_step codecs cfg offset deadline now size c b0 c0 s b1 c1 :
  openBatch cfg offset deadline now size c = (b0, c0) → b_msgs b0 = Some (SetV1 s) →
  0 ≤ size ≤ len (rd_data (c_rbuf c)) →
  rtc (batch_step codecs) (b0, c0) (b1, c1) →
  c_rbuf (batch_Close b1 c1).2 = with_data (c_rbuf c) (zdrop size (rd_data (c_rbuf c))).
Proof.
  intros Ho Hm Hs Hr. apply batch_Close_end; [done|].
  apply (batch_steps_aligned codecs _ _ _ _ Hr). eapply openBatch_aligned; [done|done|lia].
Qed.

(** A response with one message, followed by one byte. *)
Definition sample_set : list byte :=
  writeMessage 3 0 0 None (Some (map byte_of_Z [1])).
Definition sample_fetch : list byte :=
  fetchHeader_bytes 0 [] 0 0 9 (len sample_set) ++ sample_set.
Definition sample_fetch_conn : conn := sample_conn (sample_fetch ++ [x00]).

Lemma batch_in_step_witness :
  let '(b, c) := openBatch (c_cfg sample_fetch_conn) 3 Time.zeroTime 0 (len sample_fetch) sample_fetch_conn in
  c_rbuf (batch_Close b c).2 = NewReader [x00].
Proof.
  destruct (openBatch _ _ _ _ _ _) as [b c] eqn:E.
  destruct (b_msgs b) as [[|s|m]|] eqn:Em; [exfalso| |exfalso|exfalso];
    [vm_compute in E; injection E as <- <-; discriminate Em| |
     vm_compute in E; injection E as <- <-; discriminate Em|
     vm_compute in E; injection E as <- <-; discriminate Em].
  apply (batch_in_step ∅ (c_cfg sample_fetch_conn) 3 Time.zeroTime 0 (len sample_fetch) sample_fetch_conn b c s b c E Em).
  - by vm_compute.
  - constructor.
Defined.

(** ** Goroutines that share a connection *)

(** [call] as a goroutine makes it. *)
Definition call_rpc `{Sizable A, Writable A, Readable B} (d : connDeadline) (c : conn) (apiKey apiVersion : Z)
    (req : A) : rpc B :=
  {| cl_deadline := d; cl_write := request c apiKey apiVersion req; cl_read := expectZeroSize readFrom |}.

Lemma decodes_call `{Sizable A, Writable A, Codec B} d c apiKey apiVersion (req : A) (resp : B) :
  wf resp → decodes (call_rpc d c apiKey apiVersion req) (writeTo resp) (inr (canon resp)).
Proof. intros Hw r tail Hb. apply reads_expectZeroSize; [by apply codec_reads|done]. Qed.

(** C11 shared_serial: any number of goroutines below 2^32 may call on one
    connection, in any interleaving and with responses that arrive in any
    pieces, from a broker that answers requests in their order with responses
    that the calls understand, on a network that does not fail: every call
    that returned has the result that it has when the calls are made one after
    the other, in the order of their requests; the broker was sent the same
    bytes; and the connection is open. *)
Theorem shared_serial {A} (broker : list byte → list byte) (calls : list (rpc A)) c evs s :
  serves broker calls → idle c → Forall calm evs → sh_run broker evs (sh_start c calls) = Some s →
  ∃ a, rtc (serial_step broker calls) {| se_conn := c; se_results := ∅ |} a ∧
    c_closed (sh_conn s) = false ∧ c_out (sh_conn s) = c_out (se_conn a) ∧
    ∀ i g res, sh_gs s !! i = Some g → g_pc g = PDone res → se_results a !! i = Some res.
Proof.
  intros Hs Hi Hc E.
  destruct (run_inv broker calls Hs _ _ _ _ _ (sh_start_inv calls c Hi) Hc E) as (a & q & H & R).
  exists a. split; [done|]. rewrite (iv_conn _ _ _ _ H). split; [apply (id_open _ (iv_idle _ _ _ _ H))|].
  split; [done|]. intros i g res Hg Ep. pose proof (iv_pc _ _ _ _ H _ _ Hg) as Hat. rewrite Ep in Hat. by destruct Hat.
Qed.

(** C18 shared_finishes: in the same conditions no schedule leads to a deadlock
    or to a response that nobody takes: from every state that the goroutines
    can reach, whoever holds the lock and whatever has arrived, a schedule
    without failures lets all the calls return. *)
Theorem shared_finishes {A} (broker : list byte → list byte) (calls : list (rpc A)) c evs s :
  serves broker calls → idle c → Forall calm evs → sh_run broker evs (sh_start c calls) = Some s →
  ∃ evs' s', Forall calm evs' ∧ sh_run broker evs' s = Some s' ∧ finished s'.
Proof.
  intros Hs Hi Hc E.
  destruct (run_inv broker calls Hs _ _ _ _ _ (sh_start_inv calls c Hi) Hc E) as (a & q & H & _).
  destruct (can_finish broker calls Hs _ _ _ H) as (s' & (evs' & Hevs & Er) & Hf). by exists evs', s'.
Qed.

(** Two goroutines with a heartbeat each, and a broker whose second answer is an
    error code; the second goroutine sends first, the first looks at its
    response in between. *)
Definition beat (n : Z) : rpc heartbeatResponseV0 :=
  call_rpc wdeadline (sample_conn []) Api.heartbeatRequest Api.v0
    {| hbr_GroupID := []; hbr_GenerationID := n; hbr_MemberID := [] |}.

Definition beat_answer (out : list byte) : heartbeatResponseV0 :=
  {| hbs_ErrorCode := if len out <? 40 then 0 else 27 |}.

Definition beat_broker (out : list byte) : list byte := writeTo (beat_answer out).

Definition beat_schedule : list event :=
  [ERequest 1; ERequest 0; ELock 0; EArrive 13; EPeek 0 None; ELock 1; EPeek 1 None; ERead 1 None;
   EArrive 100; ELock 0; EPeek 0 None; ERead 0 None].

Lemma sample_idle : idle (sample_conn []).
Proof. by constructor. Qed.

Lemma beat_calm : Forall calm beat_schedule.
Proof. by repeat constructor. Qed.

Lemma beat_serves : serves beat_broker [beat 1; beat 2].
Proof.
  split; [| |done].
  - intros cl deadline id Hin.
    apply elem_of_cons in Hin as [->|Hin]; [by eexists|]. apply list_elem_of_singleton in Hin as ->. by eexists.
  - intros cl deadline id bs out Hin _.
    assert (wf (beat_answer (out ++ bs))) as Hw by (unfold beat_answer; destruct (_ <? _); by vm_compute).
    assert (len (beat_broker (out ++ bs)) + 4 < 2 ^ 31) by (unfold beat_broker, beat_answer; by destruct (_ <? _)).
    assert (cl = beat 1 ∨ cl = beat 2) as Hcl by (by rewrite elem_of_cons, list_elem_of_singleton in Hin).
    split; [done|]. exists (inr (canon (beat_answer (out ++ bs)))). split; [done|].
    unfold beat_broker. destruct Hcl as [-> | ->]; by apply (decodes_call wdeadline).
Qed.

Definition pcs {A} (s : shared A) : list (progress A) := map g_pc (sh_gs s).

Lemma shared_serial_witness : ∃ s a,
  sh_run beat_broker beat_schedule (sh_start (sample_conn []) [beat 1; beat 2]) = Some s ∧
  pcs s = [PDone (Done {| hbs_ErrorCode := 27 |}); PDone (Done {| hbs_ErrorCode := 0 |})] ∧
  rtc (serial_step beat_broker [beat 1; beat 2]) {| se_conn := sample_conn []; se_results := ∅ |} a ∧
  se_results a !! 0%nat = Some (Done {| hbs_ErrorCode := 27 |}).
Proof.
  destruct (sh_run beat_broker beat_schedule (sh_start (sample_conn []) [beat 1; beat 2])) as [s|] eqn:E.
  2: { apply (f_equal (λ o, match o with Some _ => true | None => false end)) in E. by vm_compute in E. }
  assert (pcs s = [PDone (Done {| hbs_ErrorCode := 27 |}); PDone (Done {| hbs_ErrorCode := 0 |})]) as Ep.
  { apply (f_equal (fmap pcs)) in E. cbn [fmap option_fmap option_map] in E. apply (inj Some). rewrite <- E.
    by vm_compute. }
  destruct (shared_serial beat_broker [beat 1; beat 2] (sample_conn []) beat_schedule s) as (a & R & _ & _ & Hres).
  - exact beat_serves.
  - exact sample_idle.
  - exact beat_calm.
  - exact E.
  - exists s, a. split; [reflexivity|]. split; [exact Ep|]. split; [exact R|]. clear E.
    unfold pcs in Ep. destruct (sh_gs s) as [|g gs] eqn:Eg; [done|].
    apply (Hres 0%nat g); [reflexivity|]. cbn in Ep. congruence.
Defined.

Lemma shared_finishes_witness : ∃ s evs' s',
  sh_run beat_broker (take 4 beat_schedule) (sh_start (sample_conn []) [beat 1; beat 2]) = Some s ∧
  sh_run beat_broker evs' s = Some s' ∧ finished s'.
Proof.
  destruct (sh_run beat_broker (take 4 beat_schedule) (sh_start (sample_conn []) [beat 1; beat 2])) as [s|] eqn:E.
  2: { apply (f_equal (λ o, match o with Some _ => true | None => false end)) in E. by vm_compute in E. }
  destruct (shared_finishes beat_broker [beat 1; beat 2] (sample_conn []) (take 4 beat_schedule) s)
    as (evs' & s' & _ & Er & Hf).
  - exact beat_serves.
  - exact sample_idle.
  - apply Forall_take, beat_calm.
  - exact E.
  - exists s, evs', s'. split; [reflexivity|]. by clear E.
Defined.
