(* ===== verification/CodecProps.v ===== *)
(** * Properties of the codecs

    That snappy data is decoded in both of its forms, and that the pools of the
    stream codecs cannot be seen. *)

From S2P Require Import Prelude Errors Read Messages Conn Dialer Codecs.

(** ** snappy *)

(** C33 snappy_decodes: [decode] ends on every input.  It returns the data of a block, which it
    tells from the framing of snappy-java by its first bytes, and the data of
    all the blocks of a framed stream in their order; what lies behind the slice
    in its array does not matter.  A slice whose array has less than eight bytes
    panics. *)
Theorem snappy_decodes dec versions blocks chunks block data spare :
  len versions = 8 → Forall2 (λ b c, dec b = inr c) blocks chunks →
  len (Snappy.xerial_frame versions blocks) < 2 ^ 32 →
  Snappy.starts_block block → 8 ≤ len block → dec block = inr data →
  Snappy.decode dec {| sl_bytes := Snappy.xerial_frame versions blocks; sl_spare := spare |} = Done (concat chunks) ∧
  Snappy.decode dec {| sl_bytes := block; sl_spare := spare |} = Done data ∧
  (∀ src, Snappy.decode dec src ≠ Diverged) ∧
  (∀ src, len (sl_bytes src ++ sl_spare src) < 8 → Snappy.decode dec src = Failed out_of_range).
Proof.
  intros Hv Hb Hl Hs H8 Hd. split; [|split; [|split]].
  - unfold Snappy.decode, Snappy.xerial_frame in *.
    pose proof (Snappy.sl_range_app [] Snappy.xerialHeader (versions ++ concat (map Snappy.xerial_chunk blocks)) 0 8 spare
      eq_refl eq_refl) as Eh. cbn [app] in Eh. rewrite Eh, outcome_bind_done, decide_True by done.
    rewrite (app_assoc Snappy.xerialHeader) in *. pose proof (len_nonneg (concat (map Snappy.xerial_chunk blocks))).
    cbn [sl_bytes].
    rewrite uint32_id by (split; [apply len_nonneg|done]).
    assert (16 = len (Snappy.xerialHeader ++ versions)) as -> by (rewrite len_app, Hv; done).
    apply (Snappy.decode_loop_frame dec _ _ blocks chunks [] spare); [done|done|].
    rewrite length_app. pose proof (Snappy.frame_blocks blocks). lia.
  - unfold Snappy.decode, sl_range. cbn [sl_bytes sl_spare].
    assert (8 ≤ len (block ++ spare)) as H8' by (rewrite len_app; pose proof (len_nonneg spare); lia).
    rewrite (proj2 (Z.leb_le 8 _) H8'). cbn [andb Z.leb Z.compare]. rewrite outcome_bind_done, zdrop_0.
    rewrite decide_False.
    + cbn [sl_bytes]. by rewrite Hd.
    + intros E. eapply Snappy.block_not_framed; [done|]. rewrite <- E. unfold ztake. rewrite take_app_le; [done|].
      unfold len in H8. lia.
  - intros src. unfold Snappy.decode. destruct (sl_range src 0 8) as [h|e|] eqn:E; [|done|by apply Snappy.sl_range_done in E].
    rewrite outcome_bind_done. case_decide.
    + apply Snappy.decode_loop_ends; [lia|lia|].
      pose proof (Z.mod_le (len (sl_bytes src)) (2 ^ 32) (len_nonneg _) ltac:(lia)) as Hle.
      unfold wrapU. unfold len in *. lia.
    + unfold may_fail. by destruct (dec (sl_bytes src)).
  - intros src Hlt. unfold Snappy.decode, sl_range. rewrite (proj2 (Z.leb_gt 8 _) Hlt). done.
Qed.

(** Blocks of one literal, for data of 1 to 60 bytes. *)
Definition literal_encode (data : list byte) : list byte :=
  byte_of_Z (len data) :: byte_of_Z (4 * (len data - 1)) :: data.

Definition literal_decode (block : list byte) : goerror + list byte :=
  match block with
  | n :: tag :: data => if (Z_of_byte n =? len data) && (Z_of_byte tag =? 4 * (len data - 1)) then inr data else inl EOF
  | _ => inl EOF
  end.

Lemma snappy_decodes_witness :
  let data := map byte_of_Z [1; 2; 3; 4; 5; 6; 7] in
  let frame := Snappy.xerial_frame (map byte_of_Z [0; 0; 0; 1; 0; 0; 0; 1])
                 [literal_encode data; literal_encode (map byte_of_Z [8; 9])] in
  Snappy.decode literal_decode {| sl_bytes := frame; sl_spare := [] |} = Done (map byte_of_Z [1; 2; 3; 4; 5; 6; 7; 8; 9]) ∧
  Decode (Snappy.codec literal_encode literal_decode) (literal_encode data) = inr data.
Proof.
  cbn zeta. set (data := map byte_of_Z [1; 2; 3; 4; 5; 6; 7]).
  destruct (snappy_decodes literal_decode (map byte_of_Z [0; 0; 0; 1; 0; 0; 0; 1])
    [literal_encode data; literal_encode (map byte_of_Z [8; 9])] [data; map byte_of_Z [8; 9]] (literal_encode data) data [])
    as (Hf & Hb & _).
  - reflexivity.
  - repeat constructor.
  - by vm_compute.
  - apply Snappy.starts_literal; by vm_compute.
  - by vm_compute.
  - reflexivity.
  - split; [exact Hf|]. cbn [Decode Snappy.codec]. rewrite Hb. reflexivity.
Defined.

(** Finding snappy_short: data of one byte is encoded to a block that the codec cannot decode:
    it slices the first eight bytes of it. *)
Lemma snappy_short :
  Encode (Snappy.codec literal_encode literal_decode) [x01] = inr (literal_encode [x01]) ∧
  literal_decode (literal_encode [x01]) = inr [x01] ∧
  Decode (Snappy.codec literal_encode literal_decode) (literal_encode [x01]) = inl out_of_range.
Proof. by vm_compute. Qed.

(** ** Stream codecs *)

Section stream.
Context (lib : Pooled.library).

(** The documentation of [Reset]: the state is discarded. *)
Hypothesis reset_writer : ∀ w, Pooled.lb_ResetWriter lib w = Pooled.lb_ResetWriter lib (Pooled.lb_NewWriter lib).
Hypothesis reset_reader : ∀ src r, Pooled.lb_ResetReader lib src r = Pooled.lb_ResetReader lib src (Pooled.lb_NewReader lib).

Inductive stream_call : Type := SEncode (choice : option nat) (src : list byte) | SDecode (choice : option nat) (src : list byte).

Definition stream_result : Type := (goerror + list byte) + (list byte * option goerror).

Definition stream_do (c : Pooled.stream_codec) (call : stream_call) (p : Pooled.pools lib) : stream_result * Pooled.pools lib :=
  match call with
  | SEncode choice src => let '(r, p) := Pooled.stream_Encode lib c choice src p in (inl r, p)
  | SDecode choice src => let '(r, p) := Pooled.stream_Decode lib c choice src p in (inr r, p)
  end.

Fixpoint stream_calls (c : Pooled.stream_codec) (calls : list stream_call) (p : Pooled.pools lib) : list stream_result :=
  match calls with
  | [] => []
  | call :: calls => let '(r, p) := stream_do c call p in r :: stream_calls c calls p
  end.

Definition no_pools : Pooled.pools lib := {| Pooled.po_writers := []; Pooled.po_readers := [] |}.

Lemma stream_do_alone c call p : (stream_do c call p).1 = (stream_do c call no_pools).1.
Proof.
  destruct call as [choice src|choice src]; unfold stream_do, Pooled.stream_Encode, Pooled.stream_Decode.
  - destruct (Pooled.pool_get choice _ (Pooled.po_writers lib p)) as [w ws], (Pooled.pool_get choice (Pooled.lb_NewWriter lib) (Pooled.po_writers lib no_pools)) as [w' ws'].
    rewrite (reset_writer w), (reset_writer w'). destruct (Pooled.lb_Write _ _ _) as [[] w1]; [done|]. by destruct (Pooled.lb_Close _ _) as [[]].
  - destruct (Pooled.pool_get choice _ (Pooled.po_readers lib p)) as [w ws], (Pooled.pool_get choice (Pooled.lb_NewReader lib) (Pooled.po_readers lib no_pools)) as [w' ws'].
    rewrite (reset_reader src w), (reset_reader src w'). destruct (Pooled.lb_ResetReader _ _ _) as [[]]; [done|].
    by destruct (Pooled.lb_ReadAll _ _) as [[? []] ?].
Qed.

(** Fact pools_unseen: whatever readers and writers the pools hold, and whichever of them each
    call takes, every call of a codec returns what it would with new ones. *)
Lemma pools_unseen c calls p :
  stream_calls c calls p = map (λ call, (stream_do c call no_pools).1) calls.
Proof.
  revert p. induction calls as [|call calls IH]; intros p; [done|]. cbn. rewrite <- (stream_do_alone c call p).
  destruct (stream_do c call p) as [r p']. cbn. by rewrite IH.
Qed.
End stream.
