(* ===== verification/WriterConn.v ===== *)
(** * Partition writers on their connections ([writer.dial], [writer.write] of writer.go)

    [writer_write] of PartitionWriter.v takes what dialing and sending return
    as lists.  Here they are the dialer and the operation of a connection, and
    the two are related: a run on connections is the run on what they returned. *)

From S2P Require Import Prelude Errors Time Bufio Read Write Wire Messages DataRequests Conn ConnOps Balancer PartitionWriter.
From S2P Require Import ConnData ConnProps.

(** [dial]: the brokers in the order of the shuffle, until the leader of the
    partition is reached; the error of [SetRequiredAcks] is not looked at. *)
Fixpoint dial_loop (dialLeader : gostring → outcome conn) (requiredAcks : Z) (brokers : list gostring)
    (err : goerror) : outcome conn :=
  match brokers with
  | [] => Failed err
  | broker :: brokers =>
    match dialLeader broker with
    | Done c => Done (SetRequiredAcks requiredAcks c).2
    | Failed err => dial_loop dialLeader requiredAcks brokers err
    | Diverged => Diverged
    end
  end.

(** The readings of the clock of one attempt: for the write deadline, for the
    times of the messages, and when the request is written. *)
Record sendTimes : Type := { st_deadline : Z; st_write : Z; st_now : Z }.

Section write.
Context (cfg : writerCfg) (codec : option CompressionCodec) (writeTimeout : Z).

(** What the [n]-th dial returns, and the clock at each attempt. *)
Context (dial : nat → outcome conn) (now : Z → sendTimes).

(** The connection after the call, its error, what the dials and sends
    returned, and the last send: its times, the batch and the connection
    before it. *)
Record wl_result : Type := {
  wl_conn : option conn;
  wl_err : option goerror;
  wl_dials : list (option goerror);
  wl_sends : list (option goerror);
  wl_last : option (sendTimes * list Message * conn);
}.

Definition conn_send (t : sendTimes) (msgs : list Message) : cm (Z * option goerror) :=
  _ ← SetWriteDeadline (Time.Add (st_deadline t) writeTimeout);
  WriteCompressedMessages (st_write t) (st_now t) codec msgs.

(** The batch after the call, which has set the times of its messages. *)
Definition after_prepare (t : sendTimes) (msgs : list Message) (c : conn) : list Message :=
  (prepareMessages (cfg_topic (c_cfg c)) (st_write t) msgs).1.1.

Definition after_dial (err : option goerror) (w : wl_result) : wl_result :=
  {| wl_conn := wl_conn w; wl_err := wl_err w; wl_dials := err :: wl_dials w; wl_sends := wl_sends w;
     wl_last := wl_last w |}.

Definition after_send (err : goerror) (w : wl_result) : wl_result :=
  {| wl_conn := wl_conn w; wl_err := wl_err w; wl_dials := wl_dials w; wl_sends := Some err :: wl_sends w;
     wl_last := wl_last w |}.

(** An iteration with a connection. *)
Definition send_step (again : list Message → option conn → Z → outcome wl_result) (msgs : list Message)
    (attempts : Z) (c : conn) : outcome wl_result :=
  let t := now attempts in
  match conn_send t msgs c with
  | (Diverged, _) => Diverged
  | (Done (_, None), c') =>
    Done {| wl_conn := Some c'; wl_err := None; wl_dials := []; wl_sends := [None]; wl_last := Some (t, msgs, c) |}
  | (Done (_, Some err), c') | (Failed err, c') =>
    if decide (err = KafkaError Code.DuplicateSequenceNumber) then
      Done {| wl_conn := Some c'; wl_err := None; wl_dials := []; wl_sends := [Some err];
              wl_last := Some (t, msgs, c) |}
    else if shouldRetry (Some err) (wc_retries cfg) attempts then
      w ← again (after_prepare t msgs c) (if needsReconnect (Some err) then None else Some c') (attempts + 1);
      Done (after_send err w)
    else
      Done {| wl_conn := Some c'; wl_err := Some (Errorf writing_error 0); wl_dials := []; wl_sends := [Some err];
              wl_last := Some (t, msgs, c) |}
  end.

(** [writer.write]; [n] counts the dials. *)
Fixpoint write_loop (fuel : nat) (n : nat) (msgs : list Message) (c : option conn) (attempts : Z) :
    outcome wl_result :=
  match fuel with
  | O => Diverged
  | S fuel =>
    match c with
    | Some c => send_step (write_loop fuel n) msgs attempts c
    | None =>
      match dial n with
      | Diverged => Diverged
      | Done c => w ← send_step (write_loop fuel (S n)) msgs attempts c; Done (after_dial None w)
      | Failed err =>
        if shouldRetry (Some err) (wc_retries cfg) attempts then
          w ← write_loop fuel (S n) msgs None (attempts + 1); Done (after_dial (Some err) w)
        else
          Done {| wl_conn := None; wl_err := Some err; wl_dials := [Some err]; wl_sends := []; wl_last := None |}
      end
    end
  end.

Definition write_on (batch : list writerMessage) (c : option conn) : outcome wl_result :=
  write_loop (S (Z.to_nat (wc_retries cfg))) 0 (map wm_msg batch) c 0.

(** ** What a send does *)

(** The cases of an iteration: the send does not return, it was taken, or it
    failed and the loop gives up or goes on with a new connection. *)
Inductive send_case (again : list Message → option conn → Z → outcome wl_result) (msgs : list Message)
    (attempts : Z) (c : conn) : outcome wl_result → Prop :=
| sc_diverged :
    (conn_send (now attempts) msgs c).1 = Diverged → send_case again msgs attempts c Diverged
| sc_taken res c' err :
    conn_send (now attempts) msgs c = (res, c') →
    (err = None ∧ (∃ nb, res = Done (nb, None))) ∨
      (err = Some (KafkaError Code.DuplicateSequenceNumber) ∧ (∃ nb, res = Done (nb, err))) →
    send_case again msgs attempts c
      (Done {| wl_conn := Some c'; wl_err := None; wl_dials := []; wl_sends := [err];
               wl_last := Some (now attempts, msgs, c) |})
| sc_failed c' err :
    err ≠ KafkaError Code.DuplicateSequenceNumber → shouldRetry (Some err) (wc_retries cfg) attempts = false →
    send_case again msgs attempts c
      (Done {| wl_conn := Some c'; wl_err := Some (Errorf writing_error 0); wl_dials := []; wl_sends := [Some err];
               wl_last := Some (now attempts, msgs, c) |})
| sc_again err :
    err ≠ KafkaError Code.DuplicateSequenceNumber → shouldRetry (Some err) (wc_retries cfg) attempts = true →
    needsReconnect (Some err) = true →
    send_case again msgs attempts c
      (w ← again (after_prepare (now attempts) msgs c) None (attempts + 1); Done (after_send err w)).

(** Errors that are retried are those that give the connection up. *)
Lemma retry_reconnects err retries attempts :
  shouldRetry (Some err) retries attempts = true → needsReconnect (Some err) = true.
Proof.
  unfold shouldRetry, needsReconnect. destruct (_ >=? _); [done|]. by destruct err; cbn.
Qed.

(** The error of a send is returned as a value. *)
Lemma conn_send_value t msgs c err c' : conn_send t msgs c ≠ (Failed err, c').
Proof.
  unfold conn_send, mbind at 1, cm_bind at 1, SetWriteDeadline, WriteCompressedMessages, writeCompressedMessages.
  unfold mbind, cm_bind, get, mret, cm_ret, try_. intros E. case_decide; [done|].
  destruct (prepareMessages _ _ _) as [[msgs' nb] [e|]]; [done|]. by destruct (writeOperation _ _ _) as [[?|?|] ?].
Qed.

Lemma send_step_case again msgs attempts c :
  send_case again msgs attempts c (send_step again msgs attempts c).
Proof.
  unfold send_step. destruct (conn_send (now attempts) msgs c) as [[[nb [err|]]|err|] c'] eqn:E.
  - case_decide as Hd.
    { subst. eapply sc_taken; [exact E|]. right. split; [done|]. by eexists. }
    destruct (shouldRetry _ _ _) eqn:Hr; [|by apply sc_failed].
    rewrite (retry_reconnects _ _ _ Hr). apply sc_again; [done..|by eapply retry_reconnects].
  - eapply sc_taken; [exact E|]. left. split; [done|]. by eexists.
  - by apply conn_send_value in E.
  - apply sc_diverged. by rewrite E.
Qed.

(** ** A run on connections is a run on what they returned *)

Definition matches (r : wr_result) (w : wl_result) : Prop :=
  wr_err r = wl_err w ∧ wr_conn r = bool_decide (is_Some (wl_conn w)).

Lemma matches_retried attempts ops r w err w' :
  matches r w → w' = after_dial err w ∨ (∃ e, w' = after_send e w) → matches (retried attempts ops r) w'.
Proof. intros [H1 H2] [->|[e ->]]; by split. Qed.

Lemma send_step_refines again again' batch msgs attempts c pre more w :
  (∀ msgs' w', again msgs' None (attempts + 1) = Done w' →
     ∃ r, again' false (attempts + 1) (wl_dials w') (wl_sends w') = Some r ∧ matches r w') →
  send_step again msgs attempts c = Done w → more = wl_dials w →
  ∃ r, writer_send again' cfg attempts pre more (wl_sends w) batch = Some r ∧ matches r w.
Proof.
  intros Hag E ->. unfold writer_send.
  destruct (send_step_case again msgs attempts c) as [|res c' err _ Ht|c' err Hd Hr|err Hd Hr Hn]; [done|..].
  - injection E as <-. cbn [wl_sends hd_error from_option id].
    destruct Ht as [[-> _]|[-> _]]; [|rewrite decide_True by done]; eexists; (split; [done|]); by split.
  - injection E as <-. cbn [wl_sends hd_error from_option id]. rewrite decide_False by done. rewrite Hr.
    eexists. split; [done|]. by split.
  - destruct (again _ None (attempts + 1)) as [w'|e|] eqn:Ea; [|done|done]. rewrite outcome_bind_done in E.
    injection E as <-. destruct (Hag _ _ Ea) as (r & Er & Hm).
    cbn [after_send wl_sends hd_error from_option wl_dials tail id]. rewrite decide_False by done.
    rewrite Hr, Hn, Er. eexists. split; [done|]. eapply (matches_retried _ _ _ _ None); [done|right; by eexists].
Qed.

Lemma write_loop_refines fuel batch n msgs c attempts w :
  write_loop fuel n msgs c attempts = Done w →
  ∃ r, writer_loop fuel cfg batch (bool_decide (is_Some c)) attempts (wl_dials w) (wl_sends w) = Some r ∧ matches r w.
Proof.
  revert n msgs c attempts w. induction fuel as [|fuel IH]; intros n msgs c attempts w E; [done|]. cbn [write_loop] in E.
  assert (∀ n msgs' w', write_loop fuel n msgs' None (attempts + 1) = Done w' →
    ∃ r, writer_loop fuel cfg batch false (attempts + 1) (wl_dials w') (wl_sends w') = Some r ∧ matches r w') as Hag.
  { intros n' msgs' w' (r & Er & Hm)%IH. rewrite bool_decide_false in Er by (by intros [? ?]). eauto. }
  destruct c as [c|].
  { cbn [writer_loop]. rewrite bool_decide_true by done. by eapply send_step_refines; [apply Hag|exact E|]. }
  cbn [writer_loop]. rewrite bool_decide_false by (by intros [? ?]). destruct (dial n) as [c|err|]; [|..|done].
  - destruct (send_step _ msgs attempts c) as [w'|e|] eqn:Es; [|done|done]. rewrite outcome_bind_done in E.
    injection E as <-. cbn [after_dial wl_dials wl_sends hd_error from_option tail id].
    eapply send_step_refines in Es as (r & Er & Hm); [exists r; split; [exact Er|exact Hm]|apply Hag|done].
  - destruct (shouldRetry _ _ _) eqn:Hr.
    + destruct (write_loop fuel (S n) msgs None (attempts + 1)) as [w'|e|] eqn:Ew; [|done|done].
      rewrite outcome_bind_done in E. injection E as <-.
      cbn [after_dial wl_dials wl_sends hd_error from_option tail id]. rewrite Hr.
      destruct (Hag _ _ _ Ew) as (r & Er & Hm). rewrite Er.
      eexists. split; [done|]. eapply matches_retried; [done|by left].
    + injection E as <-. cbn [wl_dials hd_error from_option id]. rewrite Hr. eexists. split; [done|]. by split.
Qed.

(** ** The batch keeps its messages *)

(** Only the times of messages without one are changed. *)
Definition stamped (msgs msgs' : list Message) : Prop :=
  Forall2 (λ m m', m' = m ∨ (Time.IsZero (msg_Time m) = true ∧ ∃ t, m' = with_Time m t)) msgs msgs'.

#[local] Instance stamped_preorder : PreOrder stamped.
Proof.
  split.
  - intros msgs. apply Forall_Forall2_diag, Forall_true. by left.
  - intros a b c Hab. revert c. induction Hab as [|m m' a b Hm Hab IH]; intros c Hbc;
      apply Forall2_cons_inv_l in Hbc || apply Forall2_nil_inv_l in Hbc.
    + subst. constructor.
    + destruct Hbc as (m'' & c' & Hm' & Hc & ->). constructor; [|by apply IH].
      destruct Hm as [->|(Hz & t & ->)]; [done|]. right. split; [done|].
      destruct Hm' as [->|(_ & t' & ->)]; [by exists t|]. by exists t'.
Qed.

Lemma prepareMessages_stamped topic t msgs : stamped msgs (prepareMessages topic t msgs).1.1.
Proof.
  induction msgs as [|m msgs IH]; [constructor|]. cbn [prepareMessages].
  case_decide; [apply (reflexivity (R := stamped))|]. case_decide; [apply (reflexivity (R := stamped))|].
  destruct (prepareMessages topic t msgs) as [[msgs' nb] err]. cbn [fst] in *. constructor; [|done].
  destruct (Time.IsZero _) eqn:E; [|by left]. right. split; [done|]. by exists t.
Qed.

(** ** The loop ends *)

(** A call that the code itself waits for never returns: a dial, or the send
    of the batch on the connection it was given or on one that it dialed. *)
Definition stuck (msgs : list Message) (c : option conn) : Prop :=
  (∃ k, dial k = Diverged) ∨
  (∃ a msgs' c0, (c = Some c0 ∨ ∃ k, dial k = Done c0) ∧ stamped msgs msgs' ∧
    (conn_send (now a) msgs' c0).1 = Diverged).

Lemma stuck_again msgs msgs' c : stamped msgs msgs' → stuck msgs' None → stuck msgs c.
Proof.
  intros Hs [Hd|(a & m & c0 & [?|Hk] & Hm & Hd)]; [by left|done|]. right. exists a, m, c0.
  split; [by right|]. split; [by etransitivity|done].
Qed.

Lemma write_loop_returns fuel n msgs c attempts :
  wc_retries cfg - attempts < Z.of_nat fuel → (0 < fuel)%nat →
  stuck msgs c ∨ ∃ w, write_loop fuel n msgs c attempts = Done w.
Proof.
  revert n msgs c attempts. induction fuel as [|fuel IH]; intros n msgs c attempts Hf H0; [lia|]. cbn [write_loop].
  assert (∀ n c0, (c = Some c0 ∨ ∃ k, dial k = Done c0) →
    stuck msgs c ∨ ∃ w, send_step (write_loop fuel n) msgs attempts c0 = Done w) as Hstep.
  { clear n. intros n c0 Hc.
    destruct (send_step_case (write_loop fuel n) msgs attempts c0) as [Hd| | |err Hd Hr Hn]; [|right; by eexists..|].
    - left. right. exists attempts, msgs, c0. done.
    - apply shouldRetry_budget in Hr.
      destruct (IH n (after_prepare (now attempts) msgs c0) None (attempts + 1)) as [Hs|[w ->]]; [lia|lia|..].
      + left. eapply stuck_again; [apply prepareMessages_stamped|exact Hs].
      + right. rewrite outcome_bind_done. by eexists. }
  destruct c as [c|]; [by apply Hstep; left|]. destruct (dial n) as [c|err|] eqn:Ed; [|..|left; left; by exists n].
  - destruct (Hstep (S n) c) as [Hs|[w ->]]; [right; by exists n|by left|]. right. rewrite outcome_bind_done. by eexists.
  - destruct (shouldRetry _ _ _) eqn:Hr; [|right; by eexists]. apply shouldRetry_budget in Hr.
    destruct (IH (S n) msgs None (attempts + 1)) as [Hs|[w ->]]; [lia|lia|by left|].
    right. rewrite outcome_bind_done. by eexists.
Qed.

(** ** What a batch that was acknowledged left on the wire *)

Lemma do_done_out {A} d write (read : rd A) c a c' :
  do d write read c = (Done a, c') →
  ∃ bs, write (deadline_of d c) (int32 (c_correlationID c + 1)) = Done bs ∧ c_out c' = c_out c ++ bs ∧
    ∃ size, peekResponseSizeAndID (c_rbuf c) = inr (size, int32 (c_correlationID c + 1)).
Proof.
  unfold do. intros E. unfold mbind at 1, cm_bind at 1 in E. unfold doRequest in E.
  change (deadline_of d (set_correlationID c ?i)) with (deadline_of d c) in E.
  destruct (write _ _) as [bs|e|]; [|done|done]. unfold flush in E.
  destruct (if c_closed _ then _ else _); [done|]. exists bs. split; [done|].
  unfold mbind, cm_bind, waitResponse in E.
  change (c_rbuf (set_out (set_correlationID c ?i) ?o)) with (c_rbuf c) in E.
  destruct (peekResponseSizeAndID (c_rbuf c)) as [e|[rsz rid]]; [done|].
  destruct (Z.eqb_spec (int32 (c_correlationID c + 1)) rid) as [Hid|]; [|done]. split; [|exists rsz; by rewrite Hid].
  unfold do_read, mbind, cm_bind, skipResponseSizeAndID, read_rbuf, mret, cm_ret in E.
  cbn in E. destruct (read _ _) as [[e|a'] [sz r]]; [|by injection E as _ <-].
  cbn in E. by destruct (match e with KafkaError _ => true | _ => false end).
Qed.

(** The request for the batch, as [writeCompressedMessages] makes it at the
    times [t] on connection [c]. *)
Definition batch_request (t : sendTimes) (msgs : list Message) (c : conn) (bs : list byte) : Prop :=
  ∃ msgs' nbytes, prepareMessages (cfg_topic (c_cfg c)) (st_write t) msgs = (msgs', nbytes, None) ∧
    produce_writer c (st_now t) codec msgs' (Time.Add (st_deadline t) writeTimeout)
      (int32 (c_correlationID c + 1)) = Done bs.

(** The error code of the response, when a response to a produce request is
    what the connection received for this request. *)
Definition answer_code (t : sendTimes) (msgs : list Message) (c : conn) (code : Z) : Prop :=
  ∀ bs topic p throttle rest,
    batch_request t msgs c bs → expects c (produce_bytes topic p ++ writeInt32 throttle) rest →
    wf_string topic → wf p → psp_ErrorCode p = code.

(** The connection of a send, with its deadline. *)
Lemma conn_send_unfold t msgs c :
  conn_send t msgs c =
  WriteCompressedMessages (st_write t) (st_now t) codec msgs
    (set_deadlines c (c_rdeadline c) (Time.Add (st_deadline t) writeTimeout)).
Proof. reflexivity. Qed.

Lemma conn_send_wire t msgs c nb c' :
  msgs ≠ [] → conn_send t msgs c = (Done (nb, None), c') →
  ∃ bs size, batch_request t msgs c bs ∧ c_out c' = c_out c ++ bs ∧
    peekResponseSizeAndID (c_rbuf c) = inr (size, int32 (c_correlationID c + 1)).
Proof.
  intros Hne. rewrite conn_send_unfold.
  set (c1 := set_deadlines c (c_rdeadline c) (Time.Add (st_deadline t) writeTimeout)) in *.
  unfold WriteCompressedMessages, mbind at 1, cm_bind at 1. intros E.
  destruct (prepareMessages (cfg_topic (c_cfg c1)) (st_write t) msgs) as [[msgs' nbytes] [e|]] eqn:Ep.
  { unfold writeCompressedMessages, mbind, cm_bind, get in E. rewrite decide_False in E by done. by rewrite Ep in E. }
  rewrite (writeCompressedMessages_do _ _ _ _ _ _ _ Hne Ep) in E.
  destruct (do wdeadline _ _ c1) as [[at_|e|] c2] eqn:Ed; [|done|done].
  apply do_done_out in Ed as (bs & Ew & Ho & size & Hp). exists bs, size. cbn in E. injection E as _ <-.
  split; [by exists msgs', nbytes|]. by split.
Qed.

(** The result of a send tells the error code of the response. *)
Lemma conn_send_code t msgs c nb err c' :
  msgs ≠ [] → conn_send t msgs c = (Done (nb, err), c') →
  match err with
  | None => answer_code t msgs c 0
  | Some (KafkaError code) => answer_code t msgs c code
  | Some _ => True
  end.
Proof.
  intros Hne E. assert (∀ bs topic p throttle rest,
    batch_request t msgs c bs → expects c (produce_bytes topic p ++ writeInt32 throttle) rest →
    wf_string topic → wf p →
    err = if psp_ErrorCode p =? 0 then None else Some (KafkaError (psp_ErrorCode p))) as H.
  { intros bs topic p throttle rest (msgs' & nbytes & Ep & Ew) [X1 X2 X3 X4 X5] Ht Hwf.
    rewrite conn_send_unfold in E.
    set (c1 := set_deadlines c (c_rdeadline c) (Time.Add (st_deadline t) writeTimeout)) in *.
    unfold WriteCompressedMessages, mbind at 1, cm_bind at 1 in E.
    rewrite (writeCompressedMessages_answer _ _ _ _ msgs' nbytes c1 topic p throttle rest bs Hne Ep Ew) in E;
      [|by constructor|done|done].
    destruct (psp_ErrorCode p =? 0); cbn in E; by injection E as _ <- _. }
  destruct err as [[]|]; try done; intros bs topic p throttle rest Hb He Ht Hwf;
    specialize (H _ _ _ _ _ Hb He Ht Hwf); destruct (Z.eqb_spec (psp_ErrorCode p) 0); congruence.
Qed.

Definition sent_on (c : option conn) (w : wl_result) (t : sendTimes) (msgs : list Message) (c0 : conn) : Prop :=
  wl_last w = Some (t, msgs, c0) ∧ ((c = Some c0 ∧ length (wl_sends w) = 1%nat) ∨ ∃ k, dial k = Done c0).

Definition taken_by (w : wl_result) (t : sendTimes) (msgs : list Message) (c0 : conn) : Prop :=
  ∃ c1 nb err, wl_conn w = Some c1 ∧ conn_send t msgs c0 = (Done (nb, err), c1) ∧
    (err = None ∨ err = Some (KafkaError Code.DuplicateSequenceNumber)).

Lemma write_loop_taken fuel n msgs c attempts w :
  write_loop fuel n msgs c attempts = Done w → wl_err w = None →
  ∃ t msgs' c0, sent_on c w t msgs' c0 ∧ stamped msgs msgs' ∧ taken_by w t msgs' c0.
Proof.
  revert n msgs c attempts w. induction fuel as [|fuel IH]; intros n msgs c attempts w E He; [done|]. cbn [write_loop] in E.
  assert (∀ n c0 w, send_step (write_loop fuel n) msgs attempts c0 = Done w → wl_err w = None →
    ∃ t msgs' c1, sent_on (Some c0) w t msgs' c1 ∧ stamped msgs msgs' ∧ taken_by w t msgs' c1) as Hstep.
  { clear -IH. intros n c0 w E He.
    destruct (send_step_case (write_loop fuel n) msgs attempts c0) as [|res c' err Es Ht|c' err Hd Hr|err Hd Hr Hn]; [done|..].
    - injection E as <-. exists (now attempts), msgs, c0. split; [by split; [|left]|]. split; [apply (reflexivity (R := stamped))|].
      exists c'. destruct Ht as [(-> & nb & ->)|(-> & nb & ->)]; exists nb; eexists; (split; [done|]); (split; [exact Es|]); auto.
    - by injection E as <-.
    - destruct (write_loop fuel n _ None (attempts + 1)) as [w'|e|] eqn:Ew; [|done|done].
      rewrite outcome_bind_done in E. injection E as <-.
      destruct (IH _ _ _ _ _ Ew He) as (t & m & c1 & [Hl [[? _]|Hk]] & Hm & Ht); [done|]. exists t, m, c1.
      split; [by split; [|right]|]. split; [|exact Ht]. etransitivity; [apply prepareMessages_stamped|exact Hm]. }
  destruct c as [c|]; [by eapply Hstep|]. destruct (dial n) as [c|err|] eqn:Ed; [|..|done].
  - destruct (send_step _ msgs attempts c) as [w'|e|] eqn:Es; [|done|done]. rewrite outcome_bind_done in E. injection E as <-.
    destruct (Hstep _ _ _ Es He) as (t & m & c1 & [Hl Hc] & Ht). exists t, m, c1. split; [|exact Ht]. split; [exact Hl|].
    right. destruct Hc as [[[= ->] _]|Hk]; [by exists n|done].
  - destruct (shouldRetry _ _ _); [|by injection E as <-].
    destruct (write_loop fuel (S n) msgs None (attempts + 1)) as [w'|e|] eqn:Ew; [|done|done].
    rewrite outcome_bind_done in E. injection E as <-.
    destruct (IH _ _ _ _ _ Ew He) as (t & m & c1 & [Hl [[? _]|Hk]] & Ht); [done|]. exists t, m, c1.
    split; [by split; [|right]|exact Ht].
Qed.
End write.


(** The kept connection answers that it is not the leader; the next one takes
    the batch. *)
Definition retryCfg : writerCfg :=
  {| wc_batchSize := 2; wc_maxMessageBytes := 100; wc_retries := 1; wc_retryBackoffInterval := 0 |}.

Definition sampleBatch : list writerMessage := [{| wm_msg := sample_value; wm_res := 0 |}].

Definition ticks (n : Z) : sendTimes := {| st_deadline := n * Time.Second; st_write := n * Time.Second + 1; st_now := n * Time.Second + 2 |}.

