(* ===== verification/WriterProps.v ===== *)
(** * Properties of balancers and writers

    Where messages go, that none is lost or answered twice on the way, and
    that the loops end. *)

From S2P Require Import Prelude Errors Time Read Messages Conn ConnOps Balancer.
From S2P Require Import GroupBalancer PartitionWriter Writer.

Definition note (n : Z) (v : list Z) : Message :=
  {| msg_Topic := []; msg_Partition := 0; msg_Offset := 0; msg_Key := None;
     msg_Value := Some (map byte_of_Z v); msg_Headers := []; msg_Time := n |}.

(** ** Balancers *)

(** Fact roundrobin_fair: a round robin over [n] partitions gives any [n] messages in a row to
    the [n] partitions, one each. *)
Theorem roundrobin_fair o msgs partitions :
  partitions ≠ [] → 0 ≤ o → o + len msgs < 2 ^ 64 → length msgs = length partitions →
  ∃ ps rr, balanceAll {| rr_offset := o |} msgs partitions = Done (ps, rr) ∧ ps ≡ₚ partitions.
Proof.
  intros Hp Ho Hl Hn. rewrite RoundRobin_run by done. do 2 eexists. split; [done|].
  rewrite imap_rotation by done. rewrite Permutation_app_comm. by rewrite take_drop.
Qed.

Lemma roundrobin_fair_witness :
  ∃ ps rr, balanceAll {| rr_offset := 4 |} [note 0 [1]; note 0 [2]; note 0 [3]] [7; 8; 9] = Done (ps, rr) ∧
    ps ≡ₚ [7; 8; 9].
Proof. apply (roundrobin_fair 4 [note 0 [1]; note 0 [2]; note 0 [3]] [7; 8; 9]); by vm_compute. Defined.

Definition total_bytes (msgs : list Message) : Z := fold_right (λ m n, messageBytes m + n) 0 msgs.

Lemma messageBytes_nonneg msg : 0 ≤ messageBytes msg.
Proof.
  unfold messageBytes. pose proof (len_nonneg (bdata (msg_Key msg))).
  pose proof (len_nonneg (bdata (msg_Value msg))). lia.
Qed.

(** Counters between 0 and [B]. *)
Definition bounded (B : Z) (cs : list leastBytesCounter) : Prop := Forall (λ c, 0 ≤ lb_bytes c ≤ B) cs.

Lemma LeastBytes_run M B msgs lb partitions :
  partitions ≠ [] → counters_for partitions (lb_counters lb) → spread M (lb_counters lb) →
  bounded B (lb_counters lb) → Forall (λ m, messageBytes m ≤ M) msgs → B + total_bytes msgs < 2 ^ 64 →
  ∃ ps lb', balanceAll lb msgs partitions = Done (ps, lb') ∧ Forall (λ p, p ∈ partitions) ps ∧
    counters_for partitions (lb_counters lb') ∧ spread M (lb_counters lb').
Proof.
  intros Hne. revert lb B. induction msgs as [|msg msgs IH]; intros lb B Hf Hs Hb Hm Ht; cbn [balanceAll].
  { do 2 eexists. split; [done|]. by split; [constructor|]. }
  apply Forall_cons_1 in Hm as [Hm1 Hm2]. cbn [total_bytes fold_right] in Ht. fold (total_bytes msgs) in Ht.
  pose proof (messageBytes_nonneg msg).
  assert (0 ≤ total_bytes msgs) as Htb.
  { clear. induction msgs as [|m ms IH]; cbn; [lia|]. pose proof (messageBytes_nonneg m).
    fold (total_bytes ms). lia. }
  destruct (LeastBytes_step lb msg partitions Hne Hf) as (i & c & Hc & Hmin & E & Hf').
  change (Balance lb msg partitions) with (LeastBytes_Balance lb msg partitions).
  rewrite E, outcome_bind_done.
  pose proof (Forall_lookup_1 _ _ _ _ Hb Hc) as Hcb. cbn in Hcb.
  assert (lb_bytes (addBytes c (messageBytes msg)) = lb_bytes c + messageBytes msg) as Ha
    by (cbn; unfold wrapU; apply Z.mod_small; lia).
  destruct (IH {| lb_counters := <[i := addBytes c (messageBytes msg)]> (lb_counters lb) |}
    (B + messageBytes msg)) as (ps & lb' & E' & Hps & Hf2 & Hs2).
  - done.
  - eapply spread_add; try done; lia.
  - apply Forall_insert; [|rewrite Ha; lia].
    eapply Forall_impl; [exact Hb|]. cbn. intros. lia.
  - done.
  - lia.
  - rewrite E', outcome_bind_done. do 2 eexists. split; [done|]. split; [|done].
    constructor; [|done]. destruct Hf as [_ <-]. apply list_elem_of_fmap. exists c.
    split; [done|]. by eapply list_elem_of_lookup_2.
Qed.

(** Fact leastbytes_balanced: starting from fresh counters, [LeastBytes] sends every message to
    one of the partitions, and never gets one partition further ahead of
    another than the bytes of the largest message. *)
Theorem leastbytes_balanced M msgs partitions :
  partitions ≠ [] → 0 ≤ M → Forall (λ m, messageBytes m ≤ M) msgs → total_bytes msgs < 2 ^ 64 →
  ∃ ps lb', balanceAll {| lb_counters := makeCounters partitions |} msgs partitions = Done (ps, lb') ∧
    Forall (λ p, p ∈ partitions) ps ∧ counters_for partitions (lb_counters lb') ∧ spread M (lb_counters lb').
Proof.
  intros Hne HM Hm Ht.
  assert (Forall (λ c, lb_bytes c = 0) (makeCounters partitions)) as Hz.
  { unfold makeCounters. rewrite merge_sort_Permutation. apply Forall_map. by apply Forall_true. }
  apply (LeastBytes_run M 0); cbn [lb_counters]; try done; [apply makeCounters_for| |].
  - rewrite Forall_forall in Hz. intros c1 c2 H1%Hz H2%Hz. lia.
  - eapply Forall_impl; [exact Hz|]. cbn. intros. lia.
Qed.

Lemma leastbytes_balanced_witness :
  ∃ ps lb', balanceAll {| lb_counters := makeCounters [4; 2] |} [note 0 [1; 1]; note 0 [2]; note 0 [3]] [4; 2]
      = Done (ps, lb') ∧
    Forall (λ p, p ∈ [4; 2]) ps ∧ counters_for [4; 2] (lb_counters lb') ∧ spread 2 (lb_counters lb').
Proof.
  apply (leastbytes_balanced 2 [note 0 [1; 1]; note 0 [2]; note 0 [3]] [4; 2]);
    [done|lia|repeat constructor; by vm_compute|by vm_compute].
Defined.

(** Finding leastbytes_shrink: when partitions go away, the counters of [LeastBytes] keep them: the
    writer that follows a topic from two partitions to one sends the next
    message to the partition that is gone, for which there is no writer, and
    the loop panics. *)
Theorem leastbytes_shrink :
  writer_run [WTick (inr [0; 1]); WMsg {| wm_msg := note 0 [1]; wm_res := 1 |};
              WTick (inr [0]); WMsg {| wm_msg := note 0 [2]; wm_res := 2 |}]
    (writer_init {| lb_counters := [] |})
  = Failed (GoPanic "nil pointer dereference").
Proof. vm_compute. reflexivity. Qed.

(** Finding hash_stable: [Hash] sends the messages of a key to the same index, which is one of the
    [len(partitions)] first numbers, whatever the message is otherwise. *)
Theorem hash_stable h msg msg' key partitions :
  partitions ≠ [] → msg_Key msg = Some key → msg_Key msg' = Some key →
  ∃ p, Hash_Balance h msg partitions = Done (p, h) ∧ Hash_Balance h msg' partitions = Done (p, h) ∧
    0 ≤ p < len partitions.
Proof.
  intros Hne Hk Hk'. unfold Hash_Balance. rewrite Hk, Hk'.
  assert (0 < len partitions) by (destruct partitions; [done|]; rewrite len_cons;
    pose proof (len_nonneg partitions); lia).
  rewrite (proj2 (Z.eqb_neq (len partitions) 0)) by lia.
  eexists. split; [done|]. split; [done|]. set (sum := default fnv1a _ _).
  pose proof (Z.rem_bound_abs sum (len partitions) ltac:(lia)).
  destruct (Z.ltb_spec (Z.rem sum (len partitions)) 0); lia.
Qed.

Definition keyed (v : list Z) : Message :=
  {| msg_Topic := []; msg_Partition := 0; msg_Offset := 0; msg_Key := Some (map byte_of_Z [107]);
     msg_Value := Some (map byte_of_Z v); msg_Headers := []; msg_Time := 0 |}.

Lemma hash_stable_witness :
  let h := {| hs_rr := {| rr_offset := 0 |}; hs_Hasher := None |} in
  ∃ p, Hash_Balance h (keyed [1]) [5; 6; 7] = Done (p, h) ∧ Hash_Balance h (keyed [2]) [5; 6; 7] = Done (p, h) ∧
    0 ≤ p < 3.
Proof.
  apply (hash_stable {| hs_rr := {| rr_offset := 0 |}; hs_Hasher := None |} (keyed [1]) (keyed [2])
    (map byte_of_Z [107]) [5; 6; 7]); done.
Defined.

(** ** Group balancers *)

(** C27 groups_share: for every topic, both group balancers give each partition to exactly one
    of the members subscribed to it, and nothing to the others, in whatever
    order Go visits the topics. *)
Theorem groups_share members order parts t :
  NoDup (map gmb_ID members) → Forall (λ m, NoDup (gmb_Topics m)) members → topic_order_of members order →
  membersOf t members ≠ [] →
  (concat (map (λ m, assigned (Range_AssignGroups order members parts) (gmb_ID m) t) (membersOf t members))
     ≡ₚ findPartitions t parts ∧
   concat (map (λ m, assigned (RoundRobin_AssignGroups order members parts) (gmb_ID m) t) (membersOf t members))
     ≡ₚ findPartitions t parts) ∧
  ∀ id, id ∉ map gmb_ID (membersOf t members) →
    assigned (Range_AssignGroups order members parts) id t = [] ∧
    assigned (RoundRobin_AssignGroups order members parts) id t = [].
Proof.
  intros Hid Ht Ho Hm. split; [split|intros id Hn; split].
  - by apply (AssignGroups_shares range_takes).
  - by apply (AssignGroups_shares roundrobin_takes).
  - by apply (AssignGroups_only range_takes).
  - by apply (AssignGroups_only roundrobin_takes).
Qed.

Definition topicA : gostring := map byte_of_Z [97].
Definition consumer (n : Z) : GroupMember :=
  {| gmb_ID := map byte_of_Z [n]; gmb_Topics := [topicA]; gmb_UserData := None |}.
Definition partitionA (n : Z) : Partition :=
  {| pt_Topic := topicA; pt_Leader := zeroBroker; pt_Replicas := []; pt_Isr := []; pt_ID := n |}.

Lemma groups_share_witness :
  let members := [consumer 2; consumer 1] in
  let parts := [partitionA 0; partitionA 1; partitionA 2] in
  (concat (map (λ m, assigned (Range_AssignGroups [topicA] members parts) (gmb_ID m) topicA)
             (membersOf topicA members)) ≡ₚ [0; 1; 2] ∧
   concat (map (λ m, assigned (RoundRobin_AssignGroups [topicA] members parts) (gmb_ID m) topicA)
             (membersOf topicA members)) ≡ₚ [0; 1; 2]) ∧
  ∀ id, id ∉ map gmb_ID (membersOf topicA members) →
    assigned (Range_AssignGroups [topicA] members parts) id topicA = [] ∧
    assigned (RoundRobin_AssignGroups [topicA] members parts) id topicA = [].
Proof.
  apply (groups_share [consumer 2; consumer 1] [topicA] [partitionA 0; partitionA 1; partitionA 2] topicA).
  - apply (bool_decide_unpack _). vm_compute. exact I.
  - repeat constructor; set_solver.
  - split; [repeat constructor; set_solver|]. intros t.
    assert (findMembersByTopic [consumer 2; consumer 1] = {[topicA := [consumer 1; consumer 2]]}) as ->
      by (vm_compute; reflexivity).
    rewrite list_elem_of_singleton. split.
    + intros ->. rewrite lookup_singleton_eq. by eexists.
    + intros [x Hx]. by apply lookup_singleton_Some in Hx as [<- _].
  - done.
Defined.

(** Fact groups_even: the shares of a topic are even: each subscribed member gets the quotient
    of the partitions by the members, or one more. *)
Theorem groups_even members order parts t id :
  NoDup (map gmb_ID members) → Forall (λ m, NoDup (gmb_Topics m)) members → topic_order_of members order →
  id ∈ map gmb_ID (membersOf t members) →
  let fair := len (findPartitions t parts) / len (membersOf t members) in
  fair ≤ len (assigned (Range_AssignGroups order members parts) id t) ≤ fair + 1 ∧
  fair ≤ len (assigned (RoundRobin_AssignGroups order members parts) id t) ≤ fair + 1.
Proof.
  intros Hids Ht Ho Hid. cbn zeta.
  split; apply (assigned_even _ _ _ _ _ _ (λ mc pc n, pc / mc ≤ n ≤ pc / mc + 1)); try done.
  - intros mc ps i Hi. rewrite range_share by done. apply range_share_bounds; [done|apply len_nonneg].
  - intros mc ps i Hi. by apply roundrobin_share.
Qed.

Lemma groups_even_witness :
  let members := [consumer 2; consumer 1] in
  let parts := [partitionA 0; partitionA 1; partitionA 2] in
  1 ≤ len (assigned (Range_AssignGroups [topicA] members parts) (map byte_of_Z [2]) topicA) ≤ 1 + 1 ∧
  1 ≤ len (assigned (RoundRobin_AssignGroups [topicA] members parts) (map byte_of_Z [2]) topicA) ≤ 1 + 1.
Proof.
  apply (groups_even [consumer 2; consumer 1] [topicA] [partitionA 0; partitionA 1; partitionA 2] topicA).
  - apply (bool_decide_unpack _). vm_compute. exact I.
  - repeat constructor; set_solver.
  - split; [repeat constructor; set_solver|]. intros t.
    assert (findMembersByTopic [consumer 2; consumer 1] = {[topicA := [consumer 1; consumer 2]]}) as ->
      by (vm_compute; reflexivity).
    rewrite list_elem_of_singleton. split.
    + intros ->. rewrite lookup_singleton_eq. by eexists.
    + intros [x Hx]. by apply lookup_singleton_Some in Hx as [<- _].
  - apply (bool_decide_unpack _). vm_compute. exact I.
Defined.

(** ** Partition writers *)

#[local] Opaque messageSize.

(** C7 batches_faithful: the loop of a partition writer with a batch size of at least one, which
    receives messages with a value that is not empty ([empty_value_lost]) and of a
    size of at most [maxMessageBytes], puts each of them into exactly one batch,
    in the order of arrival; no batch is empty, longer than [batchSize] or larger
    than [maxMessageBytes]; when the channel is closed everything has been
    flushed. *)
Theorem batches_faithful cfg evs :
  1 ≤ wc_batchSize cfg → 0 ≤ wc_maxMessageBytes cfg → open_events evs → Forall (fits cfg) (received evs) →
  let s := pw_run cfg pwriter_init (evs ++ [EvClosed]) in
  pw_done s = true ∧ concat (pw_flushed s) = received evs ∧
  Forall (λ b, b ≠ [] ∧ len b ≤ wc_batchSize cfg ∧ sizes b ≤ wc_maxMessageBytes cfg) (pw_flushed s).
Proof.
  intros Hb Hm Ho Hf. cbn zeta.
  rewrite pw_run_closed by done.
  destruct (pw_steps cfg pwriter_init evs (pw_inv_init cfg Hb Hm) Hb Hm Hf) as [Hi Hc].
  destruct (pw_close cfg (foldl (pw_step cfg) pwriter_init evs)) as [Hd Hfl]. split; [done|]. split; [by rewrite Hfl, Hc|].
  exact (pi_flushed _ _ (pw_step_inv cfg _ EvClosed Hi Hb Hm ltac:(done))).
Qed.

Definition smallCfg : writerCfg :=
  {| wc_batchSize := 2; wc_maxMessageBytes := 100; wc_retries := 2; wc_retryBackoffInterval := 0 |}.

Definition queued (r : Z) (v : list Z) : writerMessage := {| wm_msg := note 0 v; wm_res := r |}.

Lemma batches_faithful_witness :
  let evs := [EvMsg (queued 1 [1]); EvMsg (queued 2 [2]); EvTimer; EvMsg (queued 3 (repeat 3 60));
              EvMsg (queued 4 (repeat 4 60))] in
  let s := pw_run smallCfg pwriter_init (evs ++ [EvClosed]) in
  pw_done s = true ∧ concat (pw_flushed s) = received evs ∧
  Forall (λ b, b ≠ [] ∧ len b ≤ wc_batchSize smallCfg ∧ sizes b ≤ wc_maxMessageBytes smallCfg) (pw_flushed s).
Proof.
  cbn zeta. apply (batches_faithful smallCfg
    [EvMsg (queued 1 [1]); EvMsg (queued 2 [2]); EvTimer; EvMsg (queued 3 (repeat 3 60));
     EvMsg (queued 4 (repeat 4 60))]); [by vm_compute|by vm_compute|by repeat constructor|].
  apply (bool_decide_unpack _). vm_compute. exact I.
Defined.

(** Finding empty_value_lost: a message with an empty value that does not fit the batch under way is
    put aside and then taken for no message: when the channel is closed, every
    other message has been flushed and it is in no batch, so that its channel
    is never answered. *)
Theorem empty_value_lost cfg evs m :
  1 ≤ wc_batchSize cfg → 0 ≤ wc_maxMessageBytes cfg → open_events evs → Forall (fits cfg) (received evs) →
  bdata (msg_Value (wm_msg m)) = [] →
  wc_maxMessageBytes cfg
    < messageSize (wm_msg m) + pw_batchSizeBytes (pw_takeLast (pw_run cfg pwriter_init evs)) →
  let s := pw_run cfg pwriter_init (evs ++ [EvMsg m; EvClosed]) in
  pw_done s = true ∧ concat (pw_flushed s) = received evs.
Proof.
  intros Hb Hm Ho Hf Hv Hs. cbn zeta. change (evs ++ [EvMsg m; EvClosed]) with (evs ++ [EvMsg m] ++ [EvClosed]).
  rewrite app_assoc, pw_run_closed by (done || (apply Forall_app; by repeat constructor)).
  rewrite foldl_app. cbn [foldl]. rewrite (proj1 (pw_run_open cfg pwriter_init evs Ho eq_refl)) in Hs.
  destruct (pw_steps cfg pwriter_init evs (pw_inv_init cfg Hb Hm) Hb Hm Hf) as [_ Hc].
  set (s := foldl (pw_step cfg) pwriter_init evs) in *.
  destruct (pw_close cfg (pw_step cfg s (EvMsg m))) as [Hd Hfl]. split; [done|].
  rewrite Hfl, pw_step_forgets; [done| |done]. by intros Hn.
Qed.

Definition tombstone : writerMessage :=
  {| wm_msg := {| msg_Topic := []; msg_Partition := 0; msg_Offset := 0;
                  msg_Key := Some (map byte_of_Z (repeat 7 60)); msg_Value := None; msg_Headers := [];
                  msg_Time := 0 |}; wm_res := 9 |}.

Lemma empty_value_lost_witness :
  let evs := [EvMsg (queued 3 (repeat 3 60))] in
  messageSize (wm_msg tombstone) ≤ wc_maxMessageBytes smallCfg ∧
  (let s := pw_run smallCfg pwriter_init (evs ++ [EvMsg tombstone; EvClosed]) in
   pw_done s = true ∧ concat (pw_flushed s) = received evs).
Proof.
  cbn zeta. split; [by vm_compute|].
  apply (empty_value_lost smallCfg [EvMsg (queued 3 (repeat 3 60))] tombstone);
    [by vm_compute|by vm_compute|by repeat constructor| |done|by vm_compute].
  apply (bool_decide_unpack _). vm_compute. exact I.
Defined.

(** C16 write_answers_once: [write] returns after at most [retries] retries, whatever the dials
    and the sends return; every message of the batch is answered exactly once,
    with the result of the last send or dial that the call made: a success
    exactly when that last send succeeded or was refused as a duplicate, an
    error when it failed or the last dial did; every send before the last one
    had failed.  ([dials] and [sends] list what the dials and the sends
    return, in order; past the end of the list they succeed.) *)
Theorem write_answers_once cfg conn dials sends batch :
  ∃ r, writer_write cfg conn dials sends batch = Some r ∧
    wr_good (Z.max 0 (wc_retries cfg)) dials sends batch r.
Proof.
  destruct (writer_loop_good (S (Z.to_nat (wc_retries cfg))) cfg batch conn 0 dials sends)
    as (r & E & Hg); [lia..|]. exists r. split; [done|]. by rewrite Z.sub_0_r in Hg.
Qed.

(** ** The writer *)

(** [RoundRobin] chooses one of the partitions. *)
Lemma RoundRobin_chooses : chooses (λ _ : RoundRobin, True).
Proof.
  intros rr msg ps _ Hne _. change (Balance rr msg ps) with (RoundRobin_Balance rr msg ps).
  unfold RoundRobin_Balance.
  assert (0 < len ps) by (destruct ps; [done|]; rewrite len_cons; pose proof (len_nonneg ps); lia).
  rewrite (proj2 (Z.eqb_neq (len ps) 0)) by lia. do 2 eexists. split; [done|]. split; [|done].
  pose proof (Z.mod_pos_bound (rr_offset rr) (len ps) ltac:(lia)).
  apply list_elem_of_In, nth_In. unfold len in *. lia.
Qed.

(** C15 writer_routes: while the balancer chooses among the partitions, the loop of the writer
    never panics, its open partition writers are those of the current
    partitions through every rebalance, each message of the queue is given to
    one partition writer or refused with an error, exactly once, and closing
    the queue closes every partition writer. *)
Theorem writer_routes {T} `{Balancer T} (P : T → Prop) evs b :
  chooses P → P b → Forall tick_ok evs → Forall (λ ev, ev ≠ WClosed) evs →
  ∃ s, writer_run evs (writer_init b) = Done s ∧ writer_inv s ∧
    routed s ++ refused s ≡ₚ arrived evs ∧
    writer_run (evs ++ [WClosed]) (writer_init b) = Done (closeAll s) ∧
    ws_writers (closeAll s) = ∅ ∧ routed (closeAll s) ≡ₚ routed s.
Proof.
  intros Hch HP Ht Ho.
  destruct (writer_run_inv P evs (writer_init b)) as (s & E & Ec & Hi & Hr); try done.
  { split; [done|]. apply SSorted_nil. }
  { constructor. }
  exists s. split; [done|]. split; [done|]. split; [|split; [done|apply closeAll_closed]].
  rewrite Hr. unfold routed, refused, logs, writer_init. cbn [ws_writers ws_closed ws_replies].
  rewrite map_to_list_empty. cbn. by rewrite app_nil_r.
Qed.

Lemma writer_routes_witness :
  let evs := [WMsg (queued 1 [1]); WTick (inr [0; 1]); WMsg (queued 2 [2]); WMsg (queued 3 [3]);
              WTick (inl EOF); WTick (inr [1; 2]); WMsg (queued 4 [4])] in
  let b := {| rr_offset := 0 |} in
  ∃ s, writer_run evs (writer_init b) = Done s ∧ writer_inv s ∧
    routed s ++ refused s ≡ₚ arrived evs ∧
    writer_run (evs ++ [WClosed]) (writer_init b) = Done (closeAll s) ∧
    ws_writers (closeAll s) = ∅ ∧ routed (closeAll s) ≡ₚ routed s.
Proof.
  cbn zeta. apply (writer_routes (λ _ : RoundRobin, True)); [apply RoundRobin_chooses|done| |].
  - repeat constructor; try set_solver; unfold id; lia.
  - by repeat constructor.
Defined.

(** C25 writemessages_ok: for a writer that is not asynchronous, with [MaxAttempts] positive: when
    every message sent is answered once in each attempt and [WriteMessages]
    returns nil, every message was acknowledged, except those too large for a
    batch, which it leaves out. *)
Theorem writemessages_ok config env msgs :
  answers_all env → wcf_Async config = false → 0 < wcf_MaxAttempts config →
  wres_err (Writer_WriteMessages config env msgs) = None →
  wres_acked (Writer_WriteMessages config env msgs) ++ wres_skipped (Writer_WriteMessages config env msgs)
    ≡ₚ msgs ∧
  Forall (λ msg, oversize config msg = true) (wres_skipped (Writer_WriteMessages config env msgs)).
Proof.
  intros Hall Ha Hm. unfold Writer_WriteMessages. case_decide as Hn; [by subst|]. intros He.
  apply WriteMessages_loop_nil; try done; lia.
Qed.

Definition writerConf : WriterConfig :=
  {| wcf_Brokers := []; wcf_Topic := []; wcf_MaxAttempts := 3; wcf_QueueCapacity := 1; wcf_BatchSize := 2;
     wcf_Retries := 0; wcf_RetryBackoffInterval := 0; wcf_BatchBytes := 60; wcf_BatchTimeout := 1;
     wcf_ReadTimeout := 1; wcf_WriteTimeout := 1; wcf_RebalanceInterval := 1; wcf_RequiredAcks := 1;
     wcf_Async := false |}.

(** The first attempt fails for every message, the next one succeeds. *)
Definition secondTry (attempt : Z) (sent : list Message) : attempt_env :=
  {| ae_closed := false; ae_interrupt := None;
     ae_answers := map (λ m, (m, if attempt =? 0 then Some EOF else None)) sent; ae_wait := WaitTimer |}.

Lemma writemessages_ok_witness :
  let msgs := [note 0 [1]; note 0 (repeat 2 60)] in
  let r := Writer_WriteMessages writerConf secondTry msgs in
  wres_skipped r = [note 0 (repeat 2 60)] ∧ wres_acked r ++ wres_skipped r ≡ₚ msgs ∧
  Forall (λ msg, oversize writerConf msg = true) (wres_skipped r).
Proof.
  cbn zeta. split; [vm_compute; reflexivity|].
  apply (writemessages_ok writerConf secondTry [note 0 [1]; note 0 (repeat 2 60)]).
  - intros attempt sent. cbn [secondTry ae_answers]. rewrite map_map. cbn. by rewrite map_id.
  - done.
  - by vm_compute.
  - vm_compute. reflexivity.
Defined.
