(* ===== verification/WriterSystemProps.v ===== *)
(** * Properties of the goroutines of a writer

    What a call of [WriteMessages] that returned nil means in the system of
    WriterSystem.v, that nothing panics there, and that it finishes. *)

From S2P Require Import Prelude Errors Time Read Messages Balancer PartitionWriter Writer WriterSystem WriterSystemInv.
From S2P Require Import WriterProgress WriterProps.

(** ** Acknowledgements come from the broker *)

Section acks.
Context {T : Type} `{Balancer T} (config : WriterConfig) (P : T → Prop).

(** The messages of the batches that the broker took. *)
Definition written (procs : list proc) : list writerMessage := concat (map pr_written procs).

Definition out_acked (p : proc) : Prop := ∀ wm c, (wm, (c, None)) ∈ pr_out p → wm ∈ pr_written p.

(** Every nil that call [i] received or will receive is for a message in [W]. *)
Record call_acked (W : list writerMessage) (i : nat) (ca : caller) : Prop := {
  ck_res : ∀ wm, (wm, None) ∈ ca_res ca → wm ∈ W ∧ wm_res wm = Z.of_nat i;
  ck_got : ∀ m, (m, None) ∈ ca_got ca → {| wm_msg := m; wm_res := Z.of_nat i |} ∈ W;
  ck_acked : ∀ m, m ∈ ca_acked ca → {| wm_msg := m; wm_res := Z.of_nat i |} ∈ W;
}.

Definition acks_ok (s : system T) : Prop :=
  Forall out_acked (sy_procs s) ∧ ∀ i ca, sy_callers s !! i = Some ca → call_acked (written (sy_procs s)) i ca.

Lemma call_acked_mono W W' i ca : W ⊆ W' → call_acked W i ca → call_acked W' i ca.
Proof. intros Hs [H1 H2 H3]. constructor; [|by auto..]. intros wm Hwm. destruct (H1 wm Hwm). auto. Qed.

Lemma elem_of_acked m answers : m ∈ acked answers ↔ (m, None) ∈ answers.
Proof.
  unfold acked. rewrite list_elem_of_omap. split.
  - intros ([m' [e|]] & Hin & E); cbn in E; by simplify_eq.
  - intros Hin. by exists (m, None).
Qed.

Lemma call_local_acked W i closed ev ca ca' :
  call_local config closed ev ca = Some ca' → call_acked W i ca → call_acked W i ca'.
Proof.
  intros E [H1 H2 H3]. unfold call_local in E.
  destruct (ca_pc ca) as [a m|a [|msg todo]|a [|n]|a retry err|err]; destruct ev as [|e|]; try done.
  all: try (injection E as <-; by constructor).
  - injection E as <-. constructor; cbn; [done|set_solver|]. intros m [|Hm%elem_of_acked]%elem_of_app; auto.
  - destruct (ca_res ca) as [|[wm a'] res] eqn:Er; [done|]. injection E as <-. constructor; cbn; [set_solver| |done].
    intros m [|Hm%list_elem_of_singleton]%elem_of_app; [auto|]. destruct a' as [[]|]; [done|]. injection Hm as ->.
    destruct (H1 wm) as [Hw Hr]; [left|]. destruct wm as [m r]. cbn in *. by rewrite Hr in Hw.
  - destruct closed; [|done]. injection E as <-. by constructor.
Qed.

Lemma callers_acked_insert W W' i ca (cs : list caller) :
  (∀ j ca, cs !! j = Some ca → call_acked W j ca) → W ⊆ W' → call_acked W' i ca →
  ∀ j ca', <[i := ca]> cs !! j = Some ca' → call_acked W' j ca'.
Proof.
  intros Hcs Hs Hca j ca' E. apply list_lookup_insert_Some in E as [(-> & <- & _)|[_ E]]; [done|].
  eapply call_acked_mono; [done|by apply Hcs].
Qed.

Lemma call_step_acked i ev s s' : call_step config i ev s = Some s' → acks_ok s → acks_ok s'.
Proof.
  intros E [Ho Hc]. unfold call_step in E. apply bind_Some in E as (ca & Eca & E).
  assert (∀ ca' s1, sy_procs s1 = sy_procs s → sy_callers s1 = <[i := ca']> (sy_callers s) →
    call_acked (written (sy_procs s)) i ca' → acks_ok s1) as Hset.
  { intros ca' s1 E1 E2 Hca'. unfold acks_ok. rewrite E1, E2. split; [done|]. by eapply callers_acked_insert. }
  pose proof (Hc i ca Eca) as Hca.
  assert (∀ ev, (x ← call_local config (mn_closed (sy_main s)) ev ca; Some (set_caller i x s)) = Some s' → acks_ok s')
    as Hloc.
  { intros ev' E'. apply bind_Some in E' as (ca' & El & [= <-]). eapply Hset; [done|done|].
    by eapply call_local_acked. }
  destruct (ca_pc ca) as [attempt msgs|attempt [|msg todo]|attempt n|attempt retry err|err] eqn:Epc;
    destruct ev as [|e|]; try (by eapply Hloc, E).
  - destruct (existsb _ _); [done|]. injection E as <-. eapply Hset; [done|done|]. unfold call_lock.
    destruct Hca as [H1 H2 H3]. destruct (mn_closed _); constructor; cbn; try done. by intros m ?%elem_of_nil.
  - destruct (mn_closed _); [by injection E as <-|]. destruct (_ <? _); [|done]. injection E as <-.
    eapply Hset; [done|done|]. destruct Hca as [H1 H2 H3]. by constructor.
Qed.

Lemma written_insert k p p' procs :
  procs !! k = Some p → pr_written p ⊆ pr_written p' → written procs ⊆ written (<[k := p']> procs).
Proof.
  unfold written. revert k. induction procs as [|p0 procs IH]; intros [|k] E Hs; simplify_eq/=.
  - intros wm Hwm. rewrite elem_of_app in *. destruct Hwm; auto.
  - specialize (IH k E Hs). intros wm Hwm. rewrite elem_of_app in *. destruct Hwm; auto.
Qed.

Lemma written_lookup k p procs : procs !! k = Some p → pr_written p ⊆ written procs.
Proof.
  unfold written. revert k. induction procs as [|p0 procs IH]; intros [|k] E; simplify_eq/=.
  - intros wm Hwm. rewrite elem_of_app. auto.
  - specialize (IH k E). intros wm Hwm. rewrite elem_of_app. auto.
Qed.

Lemma proc_step_acked cfg ev p p' :
  proc_step cfg ev p = Some p' → out_acked p → out_acked p' ∧ pr_written p ⊆ pr_written p'.
Proof.
  intros E Ho. destruct ev as [| | |dials sends| | |]; cbn [proc_step] in E.
  4: { destruct (pr_writing p) as [|wm b] eqn:Ew; [done|]. remember (wm :: b) as batch eqn:Eb.
       apply bind_Some in E as (r & Er & [= <-]). split; [|cbn [pr_written]; apply list_subseteq_app_l; done].
       intros wm' c Hin. cbn [pr_out pr_written] in *.
       destruct (writer_write_good cfg (pr_conn p) dials sends batch) as (r' & Er' & Hr). simplify_eq. rewrite Hr in Hin.
       destruct (wr_err r) as [e|]; unfold reply_error, reply_ok in Hin; rewrite zip_map in Hin.
       - by apply list_elem_of_In, in_map_iff in Hin as (x & [= <-] & _).
       - apply list_elem_of_In, in_map_iff in Hin as (x & [= <- _] & Hx%list_elem_of_In).
         rewrite elem_of_app. by right. }
  all: repeat (case_match; try done); simplify_eq; cbn; (split; [|done]); intros wm' c' Hin; cbn in Hin;
    first [by apply elem_of_nil in Hin|by eapply Ho].
Qed.

Lemma procs_acked k p p' m s :
  acks_ok s → sy_procs s !! k = Some p → out_acked p' → pr_written p ⊆ pr_written p' →
  acks_ok (set_run m (<[k := p']> (sy_procs s)) s).
Proof.
  intros [Ho Hc] Ep Hp' Hs. split; cbn; [by apply Forall_insert|]. intros i ca E.
  eapply call_acked_mono; [by eapply written_insert|by apply Hc].
Qed.

(** An answer that is nil is for a message that was written. *)
Lemma deliver_acked wm a cs cs' W i :
  deliver wm (wm_res wm) a cs = Some cs' → wm_res wm = Z.of_nat i → (a = None → wm ∈ W) →
  (∀ j ca, cs !! j = Some ca → call_acked W j ca) → ∀ j ca, cs' !! j = Some ca → call_acked W j ca.
Proof.
  intros E Hi Ha Hc. unfold deliver in E. apply bind_Some in E as (ca & Eca & E). destruct (_ <? _)%nat; [|done].
  injection E as <-. eapply callers_acked_insert; [done|done|]. rewrite Hi, Nat2Z.id in *.
  destruct (Hc _ _ Eca) as [H1 H2 H3]. constructor; cbn; [|done..].
  intros wm' [|Hin%list_elem_of_singleton]%elem_of_app; [auto|]. simplify_eq. auto.
Qed.

Hypothesis Hchooses : chooses P.

Lemma transit_res wm s : sys_inv config P s → wm ∈ transit s → ∃ i, wm_res wm = Z.of_nat i.
Proof.
  intros Hi Hin. pose proof (sv_transit _ _ s Hi) as Ht. rewrite Forall_forall in Ht.
  destruct (Ht wm Hin) as (_ & i & ? & _). by exists i.
Qed.

Lemma reply_acked k s s' :
  sys_inv config P s → sys_step config (EReply k) s = Some s' → acks_ok s → acks_ok s'.
Proof.
  intros Hi E Hok. cbn [sys_step] in E. apply bind_Some in E as (p & Ep & E).
  destruct (pr_out p) as [|[wm [c a]] out] eqn:Eo; [done|]. apply bind_Some in E as (cs & Ed & [= <-]).
  pose proof (Forall_lookup_1 _ _ _ _ (sv_procs _ _ s Hi) Ep) as Hp. pose proof (po_out p Hp) as Htr.
  rewrite Eo in Htr. apply Forall_cons_1 in Htr as [[Hc _] _]. cbn in Hc. subst c.
  destruct (transit_res wm s Hi) as [i Hres].
  { unfold transit. rewrite !elem_of_app. right. right. destruct (procs_load_insert k p _ Ep) as (rest & Hl & _).
    rewrite Hl, (with_out_load _ _ _ _ _ Eo). left. }
  pose proof (Forall_lookup_1 _ _ _ _ (proj1 Hok) Ep) as Hout.
  assert (out_acked (with_out out p)) as Hout'.
  { intros wm' c' Hin. apply (Hout wm' c'). rewrite Eo. by right. }
  destruct (procs_acked k p (with_out out p) (sy_main s) s Hok Ep Hout') as [Ho' Hc']; [done|]. split; [done|].
  eapply deliver_acked; [exact Ed|done| |exact Hc']. intros ->.
  eapply written_insert; [done|done|]. eapply written_lookup; [done|]. eapply Hout. rewrite Eo. left.
Qed.

Lemma same_load_acked n procs procs' :
  same_load n procs procs' → Forall out_acked procs → Forall out_acked procs' ∧ written procs' = written procs.
Proof.
  intros (Hg & HQ & _) Ho. split; [|by apply Hg]. apply HQ; try done. intros wm c Hin. by apply elem_of_nil in Hin.
Qed.

Lemma run_step_acked ev s s' :
  sys_inv config P s → event_ok (ERun ev) → run_step config ev s = Some s' → acks_ok s → acks_ok s'.
Proof.
  intros Hi Hev E [Ho Hc]. pose proof (sv_run _ _ s Hi) as Hr. unfold run_step in E. unfold run_ok in Hr.
  destruct (mn_pc (sy_main s)) as [| |k wm|wm err|] eqn:Epc, ev as [found| |]; try done.
  - destruct (run_found_ok P Hchooses found _ _ Hr Hev) as (m & procs & n & Ef & _ & _ & _ & _ & Hl & _).
    rewrite Ef in E. injection E as <-. destruct (same_load_acked _ _ _ Hl Ho) as [Ho' Hw].
    split; [done|]. cbn [set_run sy_procs sy_callers]. by rewrite Hw.
  - by injection E as <-.
  - destruct (mn_queue (sy_main s)) as [|wm q].
    + destruct (mn_closed (sy_main s)) eqn:Ecl; [|done].
      destruct (run_end_ok P _ _ Hr Ecl) as (m & procs & Ef & _ & _ & _ & Hl & _).
      rewrite Ef in E. injection E as <-. destruct (same_load_acked _ _ _ Hl Ho) as [Ho' Hw].
      split; [done|]. cbn [set_run sy_procs sy_callers]. by rewrite Hw.
    + injection E as <-. by destruct (run_take wm q (sy_main s)).
  - destruct (sy_procs s !! k) as [p|] eqn:Ep; [|by injection E as <-]. destruct (chan_closed p); [by injection E as <-|].
    destruct (_ <? _); [|done]. injection E as <-. eapply procs_acked; try done.
    pose proof (Forall_lookup_1 _ _ _ _ Ho Ep) as Hp. exact Hp.
  - apply bind_Some in E as (cs & Ed & [= <-]). destruct (transit_res wm s Hi) as [i Hres].
    { unfold transit. rewrite Epc, !elem_of_app. right. left. left. }
    split; [done|]. cbn. by eapply deliver_acked.
Qed.

Lemma sys_step_acked ev s s' :
  sys_inv config P s → event_ok ev → sys_step config ev s = Some s' → acks_ok s → acks_ok s'.
Proof.
  intros Hi Hev E Hok. destruct ev as [i ev|i|ev|k ev|k].
  - by eapply call_step_acked.
  - cbn in E. unfold close_step in E. apply bind_Some in E as (cl & _ & E).
    destruct cl; try done; case_match; try done; by injection E as <-.
  - by eapply run_step_acked.
  - cbn [sys_step] in E. apply bind_Some in E as (p & Ep & E). apply bind_Some in E as (p' & Ep' & [= <-]).
    destruct (proc_step_acked _ _ _ _ Ep' (Forall_lookup_1 _ _ _ _ (proj1 Hok) Ep)). by eapply procs_acked.
  - by eapply reply_acked.
Qed.

Lemma sys_run_acked evs s s' :
  sys_inv config P s → Forall event_ok evs → sys_run config evs s = Some s' → acks_ok s → acks_ok s'.
Proof.
  intros Hi Hev. revert s Hi. induction Hev as [|ev evs Hev _ IH]; intros s Hi E Hok; cbn in E; [by injection E as <-|].
  apply bind_Some in E as (s1 & E1 & E). eapply (IH s1); [by eapply sys_step_inv|done|]. by eapply sys_step_acked.
Qed.

Lemma acks_ok_init b calls n : acks_ok (sys_init config b calls n).
Proof.
  split; [constructor|]. intros i ca E. cbn in E.
  change (map (caller_init config) calls) with (caller_init config <$> calls) in E.
  apply list_lookup_fmap_Some in E as (args & -> & _). constructor; cbn; intros ? Hin; by apply elem_of_nil in Hin.
Qed.
End acks.

(** ** The properties *)

(** What the calls may be: messages whose values are not empty. *)
Definition with_values (calls : list (list Message)) : Prop := Forall (Forall (λ msg, bdata (msg_Value msg) ≠ [])) calls.

(** C5 writer_acks: in every interleaving of calls of [WriteMessages] and [Close] with the
    goroutines of the writer, if no message has an empty value
    ([empty_value_lost]), the balancer always chooses one of the partitions it is
    given ([leastbytes_shrink]), [MaxAttempts] is positive and every lookup that
    succeeds lists distinct partitions in order, then nothing panics: there is no
    send on a closed channel, no second close and no missing partition writer.  A
    call that returned nil, of a writer that is not asynchronous, had each of its
    messages written in a batch that the broker took, except those too large for
    a batch, and a call that waits is owed as many answers as it waits for. *)
Theorem writer_acks {T} `{Balancer T} (P : T → Prop) config b calls n evs s :
  chooses P → P b → 0 < wcf_MaxAttempts config → with_values calls → Forall event_ok evs →
  sys_run config evs (sys_init config b calls n) = Some s →
  sy_panicked s = false ∧
  ∀ i ca, sy_callers s !! i = Some ca →
    (ca_pc ca = CReturned None → wcf_Async config = false →
     ca_acked ca ++ ca_skipped ca ≡ₚ ca_args ca ∧
     Forall (λ msg, oversize config msg = true) (ca_skipped ca) ∧
     Forall (λ msg, {| wm_msg := msg; wm_res := Z.of_nat i |} ∈ written (sy_procs s)) (ca_acked ca)) ∧
    (∀ attempt k, ca_pc ca = CWait attempt k → k = length (owed i (transit s) ca)).
Proof.
  intros Hch HP Hm Hv Hev E. pose proof (sys_init_inv config P b calls n HP Hm Hv) as Hi0.
  pose proof (sys_run_inv config P Hch _ _ _ Hi0 Hev E) as Hi.
  destruct (sys_run_acked config P Hch _ _ _ Hi0 Hev E (acks_ok_init config b calls n)) as [_ Hacks].
  split; [apply Hi|]. intros i ca Eca. destruct (sv_calls _ _ s Hi _ _ Eca) as [Hpc _ _ Hsk _].
  unfold pc_ok in Hpc. split.
  - intros Epc Ha. rewrite Epc in Hpc. destruct (Hpc Ha) as [_ Hargs]. split; [done|]. split; [done|].
    apply Forall_forall. apply (ck_acked _ _ _ (Hacks i ca Eca)).
  - intros attempt k Epc. rewrite Epc in Hpc. by destruct Hpc as (_ & ? & _).
Qed.

(** Two calls on a queue of one slot, two partitions, and a failed write that
    is retried. *)
Definition roundRobin0 : RoundRobin := {| rr_offset := 0 |}.
Definition calls2 : list (list Message) := [[note 0 [1]; note 0 [2]]; [note 0 [3]]].

Definition callsT : list sys_event :=
  [ECall 0 CGo; ECall 0 CGo; ERun (RFound (inr [0; 1])); ECall 1 CGo; ERun RGo; ECall 0 CGo; ECall 0 CGo; ERun RGo;
   EProc 0 PMsg; ERun RGo; ECall 1 CGo; ECall 1 CGo; ERun RGo; ERun RGo; ERun RGo; EProc 0 PMsg; EProc 1 PMsg;
   EProc 0 (PWrite [] [Some (KafkaError 7)]); EReply 0; ECall 0 CGo; EReply 0; ECall 1 CGo; ECall 1 CGo; ECall 1 CGo;
   ECall 1 CGo; ECall 1 CGo; ECall 1 CGo; ERun RGo; ERun RGo; EProc 1 PMsg; EProc 1 (PWrite [] []); EReply 1;
   ECall 0 CGo; ECall 0 CGo; ECall 0 CGo; ECall 0 CGo; ECall 0 CGo; ECall 0 CGo; ERun RGo; ERun RGo; EProc 0 PMsg;
   EReply 1; ECall 1 CGo; ECall 1 CGo].

Definition sys1 : system RoundRobin :=
  Eval vm_compute in default (sys_init writerConf roundRobin0 [] 0)
                       (sys_run writerConf callsT (sys_init writerConf roundRobin0 calls2 1)).

Lemma sys1_run : sys_run writerConf callsT (sys_init writerConf roundRobin0 calls2 1) = Some sys1.
Proof. by vm_compute. Qed.

Lemma calls2_values : with_values calls2.
Proof. by repeat constructor. Qed.

Lemma callsT_ok : Forall event_ok callsT.
Proof.
  repeat first [apply Forall_nil_2|apply Forall_cons_2]; try exact I. intros ? [= <-].
  split; [repeat constructor; unfold id; lia|]. repeat constructor; set_solver.
Qed.

Lemma writer_acks_witness :
  sy_panicked sys1 = false ∧
  ∃ ca, sy_callers sys1 !! 1%nat = Some ca ∧ ca_pc ca = CReturned None ∧
    Forall (λ msg, {| wm_msg := msg; wm_res := Z.of_nat 1 |} ∈ written (sy_procs sys1)) [note 0 [3]].
Proof.
  destruct (writer_acks (λ _ : RoundRobin, True) writerConf roundRobin0 calls2 1 callsT sys1
              RoundRobin_chooses I ltac:(done) calls2_values callsT_ok sys1_run) as [Hp Hc].
  split; [exact Hp|]. eexists. split; [reflexivity|]. split; [reflexivity|].
  destruct (Hc 1%nat _ eq_refl) as [Hret _]. destruct (Hret eq_refl eq_refl) as (_ & _ & Hw). exact Hw.
Defined.

(** C6 writer_finishes: if no message has an empty value ([empty_value_lost]), the balancer always
    chooses one of the partitions it is given ([leastbytes_shrink]),
    [MaxAttempts] is positive, the queue has a slot and every lookup that succeeds
    lists distinct partitions in order, then from every state of a writer the
    goroutines take a bounded number of steps, in any interleaving, while the
    ticker does not fire, whatever errors the broker and the contexts give, and
    they never wait for each other in a circle: when none can step any more, every
    call of [WriteMessages] and of [Close] has returned, every message was
    answered, and if the writer was closed its loop and all its partition writers
    have returned. *)
Theorem writer_finishes {T} `{Balancer T} (P : T → Prop) config b calls n evs s evs' s' :
  chooses P → P b → 0 < wcf_MaxAttempts config → 1 ≤ wcf_QueueCapacity config → with_values calls →
  Forall event_ok evs → sys_run config evs (sys_init config b calls n) = Some s →
  Forall event_ok evs' → Forall quiet_event evs' → sys_run config evs' s = Some s' →
  (length evs' ≤ sys_work config s + sum_list (map credit evs'))%nat ∧
  ((∃ ev s'', internal_event ev ∧ event_ok ev ∧ sys_step config ev s' = Some s'') ∨
   (Forall call_returned (sy_callers s') ∧ Forall (eq WReturned) (sy_closers s') ∧ transit s' = [] ∧
    (mn_closed (sy_main s') = true →
     mn_pc (sy_main s') = RReturned ∧ Forall (λ p, pr_exited p = true) (sy_procs s')))).
Proof.
  intros Hch HP Hm Hcap Hv Hev E Hev' Hq E'.
  pose proof (sys_run_inv config P Hch _ _ _ (sys_init_inv config P b calls n HP Hm Hv) Hev E) as Hi.
  pose proof (sys_run_work config P Hch _ _ _ Hi Hev' Hq E').
  split; [lia|]. apply (sys_progress config P Hcap). by eapply sys_run_inv.
Qed.

Definition finishT : list sys_event :=
  [EProc 0 PTimer; EProc 0 (PWrite [] [Some (KafkaError 7)]); EReply 0; ECall 0 CGo; ECall 0 CGo; ECall 0 CGo;
   ECall 0 CGo; ECall 0 CGo; ECall 0 CGo; ERun RGo; ERun RGo; EProc 1 PMsg; EProc 1 PTimer; EProc 1 (PWrite [] []);
   EReply 1; ECall 0 CGo; ECall 0 CGo; EClose 0; EClose 0; ERun RGo; EProc 0 PClose; EProc 1 PClose; EProc 0 PEnd;
   EProc 1 PEnd; EProc 0 PExit; EProc 1 PExit; EProc 0 PJoin; EProc 1 PJoin; EClose 0].

Definition sys2 : system RoundRobin := Eval vm_compute in default sys1 (sys_run writerConf finishT sys1).

Lemma sys2_run : sys_run writerConf finishT sys1 = Some sys2.
Proof. by vm_compute. Qed.

(** Nothing is left to do in [sys2]. *)
Lemma sys2_stuck ev s : sys_step writerConf ev sys2 = Some s → False.
Proof.
  destruct ev as [[|[|i]] ev|[|i]|ev|[|[|k]] ev|[|[|k]]]; cbn; try done; by destruct ev.
Qed.

Lemma writer_finishes_witness :
  (length finishT ≤ sys_work writerConf sys1)%nat ∧ Forall call_returned (sy_callers sys2) ∧
  mn_pc (sy_main sys2) = RReturned ∧ Forall (λ p, pr_exited p = true) (sy_procs sys2).
Proof.
  destruct (writer_finishes (λ _ : RoundRobin, True) writerConf roundRobin0 calls2 1 callsT sys1 finishT sys2)
    as [Hle Hend]; [apply RoundRobin_chooses|done|done|done|exact calls2_values|exact callsT_ok|exact sys1_run| | |
    exact sys2_run|].
  { by repeat constructor. }
  { by repeat constructor. }
  split; [rewrite Nat.add_0_r in Hle; exact Hle|].
  destruct Hend as [(ev & s & _ & _ & E)|(Hc & _ & _ & Hx)]; [destruct (sys2_stuck ev s E)|].
  destruct (Hx eq_refl) as [Hr He]. by split.
Defined.
