(* ===== verification/ReaderProps.v ===== *)
(** * Properties of readers

    The configuration of a reader, the offsets it commits, how it joins its
    group and where it resumes, what it reads of a partition, and what a
    change of offset does to messages that are under way. *)

From S2P Require Import Prelude Errors Time Bufio Read Write VarInt Wire.
From S2P Require Import Protocol OffsetMessages TopicMessages GroupMessages Messages DataRequests FetchResponse MessageSet.
From S2P Require Import Conn ConnOps ConnSync Batch GroupBalancer Writer ReaderConfig Commits.
From S2P Require Import ReaderGroup SubReader Reader Stats ConnProps.

Definition topicT : gostring := map byte_of_Z [116].
Definition groupG : gostring := map byte_of_Z [103].

(** A configuration with the zero value in the fields that do not matter. *)
Definition conf (group : gostring) (interval : Z) : ReaderConfig :=
  {| rc_Brokers := [map byte_of_Z [98]]; rc_GroupID := group; rc_Topic := topicT; rc_Partition := 0;
     rc_QueueCapacity := 0; rc_MinBytes := 0; rc_MaxBytes := 0; rc_MaxWait := 0; rc_ReadLagInterval := 0;
     rc_GroupBalancers := []; rc_HeartbeatInterval := 0; rc_CommitInterval := interval;
     rc_PartitionWatchInterval := 0; rc_WatchPartitionChanges := false; rc_SessionTimeout := 0;
     rc_RebalanceTimeout := 0; rc_RetentionTime := 0; rc_AutoOffsetReset := -2 |}.

(** ** Configuration *)

(** C40 config_valid: a configuration that [NewReader] accepts has brokers and a topic, a
    partition that fits the wire, batch sizes in order, and, in a group,
    partition 0 and timeouts whose milliseconds fit the int32 fields of the
    requests. *)
Theorem config_valid defaults config config' :
  NewReader_config defaults config = Done config' → reader_config_ok config'.
Proof. apply NewReader_config_valid. Qed.

Lemma config_valid_witness :
  ∃ config', NewReader_config [] (conf groupG 0) = Done config' ∧ reader_config_ok config' ∧
    rc_SessionTimeout config' = 30 * Time.Second.
Proof.
  eexists. split; [vm_compute; reflexivity|]. split; [|done].
  apply (config_valid [] (conf groupG 0)). vm_compute. reflexivity.
Defined.

(** ** Commits *)

(** The greatest of some offsets. *)
Definition greatest (x : option Z) (ys : list Z) : option Z :=
  match x, ys with
  | None, [] => None
  | None, y :: ys => Some (fold_right Z.max y ys)
  | Some x, ys => Some (fold_right Z.max x ys)
  end.

Lemma fold_right_max_comm a b ys : fold_right Z.max (Z.max a b) ys = Z.max a (fold_right Z.max b ys).
Proof. induction ys as [|y ys IH]; cbn; [done|]. rewrite IH. lia. Qed.

Lemma foldl_newest x ys : foldl newest x ys = greatest x ys.
Proof.
  revert x. induction ys as [|y ys IH]; intros x; [by destruct x|]. cbn [foldl]. rewrite IH.
  destruct x as [x|]; cbn; [|done]. f_equal. rewrite Z.max_comm. apply fold_right_max_comm.
Qed.

(** Fact stash_newest: merging commits into a stash keeps, for each partition, the greatest of
    the offsets it had and was given; the result does not depend on the order
    of the commits. *)
Theorem stash_newest o commits :
  (∀ t p, stash_get (stash_merge o commits) t p = greatest (stash_get o t p) (offsets_for t p commits)) ∧
  ∀ commits', commits ≡ₚ commits' → stash_merge o commits = stash_merge o commits'.
Proof.
  split; [|intros commits'; apply stash_merge_perm].
  intros t p. by rewrite stash_get_merge, foldl_newest.
Qed.

Definition commitTo (p x : Z) : commit := {| co_topic := topicT; co_partition := p; co_offset := x |}.

Lemma stash_newest_witness :
  stash_merge ∅ [commitTo 0 5; commitTo 1 3; commitTo 0 4] = stash_merge ∅ [commitTo 0 4; commitTo 0 5; commitTo 1 3].
Proof.
  apply (stash_newest ∅ [commitTo 0 5; commitTo 1 3; commitTo 0 4]).
  transitivity [commitTo 0 5; commitTo 0 4; commitTo 1 3]; [apply perm_skip, perm_swap|apply perm_swap].
Defined.

(** Fact commit_request_exact: in whatever order Go ranges over the maps, the request of a commit
    asks the broker to store exactly the offsets of the stash. *)
Theorem commit_request_exact m order o t p x :
  ranges_stash order o →
  (t, p, x) ∈ request_entries (commitRequestOf m order) ↔ ∃ p', stash_get o t p' = Some x ∧ p = int32 p'.
Proof. apply request_entries_elem. Qed.

Definition stashOne : offsetStash := stash_merge ∅ [commitTo 2 7].

Definition memberM : member :=
  {| mb_GroupID := groupG; mb_generationID := 1; mb_memberID := []; mb_RetentionTime := 1000000000 |}.

Definition orderOne : stash_order := [(topicT, [(2, 7)])].

Lemma orderOne_ranges : ranges_stash orderOne stashOne.
Proof.
  exists (map_to_list stashOne). split; [done|].
  assert (map_to_list stashOne = [(topicT, {[2 := 7]})]) as -> by (vm_compute; reflexivity).
  constructor; [|constructor]. split; [done|]. vm_compute. reflexivity.
Qed.

Lemma commit_request_exact_witness :
  (topicT, 2, 7) ∈ request_entries (commitRequestOf memberM orderOne).
Proof.
  apply (commit_request_exact memberM orderOne stashOne topicT 2 7 orderOne_ranges).
  exists 2. split; vm_compute; reflexivity.
Defined.

(** A committer whose calls return. *)
#[local] Instance scripted_committer : OffsetCommitter (list (outcome offsetCommitResponseV2)) := λ _ l,
  match l with
  | Failed e :: l => (Failed e, l)
  | Done r :: l => (Done r, l)
  | _ => (Done {| ocs_Responses := [] |}, tail l)
  end.

Lemma scripted_responsive : responsive (T:=list (outcome offsetCommitResponseV2)).
Proof. by intros req [|[]?]. Qed.

(** Pauses that are not cut short, and maps in the order of their keys. *)
Definition mapOrder : commit_env :=
  {| ce_sleep := λ _, true; ce_order := λ _ o, map (λ e, (e.1, map_to_list e.2)) (map_to_list o) |}.

Lemma mapOrder_ok : commit_env_ok mapOrder.
Proof.
  intros attempt o. exists (map_to_list o). split; [done|]. cbn [mapOrder ce_order].
  generalize (map_to_list o). intros l. induction l as [|e l IH]; cbn; constructor; done.
Qed.

(** C8 interval_lossless: with a commit interval and a broker that answers or fails, the commit
    loop always goes on; each commit it has taken is covered by an offset that
    waits in the stash, which outlives the loop, or that the broker accepted,
    and no offset is committed that was not asked for. *)
Theorem interval_lossless `{OffsetCommitter T} config cs stash (conn : T) evs :
  responsive → rc_CommitInterval config ≠ 0 → Forall event_ok evs →
  (∀ c, c ∈ cs → covers stash c) → only_from stash cs →
  ∃ s, commitLoop config stash conn evs = Done s ∧
    interval_inv (cs ++ submitted (taken interval_step (commit_init stash conn) evs)) s.
Proof.
  intros Hr Hc Hev Hcov Hof. unfold commitLoop. rewrite (proj2 (Z.eqb_neq _ _) Hc).
  destruct (commit_run_done interval_step (commit_init stash conn) evs) as [s Es].
  { intros s ev. by apply interval_step_done. }
  exists s. split; [done|]. eapply interval_run_inv; [done| |exact Es].
  split; cbn; [by auto|done|]. by intros o ?%elem_of_nil.
Qed.

Definition someCommits (e : Z) : list commit_event :=
  [CRequest [commitTo 0 5; commitTo 1 3] e mapOrder memberM; CTick mapOrder memberM;
   CRequest [commitTo 0 9] (e + 1) mapOrder memberM; CStop mapOrder memberM].

Lemma someCommits_ok e : Forall event_ok (someCommits e).
Proof. repeat constructor; apply mapOrder_ok. Qed.

Lemma interval_lossless_witness :
  let broker := [Failed EOF; Failed EOF; Failed EOF; Failed EOF] in
  ∃ s, commitLoop (conf groupG 1000000000) ∅ broker (someCommits 0) = Done s ∧
    interval_inv ([] ++ submitted (taken interval_step (commit_init ∅ broker) (someCommits 0))) s.
Proof.
  cbn zeta. apply (interval_lossless (conf groupG 1000000000)).
  - apply scripted_responsive.
  - done.
  - apply someCommits_ok.
  - by intros c ?%elem_of_nil.
  - apply only_from_empty.
Defined.

(** C26 immediate_answers: without a commit interval each request that the loop takes is answered
    once, in order, on its own channel; the answer is nil only if the request
    is empty or the broker accepted exactly the offsets of this request. *)
Theorem immediate_answers `{OffsetCommitter T} config stash (conn : T) evs :
  responsive → rc_CommitInterval config = 0 → Forall event_ok evs →
  ∃ s, commitLoop config stash conn evs = Done s ∧
    Forall2 answers_request (requests (taken immediate_step (commit_init ∅ conn) evs)) (cl_answers s).
Proof.
  intros Hr Hc Hev. unfold commitLoop. rewrite Hc. cbn [Z.eqb].
  destruct (commit_run_done immediate_step (commit_init ∅ conn) evs) as [s Es].
  { intros s ev. by apply immediate_step_done. }
  exists s. split; [done|].
  destruct (immediate_run_spec (commit_init ∅ conn) evs s Hev eq_refl Es) as (_ & answers & -> & Hf). done.
Qed.

Lemma immediate_answers_witness :
  let broker := [Failed EOF; Failed EOF; Failed EOF] in
  ∃ s, commitLoop (conf groupG 0) ∅ broker (someCommits 4) = Done s ∧
    Forall2 answers_request (requests (taken immediate_step (commit_init ∅ broker) (someCommits 4))) (cl_answers s).
Proof.
  cbn zeta. apply (immediate_answers (conf groupG 0)); [apply scripted_responsive|done|apply someCommits_ok].
Defined.

(** ** Joining a group *)

(** C23 leader_distributes: the leader of a group decodes from the metadata of the join response
    exactly the members that joined, and each member decodes from its part of
    the leader's sync request exactly the partitions that the balancer gave to
    it, for any balancer and any order of the maps. *)
Theorem leader_distributes config g balancer ms partitions order :
  let members := map canonMember ms in
  let assignments := gb_AssignGroups balancer members partitions in
  Forall member_wf ms → ranges_members order assignments →
  map_Forall (λ _ topics, topics_fit topics) assignments →
  makeMemberProtocolMetadata (map joinMember ms) = Done members ∧
  Forall2 (λ id a, sgra_MemberID a = id ∧
      decode_all groupAssignment_readFrom (sgra_MemberAssignments a) =
        (inr {| ga_Version := 1; ga_Topics := topics32 (default ∅ (assignments !! id)); ga_UserData := None |}, 0))
    order.*1 (sgr_GroupAssignments (makeSyncGroupRequestV0 config g order (Some assignments))).
Proof.
  cbn zeta. intros Hms Ho Hfit. split; [by apply makeMemberProtocolMetadata_joined|].
  cbn [makeSyncGroupRequestV0 sgr_GroupAssignments]. set (a := gb_AssignGroups _ _ _) in *.
  apply Forall2_fmap_l, Forall2_fmap_r, Forall_Forall2_diag. apply Forall_forall. intros [id o] Hin.
  split; [done|]. apply (memberAssignment_decodes a order id o Ho Hin).
  pose proof Ho as (_ & Hdom & _). destruct (proj1 (Hdom id)) as [topics E].
  { apply list_elem_of_fmap. by exists (id, o). }
  rewrite E. by apply (Hfit id).
Qed.

(** The order of the keys. *)
Definition keyOrder (assignments : GroupMemberAssignments) : member_order :=
  map (λ e, (e.1, map_to_list (topics32 e.2))) (map_to_list assignments).

Lemma keyOrder_ranges assignments : ranges_members (keyOrder assignments) assignments.
Proof.
  assert ((keyOrder assignments).*1 = (map_to_list assignments).*1) as Hk.
  { unfold keyOrder. change (map ?f ?l) with (f <$> l). rewrite <- list_fmap_compose. done. }
  split; [rewrite Hk; apply NoDup_fst_map_to_list|]. split.
  - intros id. rewrite Hk, list_elem_of_fmap. split.
    + intros ([k v] & -> & Hin%elem_of_map_to_list). by exists v.
    + intros [v Hv]. exists (id, v). split; [done|]. by apply elem_of_map_to_list.
  - intros id o ([k v] & [= -> ->] & Hin%elem_of_map_to_list)%list_elem_of_fmap. cbn in *.
    rewrite Hin. apply Permutation_refl.
Qed.

Definition memberN (n : Z) : GroupMember :=
  {| gmb_ID := map byte_of_Z [n]; gmb_Topics := [topicT]; gmb_UserData := None |}.

Definition rangeBalancer : GroupBalancer :=
  {| gb_ProtocolName := map byte_of_Z [114]; gb_UserData := inr None;
     gb_AssignGroups := Range_AssignGroups [topicT] |}.

Definition partitionsT : list Partition :=
  map (λ n, {| pt_Topic := topicT; pt_Leader := zeroBroker; pt_Replicas := []; pt_Isr := []; pt_ID := n |}) [0; 1; 2].

Definition assignmentsT : GroupMemberAssignments :=
  Range_AssignGroups [topicT] [memberN 2; memberN 1] partitionsT.

Lemma leader_distributes_witness :
  Forall2 (λ id a, sgra_MemberID a = id ∧
      decode_all groupAssignment_readFrom (sgra_MemberAssignments a) =
        (inr {| ga_Version := 1; ga_Topics := topics32 (default ∅ (assignmentsT !! id)); ga_UserData := None |}, 0))
    (keyOrder assignmentsT).*1
    (sgr_GroupAssignments (makeSyncGroupRequestV0 (conf groupG 0) {| gs_generationID := 1; gs_memberID := [] |}
       (keyOrder assignmentsT) (Some assignmentsT))).
Proof.
  apply (leader_distributes (conf groupG 0) {| gs_generationID := 1; gs_memberID := [] |} rangeBalancer
    [memberN 2; memberN 1] partitionsT (keyOrder assignmentsT)).
  - repeat constructor; wf_concrete.
  - apply keyOrder_ranges.
  - assert (assignmentsT = {[map byte_of_Z [1] := {[topicT := [0]]}; map byte_of_Z [2] := {[topicT := [1; 2]]}]})
      as Ha by (vm_compute; reflexivity).
    change (gb_AssignGroups _ _ _) with assignmentsT. rewrite Ha. clear Ha.
    repeat apply map_Forall_insert_2; [..|apply map_Forall_empty];
      (split; [by vm_compute|apply map_Forall_singleton; split; by vm_compute]).
Defined.

(** An operation on the connection that returns. *)
Lemma gm_on_conn {A B} (m : cm A) (k : goerror + A → gm B) g c a c' :
  m c = (Done a, c') → (on_conn m ≫= k) (g, c) = k (inr a) (g, c').
Proof. intros E. unfold mbind, gm_bind, on_conn. by rewrite E. Qed.

(** The call without an error code. *)
Lemma call_ok `{Sizable A, Writable A, Codec B} d key version (req : A) (codes : B → list Z) c (resp : B) rest :
  expects c (writeTo resp) rest → wf resp → Forall (λ code, code = 0) (codes (canon resp)) →
  (r ← call d key version req; check (codes r) r) c =
  (Done (canon resp), sent c (next_request c key version req) rest).
Proof.
  intros He Hw Hc. rewrite (call_check_returns d key version req codes c resp rest He Hw). unfold checked.
  replace (list_find (λ code, code ≠ 0) (codes (canon resp))) with (@None (nat * Z)); [done|].
  symmetry. apply list_find_None. eapply Forall_impl; [exact Hc|]. naive_solver.
Qed.

(** The connection after the join and after the sync of a member. *)
Definition joined_conn (c : conn) (request : joinGroupRequestV1) (rest : list byte) : conn :=
  sent c (next_request c Api.joinGroupRequest Api.v1 request) rest.

Definition synced_conn (c : conn) (request : syncGroupRequestV0) (rest : list byte) : conn :=
  sent c (next_request c Api.syncGroupRequest Api.v0 request) rest.

(** C14 follower_joins: a member that is not the leader joins and syncs with one request each,
    takes the generation and the member id of the join response, sends them
    in a sync request without assignments, and gets the partitions that the
    leader encoded for it, whatever the order of the map was. *)
Theorem follower_joins config pick g c request jresp sresp order a rest rest' :
  let g' := {| gs_generationID := jgs_GenerationID jresp; gs_memberID := jgs_MemberID jresp |} in
  let c1 := joined_conn c request rest in
  let sync := {| sgr_GroupID := rc_GroupID config; sgr_GenerationID := jgs_GenerationID jresp;
                 sgr_MemberID := jgs_MemberID jresp; sgr_GroupAssignments := [] |} in
  makejoinGroupRequestV1 config g = Done request →
  expects c (writeTo jresp) rest → wf jresp → jgs_ErrorCode jresp = 0 →
  jgs_MemberID jresp ≠ jgs_LeaderID jresp →
  expects c1 (writeTo sresp) rest' → wf sresp → sgs_ErrorCode sresp = 0 →
  sgs_MemberAssignments sresp = groupAssignment_bytes order a →
  ranges_over order (ga_Topics a) → groupAssignment_wf a →
  Reader_rebalance config pick (g, c) =
  (Done (ga_Topics a), (g', synced_conn c1 sync rest')).
Proof.
  cbn zeta. intros Hreq He1 Hw1 Hz1 Hl He2 Hw2 Hz2 Ha Ho Hwa.
  set (g' := {| gs_generationID := jgs_GenerationID jresp; gs_memberID := jgs_MemberID jresp |}).
  pose proof (call_ok wdeadline Api.joinGroupRequest Api.v1 request (λ r, [jgs_ErrorCode r]) c jresp rest He1 Hw1
    ltac:(by constructor)) as Ej.
  set (sreq := makeSyncGroupRequestV0 config g' [] None).
  pose proof (call_ok rdeadline Api.syncGroupRequest Api.v0 sreq (λ r, [sgs_ErrorCode r])
    (joined_conn c request rest) sresp rest' He2 Hw2 ltac:(by constructor)) as Es.
  assert (Reader_joinGroup config (g, c) = (Done None, (g', joined_conn c request rest))) as Ejoin.
  { unfold Reader_joinGroup. unfold mbind at 1, gm_bind at 1, membership. cbn [fst].
    unfold mbind at 1, gm_bind at 1, lift_outcome. rewrite Hreq.
    rewrite (gm_on_conn _ _ g c _ _ Ej). unfold mbind at 1, gm_bind at 1, set_membership. cbn [snd].
    rewrite decide_False; [done|exact Hl]. }
  unfold Reader_rebalance. unfold mbind at 1, gm_bind at 1. rewrite Ejoin. cbn [default fmap option_fmap option_map].
  unfold Reader_syncGroup. unfold mbind at 1, gm_bind at 1, membership. cbn [fst].
  rewrite (gm_on_conn _ _ g' _ _ _ Es). cbn [canon].
  change (sgs_MemberAssignments (canon sresp)) with (bnorm (sgs_MemberAssignments sresp)). rewrite Ha.
  assert (decode_all groupAssignment_readFrom (bnorm (groupAssignment_bytes order a))
    = decode_all groupAssignment_readFrom (groupAssignment_bytes order a)) as ->.
  { unfold decode_all, groupAssignment_bytes, bnorm. by destruct (groupAssignment_writeTo order a). }
  rewrite groupAssignment_reads by done. done.
Qed.

Definition joinT : joinGroupResponseV1 :=
  {| jgs_ErrorCode := 0; jgs_GenerationID := 5; jgs_GroupProtocol := map byte_of_Z [114];
     jgs_LeaderID := map byte_of_Z [1]; jgs_MemberID := map byte_of_Z [2]; jgs_Members := [] |}.

Definition assignedT : groupAssignment :=
  {| ga_Version := 1; ga_Topics := {[topicT := [1; 2]]}; ga_UserData := None |}.

Definition syncT : syncGroupResponseV0 :=
  {| sgs_ErrorCode := 0; sgs_MemberAssignments := groupAssignment_bytes [(topicT, [1; 2])] assignedT |}.

Definition groupState0 : groupState := {| gs_generationID := 0; gs_memberID := [] |}.

Definition joinRequestT : joinGroupRequestV1 :=
  {| jgr_GroupID := groupG; jgr_SessionTimeout := 0; jgr_RebalanceTimeout := 0; jgr_MemberID := [];
     jgr_ProtocolType := defaultProtocolType; jgr_GroupProtocols := [] |}.

Lemma follower_joins_witness :
  let rest := response_block 2 (writeTo syncT) ++ [] in
  let c := sample_conn (response_block 1 (writeTo joinT) ++ rest) in
  let g' := {| gs_generationID := 5; gs_memberID := map byte_of_Z [2] |} in
  let sync := {| sgr_GroupID := groupG; sgr_GenerationID := 5; sgr_MemberID := map byte_of_Z [2];
                 sgr_GroupAssignments := [] |} in
  Reader_rebalance (conf groupG 0) keyOrder (groupState0, c) =
  (Done {[topicT := [1; 2]]}, (g', synced_conn (joined_conn c joinRequestT rest) sync [])).
Proof.
  cbn zeta. apply (follower_joins (conf groupG 0) keyOrder groupState0 _ joinRequestT joinT syncT [(topicT, [1; 2])]
    assignedT (response_block 2 (writeTo syncT) ++ []) []).
  - reflexivity.
  - constructor; by vm_compute.
  - wf_concrete.
  - reflexivity.
  - by vm_compute.
  - constructor; by vm_compute.
  - wf_concrete.
  - reflexivity.
  - reflexivity.
  - apply Permutation_refl.
  - split; [by vm_compute|]. split; [by vm_compute|]. split; [|by vm_compute].
    apply map_Forall_singleton. wf_concrete.
Defined.

(** C24 offsets_resume: with a response of the coordinator without errors, a member starts each
    partition that it was assigned and that the response names at the
    committed offset, or, where the group has none, at the first or the last
    offset as [AutoOffsetReset] says, and no other partition. *)
Theorem offsets_resume config subs g c resp r rest :
  let ps := default [] (subs !! rc_Topic config) in
  ps ≠ [] → expects c (writeTo resp) rest → wf resp → ofs_Responses resp = [r] →
  Forall (λ pr, ofsp_ErrorCode pr = 0) (ofst_PartitionResponses r) →
  NoDup (map ofsp_Partition (ofst_PartitionResponses r)) →
  ∃ offsets c', subscribe config subs (g, c) = (Done (Some offsets), (g, c')) ∧ c_closed c' = false ∧
    rd_data (c_rbuf c') = rest ∧
    (∀ pr, pr ∈ ofst_PartitionResponses r → ofsp_Partition pr ∈ ps →
       offsets !! ofsp_Partition pr =
       Some (if ofsp_Offset pr <? 0 then rc_AutoOffsetReset config else ofsp_Offset pr)) ∧
    (∀ p, is_Some (offsets !! p) → p ∈ ps ∧ p ∈ map ofsp_Partition (ofst_PartitionResponses r)).
Proof.
  cbn zeta. intros Hps He Hw Hr Hz Hn. set (prs := ofst_PartitionResponses r) in *.
  assert (ofs_Responses (canon resp) = [canon r]) as Hc by (cbn; by rewrite Hr).
  assert (map canon prs = prs) as Hid by (transitivity (map id prs); [by apply map_ext; intros []|apply map_id]).
  assert (ofst_PartitionResponses (canon r) = prs) as Hcp by exact Hid.
  unfold subscribe. rewrite decide_False by done. unfold fetchOffsets. cbn zeta.
  set (req := {| ofr_GroupID := _; ofr_Topics := _ |}).
  assert (Forall (λ code, code = 0) (concat (map (λ r, map ofsp_ErrorCode (ofst_PartitionResponses r))
    (ofs_Responses (canon resp))))) as Hcodes.
  { rewrite Hc. cbn [map concat]. rewrite Hcp, app_nil_r. by apply Forall_map. }
  pose proof (call_ok rdeadline Api.offsetFetchRequest Api.v1 req
    (λ r, concat (map (λ r, map ofsp_ErrorCode (ofst_PartitionResponses r)) (ofs_Responses r))) c resp rest
    He Hw Hcodes) as E.
  unfold mbind at 1, gm_bind at 1. rewrite (gm_on_conn _ _ g c _ _ E). rewrite Hc, Hcp.
  set (offsets := collectOffsets config (default [] (subs !! rc_Topic config)) prs). exists offsets.
  eexists. split; [done|]. split; [apply (ex_open _ _ _ He)|]. split; [done|].
  assert (∀ p, offsets !! p = _) as Hlook by (intros p; by apply collectOffsets_lookup). split.
  - intros pr Hin Hp. rewrite Hlook, decide_True by done.
    assert (∃ i, list_find (λ pr', ofsp_Partition pr' = ofsp_Partition pr) prs = Some (i, pr)) as [i ->]; [|done].
    apply list_elem_of_lookup in Hin as [i Hi]. exists i. apply list_find_Some. split; [done|]. split; [done|].
    intros j y Hj Hlt Ey. apply (Nat.lt_irrefl j). apply (Nat.lt_le_trans _ _ _ Hlt).
    rewrite (NoDup_lookup (map ofsp_Partition prs) i j (ofsp_Partition pr)); [done|done|..];
      rewrite list_lookup_fmap, ?Hi, ?Hj; cbn; by rewrite ?Ey.
  - intros p. rewrite Hlook. case_decide; [|by intros [? ?]].
    destruct (list_find _ prs) as [[i pr]|] eqn:El; [|by intros [? ?]]. intros _. split; [done|].
    apply list_find_Some in El as (Hi & <- & _). apply list_elem_of_fmap.
    exists pr. split; [done|]. by eapply list_elem_of_lookup_2.
Qed.

Definition fetchedP (p x : Z) : offsetFetchResponseV1PartitionResponse :=
  {| ofsp_Partition := p; ofsp_Offset := x; ofsp_Metadata := []; ofsp_ErrorCode := 0 |}.

Definition fetchedR : offsetFetchResponseV1Response :=
  {| ofst_Topic := topicT; ofst_PartitionResponses := [fetchedP 1 (-1); fetchedP 2 40] |}.

Definition fetchedT : offsetFetchResponseV1 := {| ofs_Responses := [fetchedR] |}.

Lemma offsets_resume_witness :
  let c := sample_conn (response_block 1 (writeTo fetchedT) ++ []) in
  ∃ offsets c', subscribe (conf groupG 0) {[topicT := [1; 2]]} (groupState0, c) = (Done (Some offsets), (groupState0, c')) ∧
    offsets !! 1 = Some (-2) ∧ offsets !! 2 = Some 40.
Proof.
  cbn zeta.
  destruct (offsets_resume (conf groupG 0) {[topicT := [1; 2]]} groupState0
    (sample_conn (response_block 1 (writeTo fetchedT) ++ [])) fetchedT fetchedR [])
    as (offsets & c' & E & _ & _ & Ho & _).
  - by vm_compute.
  - constructor; by vm_compute.
  - wf_concrete.
  - reflexivity.
  - repeat constructor.
  - cbn. repeat constructor; set_solver.
  - exists offsets, c'. split; [exact E|].
    split; [apply (Ho (fetchedP 1 (-1)))|apply (Ho (fetchedP 2 40))]; vm_compute; repeat constructor.
Defined.

(** ** Reading a partition *)

(** C39 read_resumes: on a connection at an absolute offset, one [read], whether it returns or
    not, sends only messages of its version at or after the offset of the
    connection, no more than the parent takes, and the offset from which the
    reader goes on is the one after the last message that was sent, or the old
    one when none was.  When no codec is registered and the bounds of its
    loops exceed the bytes of the response, [read] returns or panics, unless
    it waits for a response that is not there; and with any codecs, once it
    ends with some bounds, larger ones change nothing. *)
Theorem read_resumes codecs cfg it offset c :
  0 ≤ c_offset c →
  let r := (SubReader.read codecs cfg it offset c).1 in
  SubReader.rr_offset r = next_offset offset (rr_sent r) ∧ (length (rr_sent r) ≤ it_takes it)%nat ∧
  (∃ hw, Forall (sent_ok cfg true (c_offset c) hw) (rr_sent r)) ∧
  (codecs = ∅ → response_bytes c + 2 ≤ Z.of_nat (it_fuel it) → response_bytes c + 1 ≤ Z.of_nat (it_loops it) →
   (∃ c', ReadBatch (it_now it) (sr_minBytes cfg) (sr_maxBytes cfg)
            (SetReadDeadline (Time.Add (it_now it) (sr_maxWait cfg)) c).2 = (Diverged, c')) ∨
   rr_end r ≠ Diverged) ∧
  (rr_end r ≠ Diverged → ∀ loops fuel, (it_loops it ≤ loops)%nat → (it_fuel it ≤ fuel)%nat →
   SubReader.read codecs cfg (with_bounds it loops fuel) offset c = SubReader.read codecs cfg it offset c).
Proof.
  intros Hc r. destruct (read_spec codecs cfg it offset c Hc) as (Ho & Hl & Hs). split_and!; try done.
  - intros ->. by apply read_returns.
  - intros Hd loops fuel. by apply read_more.
Qed.

Definition subT : subConfig :=
  {| sr_brokers := []; sr_minBytes := 1; sr_maxBytes := 1000; sr_maxWait := 1000000000; sr_version := 1;
     sr_autoOffsetReset := -2 |}.

Definition iterationT : iteration :=
  {| it_awake := true; it_dial := λ _, inl EOF; it_takes := 5; it_now := 0; it_loops := 300; it_fuel := 300 |}.

(** A connection on offset 4 that receives the messages 3 to 5. *)
Definition batchConn : conn :=
  let msgs := concat (map (λ n, writeMessage n 0 0 None (Some (map byte_of_Z [n]))) [3; 4; 5]) in
  set_offset (sample_conn (response_block 1 (fetchHeader_bytes 0 topicT 0 0 9 (len msgs) ++ msgs) ++ [])) 4.

Definition summary_of (r : read_result) : list Z * Z * bool :=
  (map (λ m, msg_Offset (rm_message m)) (rr_sent r), SubReader.rr_offset r,
   match rr_end r with Diverged => true | _ => false end).

Lemma read_resumes_witness :
  ∃ r c', SubReader.read ∅ subT iterationT 4 batchConn = (r, c') ∧
    map (λ m, msg_Offset (rm_message m)) (rr_sent r) = [4; 5] ∧ SubReader.rr_offset r = 6 ∧
    (∃ hw, Forall (sent_ok subT true 4 hw) (rr_sent r)) ∧ rr_end r ≠ Diverged.
Proof.
  assert (summary_of (SubReader.read ∅ subT iterationT 4 batchConn).1 = ([4; 5], 6, false)) as Hs
    by (vm_compute; reflexivity).
  destruct (read_resumes ∅ subT iterationT 4 batchConn) as (_ & _ & Hok & Hret & _); [by vm_compute|].
  destruct (SubReader.read ∅ subT iterationT 4 batchConn) as [r c'] eqn:E. cbn [fst] in *.
  injection Hs as H1 H2 H3. exists r, c'. do 3 (split; [done|]). split; [exact Hok|].
  destruct Hret as [[c'' Hx]|Hd]; [done|by vm_compute|by vm_compute| |exact Hd].
  apply (f_equal fst) in Hx. vm_compute in Hx. discriminate Hx.
Defined.

(** ** Changing the offset *)

(** The goroutine is not inside [FetchMessage]. *)
Definition idle (tid : nat) (s : readerState) : Prop := r_fetching s !! tid = None ∧ r_taken s !! tid = None.

Lemma idle_sees tid v s : idle tid s → sees_from tid v s.
Proof. intros [Hf Ht]. split; intros t x E ->; congruence. Qed.

(** A move of a reader that was reading cancels the goroutines there are and
    spawns one. *)
Lemma SetOffset_moves offset s :
  useConsumerGroup (r_config s) = false → r_closed s = false → offset ≠ r_offset s → r_version s ≠ 0 →
  r_version (SetOffset offset s).2 = r_version s + 1 ∧
  r_readers (SetOffset offset s).2 =
    map pr_cancel (r_readers s) ++ spawn (r_version s + 1) {[rc_Partition (r_config s) := offset]}.
Proof.
  intros Hg Hcl Ho Hv. unfold SetOffset. rewrite Hg, Hcl, (proj2 (Z.eqb_neq _ _) Ho). cbn zeta.
  cbn [snd set_roffset r_version]. rewrite (proj2 (Z.eqb_neq _ _) Hv). unfold start. cbn [r_closed set_roffset].
  by rewrite Hcl.
Qed.

(** The goroutines that are there carry the current start or an earlier one. *)
Lemma grows_older s s' k g :
  reader_inv s → grows s s' → r_readers s' !! k = Some g → r_version s < pr_start g →
  (length (r_readers s) ≤ k)%nat.
Proof.
  intros Hi [_ Ho _] Hk Hlt. destruct (decide (k < length (r_readers s))%nat) as [Hk'|]; [|lia].
  destruct (lookup_lt_is_Some_2 _ _ Hk') as [g0 E0]. destruct (Ho _ _ E0) as (g' & E' & Es & _). simplify_eq.
  destruct (Forall_lookup_1 _ _ _ _ (ri_readers _ Hi) E0) as [? _]. lia.
Qed.

(** After the move, the one goroutine of its start is the one it spawned. *)
Lemma moved_reader s s1 s2 p offset k g :
  r_readers s1 = map pr_cancel (r_readers s) ++ spawn (r_version s + 1) {[p := offset]} →
  r_version s1 = r_version s + 1 → grows s1 s2 → r_readers s2 !! k = Some g →
  (length (r_readers s) ≤ k)%nat → pr_start g = r_version s + 1 → pr_partition g = p ∧ pr_offset g = offset.
Proof.
  intros Hr Hv [_ Ho Hn] Hk Hle Es. unfold spawn in Hr. rewrite map_to_list_singleton in Hr. cbn [map fst snd] in Hr.
  destruct (decide (length (r_readers s1) ≤ k)%nat) as [Hge|Hlt]; [apply (Hn k g) in Hge; [lia|done]|].
  rewrite Hr, length_app, length_map in Hlt. cbn in Hlt.
  assert (k = length (map pr_cancel (r_readers s))) as -> by (rewrite length_map; lia).
  edestruct (Ho (length (map pr_cancel (r_readers s)))) as (g' & E' & _ & Ep & Eo); [by rewrite Hr, list_lookup_middle|].
  by simplify_eq.
Qed.

(** C4 offset_fence: once [SetOffset] has moved a reader that was reading, a call to
    [FetchMessage] that starts later never returns a message that a goroutine
    of an earlier [start] sent, however these goroutines, other calls and
    other changes of the offset interleave, although each goroutine takes its
    version from [r.version] outside of the mutex, whenever it is scheduled:
    the message comes from a goroutine that this call or a later one spawned,
    and if it is this one, the goroutine was given the new offset.  Assumed of
    [net]: a dial whose context is done before it begins fails. *)
Theorem offset_fence config evs0 s res0 offset tid evs s2 res s3 msg :
  reader_run (NewReader_state config) evs0 = Some (s, res0) →
  useConsumerGroup (r_config s) = false → r_closed s = false → r_version s ≠ 0 → offset ≠ r_offset s →
  idle tid s →
  reader_run s (ESetOffset offset :: evs) = Some (s2, res) →
  reader_step s2 (EDeliver tid) = Some (s3, Some (msg, None)) →
  ∃ v k m g, r_taken s2 !! tid = Some (v, (k, m)) ∧ rm_message m = msg ∧
    r_readers s2 !! k = Some g ∧ (length (r_readers s) ≤ k)%nat ∧ r_version s < pr_start g ∧
    (pr_start g = r_version s + 1 → pr_partition g = rc_Partition (r_config s) ∧ pr_offset g = offset).
Proof.
  intros Hr0 Hg Hcl Hv Ho Hidle (s1 & r1 & res1 & E1 & E2 & _)%reader_run_cons Hd.
  pose proof (reader_run_inv _ _ _ _ (reader_inv_init config) Hr0) as Hi.
  pose proof (reader_run_inv _ _ _ _ (reader_step_inv _ _ _ _ Hi E1) E2) as Hi2.
  cbn [reader_step] in E1. apply (inj Some) in E1. injection E1 as <- <-.
  destruct (SetOffset_moves _ _ Hg Hcl Ho Hv) as (Hv1 & Hr1). destruct (SetOffset_fields offset s) as [Hf1 Ht1].
  assert (idle tid (SetOffset offset s).2) as Hid1 by (unfold idle; by rewrite Hf1, Ht1).
  destruct (reader_run_sees tid (r_version s + 1) _ _ _ _ (Z.eq_le_incl _ _ (eq_sym Hv1)) (idle_sees _ _ _ Hid1) E2)
    as [_ Hsees].
  destruct (reader_deliver _ _ _ _ Hd) as (v & k & m & Ht & Hm & He & Hvm & _).
  pose proof (Hsees tid _ Ht eq_refl) as Hge. cbn in Hge.
  destruct (ri_taken _ Hi2 tid _ Ht He) as (g & Hk & Hst). cbn in Hk, Hst.
  exists v, k, m, g. do 3 (split; [done|]).
  pose proof (reader_run_grows _ _ _ _ E2) as Hgr.
  assert (length (r_readers s) ≤ k)%nat as Hle by (eapply grows_older; [exact Hi|by etransitivity;
    [apply SetOffset_grows|exact Hgr]|exact Hk|lia]).
  split; [done|]. split; [lia|]. intros Es.
  exact (moved_reader _ _ _ _ _ _ _ Hr1 Hv1 Hgr Hk Hle Es).
Qed.

(** The configuration of a reader of one partition, with a queue. *)
Definition confOne : ReaderConfig :=
  {| rc_Brokers := [map byte_of_Z [98]]; rc_GroupID := []; rc_Topic := topicT; rc_Partition := 3;
     rc_QueueCapacity := 10; rc_MinBytes := 1; rc_MaxBytes := 1; rc_MaxWait := 1; rc_ReadLagInterval := 1;
     rc_GroupBalancers := []; rc_HeartbeatInterval := 1; rc_CommitInterval := 0;
     rc_PartitionWatchInterval := 1; rc_WatchPartitionChanges := false; rc_SessionTimeout := 1;
     rc_RebalanceTimeout := 1; rc_RetentionTime := 1; rc_AutoOffsetReset := -2 |}.

Definition messageAt (version offset : Z) : readerMessage :=
  {| rm_version := version;
     rm_message := {| msg_Topic := topicT; msg_Partition := 3; msg_Offset := offset; msg_Key := None;
                      msg_Value := None; msg_Headers := []; msg_Time := 0 |};
     rm_watermark := 100; rm_error := None |}.

(** What the goroutine of the first start sent is in the queue; a second one,
    of a move before it was scheduled, takes its version later. *)
Definition before_move : list reader_event :=
  [ELock 0; ECancel 0; EVersion 0; EDial 0; EPush 0 (messageAt 1 5); ESetOffset 20].

(** The goroutine of the move to 20 reads the version of the move to 50; the
    call drops the message of the first one. *)
Definition after_move : list reader_event :=
  [EVersion 1; EReturn 1; EVersion 2; EDial 2; EPush 2 (messageAt 3 50); ELock 0; EReceive 0; EDeliver 0; ELock 0;
   EReceive 0].

Lemma offset_fence_witness :
  ∃ s2 s3 msg k g,
    reader_step s2 (EDeliver 0) = Some (s3, Some (msg, None)) ∧ msg_Offset msg = 50 ∧
    r_readers s2 !! k = Some g ∧ (2 ≤ k)%nat ∧ (pr_start g = 3 → pr_offset g = 50).
Proof.
  destruct (reader_run (NewReader_state confOne) before_move) as [[s res0]|] eqn:E0; [|discriminate E0].
  pose proof E0 as E0'. vm_compute in E0'.
  destruct (reader_run s (ESetOffset 50 :: after_move)) as [[s2 res]|] eqn:E2;
    [|injection E0' as <- <-; discriminate E2].
  destruct (reader_step s2 (EDeliver 0)) as [[s3 r]|] eqn:E3;
    [|injection E0' as <- <-; vm_compute in E2; injection E2 as <- <-; discriminate E3].
  assert (∃ msg, r = Some (msg, None) ∧ msg_Offset msg = 50) as (msg & -> & Ho).
  { injection E0' as <- <-. vm_compute in E2. injection E2 as <- <-. vm_compute in E3. injection E3 as <- <-.
    by eexists. }
  destruct (offset_fence confOne before_move s res0 50 0 after_move s2 res s3 msg E0)
    as (v & k & m & g & _ & _ & Hk & Hle & _ & Hoff); try done.
  1-5: injection E0' as <- <-; done.
  exists s2, s3, msg, k, g. split; [done|]. split; [done|]. split; [done|].
  injection E0' as <- <-. split; [exact Hle|]. intros Es. apply Hoff. exact Es.
Defined.

(** Finding version_race: a goroutine of [start] reads [r.version] without the
    mutex, so one that is scheduled late carries the version of a later
    [start]: here the goroutine that was to read from offset 20 has version 3,
    the one of the move to 50.  Only its cancelled context keeps what it would
    read from passing for what follows offset 50; an error that it sends is
    taken for one of the new reader. *)
Lemma version_race :
  ∃ s, fst <$> reader_run (NewReader_state confOne) (before_move ++ [ESetOffset 50; EVersion 1]) = Some s ∧
    r_readers s !! 1%nat = Some {| pr_start := 2; pr_partition := 3; pr_offset := 20; pr_cancelled := true;
                                   pr_pc := PRunning 3 false |}.
Proof. vm_compute. by eexists. Qed.

(** ** Statistics *)

(** Fact counters_conserve: in every interleaving of observations and snapshots, what the cell of a
    counter holds plus what the snapshots took is, modulo 2^64, what was
    observed: no observation is lost or counted twice. *)
Theorem counters_conserve cell ts cell' ts' :
  rtc Counter.step (cell, ts) (cell', ts') →
  int64 (cell' + Counter.total ts') = int64 (cell + Counter.total ts).
Proof. intros Hr. exact (Counter.steps_total _ _ Hr). Qed.

Lemma counters_conserve_witness :
  let ts' := [Counter.Observed; Counter.Observed; Counter.Returned 3] in
  rtc Counter.step (0, [Counter.Observe 3; Counter.Observe 4; Counter.Snapshot]) (4, ts') ∧
  int64 (4 + Counter.total ts') = int64 (0 + 7).
Proof.
  cbn zeta. assert (rtc Counter.step (0, [Counter.Observe 3; Counter.Observe 4; Counter.Snapshot])
    (4, [Counter.Observed; Counter.Observed; Counter.Returned 3])) as Hr.
  { eapply rtc_l; [eapply (Counter.step_at _ _ 0); reflexivity|].
    eapply rtc_l; [eapply (Counter.step_at _ _ 2); reflexivity|].
    eapply rtc_l; [eapply (Counter.step_at _ _ 1); reflexivity|].
    eapply rtc_l; [eapply (Counter.step_at _ _ 2); reflexivity|]. constructor. }
  split; [exact Hr|].
  apply (counters_conserve 0 [Counter.Observe 3; Counter.Observe 4; Counter.Snapshot] 4
    [Counter.Observed; Counter.Observed; Counter.Returned 3] Hr).
Defined.

(** Fact extrema_observed: in every interleaving of observations of values that are not negative,
    with their retries of compare and swap, once all have returned the
    minimum and the maximum are the least and the greatest value observed. *)
Theorem extrema_observed vs cell ts :
  Forall (λ v, 0 ≤ v) vs → vs ≠ [] →
  (rtc (Extremum.step minimum_keeps) (-1, map Extremum.Observe vs) (cell, ts) →
   Forall (λ t, ∃ v, t = Extremum.Observed v) ts → cell ∈ vs ∧ Forall (λ v, cell ≤ v) vs) ∧
  (rtc (Extremum.step maximum_keeps) (-1, map Extremum.Observe vs) (cell, ts) →
   Forall (λ t, ∃ v, t = Extremum.Observed v) ts → cell ∈ vs ∧ Forall (λ v, v ≤ cell) vs).
Proof.
  intros H0 Hne. split; intros Hr Hd.
  - apply (Extremum.extremum_observed minimum_keeps Z.le) with (ts := ts); try done.
    + intros m v. unfold minimum_keeps. rewrite andb_true_iff. lia.
    + intros m v. lia.
  - apply (Extremum.extremum_observed maximum_keeps (flip Z.le)) with (ts := ts); try done.
    + intros m v. unfold maximum_keeps, flip. rewrite andb_true_iff. lia.
    + intros m v. unfold flip. lia.
Qed.

Lemma extrema_observed_witness : 3 ∈ [5; 3] ∧ Forall (λ v, 3 ≤ v) [5; 3].
Proof.
  apply (extrema_observed [5; 3] 3 [Extremum.Observed 5; Extremum.Observed 3]).
  - repeat constructor; lia.
  - done.
  - cbn [map]. eapply rtc_l; [eapply (Extremum.step_at _ _ _ 1); reflexivity|].
    eapply rtc_l; [eapply (Extremum.step_at _ _ _ 0); reflexivity|].
    eapply rtc_l; [eapply (Extremum.step_at _ _ _ 0); reflexivity|].
    eapply rtc_l; [eapply (Extremum.step_at _ _ _ 1); reflexivity|].
    eapply rtc_l; [eapply (Extremum.step_at _ _ _ 1); reflexivity|].
    eapply rtc_l; [eapply (Extremum.step_at _ _ _ 1); reflexivity|]. constructor.
  - repeat constructor; by eexists.
Defined.
