(* ===== verification/DialerProps.v ===== *)
(** * Properties of the dialer

    Authentication, the lookup of partitions and the addresses that are dialed,
    for what the broker answers. *)

From S2P Require Import Prelude Errors Time Bufio Read Write VarInt Wire.
From S2P Require Import Protocol TopicMessages SaslMessages Conn ConnOps ConnSync ConnProps Dialer.

(** ** Conversations *)

(** The bytes of the responses [bodies] to the requests after number [id]. *)
Fixpoint script (id : Z) (bodies : list (list byte)) (rest : list byte) : list byte :=
  match bodies with
  | [] => rest
  | body :: bodies => response_block (int32 (id + 1)) body ++ script (int32 (id + 1)) bodies rest
  end.

(** The connection is open and about to get [bodies] for its next requests. *)
Record prepared (c : conn) (bodies : list (list byte)) (rest : list byte) : Prop := {
  pr_open : c_closed c = false;
  pr_werr : c_werr c = None;
  pr_sizes : Forall (λ body, len body + 4 < 2 ^ 31) bodies;
  pr_bufsize : 16 ≤ rd_bufsize (c_rbuf c);
  pr_data : rd_data (c_rbuf c) = script (c_correlationID c) bodies rest;
}.

(** The connection after it sent [bs] and read one response. *)
Definition after (c : conn) (bs : list byte) (bodies : list (list byte)) (rest : list byte) : conn :=
  sent c bs (script (int32 (c_correlationID c + 1)) bodies rest).

Lemma prepared_expects c body bodies rest :
  prepared c (body :: bodies) rest → expects c body (script (int32 (c_correlationID c + 1)) bodies rest).
Proof. intros [Ho Hw Hs Hb Hd]. apply Forall_cons_1 in Hs as [Hs _]. by constructor. Qed.

Lemma prepared_after c body bodies rest bs :
  prepared c (body :: bodies) rest → prepared (after c bs bodies rest) bodies rest.
Proof. intros [Ho Hw Hs Hb Hd]. apply Forall_cons_1 in Hs as [_ Hs]. by constructor. Qed.

(** ** Authentication *)

(** What a mechanism sends for the challenges [answers], when it completes
    with the last of them. *)
Fixpoint exchange (m : Mechanism) (s : me_state m) (state : bytes) (answers : list bytes) : option (list bytes) :=
  match answers with
  | [] => None
  | answer :: answers =>
    match me_Next m s (bnorm answer) with
    | (inl _, _) => None
    | (inr (true, _), _) => if decide (answers = []) then Some [state] else None
    | (inr (false, state'), s') => cons state <$> exchange m s' state' answers
    end
  end.

(** A response that accepts and carries the challenge [data]. *)
Definition accepted (data : bytes) : saslAuthenticateResponseV0 :=
  {| sas_ErrorCode := 0; sas_ErrorMessage := []; sas_Data := data |}.

Definition authenticate_request (clientID : gostring) (id : Z) (data : bytes) : list byte :=
  writeRequest clientID Api.saslAuthenticateRequest Api.v0 id {| sar_Data := data |}.

(** Whether the broker takes the handshake of version 1, after which the
    messages of the mechanism are framed as requests; otherwise they are sent
    as they are, behind their length. *)
Definition framed (c : conn) : bool := maxVersion c Api.saslHandshakeRequest >=? 1.

Definition handshake_version (c : conn) : Z := if framed c then Api.v1 else Api.v0.

(** The bytes of the messages [msgs], sent after request number [id]. *)
Fixpoint sasl_requests (framed : bool) (clientID : gostring) (id : Z) (msgs : list bytes) : list byte :=
  match msgs with
  | [] => []
  | data :: msgs =>
    if framed
    then authenticate_request clientID (int32 (id + 1)) data ++ sasl_requests framed clientID (int32 (id + 1)) msgs
    else (writeInt32 (int32 (len (bdata data))) ++ bdata data) ++ sasl_requests framed clientID id msgs
  end.

(** The bytes of the challenges [answers], received after request number [id],
    with [rest] after them. *)
Fixpoint sasl_answers (framed : bool) (id : Z) (answers : list bytes) (rest : list byte) : list byte :=
  match answers with
  | [] => rest
  | a :: answers =>
    if framed
    then response_block (int32 (id + 1)) (writeTo (accepted a)) ++ sasl_answers framed (int32 (id + 1)) answers rest
    else writeInt32 (len (bdata a)) ++ bdata a ++ sasl_answers framed id answers rest
  end.

(** A challenge that fits a response. *)
Definition answer_ok (a : bytes) : Prop := wf (accepted a) ∧ len (writeTo (accepted a)) + 4 < 2 ^ 31.

(** The connection after the handshake: the broker is about to give [answers]. *)
Record sasl_peer (c : conn) (answers : list bytes) (rest : list byte) : Prop := {
  sp_open : c_closed c = false;
  sp_werr : c_werr c = None;
  sp_bufsize : 16 ≤ rd_bufsize (c_rbuf c);
  sp_answers : Forall answer_ok answers;
  sp_data : rd_data (c_rbuf c) = sasl_answers (framed c) (c_correlationID c) answers rest;
}.

(** The number of the last request of a framed exchange of [n] messages. *)
Fixpoint id_after (n : nat) (id : Z) : Z := match n with O => id | S n => id_after n (int32 (id + 1)) end.

Lemma id_after_add n n' id : id_after (n + n') id = id_after n' (id_after n id).
Proof. revert id. induction n as [|n IH]; intros id; [done|]. cbn. apply IH. Qed.

(** What an exchange keeps of the connection. *)
Record sasl_after (c c' : conn) (msgs : list bytes) : Prop := {
  sf_cfg : c_cfg c' = c_cfg c;
  sf_err : rd_err (c_rbuf c') = rd_err (c_rbuf c);
  sf_id : c_correlationID c' = (if framed c then id_after (length msgs) (c_correlationID c) else c_correlationID c);
  sf_out : ∀ more, c_out c' ++ sasl_requests (framed c) (cfg_clientID (c_cfg c)) (c_correlationID c') more =
                  c_out c ++ sasl_requests (framed c) (cfg_clientID (c_cfg c)) (c_correlationID c) (msgs ++ more);
}.

(** [call_returns] for the stream of the peer, and the raw exchange. *)
Lemma saslAuthenticate_answer c data a answers rest :
  sasl_peer c (a :: answers) rest →
  ∃ c', saslAuthenticate data c = (Done (bnorm a), c') ∧ sasl_peer c' answers rest ∧ sasl_after c c' [data].
Proof.
  intros [Ho Hw Hb Ha Hd]. apply Forall_cons_1 in Ha as [[Hwf Hsz] Ha]. cbn [sasl_answers] in Hd.
  unfold saslAuthenticate. unfold mbind at 1, cm_bind at 1, get. fold (framed c). destruct (framed c) eqn:Ef.
  - eexists. split; [by erewrite cm_bind_done by (apply call_returns; [by constructor|done])|].
    split; [constructor; [done..|]; change (framed (sent c ?x ?y)) with (framed c); by rewrite Ef|].
    constructor; [done|done|by rewrite Ef|]. intros more. rewrite Ef. cbn. by rewrite <- app_assoc.
  - destruct Hwf as (_ & _ & Hwb). cbn [sas_Data accepted] in Hwb.
    assert (len (bdata a) < 2 ^ 31 ∧ bnorm (Some (bdata a)) = bnorm a) as [Hl Hn].
    { unfold wf_bytes in Hwb. destruct a as [[|x l]|]; cbn in *; split; done || lia. }
    unfold saslAuthenticate_raw, mbind, cm_bind, flush. rewrite Ho, Hw. unfold read_rbuf.
    cbn [c_rbuf set_out]. pose proof (len_nonneg (bdata a)).
    replace (c_rbuf c) with (with_data (c_rbuf c) (writeInt32 (len (bdata a)) ++ bdata a ++
      sasl_answers false (c_correlationID c) answers rest)) by (rewrite <- Hd; by destruct (c_rbuf c)).
    rewrite (reads_readInt32 (len (bdata a)) ltac:(unfold inS; lia)) by (autorewrite with len; done || lia). cbn [c_rbuf set_rbuf].
    rewrite (reads_readNewBytes (bdata a)) by (done || lia). rewrite Hn.
    eexists. split; [done|].
    split; [constructor; [done..|]; change (framed (set_rbuf ?x ?y)) with (framed c); by rewrite Ef|].
    constructor; [done|done|by rewrite Ef|]. intros more. rewrite Ef. cbn. by rewrite <- !app_assoc.
Qed.

(** The mechanism goes on for all of [answers]: what it has sent, its state
    and its next message. *)
Fixpoint rounds (m : Mechanism) (s : me_state m) (state : bytes) (answers : list bytes) :
    option (list bytes * me_state m * bytes) :=
  match answers with
  | [] => Some ([], s, state)
  | answer :: answers =>
    match me_Next m s (bnorm answer) with
    | (inr (false, state'), s') =>
      '(msgs, s, state'') ← rounds m s' state' answers; Some (state :: msgs, s, state'')
    | _ => None
    end
  end.

Lemma sasl_after_trans c1 c2 c3 l1 l2 :
  sasl_after c1 c2 l1 → sasl_after c2 c3 l2 → sasl_after c1 c3 (l1 ++ l2).
Proof.
  intros [C1 E1 I1 O1] [C2 E2 I2 O2].
  assert (framed c2 = framed c1) as Ef by (unfold framed, maxVersion; by rewrite C1).
  constructor; [congruence|congruence| |].
  { rewrite I2, I1, Ef. destruct (framed c1); [|done]. by rewrite length_app, id_after_add. }
  intros more.
  rewrite <- app_assoc, <- O1. specialize (O2 more). by rewrite Ef, C1 in O2.
Qed.

Lemma authenticate_rounds m fuel s state answers answers' msgs s' state' c rest :
  rounds m s state answers = Some (msgs, s', state') → sasl_peer c (answers ++ answers') rest →
  ∃ c', authenticate_loop m (length answers + fuel) s state c = authenticate_loop m fuel s' state' c' ∧
    sasl_peer c' answers' rest ∧ sasl_after c c' msgs.
Proof.
  revert s state msgs c. induction answers as [|a answers IH]; intros s state msgs c Hr Hp; cbn [rounds] in Hr.
  { injection Hr as <- <- <-. exists c. split; [done|]. split; [done|]. constructor; try done. by destruct (framed c). }
  destruct (me_Next m s (bnorm a)) as [[e|[[] state1]] s1] eqn:En; [done|done|].
  destruct (rounds m s1 state1 answers) as [[[msgs1 s2] state2]|] eqn:Er; [|done]. cbn in Hr. injection Hr as <- <- <-.
  destruct (saslAuthenticate_answer c state a (answers ++ answers') rest Hp) as (c1 & E1 & Hp1 & Ha1).
  destruct (IH _ _ _ c1 Er Hp1) as (c' & E & Hp' & Ha'). exists c'. split; [|split; [done|]].
  - cbn [length Nat.add authenticate_loop]. by rewrite E1, En.
  - by apply (sasl_after_trans c c1 c' [state]).
Qed.

Lemma rounds_length m s state answers msgs s' state' :
  rounds m s state answers = Some (msgs, s', state') → length msgs = length answers.
Proof.
  revert s state msgs. induction answers as [|a answers IH]; intros s state msgs; cbn [rounds]; [by intros [= <- _ _]|].
  destruct (me_Next m s (bnorm a)) as [[e|[[] st]] s1]; [done|done|].
  destruct (rounds m s1 st answers) as [[[ms s2] st2]|] eqn:Er; [|done]. cbn. intros [= <- <- <-]. cbn.
  f_equal. by eapply IH.
Qed.

(** An exchange is rounds and a last challenge, with which it completes. *)
Lemma exchange_rounds m s state answers msgs :
  exchange m s state answers = Some msgs →
  ∃ answers0 a msgs0 s' state' st s'', answers = answers0 ++ [a] ∧ msgs = msgs0 ++ [state'] ∧
    rounds m s state answers0 = Some (msgs0, s', state') ∧ me_Next m s' (bnorm a) = (inr (true, st), s'').
Proof.
  revert s state msgs. induction answers as [|a answers IH]; intros s state msgs; cbn [exchange]; [done|].
  destruct (me_Next m s (bnorm a)) as [[e|[[] st]] s1] eqn:En; [done| |].
  - case_decide as Hn; [|done]. intros [= <-]. subst. by exists [], a, [], s, state, st, s1.
  - destruct (exchange m s1 st answers) as [msgs1|] eqn:Ex; [|done]. cbn. intros [= <-].
    destruct (IH _ _ _ Ex) as (as0 & a' & ms0 & s' & state' & st' & s'' & -> & -> & Hr & Hn).
    exists (a :: as0), a', (state :: ms0), s', state', st', s''. cbn [rounds]. rewrite En, Hr. by split_and!.
Qed.

(** The handshake, as either version of it. *)
Lemma saslHandshake_answer mech hs c rest :
  prepared c [writeTo hs] rest → wf hs →
  saslHandshake mech c = check [shs_ErrorCode hs] tt
    (after c (next_request c Api.saslHandshakeRequest (handshake_version c) {| shr_Mechanism := mech |}) [] rest).
Proof.
  intros Hp Hw. unfold saslHandshake. unfold mbind at 1, cm_bind at 1, get. fold (framed c). fold (handshake_version c).
  by erewrite cm_bind_done by (by apply call_returns; [apply prepared_expects|]).
Qed.

(** The connection after a handshake that was accepted. *)
Lemma handshake_peer (hs : saslHandshakeResponseV0) c bs answers rest :
  prepared c [writeTo hs] (sasl_answers (framed c) (int32 (c_correlationID c + 1)) answers rest) →
  Forall answer_ok answers →
  sasl_peer (after c bs [] (sasl_answers (framed c) (int32 (c_correlationID c + 1)) answers rest)) answers rest.
Proof. intros [Ho Hw _ Hb _] Ha. by constructor. Qed.

(** Authentication up to the end of [answers], for which the mechanism goes on. *)
Lemma authenticateSASL_rounds m mech state s answers answers' msgs s' state' hs c rest fuel :
  me_Start m (me_init m) = (inr (mech, state), s) → rounds m s state answers = Some (msgs, s', state') →
  prepared c [writeTo hs] (sasl_answers (framed c) (int32 (c_correlationID c + 1)) (answers ++ answers') rest) →
  wf hs → shs_ErrorCode hs = 0 → Forall answer_ok (answers ++ answers') →
  ∃ c1 c', authenticateSASL m (length answers + fuel) c = authenticate_loop m fuel s' state' c' ∧
    sasl_peer c' answers' rest ∧ sasl_after c1 c' msgs ∧ c_cfg c1 = c_cfg c ∧
    rd_err (c_rbuf c1) = rd_err (c_rbuf c) ∧ c_correlationID c1 = int32 (c_correlationID c + 1) ∧
    c_out c1 = c_out c ++ next_request c Api.saslHandshakeRequest (handshake_version c) {| shr_Mechanism := mech |}.
Proof.
  intros Hs Hr Hp Hw Hz Ha. unfold authenticateSASL. rewrite Hs.
  pose proof (saslHandshake_answer mech hs c _ Hp Hw) as E. rewrite Hz in E.
  unfold check in E. cbn [list_find] in E. rewrite decide_False in E by auto. cbn [fmap option_fmap option_map] in E.
  rewrite (cm_bind_done _ _ _ _ _ E).
  destruct (authenticate_rounds m fuel s state answers answers' msgs s' state' _ rest Hr
    (handshake_peer hs c (next_request c Api.saslHandshakeRequest (handshake_version c) {| shr_Mechanism := mech |})
      _ rest Hp Ha)) as (c' & El & Hpe & Haf).
  eexists _, c'. split; [exact El|]. split; [done|]. split; [exact Haf|]. done.
Qed.

(** C20 sasl_authenticates: with a broker that accepts the handshake, of version 1 or of version 0
    as it offers, and answers every message of the mechanism with a challenge,
    until the mechanism says that it is done, [authenticateSASL] returns
    without an error whatever the mechanism is; it has sent the handshake and
    the messages of the mechanism in their order, framed as requests after a
    handshake of version 1 and behind their length after one of version 0,
    and leaves the connection open behind the last challenge. *)
Theorem sasl_authenticates m mech state s answers msgs hs c rest fuel :
  me_Start m (me_init m) = (inr (mech, state), s) → exchange m s state answers = Some msgs →
  prepared c [writeTo hs] (sasl_answers (framed c) (int32 (c_correlationID c + 1)) answers rest) →
  wf hs → shs_ErrorCode hs = 0 → Forall answer_ok answers → (length answers ≤ fuel)%nat →
  ∃ c', authenticateSASL m fuel c = (Done tt, c') ∧ c_closed c' = false ∧
    c_out c' = c_out c ++
      next_request c Api.saslHandshakeRequest (handshake_version c) {| shr_Mechanism := mech |} ++
      sasl_requests (framed c) (cfg_clientID (c_cfg c)) (int32 (c_correlationID c + 1)) msgs ∧
    rd_data (c_rbuf c') = rest.
Proof.
  intros Hs Hx Hp Hw Hz Ha Hf.
  destruct (exchange_rounds _ _ _ _ _ Hx) as (as0 & a & ms0 & s' & state' & st & s'' & -> & -> & Hr & Hn).
  rewrite length_app in Hf. cbn in Hf.
  destruct (authenticateSASL_rounds m mech state s as0 [a] ms0 s' state' hs c rest (fuel - length as0) Hs Hr Hp Hw Hz Ha)
    as (c1 & c2 & E & Hp2 & Ha2 & Hcfg & _ & Hid & Hout).
  replace (length as0 + (fuel - length as0))%nat with fuel in E by lia. rewrite E.
  destruct (saslAuthenticate_answer c2 state' a [] rest Hp2) as (c3 & E3 & Hp3 & Ha3).
  exists c3. destruct (fuel - length as0)%nat as [|k] eqn:Ek; [lia|]. cbn [authenticate_loop]. rewrite E3, Hn.
  split; [done|]. split; [apply (sp_open _ _ _ Hp3)|]. split; [|by rewrite (sp_data _ _ _ Hp3)].
  destruct (sasl_after_trans _ _ _ _ _ Ha2 Ha3) as [_ _ _ O]. specialize (O []). cbn [sasl_requests] in O.
  assert (framed c1 = framed c) as Ef by (unfold framed, maxVersion; by rewrite Hcfg).
  by rewrite !app_nil_r, Ef, Hcfg, Hid, Hout, <- app_assoc in O.
Qed.

Definition userT : gostring := map byte_of_Z [117].
Definition passT : gostring := map byte_of_Z [112; 119].

Definition handshakeT (code : Z) : saslHandshakeResponseV0 :=
  {| shs_ErrorCode := code; shs_EnabledMechanisms := [PLAIN] |}.

(** A connection to a broker with the handshake up to version [v]. *)
Definition sasl_conn (v : Z) (data : list byte) : conn :=
  let c := sample_conn data in
  {| c_cfg := {| cfg_clientID := cfg_clientID (c_cfg c); cfg_topic := cfg_topic (c_cfg c);
                 cfg_partition := 0; cfg_fetchMaxBytes := 1000000; cfg_fetchMinSize := 0;
                 cfg_apiVersions := {[Api.saslHandshakeRequest :=
                   {| av_ApiKey := Api.saslHandshakeRequest; av_MinVersion := 0; av_MaxVersion := v |}]};
                 cfg_fetchVersion := 2 |};
     c_rbuf := c_rbuf c; c_out := []; c_werr := None; c_closed := false; c_offset := 0;
     c_correlationID := 0; c_requiredAcks := -1; c_rdeadline := Time.zeroTime; c_wdeadline := Time.zeroTime |}.

Definition handshake_bytes (code : Z) (rest : list byte) : list byte :=
  script 0 [writeTo (handshakeT code)] rest.

(** With a broker of each kind. *)
Lemma sasl_authenticates_witness :
  let c v := sasl_conn v (handshake_bytes 0 (sasl_answers (v =? 1) 1 [None] [])) in
  (∃ c', authenticateSASL (plain userT passT) 1 (c 1) = (Done tt, c') ∧ c_closed c' = false ∧
    c_out c' = next_request (c 1) Api.saslHandshakeRequest Api.v1 {| shr_Mechanism := PLAIN |} ++
      authenticate_request [] 2 (Some (map byte_of_Z [0; 117; 0; 112; 119]))) ∧
  (∃ c', authenticateSASL (plain userT passT) 1 (c 0) = (Done tt, c') ∧ c_closed c' = false ∧
    c_out c' = next_request (c 0) Api.saslHandshakeRequest Api.v0 {| shr_Mechanism := PLAIN |} ++
      writeInt32 5 ++ map byte_of_Z [0; 117; 0; 112; 119]).
Proof.
  intros c. assert (∀ v, v = 0 ∨ v = 1 → prepared (c v) [writeTo (handshakeT 0)]
    (sasl_answers (framed (c v)) (int32 (c_correlationID (c v) + 1)) [None] [])) as Hp.
  { intros v [->| ->]; constructor; [reflexivity|reflexivity|repeat constructor; by vm_compute|by vm_compute|reflexivity
      |reflexivity|reflexivity|repeat constructor; by vm_compute|by vm_compute|reflexivity]. }
  split.
  - destruct (sasl_authenticates (plain userT passT) PLAIN
      (Some (byte_of_Z 0 :: userT ++ byte_of_Z 0 :: passT)) tt [None]
      [Some (byte_of_Z 0 :: userT ++ byte_of_Z 0 :: passT)] (handshakeT 0) (c 1) [] 1) as (c' & E & Ho & Eout & _);
      [reflexivity|reflexivity|by apply Hp; right|wf_concrete|reflexivity| |done|].
    { constructor; [split; [wf_concrete|by vm_compute]|constructor]. }
    exists c'. split; [exact E|]. split; [exact Ho|]. rewrite Eout. vm_compute. reflexivity.
  - destruct (sasl_authenticates (plain userT passT) PLAIN
      (Some (byte_of_Z 0 :: userT ++ byte_of_Z 0 :: passT)) tt [None]
      [Some (byte_of_Z 0 :: userT ++ byte_of_Z 0 :: passT)] (handshakeT 0) (c 0) [] 1) as (c' & E & Ho & Eout & _);
      [reflexivity|reflexivity|by apply Hp; left|wf_concrete|reflexivity| |done|].
    { constructor; [split; [wf_concrete|by vm_compute]|constructor]. }
    exists c'. split; [exact E|]. split; [exact Ho|]. rewrite Eout. vm_compute. reflexivity.
Defined.

(** A message that the broker does not answer because it closed the connection. *)
Lemma saslAuthenticate_eof c data :
  sasl_peer c [] [] → rd_err (c_rbuf c) = EOF → ∃ c', saslAuthenticate data c = (Failed EOF, c').
Proof.
  intros [Ho Hw Hb _ Hd] He. cbn [sasl_answers] in Hd. unfold saslAuthenticate. unfold mbind at 1, cm_bind at 1, get.
  destruct (_ >=? 1).
  - unfold call, do, doRequest, flush, mbind, cm_bind, get, request. cbn. rewrite Ho, Hw. cbn.
    unfold waitResponse, peekResponseSizeAndID, Peek. cbn. rewrite (proj2 (Z.ltb_ge _ _)) by lia. rewrite Hd. cbn.
    rewrite He. by eexists.
  - unfold saslAuthenticate_raw, mbind, cm_bind, flush. rewrite Ho, Hw. unfold read_rbuf, readInt32, peekRead, Peek. cbn.
    rewrite (proj2 (Z.ltb_ge _ _)) by lia. rewrite Hd. cbn. rewrite He. by eexists.
Qed.

(** An answer with an error code, which only a framed one has. *)
Lemma saslAuthenticate_error c data resp rest :
  framed c = true → sasl_peer c [] (response_block (int32 (c_correlationID c + 1)) (writeTo resp) ++ rest) →
  wf resp → len (writeTo resp) + 4 < 2 ^ 31 → sas_ErrorCode resp ≠ 0 →
  ∃ c', saslAuthenticate data c = (Failed (KafkaError (sas_ErrorCode resp)), c').
Proof.
  intros Ef [Ho Hw Hb _ Hd] Hwf Hsz Hz. cbn [sasl_answers] in Hd.
  unfold saslAuthenticate. unfold mbind at 1, cm_bind at 1, get. fold (framed c). rewrite Ef.
  erewrite cm_bind_done by (apply call_returns; [by constructor|done]).
  unfold check. cbn [list_find]. change (sas_ErrorCode (canon resp)) with (sas_ErrorCode resp).
  rewrite decide_True by done. by eexists.
Qed.

(** C36 sasl_rejected: with brokers of either kind, the error of the handshake is returned as it is
    and nothing more is sent; in every round of the exchange, the error of
    the mechanism is returned as it is, and a broker that closes the
    connection instead of answering gives SASLAuthenticationFailed; the error
    code of an answer, which only brokers with the handshake of version 1
    send, is returned as it is, in every round. *)
Theorem sasl_rejected m mech state s hs c fuel :
  me_Start m (me_init m) = (inr (mech, state), s) → wf hs →
  (∀ rest, prepared c [writeTo hs] rest → shs_ErrorCode hs ≠ 0 →
     authenticateSASL m fuel c =
     (Failed (KafkaError (shs_ErrorCode hs)),
      after c (next_request c Api.saslHandshakeRequest (handshake_version c) {| shr_Mechanism := mech |}) [] rest)) ∧
  (∀ answers msgs s' state', rounds m s state answers = Some (msgs, s', state') → Forall answer_ok answers →
     shs_ErrorCode hs = 0 → (length answers < fuel)%nat →
     let id := int32 (c_correlationID c + 1) in
     (prepared c [writeTo hs] (sasl_answers (framed c) id answers []) → rd_err (c_rbuf c) = EOF →
        (authenticateSASL m fuel c).1 = Failed (KafkaError Code.SASLAuthenticationFailed)) ∧
     (∀ a rest err s'', prepared c [writeTo hs] (sasl_answers (framed c) id (answers ++ [a]) rest) → answer_ok a →
        me_Next m s' (bnorm a) = (inl err, s'') → (authenticateSASL m fuel c).1 = Failed err) ∧
     (∀ resp rest, framed c = true →
        prepared c [writeTo hs] (sasl_answers true id answers
          (response_block (int32 (id_after (length answers) id + 1)) (writeTo resp) ++ rest)) →
        wf resp → len (writeTo resp) + 4 < 2 ^ 31 → sas_ErrorCode resp ≠ 0 →
        (authenticateSASL m fuel c).1 = Failed (KafkaError (sas_ErrorCode resp)))).
Proof.
  intros Hs Hw. split.
  { intros rest Hp Hz. unfold authenticateSASL. rewrite Hs. unfold mbind, cm_bind.
    rewrite (saslHandshake_answer mech hs c rest Hp Hw). unfold check. cbn. by rewrite decide_True. }
  intros answers msgs s' state' Hr Ha Hz Hf id.
  assert (∃ k, fuel = (length answers + S k)%nat) as [k ->] by (exists (fuel - length answers - 1)%nat; lia). clear Hf.
  split; [|split].
  - intros Hp He. rewrite <- (app_nil_r answers) in Hp, Ha.
    destruct (authenticateSASL_rounds m mech state s answers [] msgs s' state' hs c [] (S k) Hs Hr Hp Hw Hz Ha)
      as (c1 & c2 & E & Hp2 & Ha2 & _ & Herr & _). rewrite E. cbn [authenticate_loop].
    destruct (saslAuthenticate_eof c2 state' Hp2) as [c3 ->]; [|done]. by rewrite (sf_err _ _ _ Ha2), Herr.
  - intros a rest err s'' Hp Hoa Hn.
    destruct (authenticateSASL_rounds m mech state s answers [a] msgs s' state' hs c rest (S k) Hs Hr Hp Hw Hz)
      as (c1 & c2 & E & Hp2 & _). { apply Forall_app. split; [done|]. by constructor. }
    rewrite E. cbn [authenticate_loop]. destruct (saslAuthenticate_answer c2 state' a [] rest Hp2) as (c3 & -> & _).
    by rewrite Hn.
  - intros resp rest Ef Hp Hwr Hsz Hc. rewrite <- Ef in Hp. rewrite <- (app_nil_r answers) in Hp at 1. rewrite <- (app_nil_r answers) in Ha.
    destruct (authenticateSASL_rounds m mech state s answers [] msgs s' state' hs c _ (S k) Hs Hr Hp Hw Hz Ha)
      as (c1 & c2 & E & Hp2 & Ha2 & Hcfg & _ & Hid & _). rewrite E. cbn [authenticate_loop].
    assert (framed c2 = true) as Ef2 by (rewrite <- Ef; unfold framed, maxVersion; by rewrite (sf_cfg _ _ _ Ha2), Hcfg).
    assert (c_correlationID c2 = id_after (length answers) id) as Eid.
    { assert (framed c1 = true) as Ef1 by (rewrite <- Ef; unfold framed, maxVersion; by rewrite Hcfg).
      rewrite (sf_id _ _ _ Ha2), Ef1, Hid. by rewrite (rounds_length _ _ _ _ _ _ _ Hr). }
    rewrite <- Eid in Hp2. by destruct (saslAuthenticate_error c2 state' resp rest Ef2 Hp2 Hwr Hsz Hc) as [c3 ->].
Qed.

Lemma sasl_rejected_witness :
  let c := sasl_conn 0 (handshake_bytes 0 []) in
  (authenticateSASL (plain userT passT) 1 c).1 = Failed (KafkaError Code.SASLAuthenticationFailed).
Proof.
  intros c. destruct (sasl_rejected (plain userT passT) PLAIN
    (Some (byte_of_Z 0 :: userT ++ byte_of_Z 0 :: passT)) tt (handshakeT 0) c 1) as [_ H].
  - reflexivity.
  - wf_concrete.
  - destruct (H [] [] tt (Some (byte_of_Z 0 :: userT ++ byte_of_Z 0 :: passT))) as [He _];
      [reflexivity|constructor|reflexivity|cbn; lia|].
    apply He; [|reflexivity].
    constructor; [reflexivity|reflexivity|repeat constructor; by vm_compute|by vm_compute|reflexivity].
Defined.

(** ** Lookups *)

Definition partitions_in (c : conn) (resp : metadataResponseV1) : goerror + list Partition :=
  collectPartitions (cfg_topic (c_cfg c)) (brokers_by_id (ms_Brokers resp)) (ms_Topics resp).

Lemma readResponse_reads {A} (m : rd A) bs a r rest :
  reads m bs a → 16 ≤ rd_bufsize r →
  readResponse m (with_data r (bs ++ rest)) (len bs) = (inr a, (0, with_data r rest)).
Proof.
  intros Hm Hb. unfold readResponse. rewrite (Hm r (len bs) rest) by lia. by rewrite Z.sub_diag.
Qed.

(** [ReadPartitions] for a well-formed response. *)
Lemma ReadPartitions_returns c topic resp rest :
  expects c (writeTo resp) rest → wf resp →
  ReadPartitions [topic] c =
  (may_fail (partitions_in c (canon resp)),
   sent c (next_request c Api.metadataRequest Api.v1 ([topic] : topicMetadataRequestV1)) rest).
Proof.
  intros He Hw. unfold ReadPartitions. unfold mbind at 1, cm_bind at 1, get. rewrite decide_False by naive_solver.
  unfold readOperation. rewrite (do_expects rdeadline _ _ c (writeTo resp) rest _ He eq_refl).
  unfold do_read, mbind, cm_bind, read_rbuf, read_partitions. unfold mbind, rd_bind.
  cbn [c_rbuf sent set_rbuf].
  rewrite (readResponse_reads metadataResponseV1_read (writeTo resp) (canon resp) _ rest);
    [|by apply (codec_reads resp)|apply (ex_bufsize _ _ _ He)].
  unfold partitions_in, next_request.
  assert (∀ connTopic brokers topics e, collectPartitions connTopic brokers topics = inl e →
    is_kafka_Error (Some e) = true) as Hk.
  { intros connTopic brokers topics. induction topics as [|t topics IH]; intros e; cbn [collectPartitions]; [done|].
    destruct (_ && _); [by intros [= <-]|]. destruct (collectPartitions _ _ topics); [|done].
    intros [= <-]. by apply IH. }
  destruct (collectPartitions _ _ _) as [e|ps] eqn:Ec; [|done].
  apply Hk in Ec. cbn in Ec. by destruct e.
Qed.

(** A response after which the lookup tries again. *)
Definition inconclusive (c : conn) (partition : Z) (resp : metadataResponseV1) : Prop :=
  match partitions_in c (canon resp) with
  | inl err => isTemporary (Some err) = true
  | inr ps => Forall (λ p, pt_ID p ≠ partition) ps
  end.

(** C21 lookup_finds: the goroutine of [LookupPartition] retries after the temporary errors of the
    metadata and while the partition is not listed, as long as the context
    lets it pause, and returns the partition of the first response that lists
    it, with the leader that the response names; it reads exactly the
    responses up to that one. *)
Theorem lookup_finds ctx topic partition resps resp ps k p c rest tries :
  prepared c (map writeTo (resps ++ [resp])) rest → Forall wf (resps ++ [resp]) →
  Forall (inconclusive c partition) resps →
  partitions_in c (canon resp) = inr ps → list_find (λ p, pt_ID p = partition) ps = Some (k, p) →
  (∀ n, (0 < n ≤ length resps)%nat → cx_awake ctx n = true) → (length resps < tries)%nat →
  ∃ c', lookup_loop tries ctx 0 topic partition c = (Done p, c') ∧ rd_data (c_rbuf c') = rest ∧
    c_closed c' = false ∧ pt_ID p = partition.
Proof.
  intros Hp Hw Hi Hps Hf Ha Ht.
  enough (∀ attempt : nat, (∀ n, (0 < n ≤ attempt + length resps)%nat → cx_awake ctx n = true) →
    ∃ c', lookup_loop tries ctx attempt topic partition c = (Done p, c') ∧ rd_data (c_rbuf c') = rest ∧
      c_closed c' = false ∧ pt_ID p = partition) as H by (by apply (H 0%nat)).
  clear Ha. revert tries Ht c Hp Hi Hps. induction resps as [|r resps IH];
    intros [|tries] Ht c Hp Hi Hps attempt Ha; cbn in Ht; try lia; cbn [lookup_loop].
  all: assert (negb (attempt =? 0)%nat && negb (cx_awake ctx attempt) = false) as ->
    by (destruct (Nat.eqb_spec attempt 0); [done|rewrite Ha by lia; done]).
  all: cbn [app] in Hw; apply Forall_cons_1 in Hw as [Hwr Hw]; cbn [app map] in Hp.
  all: rewrite (ReadPartitions_returns c topic _ _ (prepared_expects _ _ _ _ Hp) Hwr).
  - rewrite Hps. cbn [may_fail]. rewrite Hf. eexists. split; [done|]. split; [done|].
    split; [apply (pr_open _ _ _ Hp)|]. by apply list_find_Some in Hf as (_ & ? & _).
  - apply Forall_cons_1 in Hi as [Hir Hi]. unfold inconclusive in Hir.
    pose proof (prepared_after c _ _ rest
      (next_request c Api.metadataRequest Api.v1 ([topic] : topicMetadataRequestV1)) Hp) as Hp'.
    assert (∀ n, (0 < n ≤ S attempt + length resps)%nat → cx_awake ctx n = true) as Ha'
      by (intros n Hn; apply Ha; cbn; lia).
    destruct (partitions_in c (canon r)) as [err|ps'] eqn:Er; cbn [may_fail].
    + rewrite Hir. by apply (IH Hw tries ltac:(lia) _ Hp').
    + assert (list_find (λ p, pt_ID p = partition) ps' = None) as -> by (by apply list_find_None).
      by apply (IH Hw tries ltac:(lia) _ Hp').
Qed.

(** Finding lookup_never_unknown: a partition that does not exist is never reported: the lookup
    retries until its context is done, and the UnknownTopicOrPartition after
    its loop is not reached; that error of the broker is a temporary one. *)
Lemma lookup_never_unknown tries ctx attempt topic partition c :
  cx_err ctx ≠ KafkaError Code.UnknownTopicOrPartition →
  (lookup_loop tries ctx attempt topic partition c).1 ≠ Failed (KafkaError Code.UnknownTopicOrPartition).
Proof.
  intros He. revert attempt c. induction tries as [|tries IH]; intros attempt c; cbn [lookup_loop]; [done|].
  destruct (_ && _); [cbn; congruence|].
  destruct (ReadPartitions [topic] c) as [[ps|err|] c1]; [|destruct (isTemporary (Some err)) eqn:Et|done].
  - destruct (list_find _ _) as [[]|]; [done|apply IH].
  - apply IH.
  - cbn. intros [= ->]. done.
Qed.

Definition topicL : gostring := map byte_of_Z [116].

(** Metadata with one broker that leads the partitions [ids]. *)
Definition metadataT (code : Z) (ids : list Z) : metadataResponseV1 :=
  {| ms_Brokers := [{| bm_NodeID := 7; bm_Host := map byte_of_Z [104]; bm_Port := 9092; bm_Rack := [] |}];
     ms_ControllerID := 7;
     ms_Topics := [{| tm_TopicErrorCode := code; tm_TopicName := topicL; tm_Internal := false;
       tm_Partitions := map (λ id, {| pm_PartitionErrorCode := 0; pm_PartitionID := id; pm_Leader := 7;
                                      pm_Replicas := [7]; pm_Isr := [7] |}) ids |}] |}.

Definition brokerT : Broker := {| br_Host := map byte_of_Z [104]; br_Port := 9092; br_ID := 7; br_Rack := [] |}.

Definition partitionT (id : Z) : Partition :=
  {| pt_Topic := topicL; pt_Leader := brokerT; pt_Replicas := [brokerT]; pt_Isr := [brokerT]; pt_ID := id |}.

Definition always : context := {| cx_awake := λ _, true; cx_done := false; cx_err := ContextCanceled |}.

(** A leader election, then a partition that is not there yet, then the answer. *)
Lemma lookup_finds_witness :
  let resps := [metadataT Code.LeaderNotAvailable []; metadataT 0 [0]] in
  let c := sample_conn (script 0 (map writeTo (resps ++ [metadataT 0 [0; 1]])) []) in
  ∃ c', lookup_loop 3 always 0 topicL 1 c = (Done (partitionT 1), c') ∧ rd_data (c_rbuf c') = [] ∧
    c_closed c' = false ∧ pt_ID (partitionT 1) = 1.
Proof.
  intros resps c. apply (lookup_finds always topicL 1 resps (metadataT 0 [0; 1]) [partitionT 0; partitionT 1] 1
    (partitionT 1) c [] 3).
  - constructor; [reflexivity|reflexivity| |by vm_compute|reflexivity].
    repeat (apply Forall_cons_2; [by vm_compute|]). apply Forall_nil_2.
  - wf_concrete.
  - apply Forall_cons_2; [by vm_compute|]. apply Forall_cons_2; [|apply Forall_nil_2].
    unfold inconclusive. apply Forall_cons_2; [by vm_compute|apply Forall_nil_2].
  - by vm_compute.
  - by vm_compute.
  - reflexivity.
  - cbn. lia.
Defined.

(** ** Addresses *)

(** Fact leader_address: the address that [DialPartition] makes of a leader splits into its host, an
    IPv6 address included, and the decimal numeral of its port; with a
    resolver, the host is what is resolved, and the address that is dialed
    has the first host found, or the leader's own when none is, with the same
    port. *)
Theorem leader_address (lookup : gostring → goerror + list gostring) (leader : Broker) :
  let address := JoinHostPort (br_Host leader) (itoa (br_Port leader)) in
  no_brackets (br_Host leader) → 0 ≤ br_Port leader < 2 ^ 63 →
  splitHostPort address = (br_Host leader, itoa (br_Port leader)) ∧
  decimal (itoa (br_Port leader)) = br_Port leader ∧
  (∀ addrs, lookup (br_Host leader) = inr addrs →
     resolved (Some lookup) address =
     inr (JoinHostPort (default (br_Host leader) (fst <$> (splitHostPort <$> head addrs))) (itoa (br_Port leader)))) ∧
  (∀ err, lookup (br_Host leader) = inl err → resolved (Some lookup) address = inl err).
Proof.
  intros address Hb Hp. destruct (itoa_plain (br_Port leader)) as (Hn & Hc & He); [lia|].
  assert (splitHostPort address = (br_Host leader, itoa (br_Port leader))) as E by (by apply splitHostPort_join).
  split; [exact E|]. split.
  - unfold itoa. rewrite (proj2 (Z.ltb_ge _ _)) by lia.
    rewrite digits_value by (change (10 ^ Z.of_nat 20) with 100000000000000000000; lia).
    change (decimal []) with 0. change (10 ^ len []) with 1. lia.
  - split.
    + intros addrs Hl. unfold resolved. rewrite E, Hl, decide_False by done.
      destruct addrs as [|a addrs]; cbn; [by rewrite E|done].
    + intros err Hl. unfold resolved. by rewrite E, Hl.
Qed.

(** The leader [::1]:9092, resolved to "h:1". *)
Definition leader6 : Broker :=
  {| br_Host := map byte_of_Z [58; 58; 49]; br_Port := 9092; br_ID := 1; br_Rack := [] |}.

Lemma leader_address_witness :
  resolved (Some (λ _, inr [map byte_of_Z [104; 58; 49]])) (JoinHostPort (br_Host leader6) (itoa 9092)) =
  inr (map byte_of_Z [104; 58; 57; 48; 57; 50]).
Proof.
  destruct (leader_address (λ _, inr [map byte_of_Z [104; 58; 49]]) leader6) as (_ & _ & H & _).
  - split; apply index_None; by vm_compute.
  - cbn. lia.
  - transitivity (inr (A:=goerror) (JoinHostPort (map byte_of_Z [104]) (itoa 9092))); [exact (H _ eq_refl)|by vm_compute].
Defined.

(** ** Deadlines *)

(** Finding dial_unbounded: [DialContext] waits no longer than the timeout and the deadline of the
    dialer and the context of the caller allow, but [DialPartition], and so
    [DialLeader], which dials the leader of a partition through it, waits as long
    as the context allows: without a deadline there, forever. *)
Lemma dial_unbounded timeout deadline now ctx :
  (timeout ≠ 0 ∨ Time.IsZero deadline = false →
   ∃ t, DialContext_deadline timeout deadline now ctx = Some t ∧ (∀ t', ctx = Some t' → t ≤ t') ∧
     (timeout ≠ 0 → t ≤ now + timeout) ∧ (Time.IsZero deadline = false → t ≤ deadline)) ∧
  DialPartition_deadline timeout deadline now None = None.
Proof.
  split; [|done]. intros Hb. unfold DialContext_deadline, earlier, Time.Add. cbn zeta.
  destruct (Z.eqb_spec timeout 0), (Time.IsZero deadline) eqn:E, ctx; try (exfalso; by destruct Hb); eexists;
    (split; [reflexivity|]); (split; [intros ? [= <-] || done|]); try lia; split; intros; try done; lia.
Qed.
