(* ===== verification/LifecycleProps.v ===== *)
(** * Properties of the life of a reader

    What holds in every interleaving of the goroutines of a [Reader], and that
    [Close] returns. *)

From S2P Require Import Prelude Lifecycle.

(** C19 lifecycle_safe: in every interleaving of the main loop, the loops of a generation, the
    readers of partitions and any number of calls of [Close], nothing is sent
    on the channel of messages after it was closed and it is closed once; the
    loops run only while the connection of their handshake is open; a group
    is joined again only when all loops and all readers of the generation
    before have returned. *)
Theorem lifecycle_safe group watch n evs s :
  lc_run evs (lc_init group watch n) = Some s →
  lc_panicked s = false ∧
  ((0 < rg_running (lc_rg s))%nat → lc_conn s = true) ∧
  (lc_group s = true → lc_pc s = HRebalance → rg_running (lc_rg s) = 0%nat ∧ lc_readers s = []) ∧
  (lc_chanClosed s = true → lc_readers s = [] ∧ rg_running (lc_rg s) = 0%nat ∧ lc_conn s = false).
Proof.
  intros E. pose proof (lc_run_inv _ _ _ (lc_init_inv group watch n) E) as H.
  split; [apply (v_panic _ H)|]. split; [|split].
  - intros Hr. rewrite (v_conn _ H). pose proof (v_loops _ H) as Hl.
    destruct (lc_pc s); cbn in *; (done || (specialize (Hl eq_refl); lia)).
  - intros Hg Hpc. split; [apply (v_loops _ H)|apply (v_join _ H)]; by rewrite ?Hpc.
  - intros Hc. destruct (v_chan _ H Hc) as (_ & Hr & Hd). apply (v_done _ H) in Hd.
    rewrite (v_conn _ H), Hd. split; [done|]. split; [|done]. apply (v_loops _ H). by rewrite Hd.
Qed.

(** A generation with two partitions that a loop ends by itself, a second
    handshake, and two calls of [Close] that meet it. *)
Definition lifeT : list lc_event :=
  [EHandshake; EHandshake; EAnswer true 0; EAnswer true 0; EAnswer true 2; EAnswer true 2;
   EReader 0 (RAnswer AReady); EReader 0 RWake; EReader 0 (RAnswer AMessage); EReader 0 RSend;
   ELoop 0 (LWork true); ELoop 0 (LAnswer false); ELoop 0 (LStop true); ELoop 0 (LAnswer true);
   EHandshake; EHandshake; EHandshake; EHandshake; EReader 0 (RAnswer AEnd); EReader 0 RCancelled;
   EReader 0 (RAnswer AFailed); EReader 0 RCancelled; EHandshake; EAnswer true 0; EAnswer true 0;
   EClose 0; EClose 1; EAnswer true 2; EClose 1; EClose 0; EClose 0].

Definition life1 : lifecycle :=
  Eval vm_compute in default (lc_init true false 2) (lc_run lifeT (lc_init true false 2)).

Lemma life1_run : lc_run lifeT (lc_init true false 2) = Some life1.
Proof. by vm_compute. Qed.

Lemma lifecycle_safe_witness :
  lc_pc life1 = HSubscribe ∧ rg_running (lc_rg life1) = 2%nat ∧ lc_closers life1 = [CStopped false; CCancelled true] ∧
  lc_conn life1 = true ∧ lc_panicked life1 = false.
Proof.
  split; [done|]. split; [done|]. split; [done|].
  destruct (lifecycle_safe true false 2 lifeT life1 life1_run) as (Hp & Hc & _). split; [apply Hc; cbn; lia|exact Hp].
Defined.


Definition endT : list lc_event :=
  [EAnswer true 3; ELoop 0 (LStop false); EClose 1; ELoop 0 (LStop false); EClose 0; EHandshake; EClose 1; EHandshake;
   EAnswer true 0; EHandshake; EClose 1; EClose 0].

Definition life2 : lifecycle := Eval vm_compute in default life1 (lc_run endT life1).

Lemma life2_run : lc_run endT life1 = Some life2.
Proof. by vm_compute. Qed.

(** Nothing is left to do in [life2]. *)
Lemma life2_stuck ev s : lc_step ev life2 = Some s → False.
Proof.
  destruct ev as [|ok k| |k|i ev|i ev|i]; cbn; try done. by destruct i as [|[|i]].
Qed.


(** A call of [Close] while the handshake waits to join the group. *)
Definition hangT : list lc_event :=
  [EHandshake; EHandshake; EAnswer true 0; EAnswer true 0; EClose 0; EClose 0; EClose 0; EClose 0].

(** Finding close_hangs: [Close] has stopped the reader and waits for the main loop, which
    waits for the answer to a request on the connection to the coordinator.
    That connection has no deadline and [Close] does not close it: nothing can
    happen until the broker answers or the connection fails. *)
Lemma close_hangs :
  ∃ s, lc_run hangT (lc_init true false 1) = Some s ∧ lc_stopped s = true ∧ lc_closers s = [CJoined false] ∧
    ∀ ev s', lc_step ev s = Some s' → ∃ ok n, ev = EAnswer ok n.
Proof.
  eexists. split; [vm_compute; reflexivity|]. split; [done|]. split; [done|].
  intros [|ok k| |k|i ev|i ev|i] s'; cbn; try done; [by eauto|]. by destruct i as [|i].
Qed.
