(* ===== verification/FetchProps.v ===== *)
(** * From the log of the broker to the messages of a batch

    Messages that were stored in a partition and are fetched in a response of
    version 2: what the batch made of the response delivers, and where the
    connection is when it is closed. *)

From S2P Require Import Prelude Errors Time Bufio Read Write VarInt Wire.
From S2P Require Import Protocol Messages DataRequests FetchResponse MessageSet MessageSetRead MessageSetProps.
From S2P Require Import Conn ConnOps Batch ConnProps.

(** [n] calls of [Batch.ReadMessage]. *)
Fixpoint batch_drain (codecs : codec_registry) (loops fuel : nat) (now : Z) (n : nat) (b : batch) (c : conn) :
    list (outcome Message) * batch * conn :=
  match n with
  | O => ([], b, c)
  | S n =>
    let '(res, b, c) := batch_ReadMessage codecs loops fuel now b c in
    let '(l, b, c) := batch_drain codecs loops fuel now n b c in (res :: l, b, c)
  end.

(** A message of the log as the batch returns it: the topic and partition of
    the connection, a nil key or value for an empty one, the time in
    milliseconds. *)
Definition delivered (cfg : connCfg) (msg : Message) : Message :=
  {| msg_Topic := cfg_topic cfg; msg_Partition := cfg_partition cfg; msg_Offset := msg_Offset msg;
     msg_Key := bnorm (msg_Key msg); msg_Value := bnorm (msg_Value msg); msg_Headers := [];
     msg_Time := Time.timestampToTime (Time.timestamp (msg_Time msg)) |}.

(** The log from an offset on. *)
Definition log_from (offset : Z) (log : list Message) : list Message :=
  List.filter (λ msg, offset <=? msg_Offset msg) log.

(** A part of a log: messages that can be stored, with increasing offsets. *)
Record log_ok (log : list Message) : Prop := {
  lg_ok : Forall message_ok log;
  lg_last : Forall (λ msg, msg_Offset msg < 2 ^ 63 - 1) log;
  lg_sorted : StronglySorted (λ m m', msg_Offset m < msg_Offset m') log;
}.

(** The offset after the last message of [log], or [offset]. *)
Definition offset_after (offset : Z) (log : list Message) : Z :=
  default offset ((λ msg, msg_Offset msg + 1) <$> last log).

(** The reader of a set whose messages [log] are left. *)
Definition set_at (r : bufreader) (log : list Message) (tail : list byte) : messageSetReader :=
  SetV1 (Stack [] (Frame (with_data r (enc_set log ++ tail)) (len (enc_set log)) 0) false).

Lemma log_from_all offset log : Forall (λ msg, offset ≤ msg_Offset msg) log → log_from offset log = log.
Proof.
  induction 1 as [|msg log Ho _ IH]; [done|]. cbn [log_from List.filter].
  rewrite (proj2 (Z.leb_le _ _) Ho). f_equal. exact IH.
Qed.

(** One call finds the next message and puts the offset of the batch behind it. *)
Lemma batch_ReadMessage_next codecs fuel now b c r log tail msg rest cfg :
  b_err b = None → b_msgs b = Some (set_at r log tail) → Forall message_ok log → 16 ≤ rd_bufsize r →
  (length log ≤ fuel)%nat → c_offset c ≤ b_offset b → b_topic b = cfg_topic cfg → b_partition b = cfg_partition cfg →
  next_message (b_offset b) 0 log = Some (msg, rest) → is_int64 (msg_Offset msg) → b_offset b ≤ msg_Offset msg →
  batch_ReadMessage codecs 1 fuel now b c =
  (Done (delivered cfg msg), set_boffset (set_msgs b (set_at r rest tail)) (int64 (msg_Offset msg + 1)),
   share (set_at r rest tail) c).
Proof.
  intros He Hm Hok Hb Hf Hc Ht Hp Hn Ho Hge.
  unfold batch_ReadMessage, batch_ReadMessage_loop, batch_readMessage. rewrite He, Hm. unfold set_at at 1. cbn [readMessage].
  rewrite (V1_finds codecs readNewBytes readNewBytes bnorm bnorm readNewBytes_reads_as
    readNewBytes_reads_as log msg rest fuel (b_offset b)
    (Stack [] (Frame (with_data r (enc_set log ++ tail)) (len (enc_set log)) 0) false) r 0 tail Hn Hok eq_refl Hb eq_refl Hf).
  cbn [mr_offset mr_key mr_value mr_headers mr_timestamp]. rewrite Z.add_0_r, (wrapS_id 64 (msg_Offset msg)) by (done || lia).
  cbn [share bottom_reader c_offset set_rbuf set_at].
  rewrite (proj2 (Z.ltb_ge (msg_Offset msg) (c_offset c))), andb_false_r by lia.
  unfold delivered. cbn [b_topic b_partition set_boffset set_msgs]. by rewrite Ht, Hp.
Qed.

Lemma next_message_log offset log :
  Forall message_ok log →
  match next_message offset 0 log with
  | Some (msg, rest) => log_from offset log = msg :: log_from offset rest ∧ (∃ pre, log = pre ++ msg :: rest) ∧
                        offset ≤ msg_Offset msg
  | None => log_from offset log = []
  end.
Proof.
  induction 1 as [|msg log (Ho & _) _ IH]; [done|]. cbn [next_message log_from List.filter]. fold (log_from offset log).
  rewrite Z.add_0_r, wrapS_id by (done || lia). rewrite Z.leb_antisym.
  destruct (Z.ltb_spec (msg_Offset msg) offset); cbn [negb].
  - destruct (next_message offset 0 log) as [[m rest]|]; [|done].
    destruct IH as (-> & [pre ->] & ?). split; [done|]. split; [by exists (msg :: pre)|done].
  - split; [done|]. split; [by exists []|done].
Qed.

Lemma log_ok_suffix pre msg rest :
  log_ok (pre ++ msg :: rest) →
  log_ok rest ∧ message_ok msg ∧ msg_Offset msg < 2 ^ 63 - 1 ∧
  Forall (λ m, msg_Offset msg + 1 ≤ msg_Offset m) rest.
Proof.
  intros [Hok Hl Hs]. apply Forall_app in Hok as [_ Hok]. apply Forall_cons_1 in Hok as [Hm Hok].
  apply Forall_app in Hl as [_ Hl]. apply Forall_cons_1 in Hl as [Hlm Hl].
  assert (StronglySorted (λ m m', msg_Offset m < msg_Offset m') (msg :: rest)) as Hs'.
  { clear -Hs. induction pre as [|x pre IH]; [done|]. by apply IH; inversion Hs. }
  inversion Hs' as [|? ? Hsr Hf]; subst. split; [by constructor|]. split; [done|]. split; [done|].
  eapply Forall_impl; [exact Hf|]. cbn. lia.
Qed.

Lemma offset_after_cons offset msg rest :
  offset_after offset (msg :: rest) = offset_after (msg_Offset msg + 1) rest.
Proof. unfold offset_after. rewrite last_cons. by destruct (last rest). Qed.

(** The calls deliver the log from the offset of the batch on, and leave it
    behind the last message. *)
Lemma batch_drain_log codecs fuel now cfg r tail b c log :
  b_err b = None → b_msgs b = Some (set_at r log tail) → log_ok log → 16 ≤ rd_bufsize r →
  (length log ≤ fuel)%nat → c_offset c ≤ b_offset b → b_topic b = cfg_topic cfg → b_partition b = cfg_partition cfg →
  ∃ b' c' rest, batch_drain codecs 1 fuel now (length (log_from (b_offset b) log)) b c =
    (map (λ m, Done (delivered cfg m)) (log_from (b_offset b) log), b', c') ∧
    b_err b' = None ∧ b_msgs b' = Some (set_at r rest tail) ∧ b_attached b' = b_attached b ∧
    b_offset b' = offset_after (b_offset b) (log_from (b_offset b) log) ∧ c_closed c' = c_closed c.
Proof.
  remember (length (log_from (b_offset b) log)) as n eqn:En. revert log b c En.
  induction n as [|n IH]; intros log b c En He Hm Hlog Hb Hf Hc Ht Hp.
  { destruct (log_from (b_offset b) log); [|done]. exists b, c, log. done. }
  pose proof (next_message_log (b_offset b) log (lg_ok _ Hlog)) as Hn.
  destruct (next_message (b_offset b) 0 log) as [[msg rest]|] eqn:Enext; [|by rewrite Hn in En].
  destruct Hn as (Hfrom & [pre ->] & Hge).
  destruct (log_ok_suffix _ _ _ Hlog) as (Hrest & (Ho & Hko) & Hlast & Hafter).
  rewrite Hfrom in *. cbn [length] in En. injection En as En. cbn [batch_drain map].
  rewrite (batch_ReadMessage_next codecs fuel now b c r _ tail msg rest cfg He Hm (lg_ok _ Hlog) Hb Hf Hc Ht Hp Enext Ho Hge).
  assert (int64 (msg_Offset msg + 1) = msg_Offset msg + 1) as Ei by (apply wrapS_id; unfold inS in *; lia). rewrite Ei.
  set (b1 := set_boffset _ _). set (c1 := share _ c).
  assert (log_from (b_offset b) rest = log_from (b_offset b1) rest) as Er.
  { rewrite !log_from_all; [done|exact Hafter|]. eapply Forall_impl; [exact Hafter|]. cbn. lia. }
  rewrite Er in *. rewrite length_app in Hf. cbn in Hf.
  destruct (IH rest b1 c1 En He eq_refl Hrest Hb ltac:(lia) ltac:(cbn; lia) Ht Hp)
    as (b' & c' & rest' & E & He' & Hm' & Ha' & Hoff & Hcl).
  exists b', c', rest'. rewrite E. split; [done|]. split; [done|]. split; [done|]. split; [done|]. split; [|done].
  by rewrite Hoff, offset_after_cons.
Qed.

(** The version of a set is the byte behind the first sixteen. *)
Lemma newMessageSetReader_version r pre version post tail :
  17 ≤ rd_bufsize r → len pre = 16 → is_int8 version →
  let bs := pre ++ writeInt8 version ++ post in
  let s := Stack [] (Frame (with_data r (bs ++ tail)) (len bs) 0) false in
  newMessageSetReader (with_data r (bs ++ tail)) (len bs) =
  if (version =? 0) || (version =? 1) then inr (SetV1 s)
  else if version =? 2 then inr (SetV2 {| v2_stack := s; v2_messageCount := 0; v2_header := zeroHeaderV2 |})
  else inl (Errorf unsupported_version version).
Proof.
  intros Hb Hp Hv. cbn zeta. unfold newMessageSetReader. pose proof (len_nonneg post). pose proof (len_nonneg tail).
  assert (len (writeInt8 version) = 1) as E1 by done.
  rewrite Z.gtb_ltb, (proj2 (Z.ltb_ge _ _)) by (rewrite !len_app; lia). unfold Peek. cbn [rd_bufsize rd_data with_data].
  rewrite (proj2 (Z.ltb_ge _ 0)) by lia. rewrite (proj2 (Z.ltb_ge (rd_bufsize r) _)) by lia.
  rewrite (proj2 (Z.leb_le _ _)) by (rewrite !len_app; lia).
  assert (nth (Z.to_nat (8 + 4 + 4 + 1 - 1)) (ztake (8 + 4 + 4 + 1) ((pre ++ writeInt8 version ++ post) ++ tail)) x00 =
          byte_of_Z version) as ->.
  { replace ((pre ++ writeInt8 version ++ post) ++ tail) with ((pre ++ writeInt8 version) ++ post ++ tail)
      by (by rewrite <- !app_assoc).
    rewrite ztake_app by (rewrite len_app; lia). rewrite app_nth2; unfold len in Hp; [|lia].
    replace (_ - _)%nat with 0%nat by lia. done. }
  assert (int8 (Z_of_byte (byte_of_Z version)) = version) as ->; [|done].
  rewrite Z_of_byte_of_Z, (wrapS_mod 8) by lia. by apply wrapS_id.
Qed.

Lemma newMessageSetReader_v1 r msg log tail :
  17 ≤ rd_bufsize r →
  newMessageSetReader (with_data r (enc_set (msg :: log) ++ tail)) (len (enc_set (msg :: log))) =
  inr (set_at r (msg :: log) tail).
Proof.
  intros Hb. unfold set_at.
  assert (∃ pre post, enc_set (msg :: log) = pre ++ writeInt8 1 ++ post ∧ len pre = 16) as (pre & post & E & Hp).
  { unfold enc_set. cbn [map concat]. unfold enc_message at 1. rewrite writeMessage_head. unfold message_head, magicByte.
    eexists (writeInt64 _ ++ writeInt32 _ ++ writeInt32 _), _. rewrite <- !app_assoc. split; [reflexivity|].
    unfold writeInt64, writeInt32. by rewrite !len_app, !len_be_put. }
  rewrite E. by rewrite newMessageSetReader_version.
Qed.

(** The response that carries [log]. *)
Definition fetched (throttle : Z) (cfg : connCfg) (hw : Z) (log : list Message) : fetchResponseV2 :=
  fetchResponseV2_of throttle (cfg_topic cfg) (cfg_partition cfg) 0 hw (map (item_of 0) log).

Lemma enc_set_items log : enc_set log = writeTo (map (item_of 0) log : messageSet).
Proof. apply (concat_writeMessage 0 log). Qed.

(** The header of the response, with the messages left in the buffer. *)
Lemma fetched_header cfg r throttle hw log rest :
  let bs := writeTo (fetched throttle cfg hw log) in
  cfg_fetchVersion cfg = 2 → 16 ≤ rd_bufsize r → len bs < 2 ^ 31 →
  is_int32 throttle → wf_string (cfg_topic cfg) → is_int32 (cfg_partition cfg) → is_int64 hw →
  readFetchResponseHeader cfg (with_data r (bs ++ rest)) (len bs) =
  (inr (throttle, hw), (len (enc_set log), with_data r (enc_set log ++ rest))).
Proof.
  intros bs Hv Hb Hl Ht Htop Hp Hh. subst bs. rewrite enc_set_items. set (ms := map (item_of 0) log : messageSet).
  unfold fetched in *. fold ms in Hl |- *. rewrite fetchResponseV2_bytes in *. rewrite len_app in Hl.
  pose proof (len_nonneg (writeTo ms)). pose proof (len_nonneg (fetchHeader_bytes throttle (cfg_topic cfg) (cfg_partition cfg) 0 hw (size ms))).
  assert (size ms = len (writeTo ms)) as Es by (rewrite size_writeTo; apply wrapS_id; unfold inS; lia).
  unfold readFetchResponseHeader. rewrite Hv, <- app_assoc, len_app. change (2 =? Api.v5) with false. cbn match.
  rewrite readFetchResponseHeaderV2_run; [|lia|done|done|done|done|done|by rewrite Es; unfold inS; lia|lia].
  by rewrite Es, !Z.eqb_refl.
Qed.

Lemma openBatch_fetched cfg offset deadline now c r throttle hw msg log rest :
  let bs := writeTo (fetched throttle cfg hw (msg :: log)) in
  cfg_fetchVersion cfg = 2 → c_rbuf c = with_data r (bs ++ rest) → 17 ≤ rd_bufsize r → len bs < 2 ^ 31 →
  is_int32 throttle → wf_string (cfg_topic cfg) → is_int32 (cfg_partition cfg) → is_int64 hw → hw ≠ offset →
  openBatch cfg offset deadline now (len bs) c =
  ({| b_attached := true; b_msgs := Some (set_at r (msg :: log) rest); b_deadline := deadline;
      b_throttle := Time.duration throttle; b_topic := cfg_topic cfg; b_partition := cfg_partition cfg;
      b_offset := offset; b_highWaterMark := hw; b_err := None |},
   set_rbuf c (with_data r (enc_set (msg :: log) ++ rest))).
Proof.
  intros bs Hv Hr Hb Hl Ht Htop Hp Hh Hne. subst bs.
  unfold openBatch. rewrite Hr, fetched_header by (done || lia).
  rewrite (proj2 (Z.eqb_neq _ _) Hne). by rewrite newMessageSetReader_v1.
Qed.

Lemma batch_Close_set b c r log tail :
  b_msgs b = Some (set_at r log tail) → b_err b = None → b_attached b = true →
  ∃ b' c', batch_Close b c = (None, b', c') ∧ c_rbuf c' = with_data r tail ∧ c_offset c' = b_offset b ∧
    c_closed c' = c_closed c.
Proof.
  intros Hm He Ha. unfold batch_Close. rewrite Hm. unfold set_at, set_discard, V1_discard. cbn [is_nil rs_popped].
  assert (∀ popped base, on_top (discardN (len (enc_set log)))
    (Stack [] (Frame (with_data r (enc_set log ++ tail)) (len (enc_set log)) base) popped) =
    (inr tt, Stack [] (Frame (with_data r tail) 0 base) popped)) as Hd.
  { intros popped base. unfold on_top, on_frame. cbn [top rs_inner rs_bottom fr_reader fr_remain fr_base set_top].
    pose proof (len_nonneg (enc_set log)). unfold discardN. rewrite Z.leb_refl. unfold Discard. cbn [rd_data with_data].
    rewrite (proj2 (Z.ltb_ge _ 0)) by lia. rewrite (proj2 (Z.leb_le _ _)) by (rewrite len_app; pose proof (len_nonneg tail); lia).
    rewrite zdrop_app by done. cbn. by rewrite Z.sub_diag. }
  cbn [top rs_inner rs_bottom fr_remain]. rewrite Hd.
  cbn [set_msgs b_err b_attached snd share bottom_reader rs_bottom fr_reader]. rewrite He, Ha. cbn.
  do 2 eexists. done.
Qed.

(** C1 fetch_delivers: a partition whose log, from any offset on, is returned in a fetch
    response of version 2, as an uncompressed set of format 1 with at least one
    message, is read as it was stored, if the high water mark is not the offset
    that was asked for and the connection was not already past that offset: the
    batch delivers the messages at or after the offset that was asked for, each
    once and in order, under the topic and partition of the connection, with
    their offsets, keys, values and times in milliseconds; closing it leaves the
    connection open on the next response, and at the offset after the last
    message delivered. ([empty_set_breaks] and [caught_up_unread] are about the
    responses that are left out.) *)
Theorem fetch_delivers codecs cfg offset deadline now c r throttle hw log rest :
  let bs := writeTo (fetched throttle cfg hw log) in
  log_ok log → log ≠ [] → cfg_fetchVersion cfg = 2 → c_rbuf c = with_data r (bs ++ rest) → 17 ≤ rd_bufsize r →
  len bs < 2 ^ 31 → is_int32 throttle → wf_string (cfg_topic cfg) → is_int32 (cfg_partition cfg) → is_int64 hw →
  hw ≠ offset → c_offset c ≤ offset →
  let '(b, c1) := openBatch cfg offset deadline now (len bs) c in
  let '(l, b', c2) := batch_drain codecs 1 (length log) now (length (log_from offset log)) b c1 in
  let '(err, _, c3) := batch_Close b' c2 in
  l = map (λ m, Done (delivered cfg m)) (log_from offset log) ∧ err = None ∧
  c_rbuf c3 = with_data r rest ∧ c_closed c3 = c_closed c ∧ c_offset c3 = offset_after offset (log_from offset log).
Proof.
  intros bs Hlog Hne Hv Hr Hb Hl Ht Htop Hp Hh Hhw Ho. subst bs. destruct log as [|msg log]; [done|].
  rewrite (openBatch_fetched cfg offset deadline now c r throttle hw msg log rest Hv Hr Hb Hl Ht Htop Hp Hh Hhw).
  match goal with |- context [batch_drain _ _ _ _ _ ?b ?c1] =>
    destruct (batch_drain_log codecs (length (msg :: log)) now cfg r rest b c1 (msg :: log))
      as (b' & c2 & rest' & E & He & Hm & Ha & Hoff & Hcl); [done|done|done|lia|done|done|done|done|] end.
  cbn [b_offset] in E, Hoff. rewrite E.
  destruct (batch_Close_set b' c2 r rest' rest Hm He Ha) as (b3 & c3 & Ec & Hr3 & Ho3 & Hc3). rewrite Ec.
  split; [done|]. split; [done|]. split; [done|]. split; [by rewrite Hc3, Hcl|]. by rewrite Ho3, Hoff.
Qed.

Definition logT : list Message := [sample 7 [1]; sample 9 [2; 2]; sample 12 [3]].

Definition fetch_cfg : connCfg := c_cfg (sample_conn []).

Definition fetch_conn : conn := sample_conn (writeTo (fetched 0 fetch_cfg 20 logT) ++ []).

(** The log has holes, as after a compaction. *)
Lemma fetch_delivers_witness :
  let '(b, c1) := openBatch fetch_cfg 8 Time.zeroTime 0 (len (writeTo (fetched 0 fetch_cfg 20 logT))) fetch_conn in
  let '(l, b', c2) := batch_drain ∅ 1 3 0 (length (log_from 8 logT)) b c1 in
  let '(err, _, c3) := batch_Close b' c2 in
  l = map (λ m, Done (delivered fetch_cfg m)) (log_from 8 logT) ∧ err = None ∧
  c_rbuf c3 = with_data (NewReader []) [] ∧ c_closed c3 = false ∧ c_offset c3 = offset_after 8 (log_from 8 logT).
Proof.
  apply (fetch_delivers ∅ fetch_cfg 8 Time.zeroTime 0 fetch_conn (NewReader []) 0 20 logT []).
  - split; [repeat constructor; by vm_compute|repeat constructor|repeat constructor].
  - done.
  - done.
  - reflexivity.
  - done.
  - by vm_compute.
  - by vm_compute.
  - by vm_compute.
  - by vm_compute.
  - by vm_compute.
  - done.
  - done.
Defined.

(** Finding empty_set_breaks: a fetch response without a message, though the high water mark is not
    the offset that was asked for, is taken for a failure of the connection: the
    batch has the error [ErrUnexpectedEOF] while the deadline has not passed, and
    closing it closes the connection. A broker answers so to a reader behind the
    high water mark when the first message does not fit the bytes asked for. *)
Lemma empty_set_breaks cfg offset deadline now c r throttle hw rest :
  let bs := writeTo (fetched throttle cfg hw []) in
  cfg_fetchVersion cfg = 2 → c_rbuf c = with_data r (bs ++ rest) → 16 ≤ rd_bufsize r → len bs < 2 ^ 31 →
  is_int32 throttle → wf_string (cfg_topic cfg) → is_int32 (cfg_partition cfg) → is_int64 hw → hw ≠ offset →
  Time.IsZero deadline = true ∨ now ≤ deadline →
  let '(b, c1) := openBatch cfg offset deadline now (len bs) c in
  let '(err, _, c2) := batch_Close b c1 in
  err = Some ErrUnexpectedEOF ∧ c_closed c2 = true ∧ c_rbuf c2 = with_data r rest.
Proof.
  intros bs Hv Hr Hb Hl Ht Htop Hp Hh Hne Hd. subst bs. unfold openBatch. rewrite Hr, fetched_header by (done || lia).
  rewrite (proj2 (Z.eqb_neq _ _) Hne). change (len (enc_set [])) with 0. unfold newMessageSetReader.
  change (8 + 4 + 4 + 1 >? 0) with true. cbn match.
  assert (shortRead_timeout deadline now errShortRead = EOF) as ->.
  { unfold shortRead_timeout, checkTimeoutErr. rewrite decide_True, Z.gtb_ltb by done. destruct Hd as [->|Hle]; [done|].
    rewrite (proj2 (Z.ltb_ge _ _)) by lia. by destruct (Time.IsZero deadline). }
  by vm_compute.
Qed.

(** Finding caught_up_unread: a fetch response whose high water mark is the offset that was asked for
    is taken to hold no message: the messages that it does hold are not read by
    the batch, and closing it leaves them in front of the next response. *)
Lemma caught_up_unread cfg deadline now c r throttle hw log rest :
  let bs := writeTo (fetched throttle cfg hw log) in
  cfg_fetchVersion cfg = 2 → c_rbuf c = with_data r (bs ++ rest) → 16 ≤ rd_bufsize r → len bs < 2 ^ 31 →
  is_int32 throttle → wf_string (cfg_topic cfg) → is_int32 (cfg_partition cfg) → is_int64 hw →
  let '(b, c1) := openBatch cfg hw deadline now (len bs) c in
  let '(err, _, c2) := batch_Close b c1 in
  err = None ∧ c_closed c2 = c_closed c ∧ c_rbuf c2 = with_data r (enc_set log ++ rest).
Proof.
  intros bs Hv Hr Hb Hl Ht Htop Hp Hh. subst bs. unfold openBatch. rewrite Hr, fetched_header by (done || lia).
  by rewrite Z.eqb_refl.
Qed.
