(* ===== verification/FetchRecords.v ===== *)
(** * From the record batches of a broker to the messages of a batch

    A fetch response of version 5 with record batches of format 2, compressed or
    not, of which the last may be cut: what the batch delivers, how it ends, and
    where the connection is when it is closed. *)

From S2P Require Import Prelude Errors Time Bufio Read Write VarInt Wire.
From S2P Require Import Protocol Messages DataRequests FetchResponse MessageSet MessageSetAlign MessageSetRead RecordBatchRead.
From S2P Require Import ReadShort RecordLog Conn ConnOps Batch ConnProps FetchProps.

(** ** The response *)

Definition enc_aborted (l : option (list (Z * Z))) : list byte :=
  match l with
  | None => writeInt32 (-1)
  | Some l => writeInt32 (len l) ++ concat (map (λ p, writeInt64 p.1 ++ writeInt64 p.2) l)
  end.

Definition aborted_wf (l : option (list (Z * Z))) : Prop :=
  match l with None => True | Some l => len l < 2 ^ 31 ∧ Forall (λ p, is_int64 p.1 ∧ is_int64 p.2) l end.

(** What the broker says of the partition. *)
Record partition_info : Type := {
  pi_throttle : Z; pi_hw : Z; pi_lastStable : Z; pi_logStart : Z; pi_aborted : option (list (Z * Z));
}.

Definition info_wf (i : partition_info) : Prop :=
  is_int32 (pi_throttle i) ∧ is_int64 (pi_hw i) ∧ is_int64 (pi_lastStable i) ∧ is_int64 (pi_logStart i) ∧
  aborted_wf (pi_aborted i).

Definition fetchHeaderV5_bytes (i : partition_info) (topic : gostring) (partition size : Z) : list byte :=
  writeInt32 (pi_throttle i) ++ writeInt32 1 ++ writeString topic ++ writeInt32 1 ++
  (writeInt32 partition ++ writeInt16 0 ++ writeInt64 (pi_hw i) ++ writeInt64 (pi_lastStable i) ++
   writeInt64 (pi_logStart i)) ++ enc_aborted (pi_aborted i) ++ writeInt32 size.

Lemma reads_aborted l : aborted_wf l → reads readAbortedTransactions (enc_aborted l) l.
Proof.
  unfold readAbortedTransactions, enc_aborted, readArrayLen. destruct l as [l|].
  - intros [Hl Hf]. pose proof (len_nonneg l).
    eapply reads_bind; [apply reads_readInt32; unfold inS; lia|].
    rewrite (proj2 (Z.eqb_neq _ _)), (proj2 (Z.ltb_ge _ 0)) by lia. unfold len at 1. rewrite Nat2Z.id.
    eapply reads_bind_nil; [|apply reads_ret]. rewrite <- (map_id l) at 3. apply reads_repeatM.
    eapply Forall_impl; [exact Hf|]. intros [p o] [Hp Ho]. unfold read_AbortedTransaction. cbn [fst snd] in *. solve_reads.
  - intros _. eapply reads_bind_nil; [by apply reads_readInt32; vm_compute|]. apply reads_ret.
Qed.

Lemma reads_fetchPartitionV5 partition i :
  is_int32 partition → info_wf i →
  reads read_fetchPartitionV5
    (writeInt32 partition ++ writeInt16 0 ++ writeInt64 (pi_hw i) ++ writeInt64 (pi_lastStable i) ++ writeInt64 (pi_logStart i))
    {| fp5_Partition := partition; fp5_ErrorCode := 0; fp5_HighwaterMarkOffset := pi_hw i;
       fp5_LastStableOffset := pi_lastStable i; fp5_LogStartOffset := pi_logStart i |}.
Proof.
  intros Hp (_ & ? & ? & ? & _). unfold read_fetchPartitionV5. assert (is_int16 0) by (by vm_compute). solve_reads.
Qed.

Lemma readFetchResponseHeaderV5_run r i topic partition size tail :
  16 ≤ rd_bufsize r → info_wf i → wf_string topic → is_int32 partition → is_int32 size → 0 ≤ size →
  let hdr := fetchHeaderV5_bytes i topic partition size in
  readFetchResponseHeaderV5 (with_data r (hdr ++ tail)) (len hdr + size) =
  (inr (pi_throttle i, pi_hw i), (size, with_data r tail)).
Proof.
  intros Hb Hi Ht Hp Hs H0. cbn zeta. pose proof (len_nonneg topic). pose proof (len_nonneg (enc_aborted (pi_aborted i))).
  destruct Hi as (Hth & Hi). unfold fetchHeaderV5_bytes, readFetchResponseHeaderV5. do 4 step_reads.
  pose proof (reads_fetchPartitionV5 partition i Hp (conj Hth Hi)) as Hr.
  match type of Hr with reads _ ?bs _ =>
    match goal with |- _ (with_data r ?d) _ = _ =>
      replace d with (bs ++ enc_aborted (pi_aborted i) ++ writeInt32 size ++ tail) by (by rewrite <- !app_assoc)
    end end.
  rewrite (reads_step _ _ _ _ _ _ _ Hr) by (first [done | (autorewrite with len; lia)]).
  destruct Hi as (_ & _ & _ & Ha).
  rewrite (reads_step _ _ _ _ _ _ _ (reads_aborted _ Ha)) by (first [done | (autorewrite with len; lia)]).
  cbn [fp5_ErrorCode Z.eqb negb]. step_reads. unfold mbind at 1, rd_bind at 1, remaining.
  match goal with |- context [negb (?k =? size)] => replace k with size by (autorewrite with len; lia) end.
  rewrite Z.eqb_refl. done.
Qed.

(** ** The calls *)

Definition delivered_record (cfg : connCfg) (p : messageSetHeaderV2 * record) : Message :=
  {| msg_Topic := cfg_topic cfg; msg_Partition := cfg_partition cfg; msg_Offset := offset_of p;
     msg_Key := bnorm (re_key p.2); msg_Value := bnorm (re_value p.2); msg_Headers := map canonHeader (re_headers p.2);
     msg_Time := Time.timestampToTime (int64 (h2_firstTimestamp p.1 + re_time p.2)) |}.

Definition wanted (offset : Z) (todo : list (messageSetHeaderV2 * record)) : list (messageSetHeaderV2 * record) :=
  List.filter (λ p, offset <=? offset_of p) todo.

(** The offset after the last record that was read. *)
Definition read_to (offset : Z) (todo : list (messageSetHeaderV2 * record)) : Z :=
  default offset ((λ p, int64 (offset_of p + 1)) <$> last todo).

Lemma read_to_cons offset p todo : read_to offset (p :: todo) = read_to (int64 (offset_of p + 1)) todo.
Proof. unfold read_to. rewrite last_cons. by destruct (last todo). Qed.

Section calls.
Context (codecs : codec_registry) (fuel : nat) (now : Z) (cfg : connCfg) (deadline : Z).
Context (r : bufreader) (Hbuf : 16 ≤ rd_bufsize r) (set tail cut : list byte).
Context (last : list (messageSetHeaderV2 * record)) (Hcut : cut_batch codecs last cut).

(** A batch that has [todo] to read, on its connection. *)
Record open_at (todo : list (messageSetHeaderV2 * record)) (closed : bool) (offset : Z) (b : batch) (c : conn) : Prop := {
  oa_err : b_err b = None;
  oa_attached : b_attached b = true;
  oa_topic : b_topic b = cfg_topic cfg;
  oa_partition : b_partition b = cfg_partition cfg;
  oa_deadline : b_deadline b = deadline;
  oa_msgs : ∃ m, b_msgs b = Some (SetV2 m) ∧ records_left codecs r tail cut last todo m ∧
            aligned (with_data r (set ++ tail)) (len set) (v2_stack m) ∧ rs_popped (v2_stack m) = false;
  oa_closed : c_closed c = closed;
  oa_offset : c_offset c = offset;
}.

Lemma open_at_read p todo closed offset b c :
  open_at (p :: todo) closed offset b c →
  ∃ b' c', batch_readMessage codecs readNewBytes readNewBytes fuel now b c = (Done (result_of p), b', c') ∧
    b_offset b' = int64 (offset_of p + 1) ∧ open_at todo closed offset b' c'.
Proof.
  intros [He Ha Ht Hp Hd (m & Hm & Hr & Hal & Hpop) Hc Ho]. unfold batch_readMessage. rewrite He, Hm. cbn [readMessage].
  destruct (reading_next _ _ Hbuf _ _ _ Hcut _ _ _ Hr) as (m' & E & Hr').
  destruct (V2_readMessage_aligned _ _ _ _ _ _ _ _ Hal Hpop E) as [Hal' Hpop']. rewrite E.
  do 2 eexists. split; [reflexivity|]. split; [done|]. constructor; try done. by exists m'.
Qed.

Lemma V2_discard_done m r' :
  rs_inner (v2_stack m) = [] → fr_remain (rs_bottom (v2_stack m)) = 0 → fr_reader (rs_bottom (v2_stack m)) = r' →
  fr_reader (rs_bottom (v2_stack (V2_discard m).2)) = r'.
Proof.
  destruct m as [[inner [rd n base] popped] k h]. cbn. intros -> -> <-. unfold V2_discard, on_top, on_frame, discardN, Discard.
  cbn. rewrite (proj2 (Z.leb_le 0 _)) by apply len_nonneg. cbn. by destruct rd.
Qed.

(** The end of the response, by the error of the deadline or [EOF]. *)
Lemma open_at_end closed offset b c :
  open_at [] closed offset b c →
  ∃ b' c' m, batch_readMessage codecs readNewBytes readNewBytes fuel now b c = (Failed (checkTimeoutErr deadline now), b', c') ∧
    b_offset b' = b_offset b ∧ b_attached b' = true ∧ b_err b' = Some (checkTimeoutErr deadline now) ∧
    b_msgs b' = Some (SetV2 m) ∧ rs_inner (v2_stack m) = [] ∧ fr_remain (rs_bottom (v2_stack m)) = 0 ∧
    fr_reader (rs_bottom (v2_stack m)) = with_data r tail ∧ c_closed c' = closed ∧ c_offset c' = offset.
Proof.
  intros [He Ha Ht Hp Hd (m & Hm & Hr & Hal & Hpop) Hc Ho]. unfold batch_readMessage. rewrite He, Hm. cbn [readMessage].
  destruct (reading_ends _ _ Hbuf _ _ _ Hcut _ Hr) as (m' & E & Hin).
  destruct (V2_readMessage_aligned _ _ _ _ _ _ _ _ Hal Hpop E) as [Hal' Hpop']. rewrite E, decide_True by done.
  pose proof (len_nonneg set). pose proof (len_nonneg tail).
  destruct (V2_discard_end (with_data r (set ++ tail)) (len set) m' ltac:(cbn [rd_data with_data]; rewrite len_app; lia) Hal' Hin) as (H1 & H2 & H3).
  cbn [rd_data with_data] in H2. rewrite zdrop_app, with_data_with_data in H2 by done.
  assert (rs_inner (v2_stack (V2_discard m').2) = []) as Hin'.
  { unfold V2_discard, on_top, set_top, top. rewrite Hin. by destruct (on_frame _ _). }
  cbn [set_discard]. destruct (V2_discard m') as [err m2] eqn:Ed. cbn [fst snd] in *. subst err. cbn [set_remaining].
  rewrite H3, Hd. cbn [Z.eqb]. do 3 eexists. split; [reflexivity|].
  split; [done|]. split; [done|]. split; [done|]. split; [done|]. split; [done|].
  split; [|split; [done|done]]. unfold V2_remaining, top in H3. by rewrite Hin' in H3.
Qed.

(** A call of [ReadMessage] returns the next record that is wanted. *)
Lemma open_at_loop p ps todo closed offset b c loops :
  open_at todo closed offset b c → wanted offset todo = p :: ps → (length todo ≤ loops)%nat →
  ∃ b' c' todo', batch_ReadMessage_loop codecs loops fuel now b c = (Done (result_of p), b', c') ∧
    open_at todo' closed offset b' c' ∧ wanted offset todo' = ps ∧ (length todo' ≤ length todo)%nat ∧
    read_to (b_offset b') todo' = read_to (b_offset b) todo.
Proof.
  revert b c todo. induction loops as [|loops IH]; intros b c todo Hop Hw Hl; (destruct todo as [|q todo]; [done|]);
    cbn [length] in Hl; [lia|].
  destruct (open_at_read _ _ _ _ _ _ Hop) as (b1 & c1 & E & Hb1 & Hop1). cbn [batch_ReadMessage_loop]. rewrite E.
  rewrite (oa_attached _ _ _ _ _ Hop1), (oa_offset _ _ _ _ _ Hop1). cbn [mr_offset result_of andb].
  cbn [wanted List.filter] in Hw. fold (wanted offset todo) in Hw. rewrite Z.leb_antisym in Hw.
  destruct (offset_of q <? offset); cbn [negb] in Hw.
  - destruct (IH b1 c1 todo Hop1 Hw ltac:(lia)) as (b' & c' & todo' & E' & Hop' & Hw' & Hl' & Hrt).
    exists b', c', todo'. rewrite E', Hrt, Hb1, read_to_cons. cbn [length].
    split; [done|]. split; [done|]. split; [done|]. split; [lia|done].
  - injection Hw as <- <-. exists b1, c1, todo. rewrite Hb1, read_to_cons. cbn [length].
    split; [done|]. split; [done|]. split; [done|]. split; [lia|done].
Qed.

Lemma open_at_loop_end todo closed offset b c loops :
  open_at todo closed offset b c → wanted offset todo = [] → (length todo < loops)%nat →
  ∃ b' c' m, batch_ReadMessage_loop codecs loops fuel now b c = (Failed (checkTimeoutErr deadline now), b', c') ∧
    b_offset b' = read_to (b_offset b) todo ∧ b_attached b' = true ∧ b_err b' = Some (checkTimeoutErr deadline now) ∧
    b_msgs b' = Some (SetV2 m) ∧ rs_inner (v2_stack m) = [] ∧ fr_remain (rs_bottom (v2_stack m)) = 0 ∧
    fr_reader (rs_bottom (v2_stack m)) = with_data r tail ∧ c_closed c' = closed ∧ c_offset c' = offset.
Proof.
  revert b c todo. induction loops as [|loops IH]; intros b c todo Hop Hw Hl; [lia|].
  cbn [batch_ReadMessage_loop]. destruct todo as [|q todo].
  - destruct (open_at_end _ _ _ _ Hop) as (b' & c' & m & E & Hrest). exists b', c', m. by rewrite E.
  - destruct (open_at_read _ _ _ _ _ _ Hop) as (b1 & c1 & E & Hb1 & Hop1). rewrite E.
    rewrite (oa_attached _ _ _ _ _ Hop1), (oa_offset _ _ _ _ _ Hop1). cbn [mr_offset result_of andb].
    cbn [wanted List.filter] in Hw. fold (wanted offset todo) in Hw. rewrite Z.leb_antisym in Hw.
    destruct (offset_of q <? offset); cbn [negb] in Hw; [|done]. cbn [length] in Hl.
    rewrite read_to_cons, <- Hb1. apply IH; [done|done|lia].
Qed.

(** The calls deliver what is wanted and then end. *)
Lemma open_at_drain todo closed offset b c loops :
  open_at todo closed offset b c → (length todo < loops)%nat →
  ∃ b' c' m, batch_drain codecs loops fuel now (S (length (wanted offset todo))) b c =
    (map (λ p, Done (delivered_record cfg p)) (wanted offset todo) ++ [Failed (checkTimeoutErr deadline now)], b', c') ∧
    b_offset b' = read_to (b_offset b) todo ∧ b_attached b' = true ∧ b_err b' = Some (checkTimeoutErr deadline now) ∧
    b_msgs b' = Some (SetV2 m) ∧ rs_inner (v2_stack m) = [] ∧ fr_remain (rs_bottom (v2_stack m)) = 0 ∧
    fr_reader (rs_bottom (v2_stack m)) = with_data r tail ∧ c_closed c' = closed.
Proof.
  remember (wanted offset todo) as ps eqn:Ew. symmetry in Ew. revert todo b c Ew.
  induction ps as [|p ps IH]; intros todo b c Ew Hop Hl.
  - destruct (open_at_loop_end _ _ _ _ _ _ Hop Ew Hl) as (b' & c' & m & E & H1 & H2 & H3 & H4 & H5 & H6 & H7 & H8 & _).
    exists b', c', m. cbn [length batch_drain map app]. unfold batch_ReadMessage. rewrite E. done.
  - destruct (open_at_loop _ _ _ _ _ _ _ loops Hop Ew ltac:(lia)) as (b1 & c1 & todo' & E & Hop1 & Hw1 & Hl1 & Hrt).
    assert (batch_ReadMessage codecs loops fuel now b c = (Done (delivered_record cfg p), b1, c1)) as E1.
    { unfold batch_ReadMessage. rewrite E, (oa_topic _ _ _ _ _ Hop1), (oa_partition _ _ _ _ _ Hop1). done. }
    destruct (IH todo' b1 c1 Hw1 Hop1 ltac:(lia)) as (b' & c' & m & E' & H1 & Hrest).
    exists b', c', m. rewrite H1, Hrt. split; [|by split]. cbn [length map app].
    change (batch_drain codecs loops fuel now (S (S (length ps))) b c) with
      (let '(res, b, c) := batch_ReadMessage codecs loops fuel now b c in
       let '(l, b, c) := batch_drain codecs loops fuel now (S (length ps)) b c in (res :: l, b, c)).
    by rewrite E1, E'.
Qed.
End calls.

(** ** From the response to the closed batch *)

Lemma newMessageSetReader_v2 r b bs cut tail :
  17 ≤ rd_bufsize r → header_wf (bt_header b) →
  newMessageSetReader (with_data r (rest cut (b :: bs) ++ tail)) (len (rest cut (b :: bs))) =
  inr (SetV2 {| v2_stack := flat_stack r (rest cut (b :: bs) ++ tail) (len (rest cut (b :: bs))); v2_messageCount := 0;
                v2_header := zeroHeaderV2 |}).
Proof.
  intros Hb Hh. unfold flat_stack.
  assert (∃ pre post, rest cut (b :: bs) = pre ++ writeInt8 2 ++ post ∧ len pre = 16) as (pre & post & E & Hp).
  { assert (h2_magic (bt_header b) = 2) as Em by apply Hh. rewrite rest_cons. unfold header_bytes. rewrite Em.
    eexists (writeInt64 _ ++ writeInt32 _ ++ writeInt32 _), _. rewrite <- !app_assoc. split; [reflexivity|].
    by autorewrite with len. }
  rewrite E. by rewrite newMessageSetReader_version.
Qed.

Section response.
Context (codecs : codec_registry) (fuel : nat) (now : Z) (cfg : connCfg) (offset deadline : Z) (i : partition_info).
Context (r : bufreader) (batches : list rbatch) (last : list (messageSetHeaderV2 * record)) (cut tail : list byte).

Definition record_set : list byte := rest cut batches.

Definition record_response : list byte :=
  fetchHeaderV5_bytes i (cfg_topic cfg) (cfg_partition cfg) (len record_set) ++ record_set.

Definition log_records : list (messageSetHeaderV2 * record) := flatten batches ++ last.

(** The response answers a fetch of version 5 of this partition, and the
    connection is in front of it. *)
Record responds (c : conn) : Prop := {
  rp_some : batches ≠ [];
  rp_batches : Forall (batch_wf codecs (rd_bufsize r)) batches;
  rp_cut : cut_batch codecs last cut;
  rp_version : cfg_fetchVersion cfg = Api.v5;
  rp_data : c_rbuf c = with_data r (record_response ++ tail);
  rp_buf : 17 ≤ rd_bufsize r;
  rp_len : len record_response < 2 ^ 31;
  rp_info : info_wf i;
  rp_topic : wf_string (cfg_topic cfg);
  rp_partition : is_int32 (cfg_partition cfg);
  rp_hw : pi_hw i ≠ offset;
  rp_deadline : Time.IsZero deadline = true ∨ now ≤ deadline;
}.

Lemma openBatch_records c :
  responds c →
  ∃ b c1, openBatch cfg offset deadline now (len record_response) c = (b, c1) ∧ b_offset b = offset ∧
    open_at codecs cfg deadline r record_set tail cut last log_records (c_closed c) (c_offset c) b c1.
Proof.
  intros []. destruct batches as [|b bs] eqn:Eb; [done|]. rewrite <- Eb in *.
  pose proof (len_nonneg record_set). unfold record_response in *. rewrite len_app in rp_len0.
  pose proof (len_nonneg (fetchHeaderV5_bytes i (cfg_topic cfg) (cfg_partition cfg) (len record_set))).
  unfold openBatch, readFetchResponseHeader. rewrite rp_version0, Z.eqb_refl, rp_data0, <- app_assoc, len_app.
  rewrite readFetchResponseHeaderV5_run by (done || lia || (unfold inS; lia)).
  rewrite (proj2 (Z.eqb_neq _ _) rp_hw0).
  assert (newMessageSetReader (with_data r (record_set ++ tail)) (len record_set) =
    inr (SetV2 {| v2_stack := flat_stack r (record_set ++ tail) (len record_set); v2_messageCount := 0; v2_header := zeroHeaderV2 |})) as ->.
  { unfold record_set. rewrite Eb in *. apply newMessageSetReader_v2; [done|]. by apply Forall_cons_1 in rp_batches0 as [[] _]. }
  do 2 eexists. split; [reflexivity|]. split; [done|]. constructor; try done. eexists. split; [reflexivity|].
  split; [apply (in_plain codecs r tail cut last zeroHeaderV2 [] batches); done|].
  split; [|done]. split; [|done]. apply frame_aligned_init.
Qed.

Lemma records_run c :
  responds c →
  ∃ b c1 b' c2 b3 c3, openBatch cfg offset deadline now (len record_response) c = (b, c1) ∧
    batch_drain codecs (S (length log_records)) fuel now (S (length (wanted (c_offset c) log_records))) b c1 =
      (map (λ p, Done (delivered_record cfg p)) (wanted (c_offset c) log_records) ++ [Failed EOF], b', c2) ∧
    batch_Close b' c2 = (None, b3, c3) ∧ c_rbuf c3 = with_data r tail ∧ c_closed c3 = c_closed c ∧
    c_offset c3 = read_to offset log_records.
Proof.
  intros Hr. destruct (openBatch_records c Hr) as (b & c1 & Eo & Hbo & Hop). destruct Hr.
  assert (checkTimeoutErr deadline now = EOF) as Eeof.
  { unfold checkTimeoutErr. rewrite Z.gtb_ltb. destruct rp_deadline0 as [->|Hle]; [done|].
    rewrite (proj2 (Z.ltb_ge _ _)) by lia. by destruct (Time.IsZero deadline). }
  destruct (open_at_drain codecs fuel now cfg deadline r ltac:(lia) record_set tail cut last rp_cut0 _ _ _ _ _
    (S (length log_records)) Hop ltac:(lia)) as (b' & c2 & m & Ed & Hb' & Ha & He & Hm & Hin & Hre & Hrd & Hcl).
  rewrite Eeof in Ed, He.
  assert (∃ b3 c3, batch_Close b' c2 = (None, b3, c3) ∧ c_rbuf c3 = with_data r tail ∧ c_closed c3 = c_closed c ∧
            c_offset c3 = b_offset b') as (b3 & c3 & Ec & H1 & H2 & H3).
  { unfold batch_Close. rewrite Hm. cbn [set_discard]. pose proof (V2_discard_done m _ Hin Hre Hrd) as Hd.
    destruct (V2_discard m) as [err m2]. cbn [snd] in *. cbn [set_msgs b_err b_attached]. rewrite He, Ha, decide_True by done.
    do 2 eexists. split; [reflexivity|]. cbn [c_rbuf share bottom_reader set_rbuf set_offset c_closed c_offset b_offset set_msgs].
    split; [exact Hd|]. split; [exact Hcl|done]. }
  exists b, c1, b', c2, b3, c3. rewrite Eo, Ed, Ec, H3, Hb', Hbo. done.
Qed.
End response.

(** C2 fetch_records: a fetch response of version 5, with record batches of any offsets
    and times (deltas of at most 63 bits), at least one of them whole, compressed
    or not, then one cut anywhere, is read record by record, if every batch has a record
    ([empty_batch_misread]), the payload of a compressed batch fits the buffer of
    the connection ([v2_compressed_limit]), the high water mark is not the offset
    that was asked for and the deadline has not passed: the batch delivers every
    whole record at or after the offset of the connection, once and in order,
    with its offset, key, value, headers and time, then [EOF]; closing it leaves
    the connection open on the next response, at the offset after the last
    record. *)
Theorem fetch_records codecs fuel now cfg offset deadline i r batches last cut tail c :
  responds codecs now cfg offset deadline i r batches last cut tail c →
  let todo := log_records batches last in
  let '(b, c1) := openBatch cfg offset deadline now (len (record_response cfg i batches cut)) c in
  let '(l, b', c2) := batch_drain codecs (S (length todo)) fuel now (S (length (wanted (c_offset c) todo))) b c1 in
  let '(err, _, c3) := batch_Close b' c2 in
  l = map (λ p, Done (delivered_record cfg p)) (wanted (c_offset c) todo) ++ [Failed EOF] ∧ err = None ∧
  c_rbuf c3 = with_data r tail ∧ c_closed c3 = c_closed c ∧ c_offset c3 = read_to offset todo.
Proof.
  intros Hr. destruct (records_run codecs fuel now cfg offset deadline i r batches last cut tail c Hr)
    as (b & c1 & b' & c2 & b3 & c3 & Eo & Ed & Ec & H). cbn zeta. rewrite Eo, Ed, Ec. done.
Qed.

(** A log with holes: a batch, a compressed one, and the start of a third. *)
Definition headerT (base attributes length : Z) : messageSetHeaderV2 :=
  {| h2_firstOffset := base; h2_length := length; h2_partitionLeaderEpoch := 0; h2_magic := 2; h2_crc := 0;
     h2_batchAttributes := attributes; h2_lastOffsetDelta := 9; h2_firstTimestamp := 1500000000000;
     h2_maxTimestamp := 1500000000100; h2_producerId := -1; h2_producerEpoch := -1; h2_firstSequence := -1 |}.

Definition recordT (delta : Z) (key : bytes) : record :=
  {| re_time := 5; re_offset := delta; re_key := key; re_value := Some (map byte_of_Z [delta]); re_headers := [] |}.

Definition plainT : list record := [recordT 0 None; recordT 1 (Some (map byte_of_Z [1; 2])); recordT 4 None].

Definition packedT : list record := [recordT 0 None; recordT 2 None].

Definition batchesT : list rbatch :=
  [{| bt_header := headerT 7 0 0; bt_records := plainT; bt_payload := enc_records plainT |};
   {| bt_header := headerT 20 1 (49 + len (enc_records packedT)); bt_records := packedT; bt_payload := enc_records packedT |}].

Definition cutT : list byte := header_bytes (headerT 30 0 0) 3 ++ enc_records [recordT 0 None] ++ ztake 4 (enc_record (recordT 1 None)).

Definition infoT : partition_info :=
  {| pi_throttle := 0; pi_hw := 40; pi_lastStable := 40; pi_logStart := 0; pi_aborted := None |}.

Definition records_cfg : connCfg :=
  {| cfg_clientID := []; cfg_topic := map byte_of_Z [116]; cfg_partition := 0; cfg_fetchMaxBytes := 1000000;
     cfg_fetchMinSize := 0; cfg_apiVersions := ∅; cfg_fetchVersion := 5 |}.

Definition records_conn : conn :=
  {| c_cfg := records_cfg; c_rbuf := NewReader (record_response records_cfg infoT batchesT cutT ++ []); c_out := [];
     c_werr := None; c_closed := false; c_offset := 8; c_correlationID := 0; c_requiredAcks := -1;
     c_rdeadline := Time.zeroTime; c_wdeadline := Time.zeroTime |}.

(** [solve_records]: concrete records and headers are well formed. *)
Ltac solve_records :=
  lazymatch goal with
  | |- Forall record_wf (_ :: _) => apply Forall_cons_2; [solve_records|solve_records]
  | |- Forall _ _ => apply Forall_nil_2
  | |- record_wf _ => constructor; solve_records
  | |- _ => by vm_compute
  end.

Lemma batchesT_wf : Forall (batch_wf {[1 := MessageSetProps.store_codec]} 4096) batchesT.
Proof.
  repeat apply Forall_cons_2; [..|apply Forall_nil_2]; constructor; unfold bt_records, plainT, packedT; try solve_records.
  - by left.
  - right. split; [by vm_compute|]. split; [done|]. split; [by vm_compute|]. by exists MessageSetProps.store_codec.
Qed.

Lemma cutT_wf : cut_batch {[1 := MessageSetProps.store_codec]} [(headerT 30 0 0, recordT 0 None)] cutT.
Proof. apply (cut_plain _ (headerT 30 0 0) 3 [recordT 0 None] (recordT 1 None) 4); solve_records. Qed.

Lemma fetch_records_witness :
  let todo := log_records batchesT [(headerT 30 0 0, recordT 0 None)] in
  let '(b, c1) := openBatch records_cfg 8 Time.zeroTime 0 (len (record_response records_cfg infoT batchesT cutT)) records_conn in
  let '(l, b', c2) := batch_drain {[1 := MessageSetProps.store_codec]} (S (length todo)) 0 0 (S (length (wanted 8 todo))) b c1 in
  let '(err, _, c3) := batch_Close b' c2 in
  l = map (λ p, Done (delivered_record records_cfg p)) (wanted 8 todo) ++ [Failed EOF] ∧ err = None ∧
  c_rbuf c3 = with_data (NewReader []) [] ∧ c_closed c3 = false ∧ c_offset c3 = read_to 8 todo.
Proof.
  apply (fetch_records {[1 := MessageSetProps.store_codec]} 0 0 records_cfg 8 Time.zeroTime infoT (NewReader []) batchesT
    [(headerT 30 0 0, recordT 0 None)] cutT [] records_conn).
  constructor; [done|exact batchesT_wf|exact cutT_wf|done|done|done|..]; try (by vm_compute). by left.
Defined.

(** Finding compacted_refetched: when every record of a response is before the offset that was asked
    for, as in a batch whose last records were compacted away, nothing is
    delivered and the connection does not get beyond that offset: the same
    batch is fetched again. *)
Lemma compacted_refetched codecs fuel now cfg deadline i r batches last cut tail c :
  responds codecs now cfg (c_offset c) deadline i r batches last cut tail c → is_int64 (c_offset c) →
  Forall (λ p, offset_of p < c_offset c) (log_records batches last) →
  ∃ b c1 b' c2 b3 c3, openBatch cfg (c_offset c) deadline now (len (record_response cfg i batches cut)) c = (b, c1) ∧
    batch_drain codecs (S (length (log_records batches last))) fuel now 1 b c1 = ([Failed EOF], b', c2) ∧
    batch_Close b' c2 = (None, b3, c3) ∧ c_offset c3 ≤ c_offset c.
Proof.
  intros Hr Ho Hf. destruct (records_run codecs fuel now cfg _ deadline i r batches last cut tail c Hr)
    as (b & c1 & b' & c2 & b3 & c3 & Eo & Ed & Ec & _ & _ & Hoff).
  assert (wanted (c_offset c) (log_records batches last) = []) as Ew.
  { clear -Hf. induction Hf as [|p l Hp _ IH]; [done|]. cbn [wanted List.filter]. by rewrite (proj2 (Z.leb_gt _ _) Hp). }
  rewrite Ew in Ed. cbn [length map app] in Ed. exists b, c1, b', c2, b3, c3. rewrite Eo, Ed, Ec, Hoff. split; [done|]. split; [done|]. split; [done|].
  unfold read_to. destruct (list.last (log_records batches last)) as [p|] eqn:El; [|done]. cbn [fmap option_fmap option_map default].
  apply last_Some_elem_of in El. rewrite Forall_forall in Hf. apply Hf in El.
  assert (is_int64 (offset_of p)) as Hp by (apply wrapS_range; lia). rewrite wrapS_id; unfold inS in *; cbn; lia.
Qed.

(** Finding empty_batch_misread: a batch without records, which compaction leaves for its producer,
    makes the reader take the next batch for a record: with a first offset below
    256 it starts with seven zeros, which read as a message without key and value
    at the offset of the empty batch. *)
Lemma empty_batch_misread codecs h0 r h d sz :
  16 ≤ rd_bufsize r → header_wf h → compression h = 0 → 68 ≤ sz →
  ∃ s, V2_readMessage codecs readNewBytes readNewBytes
    {| v2_stack := flat_stack r (header_bytes h 0 ++ replicate 7 x00 ++ d) sz; v2_messageCount := 0; v2_header := h0 |} =
  (Done (MsgResult (int64 (h2_firstOffset h + 0)) (int64 (h2_firstTimestamp h + 0)) [] None None),
   {| v2_stack := s; v2_messageCount := -1; v2_header := h |}).
Proof.
  intros Hb Hh Hc Hs. unfold V2_readMessage. cbn [v2_messageCount Z.eqb].
  rewrite nextBatch_header by (done || lia). unfold opened. rewrite Hc. cbn [Z.eqb negb v2_stack].
  assert (reads (readRecord readNewBytes readNewBytes) (replicate 7 x00) (0, 0, [], None, None)) as Hr.
  { change (replicate 7 x00) with (vi 0 ++ writeInt8 0 ++ vi 0 ++ vi 0 ++ enc_nullable (Some []) ++ enc_nullable (Some []) ++ vi 0).
    assert (in62 0) by (by vm_compute). unfold readRecord.
    eapply reads_bind; [by apply reads_vi|]. eapply reads_bind; [by apply reads_readInt8; vm_compute|].
    eapply reads_bind; [by apply reads_vi|]. eapply reads_bind; [by apply reads_vi|].
    apply reads_nullable; [done|]. apply reads_nullable; [done|].
    eapply reads_bind_nil; [by apply reads_vi|]. apply reads_ret. }
  rewrite (on_top_reads _ _ _ (flat_stack r (replicate 7 x00 ++ d) (sz - 61)) r (sz - 61) 0 d Hr eq_refl Hb)
    by (change (len (replicate 7 x00)) with 7; lia).
  by eexists.
Qed.
